(** * The container init bootstrap (libcontainer/nsenter/nsexec.c)

    A shallow embedding of the three-stage bootstrap of nsexec.c and the
    properties its specification states about it.

    The bootstrap is C code that talks to the kernel.  Every call it makes
    to the kernel or to libc is an entry of the process's [trace]; what the
    call answers is read from an [oracle], about which nothing is assumed
    unless a statement says so.  The three stages are three processes; each
    has a trace of its own. *)

From Stdlib Require Import Ascii String DecimalString ZArith List Lia Bool.
Import ListNotations.
Local Open Scope Z_scope.

(** ** Bytes and C strings *)

(** A [char *] is modelled by the bytes from the place it points at to the
    end of the object it points into.  The C string it designates stops at
    the first NUL ([cstr]).  Reading past the end of the object reads NUL. *)
Definition bytes := list ascii.

Definition str (s : string) : bytes := list_ascii_of_string s.

Definition NUL : ascii := Ascii.zero.

Definition is_nul (c : ascii) : bool := Ascii.eqb c NUL.

Definition peek (p : bytes) : ascii := hd NUL p.

Fixpoint cstr (p : bytes) : bytes :=
  match p with
  | [] => []
  | c :: p' => if is_nul c then [] else c :: cstr p'
  end.

Definition strlen (p : bytes) : Z := Z.of_nat (length (cstr p)).

Definition bytes_eqb (a b : bytes) : bool :=
  if list_eq_dec ascii_dec a b then true else false.

(** [strcmp(a, b) == 0] *)
Definition streq (a b : bytes) : bool := bytes_eqb (cstr a) (cstr b).

Definition mem_char (c : ascii) (set : bytes) : bool :=
  existsb (Ascii.eqb c) set.

(** [strspn(p, accept)]: the bytes of [p] after its longest prefix made of
    bytes of [accept]. *)
Fixpoint skip_span (accept : bytes) (p : bytes) : bytes :=
  match p with
  | [] => []
  | c :: p' =>
      if is_nul c then p
      else if mem_char c accept then skip_span accept p' else p
  end.

(** [strcspn(p, reject)]: the prefix of [p] before the first byte of
    [reject] or the NUL, and the bytes from there on. *)
Fixpoint break_span (reject : bytes) (p : bytes) : bytes * bytes :=
  match p with
  | [] => ([], [])
  | c :: p' =>
      if is_nul c then ([], p)
      else if mem_char c reject then ([], p)
      else let (tok, rest) := break_span reject p' in (c :: tok, rest)
  end.

(** [strpbrk(p, accept)]: [None] for NULL; otherwise the bytes before the
    first byte of [accept] and the bytes after it. *)
Definition strpbrk (p : bytes) (accept : bytes) : option (bytes * bytes) :=
  let (tok, rest) := break_span accept p in
  match rest with
  | [] => None
  | c :: rest' => if is_nul c then None else Some (tok, rest')
  end.

(** [strtok_r(s, delim, &saveptr)] as glibc does it.  The result is the
    token (the string the returned pointer designates once the NUL is
    written over the delimiter) and the new [saveptr]; [None] is NULL. *)
Definition strtok_r (s : bytes) (delim : bytes) : option bytes * bytes :=
  if is_nul (peek s) then (None, s)
  else
    let s1 := skip_span delim s in
    if is_nul (peek s1) then (None, s1)
    else
      let (tok, rest) := break_span delim s1 in
      if is_nul (peek rest) then (Some tok, rest)
      else (Some tok, tl rest).

(** [strstr(p, ":")], split as [*path++ = '\0'] leaves it: the string
    before the colon and the bytes after it. *)
Definition split_colon (p : bytes) : option (bytes * bytes) :=
  strpbrk p (str ":").

(** ** Integers of the C types *)

Definition u64 (z : Z) : Z := z mod 2 ^ 64.
Definition u32 (z : Z) : Z := z mod 2 ^ 32.
Definition u8 (z : Z) : Z := z mod 2 ^ 8.

(** Conversion to [int]. *)
Definition sint32 (z : Z) : Z := (z + 2 ^ 31) mod 2 ^ 32 - 2 ^ 31.

Definition byte_val (c : ascii) : Z := Z.of_N (N_of_ascii c).

(** [printf("%d")] *)
Definition fmt_d (z : Z) : bytes := str (NilZero.string_of_int (Z.to_int z)).

(** Little-endian reads at a [char *] (the host is little-endian). *)
Definition byte_at (p : bytes) (i : nat) : Z := byte_val (nth i p NUL).

Definition readint8 (buf : bytes) : Z := byte_at buf 0.

Definition readint16 (buf : bytes) : Z :=
  byte_at buf 0 + 2 ^ 8 * byte_at buf 1.

Definition readint32 (buf : bytes) : Z :=
  byte_at buf 0 + 2 ^ 8 * byte_at buf 1
  + 2 ^ 16 * byte_at buf 2 + 2 ^ 24 * byte_at buf 3.

Definition le32 (z : Z) : bytes :=
  map (fun i => ascii_of_N (Z.to_N ((u32 z / 2 ^ (8 * i)) mod 2 ^ 8)))
      [0; 1; 2; 3].

(** ** Constants of the system headers *)

Definition ENOENT : Z := 2.
Definition EPERM : Z := 1.
Definition EINTR : Z := 4.

Definition O_RDONLY : Z := 0.
Definition O_RDWR : Z := 2.

Definition SIGKILL : Z := 9.

Definition PR_SET_DUMPABLE : Z := 4.

Definition MS_BIND : Z := 4096.
Definition MS_REC : Z := 16384.
Definition MS_PRIVATE : Z := 262144.

Definition NLMSG_HDRLEN : Z := 16.
Definition NLMSG_ERROR : Z := 2.
Definition NLA_HDRLEN : Z := 4.

(** [NLA_ALIGN(len)], on [size_t]. *)
Definition NLA_ALIGN (len : Z) : Z := Z.land (u64 (len + 3)) (2 ^ 64 - 4).

(** <sys/wait.h> *)
Definition WEXITSTATUS (status : Z) : Z := Z.shiftr (Z.land status 65280) 8.
Definition WIFEXITED (status : Z) : bool := Z.land status 127 =? 0.
Definition WIFSIGNALED (status : Z) : bool :=
  let t := Z.land status 127 in (0 <? t) && (t <? 127).

(** Modelled from the spec: namespace.h is not among the sources; it gives
    the [CLONE_NEW*] flags of the seven namespaces the data model names
    (user, mount, pid, net, ipc, uts, cgroup) where libc does not.  The
    values are those of clone(2). *)
Definition CLONE_NEWNS : Z := 131072.
Definition CLONE_NEWCGROUP : Z := 33554432.
Definition CLONE_NEWUTS : Z := 67108864.
Definition CLONE_NEWIPC : Z := 134217728.
Definition CLONE_NEWUSER : Z := 268435456.
Definition CLONE_NEWPID : Z := 536870912.
Definition CLONE_NEWNET : Z := 1073741824.

(** ** Constants of nsexec.c *)

(** [enum sync_t] *)
Definition SYNC_USERMAP_PLS : Z := 64.
Definition SYNC_USERMAP_ACK : Z := 65.
Definition SYNC_RECVPID_PLS : Z := 66.
Definition SYNC_RECVPID_ACK : Z := 67.
Definition SYNC_GRANDCHILD : Z := 68.
Definition SYNC_CHILD_READY : Z := 69.

Definition CREATECGROUPNS : Z := 128.

Definition JUMP_PARENT : Z := 0.
Definition JUMP_CHILD : Z := 160.
Definition JUMP_INIT : Z := 161.

Definition FATAL : bytes := str "fatal".
Definition DEBUG : bytes := str "debug".

Definition INIT_MSG : Z := 62000.
Definition CLONE_FLAGS_ATTR : Z := 27281.
Definition NS_PATHS_ATTR : Z := 27282.
Definition UIDMAP_ATTR : Z := 27283.
Definition GIDMAP_ATTR : Z := 27284.
Definition SETGROUP_ATTR : Z := 27285.
Definition OOM_SCORE_ADJ_ATTR : Z := 27286.
Definition ROOTLESS_EUID_ATTR : Z := 27287.
Definition UIDMAPPATH_ATTR : Z := 27288.
Definition GIDMAPPATH_ATTR : Z := 27289.
Definition PREP_ROOTFS_ATTR : Z := 27290.
Definition MAKE_PARENT_PRIV_ATTR : Z := 27291.
Definition ROOTFS_PROP_ATTR : Z := 27292.
Definition ROOTFS_ATTR : Z := 27293.
Definition PARENT_MOUNT_ATTR : Z := 27294.
Definition SHIFTFS_MOUNTS_ATTR : Z := 27295.

Definition MAX_ARGV : nat := 20.

(** [struct nlconfig_t].  A pointer field is [None] when NULL. *)
Record nlconfig_t := mk_nlconfig {
  data : option bytes;
  cloneflags : Z;
  oom_score_adj : option bytes;
  oom_score_adj_len : Z;
  uidmap : option bytes;
  uidmap_len : Z;
  gidmap : option bytes;
  gidmap_len : Z;
  namespaces : option bytes;
  namespaces_len : Z;
  is_setgroup : Z;
  is_rootless_euid : Z;
  uidmappath : option bytes;
  uidmappath_len : Z;
  gidmappath : option bytes;
  gidmappath_len : Z;
  prep_rootfs : Z;
  make_parent_priv : Z;
  rootfs_prop : Z;
  rootfs : option bytes;
  rootfs_len : Z;
  parent_mount : option bytes;
  parent_mount_len : Z;
  shiftfs_mounts : option bytes;
  shiftfs_mounts_len : Z
}.

(** [struct nlconfig_t config = { 0 }] *)
Definition config0 : nlconfig_t :=
  mk_nlconfig None 0 None 0 None 0 None 0 None 0 0 0 None 0 None 0 0 0 0
              None 0 None 0 None 0.

(** ** Calls, traces and the process monad *)

(** What the bootstrap asks of the kernel and of libc.  [Dprintf] is the
    one [dprintf] of [write_log_with_info]: the JSON line with the level,
    [__FUNCTION__], [__LINE__] and the message, [errnum] being the [errno]
    that a [%m] of the message prints; the 1024 bytes of [message] are not
    modelled.  [DprintfPid] is the JSON line with the two pids.  A [Write]
    holds the [count] bytes found at its buffer. *)
Inductive call :=
| Getenv (name : bytes)
| EnsureClonedBinary
| Fprintf_stderr (text : bytes)
| Open (path : bytes) (flags : Z)
| Write (fd : Z) (buf : bytes) (count : Z)
| Read (fd : Z) (count : Z)
| Close (fd : Z)
| Dprintf (fd : Z) (level func : bytes) (line : Z) (msg : bytes)
          (errnum : option Z)
| DprintfPid (fd : Z) (pid pid_first : Z)
| Malloc (size : Z)
| Realloc (size : Z)
| Free
| Fork
| Execve (path : bytes) (argv : list (option bytes))
         (envp : list (option bytes))
| Waitpid (pid : Z)
| CloneParent (jmpval : Z) (config : nlconfig_t)
| Kill (pid sig : Z)
| Prctl (option arg2 : Z)
| PrctlSetName (name : bytes)
| Socketpair
| Setns (fd nstype : Z)
| Unshare (flags : Z)
| Mount (source : bytes) (target : option bytes) (fstype : bytes)
        (mountflags : Z)
| Setresuid (ruid euid suid : Z)
| Setsid
| Setuid (uid : Z)
| Setgid (gid : Z)
| Setgroups (size : Z).

(** The answer to a call: the value returned, the [errno] a failure sets,
    the bytes a [read] or [getenv] delivers, and further integers (the
    status of [waitpid], the two descriptors of [socketpair]). *)
Record response := mk_response {
  rv : Z;
  rerrno : Z;
  rbytes : bytes;
  rvals : list Z
}.

Abbreviation event := (call * response)%type.

(** The members of a pointer-returning call fail with NULL. *)
Definition call_fails (c : call) (r : response) : bool :=
  match c with
  | Malloc _ | Realloc _ => rv r =? 0
  | Getenv _ => false
  | _ => rv r <? 0
  end.

(** A process: the world it runs in, the number of calls it has made, and
    the globals [errno], [logfd] and [syncfd]. *)
Record proc := mk_proc {
  oracle : nat -> call -> response;
  clock : nat;
  errno : Z;
  logfd : Z;
  syncfd : Z
}.

(** How a computation that does not return ends: [exit(code)], a
    successful [execve], a NULL dereference, or a loop that is still
    running when the fuel is spent. *)
Inductive stop :=
| Exited (code : Z)
| Execed
| Fault
| Timeout.

Inductive outcome (A : Type) :=
| Ret (a : A)
| Stop (s : stop).
Arguments Ret {A} a.
Arguments Stop {A} s.

(** A computation: from the state of the process to how it ends, the
    events it adds to the trace, and the state it leaves. *)
Definition M (A : Type) : Type := proc -> outcome A * list event * proc.

Definition ret {A} (a : A) : M A := fun st => (Ret a, [], st).

Definition halt {A} (s : stop) : M A := fun st => (Stop s, [], st).

Definition bind {A B} (m : M A) (k : A -> M B) : M B := fun st =>
  match m st with
  | (Ret a, evs, st') =>
      let '(o, evs', st'') := k a st' in (o, evs ++ evs', st'')
  | (Stop s, evs, st') => (Stop s, evs, st')
  end.

Declare Scope proc_scope.
Delimit Scope proc_scope with proc.
Notation "x <- m ;; k" := (bind m (fun x => k))
  (at level 61, m at next level, right associativity) : proc_scope.
Notation "m ;; k" := (bind m (fun _ => k))
  (at level 61, right associativity) : proc_scope.
Local Open Scope proc_scope.

(** One call: the oracle answers, the event is recorded, a failure sets
    [errno]. *)
Definition sys (c : call) : M response := fun st =>
  let r := oracle st (clock st) c in
  (Ret r, [(c, r)],
   mk_proc (oracle st) (S (clock st))
           (if call_fails c r then rerrno r else errno st)
           (logfd st) (syncfd st)).

Definition get_errno : M Z := fun st => (Ret (errno st), [], st).
Definition get_logfd : M Z := fun st => (Ret (logfd st), [], st).
Definition get_syncfd : M Z := fun st => (Ret (syncfd st), [], st).

Definition set_logfd (fd : Z) : M unit := fun st =>
  (Ret tt, [], mk_proc (oracle st) (clock st) (errno st) fd (syncfd st)).

Definition set_syncfd (fd : Z) : M unit := fun st =>
  (Ret tt, [], mk_proc (oracle st) (clock st) (errno st) (logfd st) fd).

(** How [m] ends from [st], what it adds to the trace, and the state it
    leaves. *)
Definition result {A} (m : M A) (st : proc) : outcome A := fst (fst (m st)).
Definition emitted {A} (m : M A) (st : proc) : list event := snd (fst (m st)).
Definition after {A} (m : M A) (st : proc) : proc := snd (m st).

Definition exit {A} (code : Z) : M A := halt (Exited code).

(** ** Logging *)

(** [write_log_with_info]; the level is never NULL. *)
Definition write_log_with_info (level func : bytes) (line : Z)
    (msg : bytes) (errnum : option Z) : M unit :=
  fd <- get_logfd ;;
  if fd <? 0 then ret tt
  else sys (Dprintf fd level func line msg errnum) ;; ret tt.

(** The macro [bail], used in function [func] at line [line]. *)
Definition bail {A} (func : bytes) (line : Z) (msg : bytes) : M A :=
  e <- get_errno ;;
  write_log_with_info FATAL func line (str "nsenter: " ++ msg) (Some e) ;;
  exit 1.

(** ** Writing the files of /proc *)

Definition write_file (data : bytes) (data_len : Z) (path : bytes) : M Z :=
  fd <- sys (Open path O_RDWR) ;;
  if rv fd <? 0 then ret (-1)
  else
    w <- sys (Write (rv fd) (firstn (Z.to_nat data_len) data) data_len) ;;
    let len := sint32 (rv w) in
    sys (Close (rv fd)) ;;
    if negb (u64 len =? data_len) then ret (-1) else ret 0.

(** [enum policy_t] *)
Inductive policy_t :=
| SETGROUPS_DEFAULT
| SETGROUPS_ALLOW
| SETGROUPS_DENY.

Definition proc_path (pid : Z) (file : string) : bytes :=
  str "/proc/" ++ fmt_d pid ++ str file.

Definition setgroups_policy (setgroup : policy_t) : option bytes :=
  match setgroup with
  | SETGROUPS_ALLOW => Some (str "allow")
  | SETGROUPS_DENY => Some (str "deny")
  | SETGROUPS_DEFAULT => None
  end.

Definition update_setgroups (pid : Z) (setgroup : policy_t) : M unit :=
  match setgroups_policy setgroup with
  | None => ret tt
  | Some policy =>
      r <- write_file policy (strlen policy) (proc_path pid "/setgroups") ;;
      if r <? 0 then
        e <- get_errno ;;
        if negb (e =? ENOENT) then
          bail (str "update_setgroups") 243
               (str "failed to write '" ++ policy ++ str "' to /proc/"
                ++ fmt_d pid ++ str "/setgroups")
        else ret tt
      else ret tt
  end.

(** The loop of the forked child that fills [argv] from the map; [n] is
    [MAX_ARGV - argc].  A slot holds the string its pointer designates
    when [execve] reads it, that is, up to the NUL written at [next]. *)
Fixpoint fill_argv (n : nat) (map : bytes) (argv : list (option bytes))
  : list (option bytes) :=
  match n with
  | O => argv
  | S n' =>
      if is_nul (peek map) then argv ++ [None]
      else
        match strpbrk map (str (String "010" " ")) with
        | None => argv ++ [Some (cstr map)]
        | Some (tok, next) =>
            fill_argv n' (skip_span (str (String "010" " ")) next)
                      (argv ++ [Some tok])
        end
  end.

(** The loop of the parent around [waitpid]. *)
Fixpoint wait_child (fuel : nat) (child : Z) : M Z :=
  match fuel with
  | O => halt Timeout
  | S fuel' =>
      r <- sys (Waitpid child) ;;
      if rv r <? 0 then
        e <- get_errno ;;
        if e =? EINTR then wait_child fuel' child
        else bail (str "try_mapping_tool") 311 (str "failed to waitpid")
      else
        let status := hd 0 (rvals r) in
        if WIFEXITED status || WIFSIGNALED status
        then ret (WEXITSTATUS status)
        else wait_child fuel' child
  end.

(** [execve] returns only when it fails. *)
Definition execve (path : bytes) (argv envp : list (option bytes))
  : M unit :=
  r <- sys (Execve path argv envp) ;;
  if rv r <? 0 then ret tt else halt Execed.

Definition try_mapping_tool (fuel : nat) (app : option bytes) (pid : Z)
    (map : bytes) (map_len : Z) : M Z :=
  match app with
  | None =>
      bail (str "try_mapping_tool") 266 (str "mapping tool not present")
  | Some app =>
      child <- sys Fork ;;
      if rv child <? 0 then
        bail (str "try_mapping_tool") 270 (str "failed to fork")
      else if rv child =? 0 then
        let argv :=
          fill_argv (MAX_ARGV - 2) map [Some (cstr app); Some (fmt_d pid)] in
        execve (cstr app) argv [None] ;;
        bail (str "try_mapping_tool") 303 (str "failed to execv")
      else wait_child fuel (rv child)
  end.

Definition update_uidmap (fuel : nat) (path : option bytes) (pid : Z)
    (map : option bytes) (map_len : Z) : M unit :=
  match map with
  | None => ret tt
  | Some map =>
      if map_len <=? 0 then ret tt
      else
        r <- write_file map map_len (proc_path pid "/uid_map") ;;
        if r <? 0 then
          e <- get_errno ;;
          if negb (e =? EPERM) then
            bail (str "update_uidmap") 328
                 (str "failed to update /proc/" ++ fmt_d pid
                  ++ str "/uid_map")
          else
            t <- try_mapping_tool fuel path pid map map_len ;;
            if negb (t =? 0) then
              bail (str "update_uidmap") 330
                   (str "failed to use newuid map on " ++ fmt_d pid)
            else ret tt
        else ret tt
  end.

Definition update_gidmap (fuel : nat) (path : option bytes) (pid : Z)
    (map : option bytes) (map_len : Z) : M unit :=
  match map with
  | None => ret tt
  | Some map =>
      if map_len <=? 0 then ret tt
      else
        r <- write_file map map_len (proc_path pid "/gid_map") ;;
        if r <? 0 then
          e <- get_errno ;;
          if negb (e =? EPERM) then
            bail (str "update_gidmap") 341
                 (str "failed to update /proc/" ++ fmt_d pid
                  ++ str "/gid_map")
          else
            t <- try_mapping_tool fuel path pid map map_len ;;
            if negb (t =? 0) then
              bail (str "update_gidmap") 343
                   (str "failed to use newgid map on " ++ fmt_d pid)
            else ret tt
        else ret tt
  end.

Definition update_oom_score_adj (data : option bytes) (len : Z) : M unit :=
  match data with
  | None => ret tt
  | Some data =>
      if len <=? 0 then ret tt
      else
        r <- write_file data len (str "/proc/self/oom_score_adj") ;;
        if r <? 0 then
          bail (str "update_oom_score_adj") 353
               (str "failed to update /proc/self/oom_score_adj")
        else ret tt
  end.

(** Assignments to the fields of [struct nlconfig_t]; a pointer is set
    together with its length where the parser sets both. *)

Definition set_data (v : option bytes) (c : nlconfig_t) : nlconfig_t :=
  let 'mk_nlconfig _ cf oom ooml um uml gm gml ns nsl sg re ump umpl gmp
      gmpl pr mpp rp rf rfl pm pml sm sml := c in
  mk_nlconfig v cf oom ooml um uml gm gml ns nsl sg re ump umpl gmp gmpl pr
    mpp rp rf rfl pm pml sm sml.

Definition set_cloneflags (v : Z) (c : nlconfig_t) : nlconfig_t :=
  let 'mk_nlconfig d _ oom ooml um uml gm gml ns nsl sg re ump umpl gmp gmpl
      pr mpp rp rf rfl pm pml sm sml := c in
  mk_nlconfig d v oom ooml um uml gm gml ns nsl sg re ump umpl gmp gmpl pr
    mpp rp rf rfl pm pml sm sml.

Definition set_is_setgroup (v : Z) (c : nlconfig_t) : nlconfig_t :=
  let 'mk_nlconfig d cf oom ooml um uml gm gml ns nsl _ re ump umpl gmp gmpl
      pr mpp rp rf rfl pm pml sm sml := c in
  mk_nlconfig d cf oom ooml um uml gm gml ns nsl v re ump umpl gmp gmpl pr
    mpp rp rf rfl pm pml sm sml.

Definition set_is_rootless_euid (v : Z) (c : nlconfig_t) : nlconfig_t :=
  let 'mk_nlconfig d cf oom ooml um uml gm gml ns nsl sg _ ump umpl gmp gmpl
      pr mpp rp rf rfl pm pml sm sml := c in
  mk_nlconfig d cf oom ooml um uml gm gml ns nsl sg v ump umpl gmp gmpl pr
    mpp rp rf rfl pm pml sm sml.

Definition set_prep_rootfs (v : Z) (c : nlconfig_t) : nlconfig_t :=
  let 'mk_nlconfig d cf oom ooml um uml gm gml ns nsl sg re ump umpl gmp
      gmpl _ mpp rp rf rfl pm pml sm sml := c in
  mk_nlconfig d cf oom ooml um uml gm gml ns nsl sg re ump umpl gmp gmpl v
    mpp rp rf rfl pm pml sm sml.

Definition set_make_parent_priv (v : Z) (c : nlconfig_t) : nlconfig_t :=
  let 'mk_nlconfig d cf oom ooml um uml gm gml ns nsl sg re ump umpl gmp
      gmpl pr _ rp rf rfl pm pml sm sml := c in
  mk_nlconfig d cf oom ooml um uml gm gml ns nsl sg re ump umpl gmp gmpl pr
    v rp rf rfl pm pml sm sml.

Definition set_rootfs_prop (v : Z) (c : nlconfig_t) : nlconfig_t :=
  let 'mk_nlconfig d cf oom ooml um uml gm gml ns nsl sg re ump umpl gmp
      gmpl pr mpp _ rf rfl pm pml sm sml := c in
  mk_nlconfig d cf oom ooml um uml gm gml ns nsl sg re ump umpl gmp gmpl pr
    mpp v rf rfl pm pml sm sml.

Definition set_shiftfs_mounts (v : option bytes) (c : nlconfig_t) : nlconfig_t :=
  let 'mk_nlconfig d cf oom ooml um uml gm gml ns nsl sg re ump umpl gmp
      gmpl pr mpp rp rf rfl pm pml _ sml := c in
  mk_nlconfig d cf oom ooml um uml gm gml ns nsl sg re ump umpl gmp gmpl pr
    mpp rp rf rfl pm pml v sml.

Definition set_oom_score_adj (v : option bytes) (len : Z) (c : nlconfig_t) : nlconfig_t :=
  let 'mk_nlconfig d cf _ _ um uml gm gml ns nsl sg re ump umpl gmp gmpl pr
      mpp rp rf rfl pm pml sm sml := c in
  mk_nlconfig d cf v len um uml gm gml ns nsl sg re ump umpl gmp gmpl pr mpp
    rp rf rfl pm pml sm sml.

Definition set_uidmap (v : option bytes) (len : Z) (c : nlconfig_t) : nlconfig_t :=
  let 'mk_nlconfig d cf oom ooml _ _ gm gml ns nsl sg re ump umpl gmp gmpl
      pr mpp rp rf rfl pm pml sm sml := c in
  mk_nlconfig d cf oom ooml v len gm gml ns nsl sg re ump umpl gmp gmpl pr
    mpp rp rf rfl pm pml sm sml.

Definition set_gidmap (v : option bytes) (len : Z) (c : nlconfig_t) : nlconfig_t :=
  let 'mk_nlconfig d cf oom ooml um uml _ _ ns nsl sg re ump umpl gmp gmpl
      pr mpp rp rf rfl pm pml sm sml := c in
  mk_nlconfig d cf oom ooml um uml v len ns nsl sg re ump umpl gmp gmpl pr
    mpp rp rf rfl pm pml sm sml.

Definition set_namespaces (v : option bytes) (len : Z) (c : nlconfig_t) : nlconfig_t :=
  let 'mk_nlconfig d cf oom ooml um uml gm gml _ _ sg re ump umpl gmp gmpl
      pr mpp rp rf rfl pm pml sm sml := c in
  mk_nlconfig d cf oom ooml um uml gm gml v len sg re ump umpl gmp gmpl pr
    mpp rp rf rfl pm pml sm sml.

Definition set_uidmappath (v : option bytes) (len : Z) (c : nlconfig_t) : nlconfig_t :=
  let 'mk_nlconfig d cf oom ooml um uml gm gml ns nsl sg re _ _ gmp gmpl pr
      mpp rp rf rfl pm pml sm sml := c in
  mk_nlconfig d cf oom ooml um uml gm gml ns nsl sg re v len gmp gmpl pr mpp
    rp rf rfl pm pml sm sml.

Definition set_gidmappath (v : option bytes) (len : Z) (c : nlconfig_t) : nlconfig_t :=
  let 'mk_nlconfig d cf oom ooml um uml gm gml ns nsl sg re ump umpl _ _ pr
      mpp rp rf rfl pm pml sm sml := c in
  mk_nlconfig d cf oom ooml um uml gm gml ns nsl sg re ump umpl v len pr mpp
    rp rf rfl pm pml sm sml.

Definition set_rootfs (v : option bytes) (len : Z) (c : nlconfig_t) : nlconfig_t :=
  let 'mk_nlconfig d cf oom ooml um uml gm gml ns nsl sg re ump umpl gmp
      gmpl pr mpp rp _ _ pm pml sm sml := c in
  mk_nlconfig d cf oom ooml um uml gm gml ns nsl sg re ump umpl gmp gmpl pr
    mpp rp v len pm pml sm sml.

Definition set_parent_mount (v : option bytes) (len : Z) (c : nlconfig_t) : nlconfig_t :=
  let 'mk_nlconfig d cf oom ooml um uml gm gml ns nsl sg re ump umpl gmp
      gmpl pr mpp rp rf rfl _ _ sm sml := c in
  mk_nlconfig d cf oom ooml um uml gm gml ns nsl sg re ump umpl gmp gmpl pr
    mpp rp rf rfl v len sm sml.

Definition set_shiftfs_mounts_attr (v : option bytes) (len : Z) (c : nlconfig_t) : nlconfig_t :=
  let 'mk_nlconfig d cf oom ooml um uml gm gml ns nsl sg re ump umpl gmp
      gmpl pr mpp rp rf rfl pm pml _ _ := c in
  mk_nlconfig d cf oom ooml um uml gm gml ns nsl sg re ump umpl gmp gmpl pr
    mpp rp rf rfl pm pml v len.

(** ** The environment *)

(** [isspace] and [isdigit] of the C locale. *)
Definition isspace (c : ascii) : bool :=
  let n := byte_val c in (n =? 32) || ((9 <=? n) && (n <=? 13)).

Definition isdigit (c : ascii) : bool :=
  let n := byte_val c in (48 <=? n) && (n <=? 57).

Fixpoint skip_spaces (p : bytes) : bytes :=
  match p with
  | c :: p' => if isspace c then skip_spaces p' else p
  | [] => []
  end.

Fixpoint read_digits (acc : Z) (p : bytes) : Z * bytes :=
  match p with
  | c :: p' =>
      if isdigit c then read_digits (10 * acc + (byte_val c - 48)) p'
      else (acc, p)
  | [] => (acc, [])
  end.

Definition LONG_MAX : Z := 2 ^ 63 - 1.
Definition LONG_MIN : Z := - 2 ^ 63.

(** [strtol(nptr, &endptr, 10)]: the value and [endptr]. *)
Definition strtol (nptr : bytes) : Z * bytes :=
  let p := skip_spaces nptr in
  let '(neg, q) :=
    match p with
    | c :: p' =>
        if Ascii.eqb c "-" then (true, p')
        else if Ascii.eqb c "+" then (false, p')
        else (false, p)
    | [] => (false, p)
    end in
  if isdigit (peek q) then
    let (v, endptr) := read_digits 0 q in
    let v := if neg then - v else v in
    (Z.max LONG_MIN (Z.min LONG_MAX v), endptr)
  else (0, nptr).

(** [getenv]: NULL when the answer is 0, else the string delivered. *)
Definition getenv (name : bytes) : M (option bytes) :=
  r <- sys (Getenv name) ;;
  if rv r =? 0 then ret None else ret (Some (rbytes r)).

Definition initpipe : M Z :=
  e <- getenv (str "_LIBCONTAINER_INITPIPE") ;;
  match e with
  | None => ret (-1)
  | Some initpipe =>
      if is_nul (peek initpipe) then ret (-1)
      else
        let (pipenum, endptr) := strtol initpipe in
        if negb (is_nul (peek endptr)) then
          bail (str "initpipe") 391
               (str "unable to parse _LIBCONTAINER_INITPIPE")
        else ret (sint32 pipenum)
  end.

Definition setup_logpipe : M unit :=
  e <- getenv (str "_LIBCONTAINER_LOGPIPE") ;;
  match e with
  | None => ret tt
  | Some logpipe =>
      if is_nul (peek logpipe) then ret tt
      else
        let (fd, endptr) := strtol logpipe in
        set_logfd (sint32 fd) ;;
        if bytes_eqb logpipe endptr || negb (is_nul (peek endptr)) then
          sys (Fprintf_stderr
                 (str "unable to parse _LIBCONTAINER_LOGPIPE, value: "
                  ++ cstr logpipe ++ ["010"%char])) ;;
          exit 1
        else ret tt
  end.

(** ** Namespaces *)

Definition nsflag (name : bytes) : Z :=
  if streq name (str "cgroup") then CLONE_NEWCGROUP
  else if streq name (str "ipc") then CLONE_NEWIPC
  else if streq name (str "mnt") then CLONE_NEWNS
  else if streq name (str "net") then CLONE_NEWNET
  else if streq name (str "pid") then CLONE_NEWPID
  else if streq name (str "user") then CLONE_NEWUSER
  else if streq name (str "uts") then CLONE_NEWUTS
  else 0.

(** [struct namespace_t]; its [type] member is never used. *)
Record namespace_t := mk_namespace {
  ns_fd : Z;
  ns_ns : Z;
  ns_path : bytes
}.

Definition PATH_MAX : Z := 4096.

(** [sizeof(struct namespace_t)] *)
Definition sizeof_namespace_t : Z := 4 + 4 + PATH_MAX + PATH_MAX.

(** The string at [s] once [strtok_r(s, delim, &saveptr)] has written its
    NUL: up to the end of the first token. *)
Definition tokenized (s : bytes) (delim : bytes) : bytes :=
  match strtok_r s delim with
  | (Some tok, _) =>
      firstn (length (cstr s) - length (cstr (skip_span delim s))) s ++ tok
  | (None, _) => cstr s
  end.

(** The first loop of [join_namespaces]: one descriptor per entry.
    [namespace] is the current token, [saveptr] what [strtok_r] keeps. *)
Fixpoint open_namespaces (fuel : nat) (namespace saveptr : bytes)
    (namespaces : list namespace_t) : M (list namespace_t) :=
  match fuel with
  | O => halt Timeout
  | S fuel' =>
      let num := Z.of_nat (length namespaces) + 1 in
      a <- sys (Realloc (num * sizeof_namespace_t)) ;;
      if rv a =? 0 then
        bail (str "join_namespaces") 581
             (str "failed to reallocate namespace array")
      else
        match split_colon namespace with
        | None =>
            bail (str "join_namespaces") 587
                 (str "failed to parse " ++ cstr namespace)
        | Some (name, path) =>
            fd <- sys (Open (cstr path) O_RDONLY) ;;
            if rv fd <? 0 then
              bail (str "join_namespaces") 592
                   (str "failed to open " ++ cstr path)
            else
              let ns :=
                mk_namespace (rv fd) (nsflag name)
                  (firstn (Z.to_nat (PATH_MAX - 1)) (cstr path)) in
              match strtok_r saveptr (str ",") with
              | (Some namespace', saveptr') =>
                  open_namespaces fuel' namespace' saveptr'
                                  (namespaces ++ [ns])
              | (None, _) => ret (namespaces ++ [ns])
              end
        end
  end.

(** The second loop: [setns] in the order of the array. *)
Fixpoint setns_namespaces (namespaces : list namespace_t) : M unit :=
  match namespaces with
  | [] => ret tt
  | ns :: rest =>
      r <- sys (Setns (ns_fd ns) (ns_ns ns)) ;;
      if rv r <? 0 then
        bail (str "join_namespaces") 611
             (str "failed to setns to " ++ ns_path ns)
      else
        sys (Close (ns_fd ns)) ;;
        setns_namespaces rest
  end.

(** A token is shorter than the string it is cut from, so the first loop
    ends within [length nslist] rounds. *)
Definition join_namespaces (nslist : bytes) : M unit :=
  match strtok_r nslist (str ",") with
  | (None, _) =>
      bail (str "join_namespaces") 566 (str "ns paths are empty")
  | (Some namespace, saveptr) =>
      if (strlen namespace =? 0) || (strlen (tokenized nslist (str ",")) =? 0)
      then bail (str "join_namespaces") 566 (str "ns paths are empty")
      else
        namespaces <-
          open_namespaces (S (length nslist)) namespace saveptr [] ;;
        setns_namespaces namespaces ;;
        sys Free ;;
        ret tt
  end.

(** ** The shiftfs mounts *)

(** The loop of [mount_shiftfs]; [rootfs] is [config->rootfs], whose
    [strcmp] faults when it is NULL. *)
Fixpoint shiftfs_loop (fuel : nat) (rootfs : option bytes)
    (mntpath saveptr : bytes) : M Z :=
  match fuel with
  | O => halt Timeout
  | S fuel' =>
      match rootfs with
      | None => halt Fault
      | Some rootfs =>
          r <- (if streq mntpath rootfs
                then sys (Mount (str ".") (Some (str ".")) (str "shiftfs") 0)
                else sys (Mount (cstr mntpath) (Some (cstr mntpath))
                                (str "shiftfs") 0)) ;;
          if rv r <? 0 then ret (-1)
          else
            match strtok_r saveptr (str ",") with
            | (Some mntpath', saveptr') =>
                shiftfs_loop fuel' (Some rootfs) mntpath' saveptr'
            | (None, _) => ret 0
            end
      end
  end.

(** [mount_shiftfs]: its result, and the configuration with the list as
    [strtok_r] has left it.  With a NULL list glibc's [strtok_r] reads
    through its NULL [saveptr]. *)
Definition mount_shiftfs (config : nlconfig_t) : M (Z * nlconfig_t) :=
  match shiftfs_mounts config with
  | None => halt Fault
  | Some mntlist =>
      let config' :=
        set_shiftfs_mounts (Some (tokenized mntlist (str ","))) config in
      match strtok_r mntlist (str ",") with
      | (None, _) => ret (0, config')
      | (Some mntpath, saveptr) =>
          if (strlen mntpath =? 0)
             || (strlen (tokenized mntlist (str ",")) =? 0)
          then ret (0, config')
          else
            r <- shiftfs_loop (S (length mntlist)) (rootfs config)
                              mntpath saveptr ;;
            ret (r, config')
      end
  end.

(** ** The configuration parser *)

(** The [switch] of [nl_parse] on the attribute type: the assignment it
    makes, [None] for the [default] label.  [current] points at the
    payload. *)
Definition nl_attr (nla_type : Z) (current : bytes) (payload_len : Z)
    (config : nlconfig_t) : option nlconfig_t :=
  if nla_type =? CLONE_FLAGS_ATTR then
    Some (set_cloneflags (readint32 current) config)
  else if nla_type =? ROOTLESS_EUID_ATTR then
    Some (set_is_rootless_euid (readint8 current) config)
  else if nla_type =? OOM_SCORE_ADJ_ATTR then
    Some (set_oom_score_adj (Some current) payload_len config)
  else if nla_type =? NS_PATHS_ATTR then
    Some (set_namespaces (Some current) payload_len config)
  else if nla_type =? UIDMAP_ATTR then
    Some (set_uidmap (Some current) payload_len config)
  else if nla_type =? GIDMAP_ATTR then
    Some (set_gidmap (Some current) payload_len config)
  else if nla_type =? UIDMAPPATH_ATTR then
    Some (set_uidmappath (Some current) payload_len config)
  else if nla_type =? GIDMAPPATH_ATTR then
    Some (set_gidmappath (Some current) payload_len config)
  else if nla_type =? SETGROUP_ATTR then
    Some (set_is_setgroup (readint8 current) config)
  else if nla_type =? PREP_ROOTFS_ATTR then
    Some (set_prep_rootfs (readint8 current) config)
  else if nla_type =? MAKE_PARENT_PRIV_ATTR then
    Some (set_make_parent_priv (readint8 current) config)
  else if nla_type =? ROOTFS_PROP_ATTR then
    Some (set_rootfs_prop (readint32 current) config)
  else if nla_type =? ROOTFS_ATTR then
    Some (set_rootfs (Some current) payload_len config)
  else if nla_type =? PARENT_MOUNT_ATTR then
    Some (set_parent_mount (Some current) payload_len config)
  else if nla_type =? SHIFTFS_MOUNTS_ATTR then
    Some (set_shiftfs_mounts_attr (Some current) payload_len config)
  else None.

(** The loop over the attributes.  [payload] is the allocation, [size] its
    size and [current] the offset of the cursor in it. *)
Fixpoint nl_parse_attrs (fuel : nat) (payload : bytes) (size current : Z)
    (config : nlconfig_t) : M nlconfig_t :=
  match fuel with
  | O => halt Timeout
  | S fuel' =>
      if current <? size then
        let nlattr := skipn (Z.to_nat current) payload in
        let nla_len := readint16 nlattr in
        let nla_type := readint16 (skipn 2 nlattr) in
        let payload_len := u64 (nla_len - NLA_HDRLEN) in
        let current := u64 (current + NLA_HDRLEN) in
        match nl_attr nla_type (skipn (Z.to_nat current) payload)
                      payload_len config with
        | None =>
            bail (str "nl_parse") 541
                 (str "unknown netlink message type " ++ fmt_d nla_type)
        | Some config' =>
            nl_parse_attrs fuel' payload size
                           (u64 (current + NLA_ALIGN payload_len)) config'
        end
      else ret config
  end.

Definition nl_parse (fuel : nat) (fd : Z) (config : nlconfig_t)
  : M nlconfig_t :=
  h <- sys (Read fd NLMSG_HDRLEN) ;;
  let len := u64 (rv h) in
  if negb (len =? NLMSG_HDRLEN) then
    bail (str "nl_parse") 454
         (str "invalid netlink header length " ++ fmt_d len)
  else
    let hdr := rbytes h in
    let nlmsg_len := readint32 hdr in
    let nlmsg_type := readint16 (skipn 4 hdr) in
    if nlmsg_type =? NLMSG_ERROR then
      bail (str "nl_parse") 457 (str "failed to read netlink message")
    else if negb (nlmsg_type =? INIT_MSG) then
      bail (str "nl_parse") 460
           (str "unexpected msg type " ++ fmt_d nlmsg_type)
    else
      let size := u32 (nlmsg_len - NLMSG_HDRLEN) in
      a <- sys (Malloc size) ;;
      if rv a =? 0 then
        bail (str "nl_parse") 466
             (str "failed to allocate " ++ fmt_d size
              ++ str " bytes of memory for nl_payload")
      else
        d <- sys (Read fd size) ;;
        let len := u64 (rv d) in
        if negb (len =? size) then
          bail (str "nl_parse") 470
               (str "failed to read netlink payload, " ++ fmt_d len
                ++ str " != " ++ fmt_d size)
        else
          let payload := firstn (Z.to_nat size) (rbytes d) in
          nl_parse_attrs fuel payload size 0
                         (set_data (Some payload) config).

Definition nl_free (config : nlconfig_t) : M unit :=
  sys Free ;; ret tt.

(** ** The three stages *)

(** The locals of [nsexec] that the stages share: a child starts with the
    values its parent has when it clones. *)
Record frame := mk_frame {
  pipenum : Z;
  config : nlconfig_t;
  sync_child_pipe : Z * Z;
  sync_grandchild_pipe : Z * Z
}.

Definition with_config (c : nlconfig_t) (f : frame) : frame :=
  mk_frame (pipenum f) c (sync_child_pipe f) (sync_grandchild_pipe f).

(** [clone_parent]: the parent's side.  The child resumes at the [switch]
    with [jmpval] and a copy of the frame. *)
Definition clone_parent (jmpval : Z) (f : frame) : M Z :=
  r <- sys (CloneParent jmpval (config f)) ;;
  ret (rv r).

(** A token of [enum sync_t] on the wire. *)
Definition write_sync (s : Z) : M bool :=
  fd <- get_syncfd ;;
  w <- sys (Write fd (le32 s) 4) ;;
  ret (rv w =? 4).

Definition read_sync : M (option Z) :=
  fd <- get_syncfd ;;
  r <- sys (Read fd 4) ;;
  if rv r =? 4 then ret (Some (readint32 (rbytes r))) else ret None.

Definition kill (pid : Z) : M unit := sys (Kill pid SIGKILL) ;; ret tt.

Definition nonzero (z : Z) : bool := negb (z =? 0).

(** *** Stage 0 *)

(** [case SYNC_USERMAP_PLS] of the parent. *)
Definition parent_usermap (fuel : nat) (config : nlconfig_t) (child : Z)
  : M unit :=
  (if nonzero (is_rootless_euid config) && negb (nonzero (is_setgroup config))
   then update_setgroups child SETGROUPS_DENY
   else ret tt) ;;
  update_uidmap fuel (uidmappath config) child
                (uidmap config) (uidmap_len config) ;;
  update_gidmap fuel (gidmappath config) child
                (gidmap config) (gidmap_len config) ;;
  ok <- write_sync SYNC_USERMAP_ACK ;;
  if negb ok then
    kill child ;;
    bail (str "nsexec") 835
         (str "failed to sync with child: write(SYNC_USERMAP_ACK)")
  else ret tt.

(** [case SYNC_RECVPID_PLS] of the parent; the result is the new value of
    [child]. *)
Definition parent_recvpid (f : frame) (child : Z) : M Z :=
  let first_child := child in
  fd <- get_syncfd ;;
  r <- sys (Read fd 4) ;;
  if negb (rv r =? 4) then
    kill first_child ;;
    bail (str "nsexec") 845 (str "failed to sync with child: read(childpid)")
  else
    let child := sint32 (readint32 (rbytes r)) in
    ok <- write_sync SYNC_RECVPID_ACK ;;
    if negb ok then
      kill first_child ;;
      kill child ;;
      bail (str "nsexec") 853
           (str "failed to sync with child: write(SYNC_RECVPID_ACK)")
    else
      p <- sys (DprintfPid (pipenum f) child first_child) ;;
      if rv p <? 0 then
        kill child ;;
        bail (str "nsexec") 865 (str "unable to generate JSON for child pid")
      else ret child.

(** The first [while (!ready)] of the parent; the result is [child]. *)
Fixpoint parent_sync_child (fuel : nat) (f : frame) (child : Z) : M Z :=
  match fuel with
  | O => halt Timeout
  | S fuel' =>
      t <- read_sync ;;
      match t with
      | None =>
          bail (str "nsexec") 811
               (str "failed to sync with child: next state")
      | Some s =>
          if s =? SYNC_USERMAP_PLS then
            parent_usermap fuel' (config f) child ;;
            parent_sync_child fuel' f child
          else if s =? SYNC_RECVPID_PLS then
            child' <- parent_recvpid f child ;;
            parent_sync_child fuel' f child'
          else if s =? SYNC_CHILD_READY then ret child
          else
            bail (str "nsexec") 873
                 (str "unexpected sync value: " ++ fmt_d s)
      end
  end.

(** The second [while (!ready)]: its body ends the loop or bails. *)
Definition parent_sync_grandchild (child : Z) : M unit :=
  ok <- write_sync SYNC_GRANDCHILD ;;
  if negb ok then
    kill child ;;
    bail (str "nsexec") 889
         (str "failed to sync with child: write(SYNC_GRANDCHILD)")
  else
    t <- read_sync ;;
    match t with
    | None =>
        bail (str "nsexec") 893 (str "failed to sync with child: next state")
    | Some s =>
        if s =? SYNC_CHILD_READY then ret tt
        else
          bail (str "nsexec") 900 (str "unexpected sync value: " ++ fmt_d s)
    end.

(** [case JUMP_PARENT] *)
Definition stage_parent (fuel : nat) (f : frame) : M unit :=
  sys (PrctlSetName (str "runc:[0:PARENT]")) ;;
  child <- clone_parent JUMP_CHILD f ;;
  if child <? 0 then bail (str "nsexec") 795 (str "unable to fork: child_func")
  else
    set_syncfd (snd (sync_child_pipe f)) ;;
    sys (Close (fst (sync_child_pipe f))) ;;
    child <- parent_sync_child fuel f child ;;
    set_syncfd (snd (sync_grandchild_pipe f)) ;;
    sys (Close (fst (sync_grandchild_pipe f))) ;;
    parent_sync_grandchild child ;;
    exit 0.

(** *** Stage 1 *)

(** Unsharing the user and the mount namespace; the result is the working
    copy of the flags and [new_userns]. *)
Definition child_unshare_first (config : nlconfig_t)
  : M (nlconfig_t * bool) :=
  r1 <- (if nonzero (Z.land (cloneflags config) CLONE_NEWUSER) then
           r <- sys (Unshare CLONE_NEWUSER) ;;
           if rv r <? 0 then
             bail (str "nsexec") 960 (str "failed to unshare user namespace")
           else
             ret (set_cloneflags
                    (Z.land (cloneflags config) (Z.lnot CLONE_NEWUSER))
                    config, true)
         else ret (config, false)) ;;
  let (config, new_userns) := (r1 : nlconfig_t * bool) in
  if nonzero (Z.land (cloneflags config) CLONE_NEWNS) then
    r <- sys (Unshare CLONE_NEWNS) ;;
    if rv r <? 0 then
      bail (str "nsexec") 972 (str "failed to unshare mount namespace")
    else
      ret (set_cloneflags
             (Z.land (cloneflags config) (Z.lnot CLONE_NEWNS)) config,
           new_userns)
  else ret (config, new_userns).

(** The first attempt at the rootfs; the result is the configuration,
    [make_parent_priv_done] and [shiftfs_mounts_done]. *)
Definition child_prep_rootfs (config : nlconfig_t)
  : M (nlconfig_t * bool * bool) :=
  if nonzero (prep_rootfs config) then
    r <- sys (Mount (str "") (Some (str "/")) (str "") (rootfs_prop config)) ;;
    if rv r <? 0 then
      bail (str "nsexec") 990 (str "failed to set rootfs mount propagation")
    else
      make_parent_priv_done <-
        (if nonzero (make_parent_priv config) then
           p <- sys (Mount (str "") (option_map cstr (parent_mount config))
                           (str "") MS_PRIVATE) ;;
           ret (rv p =? 0)
         else ret false) ;;
      if negb (nonzero (make_parent_priv config)) || make_parent_priv_done
      then
        b <- sys (Mount (str ".") (Some (str ".")) (str "bind")
                        (Z.lor MS_BIND MS_REC)) ;;
        if rv b <? 0 then
          bail (str "nsexec") 1002
               (str "failed to create bind-to-self mount on rootfs.")
        else
          s <- mount_shiftfs config ;;
          ret (snd s, make_parent_priv_done, fst s =? 0)
      else ret (config, make_parent_priv_done, false)
  else ret (config, false, false).

(** Asking the parent for the ID mappings. *)
Definition child_usermap (config : nlconfig_t) : M unit :=
  (match namespaces config with
   | Some _ =>
       r <- sys (Prctl PR_SET_DUMPABLE 1) ;;
       if rv r <? 0 then
         bail (str "nsexec") 1019 (str "failed to set process as dumpable")
       else ret tt
   | None => ret tt
   end) ;;
  ok <- write_sync SYNC_USERMAP_PLS ;;
  if negb ok then
    bail (str "nsexec") 1024
         (str "failed to sync with parent: write(SYNC_USERMAP_PLS)")
  else
    t <- read_sync ;;
    match t with
    | None =>
        bail (str "nsexec") 1029
             (str "failed to sync with parent: read(SYNC_USERMAP_ACK)")
    | Some s =>
        if negb (s =? SYNC_USERMAP_ACK) then
          bail (str "nsexec") 1031
               (str "failed to sync with parent: SYNC_USERMAP_ACK: got "
                ++ fmt_d s)
        else
          (match namespaces config with
           | Some _ =>
               r <- sys (Prctl PR_SET_DUMPABLE 0) ;;
               if rv r <? 0 then
                 bail (str "nsexec") 1036
                      (str "failed to set process as dumpable")
               else ret tt
           | None => ret tt
           end) ;;
          r <- sys (Setresuid 0 0 0) ;;
          if rv r <? 0 then
            bail (str "nsexec") 1040
                 (str "failed to become root in user namespace")
          else ret tt
    end.

(** The second attempt at the rootfs, once the IDs are mapped. *)
Definition child_retry_rootfs (config : nlconfig_t)
    (make_parent_priv_done shiftfs_mounts_done : bool) : M nlconfig_t :=
  (if nonzero (make_parent_priv config) && negb make_parent_priv_done then
     p <- sys (Mount (str "") (option_map cstr (parent_mount config))
                     (str "") MS_PRIVATE) ;;
     if rv p <? 0 then
       bail (str "nsexec") 1052
            (str "failed to set rootfs parent mount propagation to private")
     else
       b <- sys (Mount (str ".") (Some (str ".")) (str "bind")
                       (Z.lor MS_BIND MS_REC)) ;;
       if rv b <? 0 then
         bail (str "nsexec") 1055
              (str "failed to create bind-to-self mount on rootfs.")
       else ret tt
   else ret tt) ;;
  if nonzero (prep_rootfs config) && negb shiftfs_mounts_done then
    s <- mount_shiftfs config ;;
    if fst s <? 0 then
      bail (str "nsexec") 1060 (str "failed to setup shiftfs mounts")
    else ret (snd s)
  else ret config.

(** Cloning stage 2 and reporting its pid. *)
Definition child_clone_init (f : frame) : M unit :=
  child <- clone_parent JUMP_INIT f ;;
  if child <? 0 then bail (str "nsexec") 1089 (str "unable to fork: init_func")
  else
    ok <- write_sync SYNC_RECVPID_PLS ;;
    if negb ok then
      kill child ;;
      bail (str "nsexec") 1095
           (str "failed to sync with parent: write(SYNC_RECVPID_PLS)")
    else
      fd <- get_syncfd ;;
      w <- sys (Write fd (le32 child) 4) ;;
      if negb (rv w =? 4) then
        kill child ;;
        bail (str "nsexec") 1099
             (str "failed to sync with parent: write(childpid)")
      else
        t <- read_sync ;;
        match t with
        | None =>
            kill child ;;
            bail (str "nsexec") 1106
                 (str "failed to sync with parent: read(SYNC_RECVPID_ACK)")
        | Some s =>
            if negb (s =? SYNC_RECVPID_ACK) then
              kill child ;;
              bail (str "nsexec") 1110
                   (str "failed to sync with parent: SYNC_RECVPID_ACK: got "
                    ++ fmt_d s)
            else
              ok <- write_sync SYNC_CHILD_READY ;;
              if negb ok then
                kill child ;;
                bail (str "nsexec") 1116
                     (str "failed to sync with parent: write(SYNC_CHILD_READY)")
              else exit 0
        end.

(** The rootfs and the ID mappings: the first attempt at the rootfs, the
    request to the parent when the user namespace is new, and the second
    attempt. *)
Definition child_rootfs (config : nlconfig_t) (new_userns : bool)
  : M nlconfig_t :=
  p <- child_prep_rootfs config ;;
  let '(config, make_parent_priv_done, shiftfs_mounts_done) :=
    (p : nlconfig_t * bool * bool) in
  (if new_userns then child_usermap config else ret tt) ;;
  child_retry_rootfs config make_parent_priv_done shiftfs_mounts_done.

(** Everything stage 1 does before it clones stage 2; the result is the
    frame stage 2 starts with. *)
Definition child_setup (f : frame) : M frame :=
  set_syncfd (fst (sync_child_pipe f)) ;;
  sys (Close (snd (sync_child_pipe f))) ;;
  sys (PrctlSetName (str "runc:[1:CHILD]")) ;;
  (match namespaces (config f) with
   | Some nslist => join_namespaces nslist
   | None => ret tt
   end) ;;
  u <- child_unshare_first (config f) ;;
  let (config, new_userns) := (u : nlconfig_t * bool) in
  config <- child_rootfs config new_userns ;;
  r <- sys (Unshare (Z.land (cloneflags config) (Z.lnot CLONE_NEWCGROUP))) ;;
  if rv r <? 0 then
    bail (str "nsexec") 1076 (str "failed to unshare namespaces")
  else ret (with_config config f).

(** [case JUMP_CHILD] *)
Definition stage_child (f : frame) : M unit :=
  f' <- child_setup f ;;
  child_clone_init f'.

(** *** Stage 2 *)

(** The wait for the orchestrator's byte and the cgroup namespace. *)
Definition init_cgroupns (f : frame) : M unit :=
  if nonzero (Z.land (cloneflags (config f)) CLONE_NEWCGROUP) then
    r <- sys (Read (pipenum f) 1) ;;
    if negb (rv r =? 1) then
      bail (str "nsexec") 1189 (str "read synchronisation value failed")
    else
      let value := readint8 (rbytes r) in
      if value =? CREATECGROUPNS then
        u <- sys (Unshare CLONE_NEWCGROUP) ;;
        if rv u <? 0 then
          bail (str "nsexec") 1192 (str "failed to unshare cgroup namespace")
        else ret tt
      else
        bail (str "nsexec") 1194 (str "received unknown synchronisation value")
  else ret tt.

(** The configured [oom_score_adj], written while the process is
    dumpable. *)
Definition init_oom_score_adj (config : nlconfig_t) : M unit :=
  d1 <- sys (Prctl PR_SET_DUMPABLE 1) ;;
  if rv d1 <? 0 then
    bail (str "nsexec") 1157 (str "failed to set process as dumpable")
  else
    update_oom_score_adj (oom_score_adj config) (oom_score_adj_len config) ;;
    d0 <- sys (Prctl PR_SET_DUMPABLE 0) ;;
    if rv d0 <? 0 then
      bail (str "nsexec") 1162 (str "failed to set process as dumpable")
    else ret tt.

(** Session and identity of the init process. *)
Definition init_identity (config : nlconfig_t) : M unit :=
  r <- sys Setsid ;;
  if rv r <? 0 then bail (str "nsexec") 1172 (str "setsid failed")
  else
    r <- sys (Setuid 0) ;;
    if rv r <? 0 then bail (str "nsexec") 1175 (str "setuid failed")
    else
      r <- sys (Setgid 0) ;;
      if rv r <? 0 then bail (str "nsexec") 1178 (str "setgid failed")
      else if negb (nonzero (is_rootless_euid config))
              && nonzero (is_setgroup config)
      then
        r <- sys (Setgroups 0) ;;
        if rv r <? 0 then bail (str "nsexec") 1182 (str "setgroups failed")
        else ret tt
      else ret tt.

(** [case JUMP_INIT]; it returns to the Go runtime. *)
Definition stage_init (f : frame) : M unit :=
  set_syncfd (fst (sync_grandchild_pipe f)) ;;
  sys (Close (snd (sync_grandchild_pipe f))) ;;
  sys (Close (fst (sync_child_pipe f))) ;;
  sys (Close (snd (sync_child_pipe f))) ;;
  sys (PrctlSetName (str "runc:[2:INIT]")) ;;
  init_oom_score_adj (config f) ;;
  t <- read_sync ;;
  match t with
  | None =>
      bail (str "nsexec") 1166
           (str "failed to sync with parent: read(SYNC_GRANDCHILD)")
  | Some s =>
      if negb (s =? SYNC_GRANDCHILD) then
        bail (str "nsexec") 1169
             (str "failed to sync with parent: SYNC_GRANDCHILD: got "
              ++ fmt_d s)
      else
        init_identity (config f) ;;
        init_cgroupns f ;;
        ok <- write_sync SYNC_CHILD_READY ;;
        if negb ok then
          bail (str "nsexec") 1199
               (str "failed to sync with patent: write(SYNC_CHILD_READY)")
        else
          sys (Close (fst (sync_grandchild_pipe f))) ;;
          nl_free (config f)
  end.

(** ** [nsexec] *)

(** The [switch] on what [setjmp] returns. *)
Definition nsexec_switch (fuel : nat) (jmpval : Z) (f : frame) : M unit :=
  if jmpval =? JUMP_PARENT then stage_parent fuel f
  else if jmpval =? JUMP_CHILD then stage_child f
  else if jmpval =? JUMP_INIT then stage_init f
  else bail (str "nsexec") 1211 (str "unexpected jump value").

Definition socketpair : M (Z * (Z * Z)) :=
  r <- sys Socketpair ;;
  ret (rv r, (nth 0 (rvals r) 0, nth 1 (rvals r) 0)).

(** What [nsexec] does with the configuration it has parsed, up to the
    [switch]: the frame the stages start with. *)
Definition nsexec_setup (pn : Z) (config : nlconfig_t) : M frame :=
  update_oom_score_adj (Some (str "-999")) 4 ;;
  (match namespaces config with
   | Some _ =>
       r <- sys (Prctl PR_SET_DUMPABLE 0) ;;
       if rv r <? 0 then
         bail (str "nsexec") 713 (str "failed to set process as non-dumpable")
       else ret tt
   | None => ret tt
   end) ;;
  c <- socketpair ;;
  if fst c <? 0 then
    bail (str "nsexec") 718
         (str "failed to setup sync pipe between parent and child")
  else
    g <- socketpair ;;
    if fst g <? 0 then
      bail (str "nsexec") 725
           (str "failed to setup sync pipe between parent and grandchild")
    else ret (mk_frame pn config (snd c) (snd g)).

(** [nsexec] from the parsed configuration on; [setjmp] returns 0 to the
    process that calls it. *)
Definition nsexec_parsed (fuel : nat) (pn : Z) (config : nlconfig_t)
  : M unit :=
  f <- nsexec_setup pn config ;;
  nsexec_switch fuel JUMP_PARENT f.

(** [nsexec], as the process that enters it runs it. *)
Definition nsexec (fuel : nat) : M unit :=
  setup_logpipe ;;
  pn <- initpipe ;;
  if pn =? -1 then ret tt
  else
    r <- sys EnsureClonedBinary ;;
    if rv r <? 0 then
      bail (str "nsexec") 678
           (str "could not ensure we are a cloned binary")
    else
      write_log_with_info DEBUG (str "nsexec") 680 (str "nsexec started")
                          None ;;
      config <- nl_parse fuel pn config0 ;;
      nsexec_parsed fuel pn config.

(** ** What a run adds to the trace *)

Arguments str : simpl never.
Arguments fmt_d : simpl never.
Arguments proc_path : simpl never.
Arguments le32 : simpl never.

(** What [m] adds to the trace satisfies [Q], however [m] ends. *)
Definition produces {A} (Q : list event -> Prop) (m : M A) : Prop :=
  forall st, Q (emitted m st).

(** Every event that [m] adds satisfies [P]. *)
Definition emits {A} (P : event -> Prop) (m : M A) : Prop :=
  produces (Forall P) m.

(** The kind of a call: which function is called. *)
Inductive kind :=
| KGetenv | KEnsureClonedBinary | KFprintf | KOpen | KWrite | KRead
| KClose | KDprintf | KDprintfPid | KMalloc | KRealloc | KFree | KFork
| KExecve | KWaitpid | KCloneParent | KKill | KPrctl | KPrctlSetName
| KSocketpair | KSetns | KUnshare | KMount | KSetresuid | KSetsid
| KSetuid | KSetgid | KSetgroups.

Definition kind_of (c : call) : kind :=
  match c with
  | Getenv _ => KGetenv
  | EnsureClonedBinary => KEnsureClonedBinary
  | Fprintf_stderr _ => KFprintf
  | Open _ _ => KOpen
  | Write _ _ _ => KWrite
  | Read _ _ => KRead
  | Close _ => KClose
  | Dprintf _ _ _ _ _ _ => KDprintf
  | DprintfPid _ _ _ => KDprintfPid
  | Malloc _ => KMalloc
  | Realloc _ => KRealloc
  | Free => KFree
  | Fork => KFork
  | Execve _ _ _ => KExecve
  | Waitpid _ => KWaitpid
  | CloneParent _ _ => KCloneParent
  | Kill _ _ => KKill
  | Prctl _ _ => KPrctl
  | PrctlSetName _ => KPrctlSetName
  | Socketpair => KSocketpair
  | Setns _ _ => KSetns
  | Unshare _ => KUnshare
  | Mount _ _ _ _ => KMount
  | Setresuid _ _ _ => KSetresuid
  | Setsid => KSetsid
  | Setuid _ => KSetuid
  | Setgid _ => KSetgid
  | Setgroups _ => KSetgroups
  end.

(** The event is a call of one of the kinds [ks]. *)
Definition only (ks : list kind) (e : event) : Prop := In (kind_of (fst e)) ks.

(** The event is not a call of kind [k]. *)
Definition never (k : kind) (e : event) : Prop := kind_of (fst e) <> k.

(** ** Worlds for examples *)

(** A world in which every call answers [r]. *)
Definition answer (r : Z) : response := mk_response r 0 [] [].

Definition failure (e : Z) : response := mk_response (-1) e [] [].

(** A process with no history, logging to [lfd]. *)
Definition start (o : nat -> call -> response) (lfd : Z) : proc :=
  mk_proc o 0 0 lfd (-1).

(** [open] fails with [e]; every other call answers 0. *)
Definition world_open_fails (e : Z) : nat -> call -> response :=
  fun _ c =>
    match c with
    | Open _ _ => failure e
    | _ => answer 0
    end.

(** [open] answers descriptor 5, [write] fails with [e], [fork] answers
    [pid] and the child's status is [status]. *)
Definition world_write_fails (e pid status : Z) : nat -> call -> response :=
  fun _ c =>
    match c with
    | Open _ _ => answer 5
    | Write _ _ _ => failure e
    | Fork => answer pid
    | Waitpid _ => mk_response pid 0 [] [status]
    | _ => answer 0
    end.

(** What [bail] adds to the trace from [st]: the fatal line, when there is
    a log descriptor. *)
Definition fatal_line (st : proc) (func : bytes) (line : Z) (msg : bytes)
  : list event :=
  if logfd st <? 0 then []
  else
    let c := Dprintf (logfd st) FATAL func line (str "nsenter: " ++ msg)
                     (Some (errno st)) in
    [(c, oracle st (clock st) c)].

(** ** The cgroup namespace *)

(** An [unshare] that the event makes does not ask for the cgroup
    namespace. *)
Definition unshares_no_cgroupns (e : event) : Prop :=
  forall flags, fst e = Unshare flags -> Z.land flags CLONE_NEWCGROUP = 0.

(** Every [unshare] among [evs] is [unshare(CLONE_NEWCGROUP)] and comes
    right after a read of one byte from the init pipe [pn] that delivered
    0x80. *)
Definition unshares_after_handoff (pn : Z) (evs : list event) : Prop :=
  forall i flags u,
    nth_error evs i = Some (Unshare flags, u) ->
    flags = CLONE_NEWCGROUP /\
    exists j r,
      i = S j /\ nth_error evs j = Some (Read pn 1, r) /\
      rv r = 1 /\ readint8 (rbytes r) = CREATECGROUPNS.

(** The orchestrator's byte is [b]; every other call answers 0 and every
    read of a token delivers [SYNC_GRANDCHILD]. *)
Definition world_handoff (b : Z) : nat -> call -> response :=
  fun _ c =>
    match c with
    | Read _ 1 => mk_response 1 0 [ascii_of_N (Z.to_N b)] []
    | Read _ n => mk_response n 0 (le32 SYNC_GRANDCHILD) []
    | Write _ _ n => answer n
    | _ => answer 0
    end.

(** Whenever [m] returns, what it returns satisfies [R]. *)
Definition returns {A} (R : A -> Prop) (m : M A) : Prop :=
  forall st a, result m st = Ret a -> R a.

(** A frame for examples: the init pipe is descriptor 3, the socket pairs
    are 4, 5 and 6, 7. *)
Definition frame_of (c : nlconfig_t) : frame := mk_frame 3 c (4, 5) (6, 7).

(** ** The wire format of the init pipe *)

Definition le16 (z : Z) : bytes :=
  map (fun i => ascii_of_N (Z.to_N ((z / 2 ^ (8 * i)) mod 2 ^ 8))) [0; 1].

(** A netlink header: length, type, flags, sequence number, port. *)
Definition nlmsghdr (len type : Z) : bytes :=
  le32 len ++ le16 type ++ le16 0 ++ le32 0 ++ le32 0.

(** An attribute: its header, its payload, and the padding to a multiple
    of four bytes. *)
Definition nlattr (type : Z) (payload : bytes) : bytes :=
  le16 (NLA_HDRLEN + Z.of_nat (length payload)) ++ le16 type ++ payload
  ++ repeat NUL (Z.to_nat ((- Z.of_nat (length payload)) mod 4)).

Definition nlattrs (attrs : list (Z * bytes)) : bytes :=
  flat_map (fun a => nlattr (fst a) (snd a)) attrs.

(** The init pipe delivers one message of type [INIT_MSG] with [payload]:
    the header at call [k], the payload two calls later; [malloc]
    succeeds.  Every other call answers 0. *)
Definition world_init_pipe (k : nat) (payload : bytes)
  : nat -> call -> response :=
  fun n c =>
    if Nat.eqb n k then
      mk_response NLMSG_HDRLEN 0
        (nlmsghdr (NLMSG_HDRLEN + Z.of_nat (length payload)) INIT_MSG) []
    else if Nat.eqb n (k + 2) then
      mk_response (Z.of_nat (length payload)) 0 payload []
    else
      match c with
      | Malloc _ => answer 1
      | _ => answer 0
      end.

(** Every call succeeds: a [write] takes all its bytes, a read of a token
    delivers [token], a read of one byte 0x80, [open] answers descriptor
    9 and [clone] pid 100. *)
Definition world_ok (token : Z) : nat -> call -> response :=
  fun _ c =>
    match c with
    | Read _ 1 => mk_response 1 0 [ascii_of_N 128] []
    | Read _ n => mk_response n 0 (le32 token) []
    | Write _ _ n => answer n
    | Open _ _ => answer 9
    | CloneParent _ _ => answer 100
    | Malloc _ | Realloc _ => answer 1
    | _ => answer 0
    end.

(** Whenever [m] returns, what it returns and what it has added to the
    trace satisfy [R]. *)
Definition ensures {A} (R : A -> list event -> Prop) (m : M A) : Prop :=
  forall st a, result m st = Ret a -> R a (emitted m st).

(** ** The rootfs *)

(** The bind-to-self mount of the rootfs. *)
Definition bind_to_self : call :=
  Mount (str ".") (Some (str ".")) (str "bind") (Z.lor MS_BIND MS_REC).

(** [mount("", parent_mount, "", MS_PRIVATE, "")] *)
Definition make_private (config : nlconfig_t) : call :=
  Mount (str "") (option_map cstr (parent_mount config)) (str "") MS_PRIVATE.

(** Among [evs] there is a bind-to-self mount that succeeded. *)
Definition bound_to_self (evs : list event) : Prop :=
  exists r, In (bind_to_self, r) evs /\ 0 <= rv r.

(** The two booleans that steer the rootfs steps are the configured ones
    throughout stage 1. *)
Definition same_rootfs_switches (c c' : nlconfig_t) : Prop :=
  prep_rootfs c' = prep_rootfs c /\ make_parent_priv c' = make_parent_priv c.

(** [mount("", "/", "", rootfs_prop, "")] *)
Definition set_propagation (config : nlconfig_t) : call :=
  Mount (str "") (Some (str "/")) (str "") (rootfs_prop config).

(** The first [mount] of [MS_PRIVATE] fails with EACCES: every such call
    earlier than call [k] does.  Every other call succeeds as in
    [world_ok]. *)
Definition world_deferred (k : nat) (token : Z) : nat -> call -> response :=
  fun n c =>
    match c with
    | Mount _ _ _ flags =>
        if (flags =? MS_PRIVATE) && Nat.ltb n k then failure 13
        else answer 0
    | _ => world_ok token n c
    end.

(** The configuration of the specification's scenario D, with a new user
    and mount namespace. *)
Definition config_deferred : nlconfig_t :=
  set_cloneflags (Z.lor CLONE_NEWUSER CLONE_NEWNS)
    (set_prep_rootfs 1
       (set_make_parent_priv 1
          (set_rootfs (Some (str "/var/lib/ctr/abc/rootfs")) 24
             (set_parent_mount (Some (str "/var/lib/ctr/abc")) 17
                (set_shiftfs_mounts_attr
                   (Some (str "/var/lib/ctr/abc/rootfs")) 24 config0))))).

(** ** The list of namespaces to join *)

(** No byte of [s] is NUL or one of [excl]. *)
Definition plain (excl : bytes) (s : bytes) : Prop :=
  Forall (fun c => is_nul c = false /\ mem_char c excl = false) s.

(** An entry of [namespaces_to_join]: the kind and the path. *)
Abbreviation ns_entry := (bytes * bytes)%type.

Definition wf_ns_entry (e : ns_entry) : Prop :=
  plain (str ":,") (fst e) /\ plain (str ",") (snd e).

(** The entry as the orchestrator writes it: [kind:path]. *)
Definition ns_token (e : ns_entry) : bytes := fst e ++ str ":" ++ snd e.

(** The list as the orchestrator writes it: the entries, separated by
    commas. *)
Fixpoint ns_list (entries : list ns_entry) : bytes :=
  match entries with
  | [] => []
  | [e] => ns_token e
  | e :: rest => ns_token e ++ str "," ++ ns_list rest
  end.

(** What follows the list in memory: nothing, or a NUL and anything. *)
Definition terminated (tail : bytes) : Prop := is_nul (peek tail) = true.

(** Opening every listed path first, in the order of the list: the
    descriptors and flags, in that order. *)
Fixpoint open_listed (entries : list ns_entry) (acc : list namespace_t)
  : M (list namespace_t) :=
  match entries with
  | [] => ret acc
  | e :: rest =>
      a <- sys (Realloc ((Z.of_nat (length acc) + 1) * sizeof_namespace_t)) ;;
      if rv a =? 0 then
        bail (str "join_namespaces") 581
             (str "failed to reallocate namespace array")
      else
        fd <- sys (Open (snd e) O_RDONLY) ;;
        if rv fd <? 0 then
          bail (str "join_namespaces") 592 (str "failed to open " ++ snd e)
        else
          open_listed rest
            (acc ++ [mk_namespace (rv fd) (nsflag (fst e))
                       (firstn (Z.to_nat (PATH_MAX - 1)) (snd e))])
  end.

(** Then [setns(fd, kind)] for every entry, in the order of the list. *)
Definition join_listed (entries : list ns_entry) : M unit :=
  namespaces <- open_listed entries [] ;;
  setns_namespaces namespaces ;;
  sys Free ;;
  ret tt.

(** The seven kinds of namespace that [nsflag] knows. *)
Definition known_kinds : list bytes :=
  [str "cgroup"; str "ipc"; str "mnt"; str "net"; str "pid"; str "user";
   str "uts"].

(** No call fails in this world. *)
Definition all_succeed (o : nat -> call -> response) : Prop :=
  forall n c, call_fails c (o n c) = false.

(** The bytes at which a scan for [reject] stops. *)
Definition stops (reject : bytes) (rest : bytes) : Prop :=
  match rest with
  | [] => True
  | c :: _ => is_nul c = true \/ mem_char c reject = true
  end.

(** The calls of the first loop on the listed entries, the array holding
    [n] elements already. *)
Fixpoint open_calls (n : nat) (entries : list ns_entry) : list call :=
  match entries with
  | [] => []
  | e :: rest =>
      Realloc ((Z.of_nat n + 1) * sizeof_namespace_t)
      :: Open (snd e) O_RDONLY :: open_calls (S n) rest
  end.

(** The calls of the second loop on the array. *)
Definition setns_calls (namespaces : list namespace_t) : list call :=
  flat_map (fun ns => [Setns (ns_fd ns) (ns_ns ns); Close (ns_fd ns)])
           namespaces.

Definition is_open (e : event) : bool :=
  match fst e with
  | Open _ _ => true
  | _ => false
  end.

(** The descriptors that the [open]s among [evs] answered. *)
Definition opened (evs : list event) : list Z :=
  map (fun e => rv (snd e)) (filter is_open evs).

(** The trace falls in two: a part with no [setns], then a part with no
    [open]. *)
Definition opens_then_setns (evs : list event) : Prop :=
  exists a b,
    evs = a ++ b /\ Forall (never KSetns) a /\ Forall (never KOpen) b.

(** Call number [n] answers [10 + n]: no call fails, and every [open]
    answers a descriptor of its own. *)
Definition world_counting : nat -> call -> response :=
  fun n _ => answer (10 + Z.of_nat n).

(** A list of three entries; the kind of the second is none of the
    seven. *)
Definition three_namespaces : list ns_entry :=
  [(str "user", str "/proc/7/ns/user");
   (str "time", str "/proc/7/ns/time");
   (str "mnt", str "/proc/7/ns/mnt")].

(** ** The attributes of the configuration *)

(** The attribute types the parser knows. *)
Definition attr_types : list Z :=
  [CLONE_FLAGS_ATTR; NS_PATHS_ATTR; UIDMAP_ATTR; GIDMAP_ATTR; SETGROUP_ATTR;
   OOM_SCORE_ADJ_ATTR; ROOTLESS_EUID_ATTR; UIDMAPPATH_ATTR; GIDMAPPATH_ATTR;
   PREP_ROOTFS_ATTR; MAKE_PARENT_PRIV_ATTR; ROOTFS_PROP_ATTR; ROOTFS_ATTR;
   PARENT_MOUNT_ATTR; SHIFTFS_MOUNTS_ATTR].

(** An attribute that fits the 16 bits of its type and of its length. *)
Definition wf_attr (a : Z * bytes) : Prop :=
  0 <= fst a < 2 ^ 16 /\ NLA_HDRLEN + Z.of_nat (length (snd a)) < 2 ^ 16.

(** From [st] on, the init pipe [fd] delivers one [INIT_MSG] message with
    [payload], and the allocation for it succeeds. *)
Definition delivers (st : proc) (fd : Z) (payload : bytes) : Prop :=
  let size := Z.of_nat (length payload) in
  let h := oracle st (clock st) (Read fd NLMSG_HDRLEN) in
  let a := oracle st (S (clock st)) (Malloc size) in
  let d := oracle st (S (S (clock st))) (Read fd size) in
  NLMSG_HDRLEN + size < 2 ^ 32 /\
  rv h = NLMSG_HDRLEN /\
  rbytes h = nlmsghdr (NLMSG_HDRLEN + size) INIT_MSG /\
  rv a <> 0 /\
  rv d = size /\
  rbytes d = payload.

Definition known_attr (t : Z) : bool := existsb (Z.eqb t) attr_types.

(** The type of the first attribute of the list that the parser does not
    know. *)
Fixpoint first_unknown (attrs : list (Z * bytes)) : option Z :=
  match attrs with
  | [] => None
  | a :: rest =>
      if known_attr (fst a) then first_unknown rest else Some (fst a)
  end.

(** The environment has _LIBCONTAINER_INITPIPE=3 and no
    _LIBCONTAINER_LOGPIPE; the init pipe delivers one message with
    [payload] once [nsexec] has read the environment and checked its
    binary. *)
Definition world_no_log_pipe (payload : bytes) : nat -> call -> response :=
  fun n c =>
    match c with
    | Getenv name =>
        if bytes_eqb name (str "_LIBCONTAINER_INITPIPE")
        then mk_response 1 0 (str "3" ++ [NUL]) []
        else answer 0
    | _ => world_init_pipe 3 payload n c
    end.

(** ** The synchronisation socket *)

Definition prefix_of {A} (l L : list A) : Prop := exists rest, L = l ++ rest.

(** The four-byte message that the event delivers on [fd], if it is a
    complete read of one. *)
Definition message_in (fd : Z) (e : event) : list Z :=
  match fst e with
  | Read fd' n =>
      if (fd' =? fd) && (n =? 4) && (rv (snd e) =? 4)
      then [readint32 (rbytes (snd e))] else []
  | _ => []
  end.

(** The four-byte messages a process receives on [fd], in order. *)
Definition received (fd : Z) (tr : list event) : list Z :=
  flat_map (message_in fd) tr.

(** The four-byte message that the event puts on [fd], if it is a
    complete write of one. *)
Definition message_out (fd : Z) (e : event) : list Z :=
  match fst e with
  | Write fd' buf n =>
      if (fd' =? fd) && (n =? 4) && (rv (snd e) =? 4)
      then [readint32 buf] else []
  | _ => []
  end.

(** The four-byte messages a process sends on [fd], in order. *)
Definition sent (fd : Z) (tr : list event) : list Z :=
  flat_map (message_out fd) tr.

(** What stage 1 sends to stage 0 when nothing fails: the request for the
    ID mappings when it has unshared the user namespace, then the pid of
    stage 2, then that it is done. *)
Definition stage1_messages (usermap : bool) (pid : Z) : list Z :=
  (if usermap then [SYNC_USERMAP_PLS] else [])
  ++ [SYNC_RECVPID_PLS; pid; SYNC_CHILD_READY].

(** Messages among which stage 0 reads no request for the ID mappings. *)
Definition quiet (msgs : list Z) : Prop :=
  msgs = [] \/ msgs = [SYNC_CHILD_READY] \/
  exists pid, msgs = [SYNC_RECVPID_PLS; pid; SYNC_CHILD_READY].

(** The computation leaves [syncfd] as it is. *)
Definition keeps_syncfd {A} (m : M A) : Prop :=
  forall st, syncfd (after m st) = syncfd st.

(** [write_file] on [path]: the event at [k] opens [path] and the next one
    writes to the descriptor it answered. *)
Definition writes_to (tr : list event) (k : nat) (path : bytes) : Prop :=
  exists o buf n w,
    nth_error tr k = Some (Open path O_RDWR, o) /\
    nth_error tr (S k) = Some (Write (rv o) buf n, w).

Definition opens_gid_map (e : event) : Prop :=
  exists pid, fst e = Open (proc_path pid "/gid_map") O_RDWR.

Definition opens_setgroups (e : event) : Prop :=
  exists pid, fst e = Open (proc_path pid "/setgroups") O_RDWR.

(** The trace splits in two: no [gid_map] is opened in the first part and
    no [setgroups] in the second. *)
Definition setgroups_then_gid_map (tr : list event) : Prop :=
  exists a b,
    tr = a ++ b /\
    Forall (fun e => ~ opens_gid_map e) a /\
    Forall (fun e => ~ opens_setgroups e) b.

(** From [st], [m] sends [msgs] on [fd] when it returns, and a prefix of
    [msgs] when it stops. *)
Definition sends_at {A} (fd : Z) (msgs : list Z) (m : M A) (st : proc)
  : Prop :=
  match result m st with
  | Ret _ => sent fd (emitted m st) = msgs
  | Stop _ => prefix_of (sent fd (emitted m st)) msgs
  end.

(** ** Worlds for the synchronisation of the stages *)

(** Every call succeeds as in [world_ok], but [clone] answers [pid]; the
    read of four bytes that is call number [n] delivers the message that
    [msgs] gives for [n], and any other read of four bytes fails. *)
Definition world_messages (pid : Z) (msgs : list (nat * Z))
  : nat -> call -> response :=
  fun n c =>
    match c with
    | Read _ 4 =>
        match find (fun m => Nat.eqb (fst m) n) msgs with
        | Some m => mk_response 4 0 (le32 (snd m)) []
        | None => failure EINTR
        end
    | CloneParent _ _ => answer pid
    | _ => world_ok 0 n c
    end.

(** A rootless container in a new user namespace, with one-entry maps and
    no setgroups. *)
Definition config_rootless : nlconfig_t :=
  set_gidmap (Some (str "0 1000 1")) 8
    (set_uidmap (Some (str "0 1000 1")) 8
       (set_is_rootless_euid 1 (set_cloneflags CLONE_NEWUSER config0))).

(** What stage 0 reads when stage 1, of pid 100, and stage 2, of pid 101,
    run to their end. *)
Definition world_parent : nat -> call -> response :=
  world_messages 100
    [(3%nat, SYNC_USERMAP_PLS); (14%nat, SYNC_RECVPID_PLS); (15%nat, 101);
     (18%nat, SYNC_CHILD_READY); (21%nat, SYNC_CHILD_READY)].

(** What stage 1 reads when stage 0 acknowledges its two requests. *)
Definition world_child : nat -> call -> response :=
  world_messages 101 [(4%nat, SYNC_USERMAP_ACK); (10%nat, SYNC_RECVPID_ACK)].

(** The event opens no file, or one of the three files of a process that
    hold its ID mappings, for reading and writing. *)
Definition opens_id_files_only (e : event) : Prop :=
  forall path flags,
    fst e = Open path flags ->
    flags = O_RDWR /\
    exists pid,
      path = proc_path pid "/setgroups" \/ path = proc_path pid "/uid_map" \/
      path = proc_path pid "/gid_map".

(** ** The attributes of a message, one after the other *)

(** What the [switch] of [nl_parse] makes of a sequence of attributes,
    each one seen through a pointer to its payload in the buffer: behind
    the payload come its padding and the attributes that follow.  [None]
    when a type is unknown. *)
Fixpoint parsed (attrs : list (Z * bytes)) (config : nlconfig_t)
  : option nlconfig_t :=
  match attrs with
  | [] => Some config
  | a :: rest =>
      let current :=
        snd a
        ++ repeat NUL (Z.to_nat ((- Z.of_nat (length (snd a))) mod 4))
        ++ nlattrs rest in
      match nl_attr (fst a) current (Z.of_nat (length (snd a))) config with
      | Some config' => parsed rest config'
      | None => None
      end
  end.

(** The content of a member of [struct nlconfig_t]: an integer, or a
    pointer into the buffer with its length. *)
Inductive field :=
| Word (z : Z)
| Text (p : option bytes) (len : Z).

(** The member, or pair of members, that belongs to an attribute type. *)
Definition field_of (t : Z) (c : nlconfig_t) : option field :=
  if t =? CLONE_FLAGS_ATTR then Some (Word (cloneflags c))
  else if t =? ROOTLESS_EUID_ATTR then Some (Word (is_rootless_euid c))
  else if t =? OOM_SCORE_ADJ_ATTR then
    Some (Text (oom_score_adj c) (oom_score_adj_len c))
  else if t =? NS_PATHS_ATTR then
    Some (Text (namespaces c) (namespaces_len c))
  else if t =? UIDMAP_ATTR then Some (Text (uidmap c) (uidmap_len c))
  else if t =? GIDMAP_ATTR then Some (Text (gidmap c) (gidmap_len c))
  else if t =? UIDMAPPATH_ATTR then
    Some (Text (uidmappath c) (uidmappath_len c))
  else if t =? GIDMAPPATH_ATTR then
    Some (Text (gidmappath c) (gidmappath_len c))
  else if t =? SETGROUP_ATTR then Some (Word (is_setgroup c))
  else if t =? PREP_ROOTFS_ATTR then Some (Word (prep_rootfs c))
  else if t =? MAKE_PARENT_PRIV_ATTR then Some (Word (make_parent_priv c))
  else if t =? ROOTFS_PROP_ATTR then Some (Word (rootfs_prop c))
  else if t =? ROOTFS_ATTR then Some (Text (rootfs c) (rootfs_len c))
  else if t =? PARENT_MOUNT_ATTR then
    Some (Text (parent_mount c) (parent_mount_len c))
  else if t =? SHIFTFS_MOUNTS_ATTR then
    Some (Text (shiftfs_mounts c) (shiftfs_mounts_len c))
  else None.

(** What an attribute of type [t] holds for its member, [current]
    pointing at its payload of [len] bytes: the 32 bits or the 8 bits at
    [current], or [current] and [len] themselves. *)
Definition stored (t : Z) (current : bytes) (len : Z) : option field :=
  if (t =? CLONE_FLAGS_ATTR) || (t =? ROOTFS_PROP_ATTR)
  then Some (Word (readint32 current))
  else if (t =? ROOTLESS_EUID_ATTR) || (t =? SETGROUP_ATTR)
          || (t =? PREP_ROOTFS_ATTR) || (t =? MAKE_PARENT_PRIV_ATTR)
  then Some (Word (readint8 current))
  else if known_attr t then Some (Text (Some current) len)
  else None.

(** ** The helper of the ID maps *)

(** An answer of [waitpid] after which the parent waits again: the call
    was interrupted, or the status tells neither an exit nor a signal. *)
Definition waits_again (r : response) : Prop :=
  (rv r < 0 /\ rerrno r = EINTR) \/
  (0 <= rv r /\
   WIFEXITED (hd 0 (rvals r)) || WIFSIGNALED (hd 0 (rvals r)) = false).

(** The helper was killed by signal 9 at its first [waitpid]; the direct
    write of a map is refused with EPERM. *)
Definition world_helper_killed : nat -> call -> response :=
  fun _ c =>
    match c with
    | Open _ _ => failure EPERM
    | Fork => answer 77
    | Waitpid _ => mk_response 77 0 [] [SIGKILL]
    | _ => answer 0
    end.

(** [waitpid] is interrupted twice and then reports [status]. *)
Definition world_interrupted (status : Z) : nat -> call -> response :=
  fun n c =>
    match c with
    | Waitpid _ =>
        if (n <? 2)%nat then failure EINTR
        else mk_response 77 0 [] [status]
    | _ => answer 0
    end.

(** Among the events there is a [fork]. *)
Definition forks (evs : list event) : Prop :=
  exists r, In (Fork, r) evs.

(** [open] answers descriptor 9 and [write] takes two bytes only; no call
    fails. *)
Definition world_short_write : nat -> call -> response :=
  fun _ c =>
    match c with
    | Open _ _ => answer 9
    | Write _ _ _ => answer 2
    | _ => answer 0
    end.

(** ** The namespaces that stage 1 unshares *)

(** The flags of the [unshare] calls among the events, in order. *)
Definition unshared (evs : list event) : list Z :=
  flat_map (fun e : event =>
              match fst e with
              | Unshare flags => [flags]
              | _ => []
              end) evs.

(** ** How a stage ends *)

(** Whenever [m] stops, the way it stops satisfies [S]. *)
Definition stops_in {A} (S : stop -> Prop) (m : M A) : Prop :=
  forall st s, result m st = Stop s -> S s.

(** The process has not ended well: it has exited with code 1, it has
    become another program, or the model has given up on it. *)
Definition failed (s : stop) : Prop := s <> Exited 0.

(** The environment has neither _LIBCONTAINER_LOGPIPE nor
    _LIBCONTAINER_INITPIPE. *)
Definition world_no_init_pipe : nat -> call -> response :=
  fun _ _ => answer 0.

(** *** The shiftfs mounts *)

(** A call [mount(p, p, "shiftfs", 0, "")] whose [p] is "." or differs
    from the string at [rootfs]. *)
Definition shiftfs_mount (rootfs : bytes) (e : event) : bool :=
  match fst e with
  | Mount source (Some target) fstype mountflags =>
      bytes_eqb source target && bytes_eqb fstype (str "shiftfs")
      && (mountflags =? 0)
      && (bytes_eqb source (str ".")
          || negb (bytes_eqb source (cstr rootfs)))
  | _ => false
  end.

Definition succeeded (e : event) : bool := 0 <=? rv (snd e).

(** Every call but the last has succeeded, and the last has failed. *)
Definition stopped_at_failure (evs : list event) : Prop :=
  exists pre e,
    evs = pre ++ [e] /\ forallb succeeded pre = true /\ rv (snd e) < 0.

(** The rootfs "/r", and the mounts "/a", "/r", "/b" and "/c"; the mount
    on "/b" fails. *)
Definition config_shiftfs : nlconfig_t :=
  set_shiftfs_mounts (Some (str "/a,/r,/b,/c" ++ [NUL]))
    (set_rootfs (Some (str "/r" ++ [NUL])) 3 config0).

Definition world_mount_b_fails : nat -> call -> response :=
  fun _ c =>
    match c with
    | Mount source _ _ _ =>
        if bytes_eqb source (str "/b") then failure 1 else answer 0
    | _ => answer 0
    end.

(** *** The report of the pids *)

(** The value of [child] in stage 0 once it has made the calls [evs],
    [child] being its value before them: [clone_parent] assigns it, and
    so does the read of a pid, which is known by the report that follows
    it. *)
Fixpoint child_after (evs : list event) (child : Z) : Z :=
  match evs with
  | [] => child
  | (CloneParent _ _, r) :: evs' => child_after evs' (rv r)
  | (DprintfPid _ pid _, _) :: evs' => child_after evs' pid
  | _ :: evs' => child_after evs' child
  end.

(** Every report of [evs] is written to the init pipe, right after a
    complete write of SYNC_RECVPID_ACK on [sfd] that itself comes right
    after a complete read on [sfd]; its "pid" is the [pid_t] that was
    read and its "pid_first" the value of [child] until then. *)
Definition reports_acked (f : frame) (sfd : Z) (child : Z)
    (evs : list event) : Prop :=
  forall pre fd pid pid_first r post,
    evs = pre ++ (DprintfPid fd pid pid_first, r) :: post ->
    fd = pipenum f /\
    pid_first = child_after pre child /\
    exists pre' rd w,
      pre = pre' ++ [(Read sfd 4, rd);
                     (Write sfd (le32 SYNC_RECVPID_ACK) 4, w)] /\
      rv rd = 4 /\ rv w = 4 /\
      pid = sint32 (readint32 (rbytes rd)).

(** The calls of stage 0 in [world_parent]. *)
Definition trace_parent : list event :=
  emitted (stage_parent 5 (frame_of config_rootless)) (start world_parent 8).

(** The environment has _LIBCONTAINER_INITPIPE=-1 and no
    _LIBCONTAINER_LOGPIPE. *)
Definition world_init_pipe_minus_1 : nat -> call -> response :=
  fun _ c =>
    match c with
    | Getenv name =>
        if bytes_eqb name (str "_LIBCONTAINER_INITPIPE")
        then mk_response 1 0 (str "-1" ++ [NUL]) []
        else answer 0
    | _ => answer 0
    end.

(** *** The end of stage 1 *)

(** The hand-over of stage 2 is complete: on [fd] the request, the pid
    and, after the acknowledgement, SYNC_CHILD_READY. *)
Definition handed_over (fd child : Z) (evs : list event) : Prop :=
  exists w1 w2 rd w3,
    evs = [(Write fd (le32 SYNC_RECVPID_PLS) 4, w1);
           (Write fd (le32 child) 4, w2);
           (Read fd 4, rd);
           (Write fd (le32 SYNC_CHILD_READY) 4, w3)] /\
    rv w1 = 4 /\ rv w2 = 4 /\
    rv rd = 4 /\ readint32 (rbytes rd) = SYNC_RECVPID_ACK /\
    rv w3 = 4.

(** The hand-over is given up: reads and writes, then SIGKILL to [child]
    and at most the fatal line. *)
Definition killed_at_end (child : Z) (evs : list event) : Prop :=
  exists q r tail,
    evs = q ++ (Kill child SIGKILL, r) :: tail /\
    Forall (only [KWrite; KRead]) q /\
    Forall (only [KDprintf]) tail.

(** What stage 1 reads when the parent acknowledges the ID mappings and
    never the pid of stage 2, which is 101. *)
Definition world_no_ack : nat -> call -> response :=
  world_messages 101 [(4%nat, SYNC_USERMAP_ACK)].

Definition trace_no_ack : list event :=
  emitted (stage_child (frame_of config_rootless)) (start world_no_ack 8).

(** ** Runs *)

Lemma result_bind {A B} (m : M A) (k : A -> M B) (st : proc) :
  result (bind m k) st =
  match result m st with
  | Ret a => result (k a) (after m st)
  | Stop s => Stop s
  end.
Proof.
  unfold result, after, bind.
  destruct (m st) as [[[a | s] e] st']; simpl; [| reflexivity].
  destruct (k a st') as [[o e'] st'']. reflexivity.
Qed.

Lemma emitted_bind {A B} (m : M A) (k : A -> M B) (st : proc) :
  emitted (bind m k) st =
  emitted m st ++
  match result m st with
  | Ret a => emitted (k a) (after m st)
  | Stop _ => []
  end.
Proof.
  unfold emitted, result, after, bind.
  destruct (m st) as [[[a | s] e] st']; simpl.
  - destruct (k a st') as [[o e'] st'']. reflexivity.
  - now rewrite app_nil_r.
Qed.

Lemma after_bind {A B} (m : M A) (k : A -> M B) (st : proc) :
  after (bind m k) st =
  match result m st with
  | Ret a => after (k a) (after m st)
  | Stop _ => after m st
  end.
Proof.
  unfold result, after, bind.
  destruct (m st) as [[[a | s] e] st']; simpl; [| reflexivity].
  destruct (k a st') as [[o e'] st'']. reflexivity.
Qed.

Lemma run_eta {A} (m : M A) (st : proc) :
  m st = (result m st, emitted m st, after m st).
Proof. unfold result, emitted, after. now destruct (m st) as [[o e] s]. Qed.

Lemma result_ret {A} (a : A) (st : proc) : result (ret a) st = Ret a.
Proof. reflexivity. Qed.

Lemma emitted_ret {A} (a : A) (st : proc) : emitted (ret a) st = [].
Proof. reflexivity. Qed.

Lemma after_ret {A} (a : A) (st : proc) : after (ret a) st = st.
Proof. reflexivity. Qed.

Lemma result_halt {A} (s : stop) (st : proc) : result (@halt A s) st = Stop s.
Proof. reflexivity. Qed.

Lemma emitted_halt {A} (s : stop) (st : proc) : emitted (@halt A s) st = [].
Proof. reflexivity. Qed.

Lemma result_exit {A} (c : Z) (st : proc) :
  result (@exit A c) st = Stop (Exited c).
Proof. reflexivity. Qed.

Lemma emitted_exit {A} (c : Z) (st : proc) : emitted (@exit A c) st = [].
Proof. reflexivity. Qed.

Lemma result_sys (c : call) (st : proc) :
  result (sys c) st = Ret (oracle st (clock st) c).
Proof. reflexivity. Qed.

Lemma emitted_sys (c : call) (st : proc) :
  emitted (sys c) st = [(c, oracle st (clock st) c)].
Proof. reflexivity. Qed.

Lemma result_get_errno (st : proc) : result get_errno st = Ret (errno st).
Proof. reflexivity. Qed.

Lemma emitted_get_errno (st : proc) : emitted get_errno st = [].
Proof. reflexivity. Qed.

Lemma after_get_errno (st : proc) : after get_errno st = st.
Proof. reflexivity. Qed.

Lemma result_get_logfd (st : proc) : result get_logfd st = Ret (logfd st).
Proof. reflexivity. Qed.

Lemma emitted_get_logfd (st : proc) : emitted get_logfd st = [].
Proof. reflexivity. Qed.

Lemma after_get_logfd (st : proc) : after get_logfd st = st.
Proof. reflexivity. Qed.

Lemma result_get_syncfd (st : proc) : result get_syncfd st = Ret (syncfd st).
Proof. reflexivity. Qed.

Lemma emitted_get_syncfd (st : proc) : emitted get_syncfd st = [].
Proof. reflexivity. Qed.

Lemma after_get_syncfd (st : proc) : after get_syncfd st = st.
Proof. reflexivity. Qed.

Lemma result_set_syncfd (fd : Z) (st : proc) :
  result (set_syncfd fd) st = Ret tt.
Proof. reflexivity. Qed.

Lemma emitted_set_syncfd (fd : Z) (st : proc) :
  emitted (set_syncfd fd) st = [].
Proof. reflexivity. Qed.

(** Runs are computed bind by bind. *)
Ltac run_simp :=
  repeat
    (progress
       rewrite ?@result_bind, ?@emitted_bind, ?@after_bind,
         ?@result_ret, ?@emitted_ret, ?@after_ret, ?@result_halt,
         ?@emitted_halt, ?@result_exit, ?@emitted_exit, ?result_sys,
         ?emitted_sys, ?result_get_errno, ?emitted_get_errno,
         ?after_get_errno, ?result_get_logfd, ?emitted_get_logfd,
         ?after_get_logfd, ?result_get_syncfd, ?emitted_get_syncfd,
         ?after_get_syncfd, ?result_set_syncfd, ?emitted_set_syncfd,
         ?app_nil_r).

(** [Q] holds of no event and of two runs in a row when it holds of
    each. *)
Section Produces.
Variable Q : list event -> Prop.
Hypothesis Q_nil : Q [].
Hypothesis Q_app : forall a b, Q a -> Q b -> Q (a ++ b).

Lemma produces_ret {A} (a : A) : produces Q (ret a).
Proof. intros st. exact Q_nil. Qed.

Lemma produces_halt {A} (s : stop) : produces Q (@halt A s).
Proof. intros st. exact Q_nil. Qed.

Lemma produces_get_errno : produces Q get_errno.
Proof. intros st. exact Q_nil. Qed.

Lemma produces_get_logfd : produces Q get_logfd.
Proof. intros st. exact Q_nil. Qed.

Lemma produces_get_syncfd : produces Q get_syncfd.
Proof. intros st. exact Q_nil. Qed.

Lemma produces_set_logfd (fd : Z) : produces Q (set_logfd fd).
Proof. intros st. exact Q_nil. Qed.

Lemma produces_set_syncfd (fd : Z) : produces Q (set_syncfd fd).
Proof. intros st. exact Q_nil. Qed.

Lemma produces_sys (c : call) : (forall r, Q [(c, r)]) -> produces Q (sys c).
Proof. intros H st. apply H. Qed.

Lemma produces_bind {A B} (m : M A) (k : A -> M B) :
  produces Q m -> (forall a, produces Q (k a)) -> produces Q (bind m k).
Proof.
  intros Hm Hk st. rewrite emitted_bind.
  apply Q_app; [apply Hm |].
  destruct (result m st); [apply Hk | exact Q_nil].
Qed.
End Produces.

Lemma produces_weaken {A} (Q Q' : list event -> Prop) (m : M A) :
  (forall evs, Q evs -> Q' evs) -> produces Q m -> produces Q' m.
Proof. intros H Hm st. apply H, Hm. Qed.

Section Emits.
Variable P : event -> Prop.

Lemma Forall_app_intro (a b : list event) :
  Forall P a -> Forall P b -> Forall P (a ++ b).
Proof. intros Ha Hb. apply Forall_app. split; assumption. Qed.

Lemma emits_ret {A} (a : A) : emits P (ret a).
Proof. apply produces_ret. constructor. Qed.

Lemma emits_halt {A} (s : stop) : emits P (@halt A s).
Proof. apply produces_halt. constructor. Qed.

Lemma emits_exit {A} (code : Z) : emits P (@exit A code).
Proof. apply emits_halt. Qed.

Lemma emits_get_errno : emits P get_errno.
Proof. apply produces_get_errno. constructor. Qed.

Lemma emits_get_logfd : emits P get_logfd.
Proof. apply produces_get_logfd. constructor. Qed.

Lemma emits_get_syncfd : emits P get_syncfd.
Proof. apply produces_get_syncfd. constructor. Qed.

Lemma emits_set_logfd (fd : Z) : emits P (set_logfd fd).
Proof. apply produces_set_logfd. constructor. Qed.

Lemma emits_set_syncfd (fd : Z) : emits P (set_syncfd fd).
Proof. apply produces_set_syncfd. constructor. Qed.

Lemma emits_sys (c : call) : (forall r, P (c, r)) -> emits P (sys c).
Proof.
  intros H. apply produces_sys. intros r.
  constructor; [apply H | constructor].
Qed.

Lemma emits_bind {A B} (m : M A) (k : A -> M B) :
  emits P m -> (forall a, emits P (k a)) -> emits P (bind m k).
Proof. apply produces_bind; [constructor | exact Forall_app_intro]. Qed.
End Emits.

Lemma emits_weaken {A} (P Q : event -> Prop) (m : M A) :
  (forall e, P e -> Q e) -> emits P m -> emits Q m.
Proof.
  intros H. apply produces_weaken.
  intros evs. apply Forall_impl. exact H.
Qed.

Lemma only_incl (ks ks' : list kind) (e : event) :
  incl ks ks' -> only ks e -> only ks' e.
Proof. intros H Hin. apply H. exact Hin. Qed.

Lemma emits_only_incl {A} (ks ks' : list kind) (m : M A) :
  incl ks ks' -> emits (only ks) m -> emits (only ks') m.
Proof. intros H. apply emits_weaken. intros e. apply only_incl. exact H. Qed.

(** The footprint of a computation is solved by walking its binds. *)
Ltac in_kinds := simpl; tauto.

Ltac incl_kinds :=
  let k := fresh "k" in
  let H := fresh "H" in
  intros k H; simpl in H;
  repeat (destruct H as [H | H]; [subst k; simpl; tauto |]);
  destruct H.

Ltac emits_walk :=
  repeat
    match goal with
    | |- emits _ (bind _ _) => apply emits_bind; [| intros ?]
    | |- emits _ (ret _) => apply emits_ret
    | |- emits _ (halt _) => apply emits_halt
    | |- emits _ (exit _) => apply emits_exit
    | |- emits _ get_errno => apply emits_get_errno
    | |- emits _ get_logfd => apply emits_get_logfd
    | |- emits _ get_syncfd => apply emits_get_syncfd
    | |- emits _ (set_logfd _) => apply emits_set_logfd
    | |- emits _ (set_syncfd _) => apply emits_set_syncfd
    | |- emits (only _) (sys _) =>
        apply emits_sys; intros ?; unfold only; in_kinds
    | |- emits _ (if ?b then _ else _) => destruct b
    | |- emits _ (match ?x with _ => _ end) => destruct x
    end.

Lemma emits_write_log (ks : list kind) level func line msg errnum :
  In KDprintf ks ->
  emits (only ks) (write_log_with_info level func line msg errnum).
Proof.
  intros H. unfold write_log_with_info. emits_walk.
Qed.

Lemma emits_bail {A} (ks : list kind) func line msg :
  In KDprintf ks -> emits (only ks) (@bail A func line msg).
Proof.
  intros H. unfold bail. emits_walk. apply emits_write_log. exact H.
Qed.

Lemma bail_exits {A} func line msg (st : proc) :
  result (@bail A func line msg) st = Stop (Exited 1).
Proof.
  unfold result, bail, write_log_with_info, bind, get_errno, get_logfd.
  destruct (logfd st <? 0); reflexivity.
Qed.

Create HintDb emits.

(** A call of a function whose footprint is known is covered by it. *)
Ltac emits_known :=
  eapply emits_only_incl; [| solve [auto with emits]]; incl_kinds.

Ltac emits_leaf :=
  match goal with
  | |- emits (only _) (bail _ _ _) => apply emits_bail; in_kinds
  | |- emits (only _) (write_log_with_info _ _ _ _ _) =>
      apply emits_write_log; in_kinds
  | |- emits _ _ => assumption
  | |- emits (only _) _ => emits_known
  end.

Ltac emits_auto := repeat (first [progress emits_walk | emits_leaf]).

Lemma emits_write_file data data_len path :
  emits (only [KOpen; KWrite; KClose]) (write_file data data_len path).
Proof. unfold write_file. emits_auto. Qed.
#[local] Hint Resolve emits_write_file : emits.

Lemma emits_update_setgroups pid setgroup :
  emits (only [KOpen; KWrite; KClose; KDprintf])
        (update_setgroups pid setgroup).
Proof. unfold update_setgroups. emits_auto. Qed.
#[local] Hint Resolve emits_update_setgroups : emits.

Lemma emits_wait_child fuel child :
  emits (only [KWaitpid; KDprintf]) (wait_child fuel child).
Proof.
  induction fuel as [| fuel IH]; simpl; [apply emits_halt |].
  emits_auto.
Qed.
#[local] Hint Resolve emits_wait_child : emits.

Lemma emits_execve path argv envp :
  emits (only [KExecve]) (execve path argv envp).
Proof. unfold execve. emits_auto. Qed.
#[local] Hint Resolve emits_execve : emits.

Lemma emits_try_mapping_tool fuel app pid map map_len :
  emits (only [KFork; KExecve; KWaitpid; KDprintf])
        (try_mapping_tool fuel app pid map map_len).
Proof. unfold try_mapping_tool. emits_auto. Qed.
#[local] Hint Resolve emits_try_mapping_tool : emits.

Lemma emits_update_uidmap fuel path pid map map_len :
  emits (only [KOpen; KWrite; KClose; KFork; KExecve; KWaitpid; KDprintf])
        (update_uidmap fuel path pid map map_len).
Proof. unfold update_uidmap. emits_auto. Qed.
#[local] Hint Resolve emits_update_uidmap : emits.

Lemma emits_update_gidmap fuel path pid map map_len :
  emits (only [KOpen; KWrite; KClose; KFork; KExecve; KWaitpid; KDprintf])
        (update_gidmap fuel path pid map map_len).
Proof. unfold update_gidmap. emits_auto. Qed.
#[local] Hint Resolve emits_update_gidmap : emits.

Lemma emits_update_oom_score_adj data len :
  emits (only [KOpen; KWrite; KClose; KDprintf])
        (update_oom_score_adj data len).
Proof. unfold update_oom_score_adj. emits_auto. Qed.
#[local] Hint Resolve emits_update_oom_score_adj : emits.

Lemma emits_emitted {A} (P : event -> Prop) (m : M A) (st : proc) :
  emits P m -> Forall P (emitted m st).
Proof. intros H. apply H. Qed.

Lemma only_never (ks : list kind) (k : kind) (e : event) :
  ~ In k ks -> only ks e -> never k e.
Proof. intros Hn Ho Hk. apply Hn. rewrite <- Hk. exact Ho. Qed.

Lemma emits_update_uidmap_no_tool fuel pid map map_len :
  emits (only [KOpen; KWrite; KClose; KDprintf])
        (update_uidmap fuel None pid map map_len).
Proof. unfold update_uidmap, try_mapping_tool. emits_auto. Qed.

Lemma emits_update_gidmap_no_tool fuel pid map map_len :
  emits (only [KOpen; KWrite; KClose; KDprintf])
        (update_gidmap fuel None pid map map_len).
Proof. unfold update_gidmap, try_mapping_tool. emits_auto. Qed.

Lemma bail_run {A} func line msg (st : proc) :
  @bail A func line msg st
  = (Stop (Exited 1),
     emitted (write_log_with_info FATAL func line (str "nsenter: " ++ msg)
                                  (Some (errno st))) st,
     after (write_log_with_info FATAL func line (str "nsenter: " ++ msg)
                                (Some (errno st))) st).
Proof.
  unfold emitted, after, bail, write_log_with_info, bind, get_errno,
    get_logfd.
  destruct (logfd st <? 0); reflexivity.
Qed.

Lemma bind_bail {A B} func line msg (k : A -> M B) (st : proc) :
  bind (bail func line msg) k st = bail func line msg st.
Proof. unfold bind. rewrite !bail_run. reflexivity. Qed.

(** ** Footprints of the stages *)

Lemma emits_write_sync s : emits (only [KWrite]) (write_sync s).
Proof. unfold write_sync. emits_auto. Qed.
#[local] Hint Resolve emits_write_sync : emits.

Lemma emits_read_sync : emits (only [KRead]) read_sync.
Proof. unfold read_sync. emits_auto. Qed.
#[local] Hint Resolve emits_read_sync : emits.

Lemma emits_kill pid : emits (only [KKill]) (kill pid).
Proof. unfold kill. emits_auto. Qed.
#[local] Hint Resolve emits_kill : emits.

Lemma emits_clone_parent jmpval f :
  emits (only [KCloneParent]) (clone_parent jmpval f).
Proof. unfold clone_parent. emits_auto. Qed.
#[local] Hint Resolve emits_clone_parent : emits.

Lemma emits_getenv name : emits (only [KGetenv]) (getenv name).
Proof. unfold getenv. emits_auto. Qed.
#[local] Hint Resolve emits_getenv : emits.

Lemma emits_socketpair : emits (only [KSocketpair]) socketpair.
Proof. unfold socketpair. emits_auto. Qed.
#[local] Hint Resolve emits_socketpair : emits.

Lemma emits_nl_free config : emits (only [KFree]) (nl_free config).
Proof. unfold nl_free. emits_auto. Qed.
#[local] Hint Resolve emits_nl_free : emits.

Lemma emits_open_namespaces fuel namespace saveptr namespaces :
  emits (only [KRealloc; KOpen; KDprintf])
        (open_namespaces fuel namespace saveptr namespaces).
Proof.
  revert namespace saveptr namespaces.
  induction fuel as [| fuel IH]; intros; simpl; [apply emits_halt |].
  emits_auto; apply IH.
Qed.
#[local] Hint Resolve emits_open_namespaces : emits.

Lemma emits_setns_namespaces namespaces :
  emits (only [KSetns; KClose; KDprintf]) (setns_namespaces namespaces).
Proof.
  induction namespaces as [| ns rest IH]; simpl; emits_auto.
Qed.
#[local] Hint Resolve emits_setns_namespaces : emits.

Lemma emits_join_namespaces nslist :
  emits (only [KRealloc; KOpen; KSetns; KClose; KFree; KDprintf])
        (join_namespaces nslist).
Proof. unfold join_namespaces. emits_auto. Qed.
#[local] Hint Resolve emits_join_namespaces : emits.

Lemma emits_shiftfs_loop fuel rootfs mntpath saveptr :
  emits (only [KMount]) (shiftfs_loop fuel rootfs mntpath saveptr).
Proof.
  revert mntpath saveptr.
  induction fuel as [| fuel IH]; intros; simpl; [apply emits_halt |].
  emits_auto; apply IH.
Qed.
#[local] Hint Resolve emits_shiftfs_loop : emits.

Lemma emits_mount_shiftfs config :
  emits (only [KMount]) (mount_shiftfs config).
Proof. unfold mount_shiftfs. emits_auto. Qed.
#[local] Hint Resolve emits_mount_shiftfs : emits.

Lemma emits_child_unshare_first config :
  emits (only [KUnshare; KDprintf]) (child_unshare_first config).
Proof. unfold child_unshare_first. emits_auto. Qed.
#[local] Hint Resolve emits_child_unshare_first : emits.

Lemma emits_child_prep_rootfs config :
  emits (only [KMount; KDprintf]) (child_prep_rootfs config).
Proof. unfold child_prep_rootfs. emits_auto. Qed.
#[local] Hint Resolve emits_child_prep_rootfs : emits.

Lemma emits_child_usermap config :
  emits (only [KPrctl; KWrite; KRead; KSetresuid; KDprintf])
        (child_usermap config).
Proof. unfold child_usermap. emits_auto. Qed.
#[local] Hint Resolve emits_child_usermap : emits.

Lemma emits_child_retry_rootfs config d s :
  emits (only [KMount; KDprintf]) (child_retry_rootfs config d s).
Proof. unfold child_retry_rootfs. emits_auto. Qed.
#[local] Hint Resolve emits_child_retry_rootfs : emits.

Lemma emits_child_clone_init f :
  emits (only [KCloneParent; KWrite; KRead; KKill; KDprintf])
        (child_clone_init f).
Proof. unfold child_clone_init. emits_auto. Qed.
#[local] Hint Resolve emits_child_clone_init : emits.

Lemma emits_child_rootfs config nu :
  emits (only [KMount; KPrctl; KWrite; KRead; KSetresuid; KDprintf])
        (child_rootfs config nu).
Proof. unfold child_rootfs. emits_auto. Qed.
#[local] Hint Resolve emits_child_rootfs : emits.

Lemma emits_child_setup f :
  emits (only [KClose; KPrctlSetName; KRealloc; KOpen; KSetns; KFree;
               KUnshare; KMount; KPrctl; KWrite; KRead; KSetresuid;
               KDprintf])
        (child_setup f).
Proof. unfold child_setup. emits_auto. Qed.
#[local] Hint Resolve emits_child_setup : emits.

Lemma emits_parent_usermap fuel config child :
  emits (only [KOpen; KWrite; KClose; KFork; KExecve; KWaitpid; KKill;
               KDprintf])
        (parent_usermap fuel config child).
Proof. unfold parent_usermap. emits_auto. Qed.
#[local] Hint Resolve emits_parent_usermap : emits.

Lemma emits_parent_recvpid f child :
  emits (only [KRead; KWrite; KKill; KDprintfPid; KDprintf])
        (parent_recvpid f child).
Proof. unfold parent_recvpid. emits_auto. Qed.
#[local] Hint Resolve emits_parent_recvpid : emits.

Lemma emits_parent_sync_child fuel f child :
  emits (only [KRead; KOpen; KWrite; KClose; KFork; KExecve; KWaitpid;
               KKill; KDprintfPid; KDprintf])
        (parent_sync_child fuel f child).
Proof.
  revert child.
  induction fuel as [| fuel IH]; intros; simpl; [apply emits_halt |].
  emits_auto; apply IH.
Qed.
#[local] Hint Resolve emits_parent_sync_child : emits.

Lemma emits_parent_sync_grandchild child :
  emits (only [KRead; KWrite; KKill; KDprintf]) (parent_sync_grandchild child).
Proof. unfold parent_sync_grandchild. emits_auto. Qed.
#[local] Hint Resolve emits_parent_sync_grandchild : emits.

Lemma emits_stage_parent fuel f :
  emits (only [KPrctlSetName; KCloneParent; KRead; KOpen; KWrite; KClose;
               KFork; KExecve; KWaitpid; KKill; KDprintfPid; KDprintf])
        (stage_parent fuel f).
Proof. unfold stage_parent. emits_auto. Qed.

Lemma emits_init_cgroupns f :
  emits (only [KRead; KUnshare; KDprintf]) (init_cgroupns f).
Proof. unfold init_cgroupns. emits_auto. Qed.
#[local] Hint Resolve emits_init_cgroupns : emits.

Lemma emitted_bail {A} func line msg (st : proc) :
  emitted (@bail A func line msg) st = fatal_line st func line msg.
Proof.
  unfold emitted, fatal_line, bail, write_log_with_info, bind, get_errno,
    get_logfd.
  destruct (logfd st <? 0); reflexivity.
Qed.

Lemma fatal_line_only (st : proc) func line msg :
  Forall (only [KDprintf]) (fatal_line st func line msg).
Proof.
  unfold fatal_line. destruct (logfd st <? 0); repeat constructor.
Qed.

Lemma emits_bail_log {A} func line msg :
  emits (only [KDprintf]) (@bail A func line msg).
Proof. apply emits_bail. in_kinds. Qed.
#[local] Hint Resolve emits_bail_log : emits.

Lemma emits_sys_kind (c : call) : emits (only [kind_of c]) (sys c).
Proof. apply emits_sys. intros r. left. reflexivity. Qed.
#[local] Hint Resolve emits_sys_kind : emits.

(** ** The cgroup namespace *)

Lemma only_unshares_no_cgroupns (ks : list kind) (e : event) :
  ~ In KUnshare ks -> only ks e -> unshares_no_cgroupns e.
Proof.
  intros Hn Ho flags He. exfalso. apply Hn.
  unfold only in Ho. rewrite He in Ho. exact Ho.
Qed.

Lemma land_lnot_cgroupns (flags : Z) :
  Z.land (Z.land flags (Z.lnot CLONE_NEWCGROUP)) CLONE_NEWCGROUP = 0.
Proof.
  rewrite <- Z.land_assoc, (Z.land_comm (Z.lnot CLONE_NEWCGROUP)).
  rewrite Z.land_lnot_diag. apply Z.land_0_r.
Qed.

(** A call of a function that never unshares. *)
Ltac no_unshare :=
  eapply emits_weaken;
  [| solve [auto with emits]];
  intros ?; apply only_unshares_no_cgroupns; simpl; intuition discriminate.

Lemma emits_child_unshare_first_no_cgroupns config :
  emits unshares_no_cgroupns (child_unshare_first config).
Proof.
  unfold child_unshare_first.
  repeat (first [progress emits_walk
                | apply emits_sys; intros r flags E; simpl in E;
                  inversion E; reflexivity
                | no_unshare ]).
Qed.

Lemma emits_child_setup_no_cgroupns f :
  emits unshares_no_cgroupns (child_setup f).
Proof.
  unfold child_setup.
  repeat (first [progress emits_walk
                | apply emits_child_unshare_first_no_cgroupns
                | apply emits_sys; intros r flags E; simpl in E;
                  inversion E; apply land_lnot_cgroupns
                | apply emits_sys; intros r flags E; simpl in E;
                  discriminate E
                | no_unshare ]).
Qed.

Lemma emits_stage_child_no_cgroupns f :
  emits unshares_no_cgroupns (stage_child f).
Proof.
  unfold stage_child. apply emits_bind.
  - apply emits_child_setup_no_cgroupns.
  - intros f'. no_unshare.
Qed.

Lemma unshares_after_handoff_nil (pn : Z) : unshares_after_handoff pn [].
Proof. intros i flags u H. destruct i; discriminate H. Qed.

Lemma unshares_after_handoff_app (pn : Z) (a b : list event) :
  unshares_after_handoff pn a -> unshares_after_handoff pn b ->
  unshares_after_handoff pn (a ++ b).
Proof.
  intros Ha Hb i flags u H.
  destruct (Nat.lt_ge_cases i (length a)) as [Hi | Hi].
  - rewrite nth_error_app1 in H by exact Hi.
    destruct (Ha i flags u H) as (Hf & j & r & Hj & Hn & Hr & Hv).
    split; [exact Hf |]. exists j, r.
    split; [exact Hj |]. split; [| split; assumption].
    rewrite nth_error_app1 by lia. exact Hn.
  - rewrite nth_error_app2 in H by exact Hi.
    destruct (Hb _ flags u H) as (Hf & j & r & Hj & Hn & Hr & Hv).
    split; [exact Hf |]. exists (length a + j)%nat, r.
    split; [lia |]. split; [| split; assumption].
    rewrite nth_error_app2 by lia.
    replace (length a + j - length a)%nat with j by lia. exact Hn.
Qed.

Lemma never_unshares_after_handoff (pn : Z) (evs : list event) :
  Forall (never KUnshare) evs -> unshares_after_handoff pn evs.
Proof.
  intros Hf i flags u H. exfalso.
  apply nth_error_In in H.
  rewrite Forall_forall in Hf. apply (Hf _ H). reflexivity.
Qed.

Lemma emits_never {A} (ks : list kind) (k : kind) (m : M A) :
  ~ In k ks -> emits (only ks) m -> emits (never k) m.
Proof. intros Hn. apply emits_weaken. intros e. apply only_never, Hn. Qed.

(** What [init_cgroupns] adds when the flag is set: the read, then
    either the [unshare] or, after any other answer, the fatal line. *)
Lemma emitted_init_cgroupns (f : frame) (st : proc) :
  nonzero (Z.land (cloneflags (config f)) CLONE_NEWCGROUP) = true ->
  let r := oracle st (clock st) (Read (pipenum f) 1) in
  let st1 := after (sys (Read (pipenum f) 1)) st in
  emitted (init_cgroupns f) st =
  (Read (pipenum f) 1, r) ::
  if negb (rv r =? 1) then
    fatal_line st1 (str "nsexec") 1189
               (str "read synchronisation value failed")
  else if readint8 (rbytes r) =? CREATECGROUPNS then
    let u := oracle st1 (clock st1) (Unshare CLONE_NEWCGROUP) in
    (Unshare CLONE_NEWCGROUP, u) ::
    if rv u <? 0 then
      fatal_line (after (sys (Unshare CLONE_NEWCGROUP)) st1) (str "nsexec")
                 1192 (str "failed to unshare cgroup namespace")
    else []
  else
    fatal_line st1 (str "nsexec") 1194
               (str "received unknown synchronisation value").
Proof.
  intros Hflag r st1. unfold init_cgroupns. rewrite Hflag.
  run_simp. fold r. fold st1. cbv zeta.
  destruct (negb (rv r =? 1)).
  - now rewrite emitted_bail.
  - destruct (readint8 (rbytes r) =? CREATECGROUPNS).
    + run_simp. destruct (rv _ <? 0).
      * now rewrite emitted_bail.
      * now run_simp.
    + now rewrite emitted_bail.
Qed.

Lemma fatal_line_never (k : kind) (st : proc) func line msg :
  k <> KDprintf -> Forall (never k) (fatal_line st func line msg).
Proof.
  intros Hk. eapply Forall_impl; [| apply fatal_line_only].
  intros e He. eapply only_never; [| exact He].
  simpl. intuition congruence.
Qed.

Lemma produces_init_cgroupns (f : frame) :
  produces (unshares_after_handoff (pipenum f)) (init_cgroupns f).
Proof.
  intros st.
  destruct (nonzero (Z.land (cloneflags (config f)) CLONE_NEWCGROUP))
    eqn:Hflag.
  - rewrite emitted_init_cgroupns by exact Hflag. cbv zeta.
    set (r := oracle st (clock st) (Read (pipenum f) 1)).
    destruct (negb (rv r =? 1)) eqn:Hr.
    + apply never_unshares_after_handoff. constructor.
      * discriminate.
      * apply fatal_line_never. discriminate.
    + destruct (readint8 (rbytes r) =? CREATECGROUPNS) eqn:Hb.
      * intros i flags u H.
        destruct i as [| [| i]]; simpl in H.
        -- discriminate H.
        -- inversion H; subst. split; [reflexivity |].
           exists 0%nat, r. repeat split.
           ++ apply negb_false_iff, Z.eqb_eq in Hr. exact Hr.
           ++ apply Z.eqb_eq. exact Hb.
        -- exfalso. apply nth_error_In in H.
           destruct (rv _ <? 0); [| destruct H].
           pose proof (fatal_line_never KUnshare
                         (after (sys (Unshare CLONE_NEWCGROUP))
                                (after (sys (Read (pipenum f) 1)) st))
                         (str "nsexec") 1192
                         (str "failed to unshare cgroup namespace")) as Hn.
           rewrite Forall_forall in Hn.
           apply (Hn ltac:(discriminate) _ H). reflexivity.
      * apply never_unshares_after_handoff. constructor.
        -- discriminate.
        -- apply fatal_line_never. discriminate.
  - unfold emitted, init_cgroupns. rewrite Hflag.
    apply unshares_after_handoff_nil.
Qed.

Lemma produces_never_unshare {A} (pn : Z) (ks : list kind) (m : M A) :
  ~ In KUnshare ks -> emits (only ks) m ->
  produces (unshares_after_handoff pn) m.
Proof.
  intros Hn Hm st. apply never_unshares_after_handoff.
  apply (emits_never ks KUnshare m Hn Hm).
Qed.

(** A call of a function that never unshares, in stage 2. *)
Ltac no_unshare_init :=
  eapply produces_never_unshare;
  [| solve [auto with emits]]; simpl; intuition discriminate.

Lemma emits_init_oom_score_adj config :
  emits (only [KPrctl; KOpen; KWrite; KClose; KDprintf])
        (init_oom_score_adj config).
Proof. unfold init_oom_score_adj. emits_auto. Qed.
#[local] Hint Resolve emits_init_oom_score_adj : emits.

Lemma emits_init_identity config :
  emits (only [KSetsid; KSetuid; KSetgid; KSetgroups; KDprintf])
        (init_identity config).
Proof. unfold init_identity. emits_auto. Qed.
#[local] Hint Resolve emits_init_identity : emits.

Lemma produces_stage_init (f : frame) :
  produces (unshares_after_handoff (pipenum f)) (stage_init f).
Proof.
  unfold stage_init.
  repeat (first
            [ no_unshare_init
            | apply produces_init_cgroupns
            | apply produces_ret; apply unshares_after_handoff_nil
            | apply produces_set_syncfd; apply unshares_after_handoff_nil
            | match goal with
              | |- produces _ (if ?b then _ else _) => destruct b
              | |- produces _ (match ?x with _ => _ end) => destruct x
              end
            | apply produces_bind;
              [ apply unshares_after_handoff_nil
              | apply unshares_after_handoff_app | | intros ? ] ]).
Qed.

(** ** What the stages return *)

Lemma returns_ret {A} (R : A -> Prop) (a : A) : R a -> returns R (ret a).
Proof. intros H st a' E. inversion E. subst. exact H. Qed.

Lemma returns_halt {A} (R : A -> Prop) (s : stop) : returns R (@halt A s).
Proof. intros st a E. discriminate E. Qed.

Lemma returns_bail {A} (R : A -> Prop) func line msg :
  returns R (@bail A func line msg).
Proof. intros st a E. rewrite bail_exits in E. discriminate E. Qed.

Lemma returns_bind {A B} (R1 : A -> Prop) (R : B -> Prop)
    (m : M A) (k : A -> M B) :
  returns R1 m -> (forall a, R1 a -> returns R (k a)) ->
  returns R (bind m k).
Proof.
  intros Hm Hk st b E. rewrite result_bind in E.
  destruct (result m st) as [a | s] eqn:Ea; [| discriminate E].
  exact (Hk a (Hm st a Ea) _ b E).
Qed.

Lemma returns_weaken {A} (R R' : A -> Prop) (m : M A) :
  (forall a, R a -> R' a) -> returns R m -> returns R' m.
Proof. intros H Hm st a E. apply H, (Hm st a E). Qed.

Lemma returns_any {A} (m : M A) : returns (fun _ => True) m.
Proof. intros st a _. exact I. Qed.

Lemma cloneflags_set_cloneflags v c : cloneflags (set_cloneflags v c) = v.
Proof. now destruct c. Qed.

Lemma cloneflags_set_shiftfs_mounts v c :
  cloneflags (set_shiftfs_mounts v c) = cloneflags c.
Proof. now destruct c. Qed.

Lemma land_lnot_other (flags a b : Z) :
  Z.land a b = 0 ->
  Z.land (Z.land flags (Z.lnot a)) b = Z.land flags b.
Proof.
  intros H. apply Z.bits_inj'. intros n Hn.
  rewrite !Z.land_spec, Z.lnot_spec by exact Hn.
  assert (Hb : Z.testbit (Z.land a b) n = false)
    by (rewrite H; apply Z.bits_0).
  rewrite Z.land_spec in Hb.
  destruct (Z.testbit flags n), (Z.testbit a n), (Z.testbit b n);
    simpl in *; congruence.
Qed.

Lemma returns_child_unshare_first (c : nlconfig_t) :
  returns (fun u : nlconfig_t * bool =>
             Z.land (cloneflags (fst u)) CLONE_NEWCGROUP
             = Z.land (cloneflags c) CLONE_NEWCGROUP)
          (child_unshare_first c).
Proof.
  unfold child_unshare_first.
  eapply returns_bind with
    (R1 := fun u : nlconfig_t * bool =>
             Z.land (cloneflags (fst u)) CLONE_NEWCGROUP
             = Z.land (cloneflags c) CLONE_NEWCGROUP).
  - destruct (nonzero _).
    + eapply returns_bind; [apply returns_any |]. intros r _.
      destruct (rv r <? 0); [apply returns_bail |].
      apply returns_ret. simpl. rewrite cloneflags_set_cloneflags.
      apply land_lnot_other. reflexivity.
    + apply returns_ret. reflexivity.
  - intros [c1 nu] H1. simpl in H1.
    destruct (nonzero _).
    + eapply returns_bind; [apply returns_any |]. intros r _.
      destruct (rv r <? 0); [apply returns_bail |].
      apply returns_ret. simpl. rewrite cloneflags_set_cloneflags.
      rewrite land_lnot_other by reflexivity. exact H1.
    + apply returns_ret. exact H1.
Qed.

Lemma returns_mount_shiftfs (c : nlconfig_t) :
  returns (fun s : Z * nlconfig_t => cloneflags (snd s) = cloneflags c)
          (mount_shiftfs c).
Proof.
  unfold mount_shiftfs.
  destruct (shiftfs_mounts c) as [mntlist |]; [| apply returns_halt].
  destruct (strtok_r mntlist (str ",")) as [[mntpath |] saveptr].
  - destruct (_ || _).
    + apply returns_ret. apply cloneflags_set_shiftfs_mounts.
    + eapply returns_bind; [apply returns_any |]. intros r _.
      apply returns_ret. apply cloneflags_set_shiftfs_mounts.
  - apply returns_ret. apply cloneflags_set_shiftfs_mounts.
Qed.

Lemma returns_child_prep_rootfs (c : nlconfig_t) :
  returns (fun p : nlconfig_t * bool * bool =>
             cloneflags (fst (fst p)) = cloneflags c)
          (child_prep_rootfs c).
Proof.
  unfold child_prep_rootfs.
  destruct (nonzero (prep_rootfs c)); [| apply returns_ret; reflexivity].
  eapply returns_bind; [apply returns_any |]. intros r _.
  destruct (rv r <? 0); [apply returns_bail |].
  eapply returns_bind; [apply returns_any |]. intros d _.
  destruct (_ || _); [| apply returns_ret; reflexivity].
  eapply returns_bind; [apply returns_any |]. intros b _.
  destruct (rv b <? 0); [apply returns_bail |].
  eapply returns_bind; [apply returns_mount_shiftfs |]. intros s Hs.
  apply returns_ret. exact Hs.
Qed.

Lemma returns_child_retry_rootfs (c : nlconfig_t) (d s : bool) :
  returns (fun c' : nlconfig_t => cloneflags c' = cloneflags c)
          (child_retry_rootfs c d s).
Proof.
  unfold child_retry_rootfs.
  eapply returns_bind; [apply returns_any |]. intros _ _.
  destruct (_ && _); [| apply returns_ret; reflexivity].
  eapply returns_bind; [apply returns_mount_shiftfs |]. intros r Hr.
  destruct (fst r <? 0); [apply returns_bail |].
  apply returns_ret. exact Hr.
Qed.

Lemma returns_child_rootfs (c : nlconfig_t) (nu : bool) :
  returns (fun c' : nlconfig_t => cloneflags c' = cloneflags c)
          (child_rootfs c nu).
Proof.
  unfold child_rootfs.
  eapply returns_bind; [apply returns_child_prep_rootfs |].
  intros [[c2 d] s] H2. simpl in H2.
  eapply returns_bind; [apply returns_any |]. intros _ _.
  eapply returns_weaken; [| apply returns_child_retry_rootfs].
  intros c3 H3. simpl in H3. congruence.
Qed.

(** Stage 2 starts with the cgroup flag as the configuration has it. *)
Lemma returns_child_setup (f : frame) :
  returns (fun f' : frame =>
             pipenum f' = pipenum f /\
             Z.land (cloneflags (config f')) CLONE_NEWCGROUP
             = Z.land (cloneflags (config f)) CLONE_NEWCGROUP)
          (child_setup f).
Proof.
  unfold child_setup.
  eapply returns_bind; [apply returns_any |]. intros _ _.
  eapply returns_bind; [apply returns_any |]. intros _ _.
  eapply returns_bind; [apply returns_any |]. intros _ _.
  eapply returns_bind; [apply returns_any |]. intros _ _.
  eapply returns_bind; [apply returns_child_unshare_first |].
  intros [c1 nu] H1. simpl in H1.
  eapply returns_bind; [apply returns_child_rootfs |].
  intros c3 H3.
  eapply returns_bind; [apply returns_any |]. intros r _.
  destruct (rv r <? 0); [apply returns_bail |].
  apply returns_ret. simpl. split; [reflexivity |].
  rewrite H3. exact H1.
Qed.

Lemma emits_child_clone_init_config (f : frame) :
  emits (fun e => forall j c, fst e = CloneParent j c -> c = config f)
        (child_clone_init f).
Proof.
  unfold child_clone_init, clone_parent.
  repeat (first
            [ progress emits_walk
            | apply emits_sys; intros r j c E; simpl in E;
              inversion E; reflexivity
            | apply emits_sys; intros r j c E; simpl in E; discriminate E
            | eapply emits_weaken;
              [| solve [auto with emits]];
              intros e He j c E; exfalso; unfold only in He;
              rewrite E in He; simpl in He; intuition discriminate ]).
Qed.

Lemma stage_child_clones_with_cgroup_flag (f : frame) (st : proc) c r :
  In (CloneParent JUMP_INIT c, r) (emitted (stage_child f) st) ->
  Z.land (cloneflags c) CLONE_NEWCGROUP
  = Z.land (cloneflags (config f)) CLONE_NEWCGROUP.
Proof.
  unfold stage_child. rewrite emitted_bind. intros H.
  apply in_app_or in H. destruct H as [H | H].
  - exfalso.
    pose proof (emits_emitted _ _ st (emits_child_setup f)) as Hf.
    rewrite Forall_forall in Hf. specialize (Hf _ H).
    unfold only in Hf. simpl in Hf. intuition discriminate.
  - destruct (result (child_setup f) st) as [f' |] eqn:E; [| destruct H].
    pose proof (emits_emitted _ _ (after (child_setup f) st)
                  (emits_child_clone_init_config f')) as Hf.
    rewrite Forall_forall in Hf.
    rewrite (Hf _ H JUMP_INIT c eq_refl).
    exact (proj2 (returns_child_setup f st f' E)).
Qed.

(** ** Writing a file *)

(** What [write_file] adds: the [open] and, when it succeeds, the [write]
    of the bytes and the [close]. *)
Lemma emitted_write_file (data : bytes) (len : Z) (path : bytes) (st : proc) :
  let o := oracle st (clock st) (Open path O_RDWR) in
  let st1 := after (sys (Open path O_RDWR)) st in
  let wr := Write (rv o) (firstn (Z.to_nat len) data) len in
  let st2 := after (sys wr) st1 in
  emitted (write_file data len path) st =
  (Open path O_RDWR, o) ::
  if rv o <? 0 then []
  else [(wr, oracle st1 (clock st1) wr);
        (Close (rv o), oracle st2 (clock st2) (Close (rv o)))].
Proof.
  cbv zeta. unfold write_file. run_simp.
  destruct (rv (oracle st (clock st) (Open path O_RDWR)) <? 0).
  - now run_simp.
  - run_simp.
    destruct (negb _); now run_simp.
Qed.

Lemma result_write_file (data : bytes) (len : Z) (path : bytes) (st : proc) :
  result (write_file data len path) st = Ret 0 \/
  result (write_file data len path) st = Ret (-1).
Proof.
  unfold write_file. run_simp.
  destruct (rv _ <? 0); run_simp; [now right |].
  destruct (negb _); run_simp; [now right | now left].
Qed.

Lemma update_oom_score_adj_present (d : bytes) (len : Z) (st : proc) :
  0 < len ->
  let w := write_file d len (str "/proc/self/oom_score_adj") in
  emitted (update_oom_score_adj (Some d) len) st
  = emitted w st
    ++ (if match result w st with Ret r => r <? 0 | Stop _ => false end
        then fatal_line (after w st) (str "update_oom_score_adj") 353
                        (str "failed to update /proc/self/oom_score_adj")
        else []) /\
  result (update_oom_score_adj (Some d) len) st
  = match result w st with
    | Ret r => if r <? 0 then Stop (Exited 1) else Ret tt
    | Stop s => Stop s
    end /\
  (result w st = Ret 0 ->
   after (update_oom_score_adj (Some d) len) st = after w st).
Proof.
  intros Hlen w. unfold update_oom_score_adj.
  assert (Hl : (len <=? 0) = false) by (apply Z.leb_gt; exact Hlen).
  rewrite Hl. fold w. run_simp.
  destruct (result w st) as [r | s]; [| now run_simp].
  destruct (r <? 0) eqn:Hr.
  - rewrite bail_exits, emitted_bail. repeat split.
    intros E. inversion E. subst. discriminate Hr.
  - run_simp. repeat split.
Qed.

(** ** What a stage has done when it returns *)

Lemma ensures_ret {A} (R : A -> list event -> Prop) (a : A) :
  R a [] -> ensures R (ret a).
Proof. intros H st a' E. inversion E. subst. exact H. Qed.

Lemma ensures_halt {A} (R : A -> list event -> Prop) (s : stop) :
  ensures R (@halt A s).
Proof. intros st a E. discriminate E. Qed.

Lemma ensures_bail {A} (R : A -> list event -> Prop) func line msg :
  ensures R (@bail A func line msg).
Proof. intros st a E. rewrite bail_exits in E. discriminate E. Qed.

Lemma ensures_sys (R : response -> list event -> Prop) (c : call) :
  (forall r, R r [(c, r)]) -> ensures R (sys c).
Proof. intros H st a E. inversion E. subst. apply H. Qed.

Lemma ensures_bind {A B} (R1 : A -> list event -> Prop)
    (R : B -> list event -> Prop) (m : M A) (k : A -> M B) :
  ensures R1 m ->
  (forall a e1, R1 a e1 -> ensures (fun b e2 => R b (e1 ++ e2)) (k a)) ->
  ensures R (bind m k).
Proof.
  intros Hm Hk st b E. rewrite result_bind in E. rewrite emitted_bind.
  destruct (result m st) as [a | s] eqn:Ea; [| discriminate E].
  exact (Hk a _ (Hm st a Ea) _ b E).
Qed.

Lemma ensures_weaken {A} (R R' : A -> list event -> Prop) (m : M A) :
  (forall a evs, R a evs -> R' a evs) -> ensures R m -> ensures R' m.
Proof. intros H Hm st a E. apply H, Hm, E. Qed.

Lemma ensures_any {A} (m : M A) : ensures (fun _ _ => True) m.
Proof. intros st a _. exact I. Qed.

Lemma ensures_returns {A} (R : A -> Prop) (m : M A) :
  returns R m -> ensures (fun a _ => R a) m.
Proof. intros H st a E. exact (H st a E). Qed.

Lemma bound_to_self_app_l (a b : list event) :
  bound_to_self a -> bound_to_self (a ++ b).
Proof.
  intros (r & Hin & Hr). exists r. split; [| exact Hr].
  apply in_or_app. now left.
Qed.

Lemma bound_to_self_app_r (a b : list event) :
  bound_to_self b -> bound_to_self (a ++ b).
Proof.
  intros (r & Hin & Hr). exists r. split; [| exact Hr].
  apply in_or_app. now right.
Qed.

Lemma prep_rootfs_set_cloneflags v c :
  prep_rootfs (set_cloneflags v c) = prep_rootfs c.
Proof. now destruct c. Qed.

Lemma make_parent_priv_set_cloneflags v c :
  make_parent_priv (set_cloneflags v c) = make_parent_priv c.
Proof. now destruct c. Qed.

Lemma prep_rootfs_set_shiftfs_mounts v c :
  prep_rootfs (set_shiftfs_mounts v c) = prep_rootfs c.
Proof. now destruct c. Qed.

Lemma make_parent_priv_set_shiftfs_mounts v c :
  make_parent_priv (set_shiftfs_mounts v c) = make_parent_priv c.
Proof. now destruct c. Qed.

Lemma returns_child_unshare_first_switches (c : nlconfig_t) :
  returns (fun u : nlconfig_t * bool => same_rootfs_switches c (fst u))
          (child_unshare_first c).
Proof.
  unfold child_unshare_first.
  eapply returns_bind with
    (R1 := fun u : nlconfig_t * bool => same_rootfs_switches c (fst u)).
  - destruct (nonzero _).
    + eapply returns_bind; [apply returns_any |]. intros r _.
      destruct (rv r <? 0); [apply returns_bail |].
      apply returns_ret. split; simpl.
      * apply prep_rootfs_set_cloneflags.
      * apply make_parent_priv_set_cloneflags.
    + apply returns_ret. split; reflexivity.
  - intros [c1 nu] [H1 H2]. simpl in H1, H2.
    destruct (nonzero _).
    + eapply returns_bind; [apply returns_any |]. intros r _.
      destruct (rv r <? 0); [apply returns_bail |].
      apply returns_ret. split; simpl.
      * now rewrite prep_rootfs_set_cloneflags.
      * now rewrite make_parent_priv_set_cloneflags.
    + apply returns_ret. split; assumption.
Qed.

Lemma returns_mount_shiftfs_switches (c : nlconfig_t) :
  returns (fun s : Z * nlconfig_t => same_rootfs_switches c (snd s))
          (mount_shiftfs c).
Proof.
  assert (H : forall v, same_rootfs_switches c (set_shiftfs_mounts v c)).
  { intros v. split.
    - apply prep_rootfs_set_shiftfs_mounts.
    - apply make_parent_priv_set_shiftfs_mounts. }
  unfold mount_shiftfs.
  destruct (shiftfs_mounts c) as [mntlist |]; [| apply returns_halt].
  destruct (strtok_r mntlist (str ",")) as [[mntpath |] saveptr].
  - destruct (_ || _).
    + apply returns_ret. apply H.
    + eapply returns_bind; [apply returns_any |]. intros r _.
      apply returns_ret. apply H.
  - apply returns_ret. apply H.
Qed.

(** When the first attempt at the rootfs returns, either the rootfs is
    bound to itself or the parent mount is still to be made private. *)
Lemma ensures_child_prep_rootfs (c : nlconfig_t) :
  nonzero (prep_rootfs c) = true ->
  ensures (fun (p : nlconfig_t * bool * bool) evs =>
             same_rootfs_switches c (fst (fst p)) /\
             (bound_to_self evs \/
              (nonzero (make_parent_priv c) = true /\ snd (fst p) = false)))
          (child_prep_rootfs c).
Proof.
  intros Hprep. unfold child_prep_rootfs. rewrite Hprep.
  eapply ensures_bind; [apply ensures_any |]. intros r e1 _.
  destruct (rv r <? 0); [apply ensures_bail |].
  eapply ensures_bind with
    (R1 := fun (d : bool) (_ : list event) =>
             d = true \/ d = false).
  { intros st d _. destruct d; tauto. }
  intros d e2 _.
  destruct (nonzero (make_parent_priv c)) eqn:Hm; simpl negb; simpl orb.
  - destruct d.
    + eapply ensures_bind with
      (R1 := fun b evs => evs = [(bind_to_self, b)]);
      [apply ensures_sys; intros b; reflexivity |].
      intros b e3 He3. subst e3.
      destruct (rv b <? 0) eqn:Hb; [apply ensures_bail |].
      eapply ensures_bind;
        [apply ensures_returns, returns_mount_shiftfs_switches |].
      intros s e4 Hs. apply ensures_ret. simpl. split; [exact Hs |].
      left. exists b. split; [| now apply Z.ltb_ge].
      repeat rewrite in_app_iff. simpl. tauto.
    + apply ensures_ret. simpl. split; [split; reflexivity |].
      right. split; reflexivity.
  - eapply ensures_bind with
      (R1 := fun b evs => evs = [(bind_to_self, b)]);
      [apply ensures_sys; intros b; reflexivity |].
    intros b e3 He3. subst e3.
    destruct (rv b <? 0) eqn:Hb; [apply ensures_bail |].
    eapply ensures_bind;
      [apply ensures_returns, returns_mount_shiftfs_switches |].
    intros s e4 Hs. apply ensures_ret. simpl. split; [exact Hs |].
    left. exists b. split; [| now apply Z.ltb_ge].
    repeat rewrite in_app_iff. simpl. tauto.
Qed.

(** When the second attempt returns after the first left the parent mount
    to be made private, the rootfs is bound to itself. *)
Lemma ensures_child_retry_rootfs (c : nlconfig_t) (s : bool) :
  nonzero (make_parent_priv c) = true ->
  ensures (fun (_ : nlconfig_t) evs => bound_to_self evs)
          (child_retry_rootfs c false s).
Proof.
  intros Hm. unfold child_retry_rootfs. rewrite Hm. simpl andb.
  eapply ensures_bind with (R1 := fun (_ : unit) evs => bound_to_self evs).
  - eapply ensures_bind; [apply ensures_any |]. intros p e1 _.
    destruct (rv p <? 0); [apply ensures_bail |].
    eapply ensures_bind with
      (R1 := fun b evs => evs = [(bind_to_self, b)]);
      [apply ensures_sys; intros b; reflexivity |].
    intros b e2 He2. subst e2.
    destruct (rv b <? 0) eqn:Hb; [apply ensures_bail |].
    apply ensures_ret. exists b. split; [| now apply Z.ltb_ge].
    repeat rewrite in_app_iff. simpl. tauto.
  - intros _ e1 H1.
    destruct (_ && _).
    + eapply ensures_bind; [apply ensures_any |]. intros r e2 _.
      destruct (fst r <? 0); [apply ensures_bail |].
      apply ensures_ret. now apply bound_to_self_app_l.
    + apply ensures_ret. now apply bound_to_self_app_l.
Qed.

(** A component of the trace has the mount, so the trace has it. *)
Ltac bound_in H :=
  let b := fresh "b" in
  let Hin := fresh "Hin" in
  let Hb := fresh "Hb" in
  destruct H as (b & Hin & Hb);
  exists b; split; [repeat rewrite in_app_iff; tauto | exact Hb].

(** When the rootfs steps of stage 1 return, the rootfs is bound to
    itself. *)
Lemma ensures_child_rootfs (c : nlconfig_t) (nu : bool) :
  nonzero (prep_rootfs c) = true ->
  ensures (fun (_ : nlconfig_t) evs => bound_to_self evs) (child_rootfs c nu).
Proof.
  intros Hprep. unfold child_rootfs.
  eapply ensures_bind; [apply ensures_child_prep_rootfs, Hprep |].
  intros [[c2 d] s] e6 [[Hp2 Hm2] Hcase]. simpl in Hp2, Hm2, Hcase.
  eapply ensures_bind; [apply ensures_any |]. intros _ e7 _.
  destruct Hcase as [Hb | [Hm Hd]].
  - eapply ensures_weaken; [| apply ensures_any].
    intros c3 e8 _. bound_in Hb.
  - subst d.
    eapply ensures_weaken;
      [| apply ensures_child_retry_rootfs; rewrite Hm2; exact Hm].
    intros c3 e8 Hb. simpl in Hb. bound_in Hb.
Qed.

(** When stage 1 is ready to clone stage 2, the rootfs is bound to
    itself. *)
Lemma ensures_child_setup (f : frame) :
  nonzero (prep_rootfs (config f)) = true ->
  ensures (fun (_ : frame) evs => bound_to_self evs) (child_setup f).
Proof.
  intros Hprep. unfold child_setup.
  eapply ensures_bind; [apply ensures_any |]. intros _ e1 _.
  eapply ensures_bind; [apply ensures_any |]. intros _ e2 _.
  eapply ensures_bind; [apply ensures_any |]. intros _ e3 _.
  eapply ensures_bind; [apply ensures_any |]. intros _ e4 _.
  eapply ensures_bind;
    [apply ensures_returns, returns_child_unshare_first_switches |].
  intros [c1 nu] e5 [Hp1 Hm1]. simpl in Hp1, Hm1.
  eapply ensures_bind.
  { apply ensures_child_rootfs. rewrite Hp1. exact Hprep. }
  intros c3 e6 Hb.
  eapply ensures_bind; [apply ensures_any |]. intros r e9 _.
  destruct (rv r <? 0); [apply ensures_bail |].
  apply ensures_ret. bound_in Hb.
Qed.

(** Whatever stage 1 clones, it clones after a bind-to-self mount that
    succeeded. *)
Lemma stage_child_binds_before_clone (f : frame) (st : proc) :
  nonzero (prep_rootfs (config f)) = true ->
  forall i j c r,
    nth_error (emitted (stage_child f) st) i = Some (CloneParent j c, r) ->
    exists k b,
      (k < i)%nat /\
      nth_error (emitted (stage_child f) st) k = Some (bind_to_self, b) /\
      0 <= rv b.
Proof.
  intros Hprep i j c r. unfold stage_child. rewrite emitted_bind.
  intros H.
  destruct (Nat.lt_ge_cases i (length (emitted (child_setup f) st)))
    as [Hi | Hi].
  - exfalso. rewrite nth_error_app1 in H by exact Hi.
    apply nth_error_In in H.
    pose proof (emits_emitted _ _ st (emits_child_setup f)) as Hf.
    rewrite Forall_forall in Hf. specialize (Hf _ H).
    unfold only in Hf. simpl in Hf. intuition discriminate.
  - destruct (result (child_setup f) st) as [f' |] eqn:E.
    + destruct (ensures_child_setup f Hprep st f' E) as (b & Hin & Hb).
      apply In_nth_error in Hin. destruct Hin as [k Hk].
      assert (Hlt : (k < length (emitted (child_setup f) st))%nat).
      { apply (proj1 (nth_error_Some _ _)). congruence. }
      exists k, b. split; [lia |]. split; [| exact Hb].
      rewrite nth_error_app1 by exact Hlt. exact Hk.
    + rewrite app_nil_r in H.
      assert (Hlt : (i < length (emitted (child_setup f) st))%nat).
      { apply (proj1 (nth_error_Some _ _)). congruence. }
      lia.
Qed.

(** The first attempt at the rootfs when the parent mount cannot be made
    private yet: two mounts, and both steps left to do. *)
Lemma child_prep_rootfs_deferred (c : nlconfig_t) (st : proc) :
  nonzero (prep_rootfs c) = true ->
  nonzero (make_parent_priv c) = true ->
  let p1 := oracle st (clock st) (set_propagation c) in
  let st1 := after (sys (set_propagation c)) st in
  let p2 := oracle st1 (clock st1) (make_private c) in
  0 <= rv p1 ->
  rv p2 <> 0 ->
  child_prep_rootfs c st
  = (Ret (c, false, false),
     [(set_propagation c, p1); (make_private c, p2)],
     after (sys (make_private c)) st1).
Proof.
  intros Hprep Hm p1 st1 p2 H1 H2.
  rewrite (run_eta (child_prep_rootfs c) st).
  unfold child_prep_rootfs. rewrite Hprep, Hm.
  fold (set_propagation c). fold (make_private c).
  run_simp. fold p1.
  assert (E1 : (rv p1 <? 0) = false) by (apply Z.ltb_ge; exact H1).
  rewrite E1. run_simp. fold st1. fold p2.
  assert (E2 : (rv p2 =? 0) = false) by (apply Z.eqb_neq; exact H2).
  rewrite E2. simpl negb. simpl orb. cbv iota. run_simp.
  reflexivity.
Qed.

(** The second attempt after a deferred first one: the parent mount is
    made private or the stage ends; then the rootfs is bound to itself or
    the stage ends; then the shiftfs mounts are made. *)
Lemma child_retry_rootfs_deferred (c : nlconfig_t) (st : proc) :
  nonzero (prep_rootfs c) = true ->
  nonzero (make_parent_priv c) = true ->
  let q := oracle st (clock st) (make_private c) in
  let st1 := after (sys (make_private c)) st in
  let b := oracle st1 (clock st1) bind_to_self in
  let st2 := after (sys bind_to_self) st1 in
  let m := child_retry_rootfs c false false in
  (rv q < 0 ->
   result m st = Stop (Exited 1) /\
   emitted m st
   = (make_private c, q)
     :: fatal_line st1 (str "nsexec") 1052
          (str "failed to set rootfs parent mount propagation to private")) /\
  (0 <= rv q -> rv b < 0 ->
   result m st = Stop (Exited 1) /\
   emitted m st
   = (make_private c, q) :: (bind_to_self, b)
     :: fatal_line st2 (str "nsexec") 1055
          (str "failed to create bind-to-self mount on rootfs.")) /\
  (0 <= rv q -> 0 <= rv b ->
   exists rest,
     emitted m st
     = (make_private c, q) :: (bind_to_self, b)
       :: emitted (mount_shiftfs c) st2 ++ rest /\
     Forall (only [KDprintf]) rest).
Proof.
  intros Hprep Hm q st1 b st2 m. subst m.
  unfold child_retry_rootfs. rewrite Hprep, Hm. simpl andb. cbv iota.
  fold (make_private c). fold bind_to_self.
  split; [| split].
  - intros Hq. apply Z.ltb_lt in Hq. run_simp. fold q. rewrite Hq.
    rewrite bail_exits, emitted_bail. run_simp. split; reflexivity.
  - intros Hq Hb. apply Z.ltb_ge in Hq. apply Z.ltb_lt in Hb.
    run_simp. fold q. rewrite Hq. run_simp. fold st1. fold b. rewrite Hb.
    rewrite bail_exits, emitted_bail. run_simp. split; reflexivity.
  - intros Hq Hb. apply Z.ltb_ge in Hq. apply Z.ltb_ge in Hb.
    run_simp. fold q. rewrite Hq. run_simp. fold st1. fold b. rewrite Hb.
    run_simp. fold st2. simpl app.
    eexists. split; [reflexivity |].
    destruct (result (mount_shiftfs c) st2) as [r |]; [| constructor].
    destruct (fst r <? 0).
    + rewrite emitted_bail. apply fatal_line_only.
    + run_simp. constructor.
Qed.

(** The rootfs block when the first attempt is deferred: the two mounts,
    then the request for the ID mappings if the user namespace is new,
    and only then the second attempt. *)
Lemma child_rootfs_deferred (c : nlconfig_t) (nu : bool) (st : proc) :
  nonzero (prep_rootfs c) = true ->
  nonzero (make_parent_priv c) = true ->
  let p1 := oracle st (clock st) (set_propagation c) in
  let st1 := after (sys (set_propagation c)) st in
  let p2 := oracle st1 (clock st1) (make_private c) in
  let st2 := after (sys (make_private c)) st1 in
  let um := if nu then child_usermap c else ret tt in
  0 <= rv p1 ->
  rv p2 <> 0 ->
  emitted (child_rootfs c nu) st
  = (set_propagation c, p1) :: (make_private c, p2)
    :: emitted um st2
    ++ match result um st2 with
       | Ret _ => emitted (child_retry_rootfs c false false) (after um st2)
       | Stop _ => []
       end.
Proof.
  intros Hprep Hm p1 st1 p2 st2 um H1 H2.
  pose proof (child_prep_rootfs_deferred c st Hprep Hm H1 H2) as E.
  fold p1 in E. fold st1 in E. fold p2 in E. fold st2 in E.
  assert (Er : result (child_prep_rootfs c) st = Ret (c, false, false))
    by (unfold result; rewrite E; reflexivity).
  assert (Ee : emitted (child_prep_rootfs c) st
               = [(set_propagation c, p1); (make_private c, p2)])
    by (unfold emitted; rewrite E; reflexivity).
  assert (Ea : after (child_prep_rootfs c) st = st2)
    by (unfold after; rewrite E; reflexivity).
  unfold child_rootfs. rewrite emitted_bind, Er, Ee, Ea. cbv iota beta.
  rewrite emitted_bind. fold um. reflexivity.
Qed.

Lemma syncfd_bail {A} func line msg (st : proc) :
  syncfd (after (@bail A func line msg) st) = syncfd st.
Proof.
  unfold after. rewrite bail_run. simpl.
  unfold after, write_log_with_info, bind, get_logfd.
  destruct (logfd st <? 0); reflexivity.
Qed.

(** When the request for the ID mappings returns, stage 1 has sent
    [SYNC_USERMAP_PLS], has read [SYNC_USERMAP_ACK], and its last call was
    a [setresuid(0, 0, 0)] that succeeded. *)
Lemma ensures_child_usermap (c : nlconfig_t) (st : proc) :
  result (child_usermap c) st = Ret tt ->
  exists evs r,
    emitted (child_usermap c) st = evs ++ [(Setresuid 0 0 0, r)] /\
    0 <= rv r /\
    (exists w, In (Write (syncfd st) (le32 SYNC_USERMAP_PLS) 4, w) evs) /\
    (exists a, In (Read (syncfd st) 4, a) evs /\
               readint32 (rbytes a) = SYNC_USERMAP_ACK).
Proof.
  unfold child_usermap, write_sync, read_sync.
  set (dump := fun v line =>
         match namespaces c with
         | Some _ =>
             r <- sys (Prctl PR_SET_DUMPABLE v) ;;
             (if rv r <? 0
              then bail (str "nsexec") line
                        (str "failed to set process as dumpable")
              else ret tt)
         | None => ret tt
         end).
  assert (Hsync : forall v line s, syncfd (after (dump v line) s) = syncfd s).
  { intros v line s. unfold dump. destruct (namespaces c); [| reflexivity].
    run_simp. destruct (rv _ <? 0); [| reflexivity].
    rewrite syncfd_bail. reflexivity. }
  fold (dump 1 1019). fold (dump 0 1036).
  intros H. revert H. run_simp.
  destruct (result (dump 1 1019) st) as [[] | s] eqn:E1;
    [| discriminate].
  run_simp. rewrite Hsync.
  set (st1 := after (dump 1 1019) st).
  set (w := oracle st1 (clock st1) (Write (syncfd st) (le32 SYNC_USERMAP_PLS) 4)).
  destruct (rv w =? 4) eqn:Ew; simpl negb; cbv iota;
    [| rewrite bail_exits; discriminate].
  run_simp. simpl syncfd.
  change (syncfd st1) with (syncfd (after (dump 1 1019) st)).
  rewrite Hsync.
  set (st2 := after (sys (Write (syncfd st) (le32 SYNC_USERMAP_PLS) 4)) st1).
  set (a := oracle st2 (clock st2) (Read (syncfd st) 4)).
  destruct (rv a =? 4) eqn:Ea; run_simp;
    [| rewrite bail_exits; discriminate].
  destruct (readint32 (rbytes a) =? SYNC_USERMAP_ACK) eqn:Ek;
    simpl negb; cbv iota; [| rewrite bail_exits; discriminate].
  run_simp.
  set (st3 := after (sys (Read (syncfd st) 4)) st2).
  destruct (result (dump 0 1036) st3) as [[] | s] eqn:E3;
    [| discriminate].
  run_simp.
  set (st4 := after (dump 0 1036) st3).
  set (r := oracle st4 (clock st4) (Setresuid 0 0 0)).
  destruct (rv r <? 0) eqn:Er; [rewrite bail_exits; discriminate |].
  intros _.
  exists (emitted (dump 1 1019) st
          ++ [(Write (syncfd st) (le32 SYNC_USERMAP_PLS) 4, w)]
          ++ [(Read (syncfd st) 4, a)] ++ emitted (dump 0 1036) st3), r.
  split; [| split; [| split]].
  - rewrite <- !app_assoc. reflexivity.
  - apply Z.ltb_ge. exact Er.
  - exists w. repeat rewrite in_app_iff. simpl. tauto.
  - exists a. split.
    + repeat rewrite in_app_iff. simpl. tauto.
    + apply Z.eqb_eq. exact Ek.
Qed.

(** ** Tokens *)

Lemma break_span_app (reject tok rest : bytes) :
  plain reject tok -> stops reject rest ->
  break_span reject (tok ++ rest) = (tok, rest).
Proof.
  intros Hp Hs. induction Hp as [| c tok [Hn Hm] _ IH]; simpl.
  - destruct rest as [| c rest]; [reflexivity |]. simpl.
    destruct (is_nul c) eqn:E; [reflexivity |].
    destruct Hs as [Hs | Hs]; [congruence |]. now rewrite Hs.
  - now rewrite Hn, Hm, IH.
Qed.

Lemma skip_span_none (delim s : bytes) :
  match s with
  | [] => True
  | c :: _ => is_nul c = true \/ mem_char c delim = false
  end ->
  skip_span delim s = s.
Proof.
  destruct s as [| c s]; [reflexivity |]. simpl.
  destruct (is_nul c) eqn:E; [reflexivity |].
  intros [H | H]; [congruence |]. now rewrite H.
Qed.

Lemma strtok_r_token (delim tok rest : bytes) :
  tok <> [] -> plain delim tok -> stops delim rest ->
  strtok_r (tok ++ rest) delim
  = (Some tok, if is_nul (peek rest) then rest else tl rest).
Proof.
  intros Hne Hp Hs. unfold strtok_r.
  destruct tok as [| c tok]; [contradiction |].
  inversion Hp as [| ? ? [Hn Hm] Hp']. subst.
  change (peek ((c :: tok) ++ rest)) with c. rewrite Hn.
  rewrite skip_span_none by (simpl; now right).
  change (peek ((c :: tok) ++ rest)) with c. rewrite Hn.
  rewrite break_span_app by assumption.
  destruct (is_nul (peek rest)); reflexivity.
Qed.

Lemma strtok_r_end (delim s : bytes) :
  terminated s -> strtok_r s delim = (None, s).
Proof. intros H. unfold strtok_r. now rewrite H. Qed.

Lemma cstr_plain (excl s tail : bytes) :
  plain excl s -> terminated tail -> cstr (s ++ tail) = s.
Proof.
  intros Hp Ht. induction Hp as [| c s [Hn _] _ IH]; simpl.
  - destruct tail as [| c tail]; [reflexivity |].
    unfold terminated in Ht. simpl in Ht. simpl. now rewrite Ht.
  - now rewrite Hn, IH.
Qed.

Lemma cstr_plain_nil (excl s : bytes) : plain excl s -> cstr s = s.
Proof.
  intros Hp. rewrite <- (app_nil_r s) at 1.
  apply (cstr_plain excl); [exact Hp | reflexivity].
Qed.

Lemma plain_weaken (excl excl' s : bytes) :
  (forall c, mem_char c excl = false -> mem_char c excl' = false) ->
  plain excl s -> plain excl' s.
Proof.
  intros H. apply Forall_impl. intros c [Hn Hm]. split; auto.
Qed.

Lemma plain_app (excl a b : bytes) :
  plain excl a -> plain excl b -> plain excl (a ++ b).
Proof. intros Ha Hb. apply Forall_app. split; assumption. Qed.

Lemma mem_char_colon_comma (c : ascii) :
  mem_char c (str ":,") = false ->
  mem_char c (str ":") = false /\ mem_char c (str ",") = false.
Proof.
  unfold mem_char.
  change (str ":,") with [":"%char; ","%char].
  change (str ":") with [":"%char]. change (str ",") with [","%char].
  simpl.
  destruct (Ascii.eqb c ":"), (Ascii.eqb c ","); simpl;
    intros H; try discriminate H; split; reflexivity.
Qed.

Lemma ns_token_plain (e : ns_entry) :
  wf_ns_entry e -> plain (str ",") (ns_token e).
Proof.
  intros [Hk Hp]. unfold ns_token. apply plain_app.
  - eapply plain_weaken; [| exact Hk].
    intros c H. apply (mem_char_colon_comma c H).
  - apply plain_app; [| exact Hp].
    constructor; [| constructor]. split; reflexivity.
Qed.

Lemma ns_token_not_nil (e : ns_entry) : ns_token e <> [].
Proof. unfold ns_token. destruct (fst e); discriminate. Qed.

Lemma split_colon_token (e : ns_entry) :
  wf_ns_entry e -> split_colon (ns_token e) = Some (fst e, snd e).
Proof.
  intros [Hk _]. unfold split_colon, strpbrk, ns_token.
  rewrite break_span_app.
  - reflexivity.
  - eapply plain_weaken; [| exact Hk].
    intros c H. apply (mem_char_colon_comma c H).
  - simpl. now right.
Qed.

(** [strtok_r] on the rest of the list. *)
Lemma strtok_r_ns_list (e : ns_entry) (rest : list ns_entry) (tail : bytes) :
  wf_ns_entry e -> terminated tail ->
  strtok_r (ns_list (e :: rest) ++ tail) (str ",")
  = (Some (ns_token e), ns_list rest ++ tail).
Proof.
  intros He Ht.
  destruct rest as [| e' rest].
  - simpl ns_list.
    rewrite strtok_r_token.
    + unfold terminated in Ht. now rewrite Ht.
    + apply ns_token_not_nil.
    + apply ns_token_plain, He.
    + destruct tail as [| c tail]; [exact I |]. left. exact Ht.
  - change (ns_list (e :: e' :: rest))
      with (ns_token e ++ str "," ++ ns_list (e' :: rest)).
    rewrite <- !app_assoc.
    rewrite strtok_r_token.
    + reflexivity.
    + apply ns_token_not_nil.
    + apply ns_token_plain, He.
    + simpl. now right.
Qed.

(** ** Joining the listed namespaces *)

Lemma bind_ext {A B} (m : M A) (k k' : A -> M B) (st : proc) :
  (forall a st', k a st' = k' a st') -> bind m k st = bind m k' st.
Proof.
  intros H. unfold bind. destruct (m st) as [[[a | s] e] st'];
    [now rewrite H | reflexivity].
Qed.

Lemma bind_head {A B} (m m' : M A) (k : A -> M B) (st : proc) :
  m st = m' st -> bind m k st = bind m' k st.
Proof. intros H. unfold bind. now rewrite H. Qed.

(** On a list as the orchestrator writes it, the first loop of
    [join_namespaces] opens the listed paths one after the other. *)
Lemma open_namespaces_listed (rest : list ns_entry) :
  forall (e : ns_entry) (tail : bytes) (acc : list namespace_t)
         (fuel : nat) (st : proc),
    Forall wf_ns_entry (e :: rest) ->
    terminated tail ->
    (length (e :: rest) <= fuel)%nat ->
    open_namespaces fuel (ns_token e) (ns_list rest ++ tail) acc st
    = open_listed (e :: rest) acc st.
Proof.
  induction rest as [| e' rest IH]; intros e tail acc fuel st Hwf Ht Hfuel;
    (destruct fuel as [| fuel]; [simpl in Hfuel; lia |]);
    inversion Hwf as [| ? ? He Hrest]; subst;
    cbn [open_namespaces open_listed];
    apply bind_ext; intros a st1;
    (destruct (rv a =? 0); [reflexivity |]);
    rewrite (split_colon_token e He);
    rewrite (cstr_plain_nil (str ",") (snd e) (proj2 He));
    apply bind_ext; intros fd st2;
    (destruct (rv fd <? 0); [reflexivity |]).
  - simpl ns_list. simpl app. rewrite strtok_r_end by exact Ht. reflexivity.
  - inversion Hrest as [| ? ? He' Hrest']. subst.
    rewrite (strtok_r_ns_list e' rest tail He' Ht).
    apply IH; [exact Hrest | exact Ht | simpl in *; lia].
Qed.

Lemma ns_list_length (entries : list ns_entry) :
  (length entries <= length (ns_list entries))%nat.
Proof.
  induction entries as [| e [| e' rest] IH].
  - simpl. lia.
  - simpl. unfold ns_token. rewrite !length_app. simpl. lia.
  - change (ns_list (e :: e' :: rest))
      with (ns_token e ++ str "," ++ ns_list (e' :: rest)).
    rewrite !length_app. unfold ns_token at 1. rewrite !length_app.
    simpl in *. lia.
Qed.

Lemma tokenized_ns_list (e : ns_entry) (rest : list ns_entry) (tail : bytes) :
  wf_ns_entry e -> terminated tail ->
  tokenized (ns_list (e :: rest) ++ tail) (str ",") = ns_token e.
Proof.
  intros He Ht. unfold tokenized.
  rewrite (strtok_r_ns_list e rest tail He Ht).
  assert (Hs : skip_span (str ",") (ns_list (e :: rest) ++ tail)
               = ns_list (e :: rest) ++ tail).
  { apply skip_span_none.
    pose proof (ns_token_plain e He) as Hp.
    pose proof (ns_token_not_nil e) as Hn.
    destruct rest as [| e' rest].
    - simpl ns_list. destruct (ns_token e) as [| c t]; [contradiction |].
      inversion Hp as [| ? ? [_ Hc] _]. now right.
    - change (ns_list (e :: e' :: rest))
        with (ns_token e ++ str "," ++ ns_list (e' :: rest)).
      destruct (ns_token e) as [| c t]; [contradiction |].
      inversion Hp as [| ? ? [_ Hc] _]. now right. }
  rewrite Hs, Nat.sub_diag. reflexivity.
Qed.

(** On a list as the orchestrator writes it, [join_namespaces] opens
    every listed path first and then joins in the order of the list. *)
Lemma join_namespaces_listed (entries : list ns_entry) (tail : bytes)
    (st : proc) :
  entries <> [] ->
  Forall wf_ns_entry entries ->
  terminated tail ->
  join_namespaces (ns_list entries ++ tail) st = join_listed entries st.
Proof.
  intros Hne Hwf Ht. destruct entries as [| e rest]; [contradiction |].
  inversion Hwf as [| ? ? He Hrest]. subst.
  unfold join_namespaces, join_listed.
  rewrite (strtok_r_ns_list e rest tail He Ht).
  rewrite (tokenized_ns_list e rest tail He Ht).
  assert (Hlen : (strlen (ns_token e) =? 0) = false).
  { apply Z.eqb_neq. unfold strlen.
    rewrite (cstr_plain_nil (str ",") _ (ns_token_plain e He)).
    pose proof (ns_token_not_nil e).
    destruct (ns_token e); [contradiction | simpl; lia]. }
  rewrite Hlen. simpl orb. cbv iota.
  apply bind_head.
  apply open_namespaces_listed; [exact Hwf | exact Ht |].
  pose proof (ns_list_length (e :: rest)).
  rewrite length_app. lia.
Qed.

Lemma opens_before_setns (a b : list event) :
  Forall (never KSetns) a -> Forall (never KOpen) b ->
  forall i j ei ej,
    nth_error (a ++ b) i = Some ei -> kind_of (fst ei) = KOpen ->
    nth_error (a ++ b) j = Some ej -> kind_of (fst ej) = KSetns ->
    (i < j)%nat.
Proof.
  intros Ha Hb i j ei ej Hi Ki Hj Kj.
  rewrite Forall_forall in Ha, Hb.
  destruct (Nat.lt_ge_cases i (length a)) as [Li | Li].
  - destruct (Nat.lt_ge_cases j (length a)) as [Lj | Lj]; [| lia].
    exfalso. rewrite nth_error_app1 in Hj by exact Lj.
    apply nth_error_In in Hj. exact (Ha _ Hj Kj).
  - exfalso. rewrite nth_error_app2 in Hi by exact Li.
    apply nth_error_In in Hi. exact (Hb _ Hi Ki).
Qed.

(** Whatever the list holds, [join_namespaces] opens before it joins. *)
Lemma join_namespaces_opens_first (nslist : bytes) (st : proc) :
  forall i j ei ej,
    nth_error (emitted (join_namespaces nslist) st) i = Some ei ->
    kind_of (fst ei) = KOpen ->
    nth_error (emitted (join_namespaces nslist) st) j = Some ej ->
    kind_of (fst ej) = KSetns ->
    (i < j)%nat.
Proof.
  assert (Hbail : forall line msg,
             emitted (@bail unit (str "join_namespaces") line msg) st
             = emitted (@bail unit (str "join_namespaces") line msg) st ++ []
             /\ Forall (never KSetns)
                       (emitted (@bail unit (str "join_namespaces") line msg)
                                st)).
  { intros line msg. split; [now rewrite app_nil_r |].
    rewrite emitted_bail. apply fatal_line_never. discriminate. }
  unfold join_namespaces.
  destruct (strtok_r nslist (str ",")) as [[namespace |] saveptr].
  - destruct (_ || _).
    + destruct (Hbail 566 (str "ns paths are empty")) as [E F].
      rewrite E. apply opens_before_setns; [exact F | constructor].
    + rewrite emitted_bind. apply opens_before_setns.
      * apply emits_emitted.
        eapply emits_never; [| apply emits_open_namespaces].
        simpl. intuition discriminate.
      * destruct (result _ st) as [nss |]; [| constructor].
        apply emits_emitted.
        assert (H : emits (only [KSetns; KClose; KFree; KDprintf])
                      (setns_namespaces nss ;; sys Free ;; ret tt))
          by emits_auto.
        eapply emits_never; [| exact H]. simpl. intuition discriminate.
  - destruct (Hbail 566 (str "ns paths are empty")) as [E F].
    rewrite E. apply opens_before_setns; [exact F | constructor].
Qed.

Lemma bytes_eqb_neq (a b : bytes) : a <> b -> bytes_eqb a b = false.
Proof.
  intros H. unfold bytes_eqb.
  destruct (list_eq_dec ascii_dec a b); [contradiction | reflexivity].
Qed.

(** A kind that is none of the seven has flag 0. *)
Lemma nsflag_unknown (name : bytes) :
  ~ In (cstr name) known_kinds -> nsflag name = 0.
Proof.
  intros H. unfold nsflag, streq.
  assert (Hk : forall k, In k known_kinds ->
                         bytes_eqb (cstr name) (cstr k) = false).
  { intros k Hin. apply bytes_eqb_neq. intros E. apply H.
    rewrite E.
    unfold known_kinds in *. simpl in Hin.
    repeat (destruct Hin as [<- | Hin]; [vm_compute; tauto |]).
    destruct Hin. }
  unfold known_kinds in Hk.
  rewrite !Hk by (simpl; tauto). reflexivity.
Qed.

Lemma oracle_sys (c : call) (st : proc) :
  oracle (after (sys c) st) = oracle st.
Proof. reflexivity. Qed.

(** When no call fails, the first loop opens every listed path. *)
Lemma open_listed_ok (entries : list ns_entry) :
  forall (acc : list namespace_t) (st : proc),
    all_succeed (oracle st) ->
    exists nss,
      result (open_listed entries acc) st = Ret (acc ++ nss) /\
      map ns_ns nss = map (fun e => nsflag (fst e)) entries /\
      map fst (emitted (open_listed entries acc) st)
      = open_calls (length acc) entries /\
      opened (emitted (open_listed entries acc) st) = map ns_fd nss /\
      oracle (after (open_listed entries acc) st) = oracle st.
Proof.
  induction entries as [| e rest IH]; intros acc st Hok.
  - exists []. simpl. run_simp. repeat split; reflexivity.
  - cbn [open_listed].
    set (a := oracle st (clock st)
                (Realloc ((Z.of_nat (length acc) + 1) * sizeof_namespace_t))).
    set (st1 := after (sys (Realloc ((Z.of_nat (length acc) + 1)
                                     * sizeof_namespace_t))) st).
    set (fd := oracle st1 (clock st1) (Open (snd e) O_RDONLY)).
    set (st2 := after (sys (Open (snd e) O_RDONLY)) st1).
    assert (Ha : (rv a =? 0) = false) by (apply (Hok _ (Realloc _))).
    assert (Hfd : (rv fd <? 0) = false) by (apply (Hok _ (Open _ _))).
    set (ns := mk_namespace (rv fd) (nsflag (fst e))
                 (firstn (Z.to_nat (PATH_MAX - 1)) (snd e))).
    destruct (IH (acc ++ [ns]) st2 Hok) as (nss & Hr & Hns & Hc & Ho & Hor).
    exists (ns :: nss).
    run_simp. fold a. rewrite Ha. run_simp. fold st1. fold fd.
    rewrite Hfd. fold st2. fold ns.
    split; [| split; [| split; [| split]]].
    + rewrite Hr, <- app_assoc. reflexivity.
    + simpl. now rewrite Hns.
    + rewrite !map_app, Hc, length_app. simpl.
      rewrite Nat.add_1_r. reflexivity.
    + unfold opened in *. rewrite !filter_app, !map_app, Ho. reflexivity.
    + exact Hor.
Qed.

(** When no call fails, the second loop joins every element in turn. *)
Lemma setns_namespaces_ok (nss : list namespace_t) :
  forall st : proc,
    all_succeed (oracle st) ->
    result (setns_namespaces nss) st = Ret tt /\
    map fst (emitted (setns_namespaces nss) st) = setns_calls nss /\
    opened (emitted (setns_namespaces nss) st) = [] /\
    oracle (after (setns_namespaces nss) st) = oracle st.
Proof.
  induction nss as [| ns rest IH]; intros st Hok.
  - simpl. run_simp. repeat split; reflexivity.
  - cbn [setns_namespaces].
    set (r := oracle st (clock st) (Setns (ns_fd ns) (ns_ns ns))).
    assert (Hr : (rv r <? 0) = false) by (apply (Hok _ (Setns _ _))).
    run_simp. fold r. rewrite Hr. run_simp.
    set (st2 := after (sys (Close (ns_fd ns)))
                      (after (sys (Setns (ns_fd ns) (ns_ns ns))) st)).
    destruct (IH st2 Hok) as (H1 & H2 & H3 & H4).
    split; [| split; [| split]].
    + exact H1.
    + rewrite !map_app, H2. reflexivity.
    + unfold opened in *. rewrite !filter_app, !map_app, H3. reflexivity.
    + exact H4.
Qed.

(** When no call fails, joining the listed namespaces returns, and its
    calls are the opens, then the joins, then [free]. *)
Lemma join_listed_ok (entries : list ns_entry) (st : proc) :
  all_succeed (oracle st) ->
  exists nss,
    result (join_listed entries) st = Ret tt /\
    map fst (emitted (join_listed entries) st)
    = open_calls 0 entries ++ setns_calls nss ++ [Free] /\
    map ns_ns nss = map (fun e => nsflag (fst e)) entries /\
    map ns_fd nss = opened (emitted (join_listed entries) st).
Proof.
  intros Hok. unfold join_listed.
  destruct (open_listed_ok entries [] st Hok) as (nss & Hr & Hns & Hc & Ho & Hor).
  simpl in Hr.
  assert (Hok' : all_succeed (oracle (after (open_listed entries []) st)))
    by (rewrite Hor; exact Hok).
  destruct (setns_namespaces_ok nss _ Hok') as (H1 & H2 & H3 & H4).
  exists nss. run_simp. rewrite Hr. run_simp. rewrite H1. run_simp.
  split; [reflexivity |]. split; [| split].
  - rewrite !map_app, Hc, H2. reflexivity.
  - exact Hns.
  - unfold opened in *. rewrite !filter_app, !map_app, <- Ho, H3.
    simpl. now rewrite app_nil_r.
Qed.

Lemma opens_then_setns_ordered (evs : list event) :
  opens_then_setns evs ->
  forall i j ei ej,
    nth_error evs i = Some ei -> kind_of (fst ei) = KOpen ->
    nth_error evs j = Some ej -> kind_of (fst ej) = KSetns ->
    (i < j)%nat.
Proof.
  intros (a & b & E & Ha & Hb). subst evs.
  apply opens_before_setns; assumption.
Qed.

Lemma opens_then_setns_pre {A B} (m : M A) (k : A -> M B) :
  emits (never KSetns) m -> (forall a, produces opens_then_setns (k a)) ->
  produces opens_then_setns (bind m k).
Proof.
  intros Hm Hk st. rewrite emitted_bind.
  destruct (result m st) as [a |].
  - destruct (Hk a (after m st)) as (x & y & E & Hx & Hy).
    exists (emitted m st ++ x), y. rewrite E, app_assoc.
    split; [reflexivity |]. split; [| exact Hy].
    apply Forall_app. split; [apply Hm | exact Hx].
  - exists (emitted m st), []. split; [reflexivity |].
    split; [apply Hm | constructor].
Qed.

Lemma opens_then_setns_post {A B} (m : M A) (k : A -> M B) :
  produces opens_then_setns m -> (forall a, emits (never KOpen) (k a)) ->
  produces opens_then_setns (bind m k).
Proof.
  intros Hm Hk st. rewrite emitted_bind.
  destruct (Hm st) as (x & y & E & Hx & Hy). rewrite E, <- app_assoc.
  exists x. eexists. split; [reflexivity |]. split; [exact Hx |].
  apply Forall_app. split; [exact Hy |].
  destruct (result m st); [apply Hk | constructor].
Qed.

Lemma opens_then_setns_never {A} (m : M A) :
  emits (never KSetns) m -> produces opens_then_setns m.
Proof.
  intros Hm st. exists (emitted m st), [].
  rewrite app_nil_r. split; [reflexivity |].
  split; [apply Hm | constructor].
Qed.

(** Whatever the list holds, [join_namespaces] opens before it joins. *)
Lemma join_namespaces_split (nslist : bytes) :
  produces opens_then_setns (join_namespaces nslist).
Proof.
  unfold join_namespaces.
  destruct (strtok_r nslist (str ",")) as [[namespace |] saveptr].
  - destruct (_ || _).
    + apply opens_then_setns_never.
      eapply emits_never; [| apply emits_bail_log]. simpl. intuition discriminate.
    + apply opens_then_setns_post.
      * apply opens_then_setns_never.
        eapply emits_never; [| apply emits_open_namespaces].
        simpl. intuition discriminate.
      * intros nss.
        assert (H : emits (only [KSetns; KClose; KFree; KDprintf])
                      (setns_namespaces nss ;; sys Free ;; ret tt))
          by emits_auto.
        eapply emits_never; [| exact H]. simpl. intuition discriminate.
  - apply opens_then_setns_never.
    eapply emits_never; [| apply emits_bail_log]. simpl. intuition discriminate.
Qed.

(** Stage 1 opens the namespaces before it joins any. *)
Lemma stage_child_split (f : frame) :
  produces opens_then_setns (stage_child f).
Proof.
  unfold stage_child. apply opens_then_setns_post.
  - unfold child_setup.
    apply opens_then_setns_pre.
    { apply emits_set_syncfd. }
    intros _. apply opens_then_setns_pre.
    { eapply emits_never; [| apply emits_sys_kind].
      simpl. intuition discriminate. }
    intros _. apply opens_then_setns_pre.
    { eapply emits_never; [| apply emits_sys_kind].
      simpl. intuition discriminate. }
    intros _. apply opens_then_setns_post.
    + destruct (namespaces (config f)).
      * apply join_namespaces_split.
      * apply opens_then_setns_never. apply emits_ret.
    + intros _.
      match goal with
      | |- emits _ ?m =>
          assert (H : emits (only [KUnshare; KMount; KPrctl; KWrite; KRead;
                                   KSetresuid; KDprintf]) m)
            by emits_auto
      end.
      eapply emits_never; [| exact H]. simpl. intuition discriminate.
  - intros f'. eapply emits_never; [| apply emits_child_clone_init].
    simpl. intuition discriminate.
Qed.

Lemma all_succeed_world_counting : all_succeed world_counting.
Proof.
  intros n c. unfold world_counting, call_fails, answer.
  destruct c; cbn [rv]; try reflexivity;
    first [apply Z.ltb_ge; lia | apply Z.eqb_neq; lia].
Qed.

(** ** The wire format *)

Lemma byte_val_ascii (z : Z) :
  0 <= z < 256 -> byte_val (ascii_of_N (Z.to_N z)) = z.
Proof.
  intros H. unfold byte_val. rewrite N_ascii_embedding.
  - apply Z2N.id. lia.
  - apply N2Z.inj_lt. rewrite Z2N.id by lia. simpl. lia.
Qed.

Lemma split_16 (z : Z) :
  0 <= z < 65536 -> z mod 256 + 256 * ((z / 256) mod 256) = z.
Proof.
  intros H.
  assert (0 <= z / 256 < 256)
    by (split; [apply Z.div_pos; lia | apply Z.div_lt_upper_bound; lia]).
  rewrite (Z.mod_small (z / 256)) by lia.
  pose proof (Z.div_mod z 256 ltac:(lia)). lia.
Qed.

Lemma split_32 (z : Z) :
  0 <= z < 4294967296 ->
  z mod 256 + 256 * ((z / 256) mod 256) + 65536 * ((z / 65536) mod 256)
  + 16777216 * ((z / 16777216) mod 256) = z.
Proof.
  intros H.
  pose proof (Z.div_mod z 256 ltac:(lia)).
  pose proof (Z.div_mod (z / 256) 256 ltac:(lia)).
  pose proof (Z.div_mod (z / 256 / 256) 256 ltac:(lia)).
  rewrite !Z.div_div in * by lia.
  simpl (256 * 256) in *. simpl (65536 * 256) in *.
  assert (0 <= z / 16777216 < 256)
    by (split; [apply Z.div_pos; lia | apply Z.div_lt_upper_bound; lia]).
  rewrite (Z.mod_small (z / 16777216)) by lia.
  pose proof (Z.mod_pos_bound z 256 ltac:(lia)).
  pose proof (Z.mod_pos_bound (z / 256) 256 ltac:(lia)).
  pose proof (Z.mod_pos_bound (z / 65536) 256 ltac:(lia)).
  lia.
Qed.

Lemma align_4 (n : nat) :
  4 * ((Z.of_nat n + 3) / 4) = Z.of_nat n + (- Z.of_nat n) mod 4.
Proof.
  pose proof (Z.div_mod (Z.of_nat n + 3) 4 ltac:(lia)).
  pose proof (Z.mod_pos_bound (Z.of_nat n + 3) 4 ltac:(lia)).
  pose proof (Z.div_mod (- Z.of_nat n) 4 ltac:(lia)).
  pose proof (Z.mod_pos_bound (- Z.of_nat n) 4 ltac:(lia)).
  lia.
Qed.

Lemma readint16_le16 (z : Z) (rest : bytes) :
  0 <= z < 2 ^ 16 -> readint16 (le16 z ++ rest) = z.
Proof.
  intros H. unfold readint16, le16, byte_at. cbn [map app nth].
  change (8 * 0) with 0. change (8 * 1) with 8.
  rewrite !byte_val_ascii by (apply Z.mod_pos_bound; lia).
  change (2 ^ 0) with 1. rewrite Z.div_1_r.
  change (2 ^ 8) with 256 in *. change (2 ^ 16) with 65536 in *.
  apply split_16. exact H.
Qed.

Lemma readint32_le32 (z : Z) (rest : bytes) :
  0 <= z < 2 ^ 32 -> readint32 (le32 z ++ rest) = z.
Proof.
  intros H. unfold readint32, le32, byte_at, u32. cbn [map app nth].
  change (8 * 0) with 0. change (8 * 1) with 8.
  change (8 * 2) with 16. change (8 * 3) with 24.
  rewrite (Z.mod_small z) by exact H.
  rewrite !byte_val_ascii by (apply Z.mod_pos_bound; lia).
  change (2 ^ 0) with 1. rewrite Z.div_1_r.
  change (2 ^ 8) with 256 in *. change (2 ^ 16) with 65536 in *.
  change (2 ^ 24) with 16777216 in *. change (2 ^ 32) with 4294967296 in *.
  apply split_32. exact H.
Qed.

Lemma land_align (x : Z) :
  0 <= x < 2 ^ 64 -> Z.land x (2 ^ 64 - 4) = 4 * (x / 4).
Proof.
  intros Hx. apply Z.bits_inj'. intros n Hn.
  rewrite Z.land_spec.
  change (2 ^ 64 - 4) with (Z.shiftl (Z.ones 62) 2).
  replace (4 * (x / 4)) with (Z.shiftl (Z.shiftr x 2) 2).
  2:{ rewrite Z.shiftl_mul_pow2, Z.shiftr_div_pow2 by lia.
      change (2 ^ 2) with 4. lia. }
  rewrite !Z.shiftl_spec by exact Hn.
  destruct (Z.lt_ge_cases n 2) as [L | L].
  - rewrite (Z.testbit_neg_r (Z.ones 62)) by lia.
    rewrite (Z.testbit_neg_r (Z.shiftr x 2)) by lia. apply andb_false_r.
  - rewrite Z.shiftr_spec by lia. replace (n - 2 + 2) with n by lia.
    destruct (Z.lt_ge_cases n 64) as [L' | L'].
    + rewrite Z.ones_spec_low by lia. apply andb_true_r.
    + rewrite Z.ones_spec_high by lia. rewrite andb_false_r.
      symmetry. destruct (Z.eq_dec x 0) as [-> | Hx0];
        [apply Z.bits_0 |].
      apply Z.bits_above_log2; [lia |].
      apply Z.log2_lt_pow2; [lia |].
      apply Z.lt_le_trans with (2 ^ 64); [lia |].
      apply Z.pow_le_mono_r; lia.
Qed.

Lemma NLA_ALIGN_length (n : nat) :
  Z.of_nat n < 2 ^ 16 ->
  NLA_ALIGN (Z.of_nat n)
  = Z.of_nat (n + Z.to_nat ((- Z.of_nat n) mod 4)).
Proof.
  intros H. unfold NLA_ALIGN, u64.
  rewrite Z.mod_small by lia.
  rewrite land_align by lia.
  rewrite Nat2Z.inj_add, Z2Nat.id by (apply Z.mod_pos_bound; lia).
  apply align_4.
Qed.

Lemma length_nlattr (t : Z) (v : bytes) :
  length (nlattr t v)
  = (4 + (length v + Z.to_nat ((- Z.of_nat (length v)) mod 4)))%nat.
Proof.
  unfold nlattr. rewrite !length_app, repeat_length. reflexivity.
Qed.

Lemma nlattrs_cons (a : Z * bytes) (rest : list (Z * bytes)) :
  nlattrs (a :: rest) = nlattr (fst a) (snd a) ++ nlattrs rest.
Proof. reflexivity. Qed.

Lemma nl_attr_known (t : Z) (current : bytes) (len : Z) (c : nlconfig_t) :
  In t attr_types -> exists c', nl_attr t current len c = Some c'.
Proof.
  intros H. unfold attr_types in H. simpl in H.
  repeat (destruct H as [<- | H]; [eexists; reflexivity |]).
  destruct H.
Qed.

Lemma nl_attr_unknown (t : Z) (current : bytes) (len : Z) (c : nlconfig_t) :
  ~ In t attr_types -> nl_attr t current len c = None.
Proof.
  intros H. unfold nl_attr.
  repeat match goal with
         | |- (if ?t =? ?k then _ else _) = None =>
             destruct (Z.eqb_spec t k) as [E | _];
             [exfalso; apply H; rewrite E; unfold attr_types; simpl; tauto |]
         end.
  reflexivity.
Qed.

(** ** The parser on a well-formed message *)

Lemma skipn_length_app {A} (l r : list A) : skipn (length l) (l ++ r) = r.
Proof. induction l; simpl; auto. Qed.

Lemma readint16_nlattr_len (t : Z) (v rest : bytes) :
  wf_attr (t, v) ->
  readint16 (nlattr t v ++ rest) = NLA_HDRLEN + Z.of_nat (length v).
Proof.
  intros [_ Hl]. cbn [snd] in Hl. unfold nlattr. rewrite <- app_assoc.
  apply readint16_le16. unfold NLA_HDRLEN in *. lia.
Qed.

Lemma readint16_nlattr_type (t : Z) (v rest : bytes) :
  wf_attr (t, v) ->
  readint16 (skipn 2 (nlattr t v ++ rest)) = t.
Proof.
  intros [Ht _]. cbn [fst] in Ht. unfold nlattr. rewrite <- !app_assoc.
  change (skipn 2 (le16 ?z ++ ?r)) with r.
  apply readint16_le16. exact Ht.
Qed.

(** One turn of the loop at an attribute of the payload. *)
Lemma nl_parse_attrs_step (done : bytes) (t : Z) (v rest : bytes)
    (fuel : nat) (cfg : nlconfig_t) (st : proc) :
  wf_attr (t, v) ->
  Z.of_nat (length (done ++ nlattr t v ++ rest)) < 2 ^ 32 ->
  nl_parse_attrs (S fuel) (done ++ nlattr t v ++ rest)
    (Z.of_nat (length (done ++ nlattr t v ++ rest)))
    (Z.of_nat (length done)) cfg st
  = match nl_attr t (skipn (length done + 4) (done ++ nlattr t v ++ rest))
                  (Z.of_nat (length v)) cfg with
    | None =>
        bail (str "nl_parse") 541
             (str "unknown netlink message type " ++ fmt_d t) st
    | Some cfg' =>
        nl_parse_attrs fuel (done ++ nlattr t v ++ rest)
          (Z.of_nat (length (done ++ nlattr t v ++ rest)))
          (Z.of_nat (length (done ++ nlattr t v))) cfg' st
    end.
Proof.
  intros Hwf Hs. cbn [nl_parse_attrs].
  assert (Hlen := length_nlattr t v).
  assert (Hl : NLA_HDRLEN + Z.of_nat (length v) < 2 ^ 16) by apply Hwf.
  unfold NLA_HDRLEN in Hl.
  replace (Z.of_nat (length done) <?
           Z.of_nat (length (done ++ nlattr t v ++ rest)))
    with true by (symmetry; apply Z.ltb_lt; rewrite !length_app; lia).
  rewrite Nat2Z.id, skipn_length_app.
  rewrite readint16_nlattr_len, readint16_nlattr_type by exact Hwf.
  unfold NLA_HDRLEN.
  replace (u64 (4 + Z.of_nat (length v) - 4)) with (Z.of_nat (length v))
    by (unfold u64; rewrite Z.mod_small; lia).
  rewrite !length_app in Hs.
  replace (u64 (Z.of_nat (length done) + 4))
    with (Z.of_nat (length done + 4))
    by (unfold u64; rewrite Z.mod_small; lia).
  rewrite Nat2Z.id.
  rewrite NLA_ALIGN_length by lia.
  rewrite (length_app done (nlattr t v)).
  rewrite Hlen in *.
  set (pad := Z.to_nat (- Z.of_nat (length v) mod 4)) in *.
  replace (u64 (Z.of_nat (length done + 4) + Z.of_nat (length v + pad)))
    with (Z.of_nat (length done + (4 + (length v + pad))))
    by (unfold u64; rewrite Z.mod_small; lia).
  destruct (nl_attr _ _ _ _); reflexivity.
Qed.

Lemma nl_parse_attrs_unknown (pre : list (Z * bytes)) :
  forall (done : bytes) (t : Z) (v : bytes) (post : list (Z * bytes))
         (fuel : nat) (cfg : nlconfig_t) (st : proc),
    Forall wf_attr pre -> wf_attr (t, v) ->
    Forall (fun a => In (fst a) attr_types) pre ->
    ~ In t attr_types ->
    (length pre < fuel)%nat ->
    Z.of_nat (length (done ++ nlattrs (pre ++ (t, v) :: post))) < 2 ^ 32 ->
    nl_parse_attrs fuel (done ++ nlattrs (pre ++ (t, v) :: post))
      (Z.of_nat (length (done ++ nlattrs (pre ++ (t, v) :: post))))
      (Z.of_nat (length done)) cfg st
    = bail (str "nl_parse") 541
           (str "unknown netlink message type " ++ fmt_d t) st.
Proof.
  induction pre as [| [t0 v0] pre IH];
    intros done t v post fuel cfg st Hwf Hv Hk Hu Hf Hs;
    (destruct fuel as [| fuel]; [simpl in Hf; lia |]).
  - cbn [app] in *. rewrite nlattrs_cons in *. cbn [fst snd] in *.
    rewrite nl_parse_attrs_step by assumption.
    rewrite nl_attr_unknown by exact Hu. reflexivity.
  - cbn [app] in *. rewrite nlattrs_cons in *. cbn [fst snd] in *.
    inversion Hwf as [| ? ? Hwf0 Hwf']; subst.
    inversion Hk as [| ? ? Hk0 Hk']; subst. cbn [fst] in Hk0.
    rewrite nl_parse_attrs_step by assumption.
    destruct (nl_attr_known t0
                (skipn (length done + 4)
                   (done ++ nlattr t0 v0 ++ nlattrs (pre ++ (t, v) :: post)))
                (Z.of_nat (length v0)) cfg Hk0) as [cfg' ->].
    rewrite app_assoc in *.
    apply IH; try assumption. simpl in Hf. lia.
Qed.

Lemma readint32_nlmsghdr (len type : Z) :
  0 <= len < 2 ^ 32 -> readint32 (nlmsghdr len type) = len.
Proof. intros H. unfold nlmsghdr. apply readint32_le32. exact H. Qed.

Lemma readint16_nlmsghdr (len type : Z) :
  0 <= type < 2 ^ 16 -> readint16 (skipn 4 (nlmsghdr len type)) = type.
Proof.
  intros H. unfold nlmsghdr.
  change (skipn 4 (le32 len ++ ?r)) with r.
  apply readint16_le16. exact H.
Qed.

Lemma bind_sys_ext {B} (c : call) (k k' : response -> M B) (st : proc) :
  k (oracle st (clock st) c) (after (sys c) st)
  = k' (oracle st (clock st) c) (after (sys c) st) ->
  bind (sys c) k st = bind (sys c) k' st.
Proof. intros H. unfold bind, sys in *. cbn [after snd] in H. now rewrite H. Qed.

Lemma nl_parse_delivered (fuel : nat) (fd : Z) (cfg : nlconfig_t)
    (payload : bytes) (st : proc) :
  delivers st fd payload ->
  let size := Z.of_nat (length payload) in
  nl_parse fuel fd cfg st
  = (h <- sys (Read fd NLMSG_HDRLEN) ;;
     a <- sys (Malloc size) ;;
     d <- sys (Read fd size) ;;
     nl_parse_attrs fuel payload size 0 (set_data (Some payload) cfg)) st.
Proof.
  intros (Hs & Hh & Hhdr & Ha & Hd & Hp) size. fold size in Hs, Ha, Hd, Hp.
  unfold nl_parse.
  apply bind_sys_ext.
  rewrite Hh, Hhdr. fold size.
  change (negb (u64 NLMSG_HDRLEN =? NLMSG_HDRLEN)) with false. cbv iota.
  rewrite readint32_nlmsghdr by (unfold NLMSG_HDRLEN in *; lia).
  rewrite readint16_nlmsghdr by (unfold INIT_MSG; lia).
  change (INIT_MSG =? NLMSG_ERROR) with false.
  change (negb (INIT_MSG =? INIT_MSG)) with false. cbv iota.
  replace (u32 (NLMSG_HDRLEN + size - NLMSG_HDRLEN)) with size
    by (unfold u32, NLMSG_HDRLEN in *; rewrite Z.mod_small; lia).
  apply bind_sys_ext.
  change (clock (after (sys (Read fd NLMSG_HDRLEN)) st)) with (S (clock st)).
  rewrite oracle_sys.
  destruct (Z.eqb_spec (rv (oracle st (S (clock st)) (Malloc size))) 0)
    as [E | _]; [contradiction |].
  apply bind_sys_ext.
  change (clock (after (sys (Malloc size))
                   (after (sys (Read fd NLMSG_HDRLEN)) st)))
    with (S (S (clock st))).
  rewrite !oracle_sys, Hd, Hp.
  replace (u64 size) with size
    by (unfold u64, NLMSG_HDRLEN in *; rewrite Z.mod_small; lia).
  rewrite Z.eqb_refl. cbv iota. cbn [negb].
  unfold size. rewrite Nat2Z.id, firstn_all. reflexivity.
Qed.

Lemma known_attr_In (t : Z) : known_attr t = true <-> In t attr_types.
Proof.
  unfold known_attr. rewrite existsb_exists. split.
  - intros (x & Hx & E). apply Z.eqb_eq in E. now subst.
  - intros H. exists t. split; [exact H | apply Z.eqb_refl].
Qed.

Lemma first_unknown_split (attrs : list (Z * bytes)) :
  Exists (fun a => ~ In (fst a) attr_types) attrs ->
  exists pre t v post,
    attrs = pre ++ (t, v) :: post /\
    Forall (fun a => In (fst a) attr_types) pre /\
    ~ In t attr_types /\
    first_unknown attrs = Some t.
Proof.
  induction attrs as [| [t v] rest IH]; intros H; [inversion H |].
  cbn [first_unknown fst].
  destruct (known_attr t) eqn:E.
  - apply known_attr_In in E.
    inversion H as [? ? H0 | ? ? H0]; subst; [contradiction |].
    destruct (IH H0) as (pre & t' & v' & post & -> & Hk & Hu & Hf).
    exists ((t, v) :: pre), t', v', post.
    repeat split; try assumption. constructor; assumption.
  - exists [], t, v, rest. repeat split; [constructor | ].
    intros Hin. apply known_attr_In in Hin. congruence.
Qed.

Lemma nl_parse_attrs_first_unknown (pre : list (Z * bytes)) (t : Z)
    (v : bytes) (post : list (Z * bytes)) (fuel : nat) (cfg : nlconfig_t)
    (st : proc) :
  Forall wf_attr (pre ++ (t, v) :: post) ->
  Forall (fun a => In (fst a) attr_types) pre ->
  ~ In t attr_types ->
  (length pre < fuel)%nat ->
  Z.of_nat (length (nlattrs (pre ++ (t, v) :: post))) < 2 ^ 32 ->
  nl_parse_attrs fuel (nlattrs (pre ++ (t, v) :: post))
    (Z.of_nat (length (nlattrs (pre ++ (t, v) :: post)))) 0 cfg st
  = bail (str "nl_parse") 541
         (str "unknown netlink message type " ++ fmt_d t) st.
Proof.
  intros Hwf Hk Hu Hf Hs.
  apply Forall_app in Hwf. destruct Hwf as [Hpre Hrest].
  inversion Hrest; subst.
  exact (nl_parse_attrs_unknown pre [] t v post fuel cfg st
           Hpre ltac:(assumption) Hk Hu Hf Hs).
Qed.

Lemma run_ext {A} (m m' : M A) (st : proc) :
  m st = m' st ->
  result m st = result m' st /\ emitted m st = emitted m' st.
Proof. unfold result, emitted. now intros ->. Qed.

(** ** The descriptor of the synchronisation socket *)

Lemma keeps_ret {A} (a : A) : keeps_syncfd (ret a).
Proof. intros st. reflexivity. Qed.

Lemma keeps_halt {A} (s : stop) : keeps_syncfd (@halt A s).
Proof. intros st. reflexivity. Qed.

Lemma keeps_exit {A} (c : Z) : keeps_syncfd (@exit A c).
Proof. intros st. reflexivity. Qed.

Lemma keeps_sys (c : call) : keeps_syncfd (sys c).
Proof. intros st. reflexivity. Qed.

Lemma keeps_get_errno : keeps_syncfd get_errno.
Proof. intros st. reflexivity. Qed.

Lemma keeps_get_logfd : keeps_syncfd get_logfd.
Proof. intros st. reflexivity. Qed.

Lemma keeps_get_syncfd : keeps_syncfd get_syncfd.
Proof. intros st. reflexivity. Qed.

Lemma keeps_set_logfd (fd : Z) : keeps_syncfd (set_logfd fd).
Proof. intros st. reflexivity. Qed.

Lemma keeps_bail {A} func line msg : keeps_syncfd (@bail A func line msg).
Proof. intros st. apply syncfd_bail. Qed.

Lemma keeps_bind {A B} (m : M A) (k : A -> M B) :
  keeps_syncfd m -> (forall a, keeps_syncfd (k a)) -> keeps_syncfd (bind m k).
Proof.
  intros Hm Hk st. rewrite after_bind.
  destruct (result m st) as [a | s]; [rewrite Hk |]; apply Hm.
Qed.

Create HintDb keeps.

Ltac keeps_walk :=
  repeat
    match goal with
    | |- keeps_syncfd (bind _ _) => apply keeps_bind; [| intros ?]
    | |- keeps_syncfd (ret _) => apply keeps_ret
    | |- keeps_syncfd (halt _) => apply keeps_halt
    | |- keeps_syncfd (exit _) => apply keeps_exit
    | |- keeps_syncfd (sys _) => apply keeps_sys
    | |- keeps_syncfd get_errno => apply keeps_get_errno
    | |- keeps_syncfd get_logfd => apply keeps_get_logfd
    | |- keeps_syncfd get_syncfd => apply keeps_get_syncfd
    | |- keeps_syncfd (set_logfd _) => apply keeps_set_logfd
    | |- keeps_syncfd (bail _ _ _) => apply keeps_bail
    | |- keeps_syncfd (if ?b then _ else _) => destruct b
    | |- keeps_syncfd (match ?x with _ => _ end) => destruct x
    end.

Ltac keeps_auto :=
  repeat (first [progress keeps_walk | assumption
                | solve [auto with keeps]]).

Lemma keeps_write_file data data_len path :
  keeps_syncfd (write_file data data_len path).
Proof. unfold write_file. keeps_auto. Qed.
#[local] Hint Resolve keeps_write_file : keeps.

Lemma keeps_update_setgroups pid setgroup :
  keeps_syncfd (update_setgroups pid setgroup).
Proof. unfold update_setgroups. keeps_auto. Qed.
#[local] Hint Resolve keeps_update_setgroups : keeps.

Lemma keeps_wait_child fuel child : keeps_syncfd (wait_child fuel child).
Proof.
  induction fuel as [| fuel IH]; simpl; [apply keeps_halt |]. keeps_auto.
Qed.
#[local] Hint Resolve keeps_wait_child : keeps.

Lemma keeps_execve path argv envp : keeps_syncfd (execve path argv envp).
Proof. unfold execve. keeps_auto. Qed.
#[local] Hint Resolve keeps_execve : keeps.

Lemma keeps_try_mapping_tool fuel app pid map map_len :
  keeps_syncfd (try_mapping_tool fuel app pid map map_len).
Proof. unfold try_mapping_tool. keeps_auto. Qed.
#[local] Hint Resolve keeps_try_mapping_tool : keeps.

Lemma keeps_update_uidmap fuel path pid map map_len :
  keeps_syncfd (update_uidmap fuel path pid map map_len).
Proof. unfold update_uidmap. keeps_auto. Qed.
#[local] Hint Resolve keeps_update_uidmap : keeps.

Lemma keeps_update_gidmap fuel path pid map map_len :
  keeps_syncfd (update_gidmap fuel path pid map map_len).
Proof. unfold update_gidmap. keeps_auto. Qed.
#[local] Hint Resolve keeps_update_gidmap : keeps.

Lemma keeps_write_sync s : keeps_syncfd (write_sync s).
Proof. unfold write_sync. keeps_auto. Qed.
#[local] Hint Resolve keeps_write_sync : keeps.

Lemma keeps_read_sync : keeps_syncfd read_sync.
Proof. unfold read_sync. keeps_auto. Qed.
#[local] Hint Resolve keeps_read_sync : keeps.

Lemma keeps_kill pid : keeps_syncfd (kill pid).
Proof. unfold kill. keeps_auto. Qed.
#[local] Hint Resolve keeps_kill : keeps.

Lemma keeps_clone_parent jmpval f : keeps_syncfd (clone_parent jmpval f).
Proof. unfold clone_parent. keeps_auto. Qed.
#[local] Hint Resolve keeps_clone_parent : keeps.

Lemma keeps_parent_usermap fuel config child :
  keeps_syncfd (parent_usermap fuel config child).
Proof. unfold parent_usermap. keeps_auto. Qed.
#[local] Hint Resolve keeps_parent_usermap : keeps.

Lemma keeps_parent_recvpid f child : keeps_syncfd (parent_recvpid f child).
Proof. unfold parent_recvpid. keeps_auto. Qed.
#[local] Hint Resolve keeps_parent_recvpid : keeps.

Lemma keeps_open_namespaces fuel namespace saveptr namespaces :
  keeps_syncfd (open_namespaces fuel namespace saveptr namespaces).
Proof.
  revert namespace saveptr namespaces.
  induction fuel as [| fuel IH]; intros; simpl; [apply keeps_halt |].
  keeps_auto; apply IH.
Qed.
#[local] Hint Resolve keeps_open_namespaces : keeps.

Lemma keeps_setns_namespaces namespaces :
  keeps_syncfd (setns_namespaces namespaces).
Proof. induction namespaces as [| ns rest IH]; simpl; keeps_auto. Qed.
#[local] Hint Resolve keeps_setns_namespaces : keeps.

Lemma keeps_nl_free config : keeps_syncfd (nl_free config).
Proof. unfold nl_free. keeps_auto. Qed.
#[local] Hint Resolve keeps_nl_free : keeps.

Lemma keeps_join_namespaces nslist : keeps_syncfd (join_namespaces nslist).
Proof. unfold join_namespaces. keeps_auto. Qed.
#[local] Hint Resolve keeps_join_namespaces : keeps.

Lemma keeps_shiftfs_loop fuel rootfs mntpath saveptr :
  keeps_syncfd (shiftfs_loop fuel rootfs mntpath saveptr).
Proof.
  revert mntpath saveptr.
  induction fuel as [| fuel IH]; intros; simpl; [apply keeps_halt |].
  keeps_auto; apply IH.
Qed.
#[local] Hint Resolve keeps_shiftfs_loop : keeps.

Lemma keeps_mount_shiftfs config : keeps_syncfd (mount_shiftfs config).
Proof. unfold mount_shiftfs. keeps_auto. Qed.
#[local] Hint Resolve keeps_mount_shiftfs : keeps.

Lemma keeps_child_unshare_first config :
  keeps_syncfd (child_unshare_first config).
Proof. unfold child_unshare_first. keeps_auto. Qed.
#[local] Hint Resolve keeps_child_unshare_first : keeps.

Lemma keeps_child_prep_rootfs config :
  keeps_syncfd (child_prep_rootfs config).
Proof. unfold child_prep_rootfs. keeps_auto. Qed.
#[local] Hint Resolve keeps_child_prep_rootfs : keeps.

Lemma keeps_child_usermap config : keeps_syncfd (child_usermap config).
Proof. unfold child_usermap. keeps_auto. Qed.
#[local] Hint Resolve keeps_child_usermap : keeps.

Lemma keeps_child_retry_rootfs config d s :
  keeps_syncfd (child_retry_rootfs config d s).
Proof. unfold child_retry_rootfs. keeps_auto. Qed.
#[local] Hint Resolve keeps_child_retry_rootfs : keeps.

(** ** Messages on the synchronisation socket *)

Lemma prefix_of_nil {A} (L : list A) : prefix_of [] L.
Proof. exists L. reflexivity. Qed.

Lemma prefix_of_app_l {A} (a b L : list A) :
  prefix_of (a ++ b) L -> prefix_of a L.
Proof. intros [rest ->]. exists (b ++ rest). now rewrite app_assoc. Qed.

Lemma prefix_of_cons {A} (x y : A) (l L : list A) :
  prefix_of (x :: l) (y :: L) -> x = y /\ prefix_of l L.
Proof. intros [rest E]. inversion E. split; [reflexivity | now exists rest]. Qed.

Lemma prefix_of_cons_nil {A} (x : A) (l : list A) : ~ prefix_of (x :: l) [].
Proof. intros [rest E]. discriminate E. Qed.

Lemma prefix_of_trans {A} (a b c : list A) :
  prefix_of a b -> prefix_of b c -> prefix_of a c.
Proof.
  intros [r1 ->] [r2 ->]. exists (r1 ++ r2). now rewrite app_assoc.
Qed.

Lemma received_app (fd : Z) (a b : list event) :
  received fd (a ++ b) = received fd a ++ received fd b.
Proof. apply flat_map_app. Qed.

Lemma sent_app (fd : Z) (a b : list event) :
  sent fd (a ++ b) = sent fd a ++ sent fd b.
Proof. apply flat_map_app. Qed.

Lemma received_never (fd : Z) (tr : list event) :
  Forall (never KRead) tr -> received fd tr = [].
Proof.
  induction 1 as [| e tr He _ IH]; [reflexivity |].
  cbn [received flat_map]. fold (received fd tr). rewrite IH, app_nil_r.
  destruct e as [c r]. unfold message_in. cbn [fst].
  destruct c; try reflexivity. exfalso. apply He. reflexivity.
Qed.

Lemma sent_never (fd : Z) (tr : list event) :
  Forall (never KWrite) tr -> sent fd tr = [].
Proof.
  induction 1 as [| e tr He _ IH]; [reflexivity |].
  cbn [sent flat_map]. fold (sent fd tr). rewrite IH, app_nil_r.
  destruct e as [c r]. unfold message_out. cbn [fst].
  destruct c; try reflexivity. exfalso. apply He. reflexivity.
Qed.

Lemma received_only (fd : Z) (ks : list kind) {A} (m : M A) (st : proc) :
  ~ In KRead ks -> emits (only ks) m -> received fd (emitted m st) = [].
Proof.
  intros Hn Hm. apply received_never.
  apply (emits_emitted (never KRead) m st). apply (emits_never ks); assumption.
Qed.

Lemma sent_only (fd : Z) (ks : list kind) {A} (m : M A) (st : proc) :
  ~ In KWrite ks -> emits (only ks) m -> sent fd (emitted m st) = [].
Proof.
  intros Hn Hm. apply sent_never.
  apply (emits_emitted (never KWrite) m st). apply (emits_never ks); assumption.
Qed.

Lemma never_open_only (ks : list kind) {A} (m : M A) (st : proc) :
  ~ In KOpen ks -> emits (only ks) m -> Forall (never KOpen) (emitted m st).
Proof.
  intros Hn Hm.
  apply (emits_emitted (never KOpen) m st). apply (emits_never ks); assumption.
Qed.

Ltac not_in_kinds :=
  let H := fresh "H" in
  intros H; simpl in H;
  repeat (destruct H as [H | H]; [discriminate H |]); exact H.

(** ** A read of a token *)

Lemma result_read_sync (st : proc) :
  result read_sync st
  = Ret (let r := oracle st (clock st) (Read (syncfd st) 4) in
         if rv r =? 4 then Some (readint32 (rbytes r)) else None).
Proof.
  unfold read_sync. run_simp. cbv zeta.
  destruct (rv _ =? 4); reflexivity.
Qed.

Lemma emitted_read_sync (st : proc) :
  emitted read_sync st
  = [(Read (syncfd st) 4, oracle st (clock st) (Read (syncfd st) 4))].
Proof.
  unfold read_sync. run_simp.
  destruct (rv _ =? 4); reflexivity.
Qed.

Lemma received_cons (fd : Z) (e : event) (tr : list event) :
  received fd (e :: tr) = message_in fd e ++ received fd tr.
Proof. reflexivity. Qed.

Lemma sent_cons (fd : Z) (e : event) (tr : list event) :
  sent fd (e :: tr) = message_out fd e ++ sent fd tr.
Proof. reflexivity. Qed.

Lemma message_in_read (fd : Z) (r : response) :
  message_in fd (Read fd 4, r)
  = if rv r =? 4 then [readint32 (rbytes r)] else [].
Proof.
  cbn [message_in fst snd]. rewrite Z.eqb_refl. reflexivity.
Qed.

Lemma message_out_write (fd : Z) (buf : bytes) (w : response) :
  message_out fd (Write fd buf 4, w)
  = if rv w =? 4 then [readint32 buf] else [].
Proof.
  cbn [message_out fst snd]. rewrite Z.eqb_refl. reflexivity.
Qed.

(** When it returns, [parent_recvpid] has received one message. *)
Lemma received_parent_recvpid (f : frame) (child c : Z) (st : proc) :
  result (parent_recvpid f child) st = Ret c ->
  exists x,
    received (syncfd st) (emitted (parent_recvpid f child) st) = [x].
Proof.
  unfold parent_recvpid. run_simp.
  set (r := oracle st (clock st) (Read (syncfd st) 4)).
  destruct (rv r =? 4) eqn:E; cbn [negb]; cbv iota.
  - intros _. exists (readint32 (rbytes r)). cbn [app].
    rewrite received_cons, message_in_read. fold r. rewrite E.
    match goal with
    | |- _ ++ received ?fd (emitted ?m ?s) = _ =>
        rewrite (received_only fd [KWrite; KKill; KDprintfPid; KDprintf] m s)
    end; [reflexivity | not_in_kinds |].
    emits_auto.
  - run_simp. rewrite bail_exits. discriminate.
Qed.

(** ** Stage 0 after the request for the ID mappings *)

(** When the messages that are left for stage 0 hold no request for the ID
    mappings, its loop opens no file. *)
Lemma parent_sync_child_quiet (fuel : nat) :
  forall (f : frame) (child : Z) (st : proc) (msgs : list Z),
    quiet msgs ->
    prefix_of (received (syncfd st)
                 (emitted (parent_sync_child fuel f child) st)) msgs ->
    Forall (never KOpen) (emitted (parent_sync_child fuel f child) st).
Proof.
  induction fuel as [| fuel IH]; intros f child st msgs Hq Hp;
    [constructor |].
  revert Hp. cbn [parent_sync_child].
  rewrite emitted_bind, result_read_sync, emitted_read_sync.
  set (r := oracle st (clock st) (Read (syncfd st) 4)). cbv zeta.
  set (st1 := after read_sync st).
  assert (Hfd : syncfd st1 = syncfd st) by apply keeps_read_sync.
  cbn [app]. rewrite received_cons, message_in_read.
  destruct (rv r =? 4) eqn:E.
  - cbn [app]. intros Hp.
    constructor; [discriminate |].
    destruct Hq as [-> | [-> | [pid ->]]].
    + destruct (prefix_of_cons_nil _ _ Hp).
    + apply prefix_of_cons in Hp. destruct Hp as [-> _].
      change (SYNC_CHILD_READY =? SYNC_USERMAP_PLS) with false.
      change (SYNC_CHILD_READY =? SYNC_RECVPID_PLS) with false.
      change (SYNC_CHILD_READY =? SYNC_CHILD_READY) with true.
      cbv iota. constructor.
    + apply prefix_of_cons in Hp. destruct Hp as [Hv Hp].
      revert Hp. rewrite Hv.
      change (SYNC_RECVPID_PLS =? SYNC_USERMAP_PLS) with false.
      change (SYNC_RECVPID_PLS =? SYNC_RECVPID_PLS) with true.
      cbv iota. rewrite emitted_bind, received_app, <- Hfd.
      intros Hp. apply Forall_app. split.
      * apply (never_open_only [KRead; KWrite; KKill; KDprintfPid; KDprintf]);
          [not_in_kinds | apply emits_parent_recvpid].
      * destruct (result (parent_recvpid f child) st1) as [c | s] eqn:Er;
          [| constructor].
        destruct (received_parent_recvpid f child c st1 Er) as [x Hx].
        rewrite Hx in Hp. apply prefix_of_cons in Hp. destruct Hp as [_ Hp].
        apply (IH f c _ [SYNC_CHILD_READY]).
        -- right. left. reflexivity.
        -- rewrite keeps_parent_recvpid. exact Hp.
  - intros _. constructor; [discriminate |].
    rewrite emitted_bail. apply fatal_line_never. discriminate.
Qed.

(** ** The files of a process in /proc *)

Lemma firstn_rev_suffix {A} (n : nat) (a s : list A) :
  (n <= length s)%nat -> firstn n (rev (a ++ s)) = firstn n (rev s).
Proof.
  intros H. rewrite rev_app_distr, firstn_app.
  replace (n - length (rev s))%nat with 0%nat
    by (rewrite length_rev; lia).
  apply app_nil_r.
Qed.

Lemma proc_path_neq (p q : Z) (f g : string) :
  (8 <= length (str f))%nat -> (8 <= length (str g))%nat ->
  firstn 8 (rev (str f)) <> firstn 8 (rev (str g)) ->
  proc_path p f <> proc_path q g.
Proof.
  intros Hf Hg Hn E. apply Hn. unfold proc_path in E.
  rewrite !app_assoc in E.
  apply (f_equal (fun l => firstn 8 (rev l))) in E.
  now rewrite !firstn_rev_suffix in E by assumption.
Qed.

Lemma gid_map_not_setgroups (p q : Z) :
  proc_path p "/gid_map" <> proc_path q "/setgroups".
Proof. apply proc_path_neq; [simpl; lia | simpl; lia | discriminate]. Qed.

Lemma gid_map_not_uid_map (p q : Z) :
  proc_path p "/gid_map" <> proc_path q "/uid_map".
Proof. apply proc_path_neq; [simpl; lia | simpl; lia | discriminate]. Qed.

(** ** The order of the writes in the handler of SYNC_USERMAP_PLS *)

Lemma not_opens_gid_map_only (ks : list kind) (e : event) :
  ~ In KOpen ks -> only ks e -> ~ opens_gid_map e.
Proof.
  intros Hn Ho [pid H]. apply Hn. unfold only in Ho. now rewrite H in Ho.
Qed.

Lemma not_opens_setgroups_only (ks : list kind) (e : event) :
  ~ In KOpen ks -> only ks e -> ~ opens_setgroups e.
Proof.
  intros Hn Ho [pid H]. apply Hn. unfold only in Ho. now rewrite H in Ho.
Qed.

Lemma not_opens_gid_map_never (e : event) :
  never KOpen e -> ~ opens_gid_map e.
Proof. intros Hn [pid H]. apply Hn. now rewrite H. Qed.

Lemma not_opens_setgroups_never (e : event) :
  never KOpen e -> ~ opens_setgroups e.
Proof. intros Hn [pid H]. apply Hn. now rewrite H. Qed.

Lemma emits_no_gid_map_only (ks : list kind) {A} (m : M A) :
  ~ In KOpen ks -> emits (only ks) m ->
  emits (fun e => ~ opens_gid_map e) m.
Proof.
  intros Hn. apply emits_weaken. intros e. now apply not_opens_gid_map_only.
Qed.

Lemma emits_no_setgroups_only (ks : list kind) {A} (m : M A) :
  ~ In KOpen ks -> emits (only ks) m ->
  emits (fun e => ~ opens_setgroups e) m.
Proof.
  intros Hn. apply emits_weaken. intros e.
  now apply not_opens_setgroups_only.
Qed.

(** A call that is not an [open] of the file in question. *)
Ltac other_call :=
  let r := fresh "r" in
  let pid := fresh "pid" in
  let H := fresh "H" in
  apply emits_sys; intros r [pid H]; cbn [fst] in H;
  first [ discriminate H
        | injection H as H;
          first [ exact (gid_map_not_setgroups _ _ H)
                | exact (gid_map_not_setgroups _ _ (eq_sym H))
                | exact (gid_map_not_uid_map _ _ H)
                | exact (gid_map_not_uid_map _ _ (eq_sym H)) ] ].

Ltac other_calls :=
  repeat
    first
      [ progress emits_walk
      | other_call
      | eapply emits_no_gid_map_only; [| solve [auto with emits]];
        not_in_kinds
      | eapply emits_no_setgroups_only; [| solve [auto with emits]];
        not_in_kinds ].

Lemma emits_write_file_no_gid_map data data_len path :
  (forall pid, path <> proc_path pid "/gid_map") ->
  emits (fun e => ~ opens_gid_map e) (write_file data data_len path).
Proof.
  intros Hp. unfold write_file.
  apply emits_bind.
  - apply emits_sys. intros r [pid H]. cbn [fst] in H. injection H as H.
    exact (Hp pid H).
  - intros fd. other_calls.
Qed.

Lemma emits_write_file_no_setgroups data data_len path :
  (forall pid, path <> proc_path pid "/setgroups") ->
  emits (fun e => ~ opens_setgroups e) (write_file data data_len path).
Proof.
  intros Hp. unfold write_file.
  apply emits_bind.
  - apply emits_sys. intros r [pid H]. cbn [fst] in H. injection H as H.
    exact (Hp pid H).
  - intros fd. other_calls.
Qed.

Lemma emits_update_setgroups_no_gid_map pid setgroup :
  emits (fun e => ~ opens_gid_map e) (update_setgroups pid setgroup).
Proof.
  unfold update_setgroups.
  destruct (setgroups_policy setgroup); [| apply emits_ret].
  apply emits_bind.
  - apply emits_write_file_no_gid_map. intros q H.
    exact (gid_map_not_setgroups _ _ (eq_sym H)).
  - intros r. other_calls.
Qed.

Lemma emits_update_uidmap_no_gid_map fuel path pid map map_len :
  emits (fun e => ~ opens_gid_map e)
        (update_uidmap fuel path pid map map_len).
Proof.
  unfold update_uidmap.
  destruct map as [map |]; [| apply emits_ret].
  destruct (map_len <=? 0); [apply emits_ret |].
  apply emits_bind.
  - apply emits_write_file_no_gid_map. intros q H.
    exact (gid_map_not_uid_map _ _ (eq_sym H)).
  - intros r. other_calls.
Qed.

Lemma emits_update_gidmap_no_setgroups fuel path pid map map_len :
  emits (fun e => ~ opens_setgroups e)
        (update_gidmap fuel path pid map map_len).
Proof.
  unfold update_gidmap.
  destruct map as [map |]; [| apply emits_ret].
  destruct (map_len <=? 0); [apply emits_ret |].
  apply emits_bind.
  - apply emits_write_file_no_setgroups. intros q H.
    exact (gid_map_not_setgroups _ _ H).
  - intros r. other_calls.
Qed.

Lemma setgroups_then_gid_map_l (tr : list event) :
  Forall (fun e => ~ opens_gid_map e) tr -> setgroups_then_gid_map tr.
Proof.
  intros H. exists tr, []. rewrite app_nil_r. repeat split; auto.
Qed.

Lemma setgroups_then_gid_map_r (tr : list event) :
  Forall (fun e => ~ opens_setgroups e) tr -> setgroups_then_gid_map tr.
Proof. intros H. exists [], tr. repeat split; auto. Qed.

Lemma setgroups_then_gid_map_cons_l (pre tr : list event) :
  Forall (fun e => ~ opens_gid_map e) pre ->
  setgroups_then_gid_map tr -> setgroups_then_gid_map (pre ++ tr).
Proof.
  intros Hpre (a & b & -> & Ha & Hb). exists (pre ++ a), b.
  rewrite app_assoc. repeat split; [| exact Hb].
  apply Forall_app. split; assumption.
Qed.

Lemma setgroups_then_gid_map_cons_r (tr post : list event) :
  setgroups_then_gid_map tr ->
  Forall (fun e => ~ opens_setgroups e) post ->
  setgroups_then_gid_map (tr ++ post).
Proof.
  intros (a & b & -> & Ha & Hb) Hpost. exists a, (b ++ post).
  rewrite app_assoc. repeat split; [exact Ha |].
  apply Forall_app. split; assumption.
Qed.

Lemma setgroups_then_gid_map_bind {A B} (m : M A) (k : A -> M B)
    (st : proc) :
  emits (fun e => ~ opens_gid_map e) m ->
  (forall a st', setgroups_then_gid_map (emitted (k a) st')) ->
  setgroups_then_gid_map (emitted (bind m k) st).
Proof.
  intros Hm Hk. rewrite emitted_bind.
  apply setgroups_then_gid_map_cons_l; [apply Hm |].
  destruct (result m st) as [a | s]; [apply Hk |].
  apply setgroups_then_gid_map_l. constructor.
Qed.

(** In the handler every [setgroups] is opened before any [gid_map]. *)
Lemma parent_usermap_ordered fuel config child (st : proc) :
  setgroups_then_gid_map (emitted (parent_usermap fuel config child) st).
Proof.
  unfold parent_usermap.
  apply setgroups_then_gid_map_bind.
  { destruct (_ && _); [apply emits_update_setgroups_no_gid_map |].
    apply emits_ret. }
  intros _ st1. apply setgroups_then_gid_map_bind.
  { apply emits_update_uidmap_no_gid_map. }
  intros _ st2. apply setgroups_then_gid_map_r.
  apply (emits_emitted (fun e => ~ opens_setgroups e)).
  apply emits_bind; [apply emits_update_gidmap_no_setgroups |].
  intros _. other_calls.
Qed.

(** ** Stage 0 on the messages of stage 1 *)

Lemma never_open_ordered (tr : list event) :
  Forall (never KOpen) tr -> setgroups_then_gid_map tr.
Proof.
  intros H. apply setgroups_then_gid_map_l.
  eapply Forall_impl; [| exact H]. apply not_opens_gid_map_never.
Qed.

Lemma parent_sync_child_ordered (fuel : nat) (f : frame) (child : Z)
    (st : proc) (usermap : bool) (pid : Z) :
  prefix_of (received (syncfd st)
               (emitted (parent_sync_child fuel f child) st))
            (stage1_messages usermap pid) ->
  setgroups_then_gid_map (emitted (parent_sync_child fuel f child) st).
Proof.
  destruct usermap.
  2:{ intros Hp. apply never_open_ordered.
      apply (parent_sync_child_quiet fuel f child st _) in Hp;
        [exact Hp |].
      right. right. exists pid. reflexivity. }
  destruct fuel as [| fuel]; [intros _; apply never_open_ordered; constructor |].
  cbn [parent_sync_child stage1_messages app].
  rewrite emitted_bind, result_read_sync, emitted_read_sync.
  set (r := oracle st (clock st) (Read (syncfd st) 4)). cbv zeta.
  set (st1 := after read_sync st).
  assert (Hfd : syncfd st1 = syncfd st) by apply keeps_read_sync.
  cbn [app]. rewrite received_cons, message_in_read.
  destruct (rv r =? 4) eqn:E.
  - cbn [app]. intros Hp. apply prefix_of_cons in Hp. destruct Hp as [Hv Hp].
    revert Hp. rewrite Hv.
    change (SYNC_USERMAP_PLS =? SYNC_USERMAP_PLS) with true. cbv iota.
    rewrite emitted_bind, received_app.
    rewrite (received_only (syncfd st)
               [KOpen; KWrite; KClose; KFork; KExecve; KWaitpid; KKill;
                KDprintf]
               (parent_usermap fuel (config f) child) st1);
      [| not_in_kinds | apply emits_parent_usermap].
    cbn [app]. intros Hp.
    apply (setgroups_then_gid_map_cons_l [_]);
      [constructor; [| constructor]; apply not_opens_gid_map_never;
       discriminate |].
    apply setgroups_then_gid_map_cons_r; [apply parent_usermap_ordered |].
    destruct (result (parent_usermap fuel (config f) child) st1) as [[] | s];
      [| constructor].
    eapply Forall_impl; [apply not_opens_setgroups_never |].
    apply (parent_sync_child_quiet fuel f child _
             [SYNC_RECVPID_PLS; pid; SYNC_CHILD_READY]).
    + right. right. exists pid. reflexivity.
    + rewrite keeps_parent_usermap, Hfd. exact Hp.
  - intros _. apply never_open_ordered.
    constructor; [discriminate |].
    rewrite emitted_bail. apply fatal_line_never. discriminate.
Qed.

Lemma result_clone_parent jmpval f (st : proc) :
  result (clone_parent jmpval f) st
  = Ret (rv (oracle st (clock st) (CloneParent jmpval (config f)))).
Proof. reflexivity. Qed.

Lemma emitted_clone_parent jmpval f (st : proc) :
  emitted (clone_parent jmpval f) st
  = [(CloneParent jmpval (config f),
      oracle st (clock st) (CloneParent jmpval (config f)))].
Proof. reflexivity. Qed.

(** Stage 0 opens no file outside its first loop. *)
Lemma stage_parent_ordered (fuel : nat) (f : frame) (st : proc)
    (usermap : bool) (pid : Z) :
  prefix_of (received (snd (sync_child_pipe f))
               (emitted (stage_parent fuel f) st))
            (stage1_messages usermap pid) ->
  setgroups_then_gid_map (emitted (stage_parent fuel f) st).
Proof.
  unfold stage_parent.
  rewrite emitted_bind, result_sys, emitted_sys.
  set (st1 := after (sys (PrctlSetName (str "runc:[0:PARENT]"))) st).
  rewrite emitted_bind, result_clone_parent, emitted_clone_parent.
  set (c := oracle st1 (clock st1) (CloneParent JUMP_CHILD (config f))).
  set (st2 := after (clone_parent JUMP_CHILD f) st1).
  cbn [app].
  destruct (rv c <? 0).
  - intros _. apply never_open_ordered.
    constructor; [discriminate |]. constructor; [discriminate |].
    rewrite emitted_bail. apply fatal_line_never. discriminate.
  - run_simp. cbn [app].
    set (st3 := after (sys (Close (fst (sync_child_pipe f))))
                  (after (set_syncfd (snd (sync_child_pipe f))) st2)).
    assert (Hfd : syncfd st3 = snd (sync_child_pipe f)) by reflexivity.
    rewrite !received_cons. cbn [message_in fst app].
    rewrite received_app, <- Hfd. intros Hp. apply prefix_of_app_l in Hp.
    apply (setgroups_then_gid_map_cons_l [_; _; _]).
    { repeat constructor; apply not_opens_gid_map_never; discriminate. }
    apply setgroups_then_gid_map_cons_r.
    { exact (parent_sync_child_ordered fuel f (rv c) st3 usermap pid Hp). }
    destruct (result (parent_sync_child fuel f (rv c)) st3) as [c' | s];
      [| constructor].
    run_simp. cbn [app].
    constructor; [apply not_opens_setgroups_never; discriminate |].
    apply Forall_app. split; [| destruct (result _ _); constructor].
    eapply Forall_impl; [apply not_opens_setgroups_never |].
    apply (never_open_only [KRead; KWrite; KKill; KDprintf]);
      [not_in_kinds | apply emits_parent_sync_grandchild].
Qed.

(** ** What stage 1 sends *)

Lemma sends_at_bind {A B} (fd : Z) (l1 l2 : list Z) (m : M A)
    (k : A -> M B) (st : proc) :
  sends_at fd l1 m st ->
  (forall a, result m st = Ret a -> sends_at fd l2 (k a) (after m st)) ->
  sends_at fd (l1 ++ l2) (bind m k) st.
Proof.
  unfold sends_at. intros Hm Hk.
  rewrite result_bind, emitted_bind, sent_app.
  destruct (result m st) as [a | s].
  - specialize (Hk a eq_refl). rewrite Hm.
    destruct (result (k a) (after m st)).
    + now rewrite Hk.
    + destruct Hk as [rest ->]. exists rest. now rewrite app_assoc.
  - cbn [sent flat_map]. rewrite app_nil_r.
    destruct Hm as [rest ->]. exists (rest ++ l2). now rewrite app_assoc.
Qed.

Lemma sends_at_quiet {A} (fd : Z) (ks : list kind) (m : M A) (st : proc) :
  ~ In KWrite ks -> emits (only ks) m -> sends_at fd [] m st.
Proof.
  intros Hn Hm. unfold sends_at. rewrite (sent_only fd ks m st Hn Hm).
  destruct (result m st); [reflexivity | apply prefix_of_nil].
Qed.

Lemma sends_at_stop {A} (fd : Z) (msgs : list Z) (ks : list kind) (m : M A)
    (st : proc) :
  ~ In KWrite ks -> emits (only ks) m ->
  (forall a, result m st <> Ret a) ->
  sends_at fd msgs m st.
Proof.
  intros Hn Hm Hs. unfold sends_at. rewrite (sent_only fd ks m st Hn Hm).
  destruct (result m st) as [a | s]; [destruct (Hs a eq_refl) |].
  apply prefix_of_nil.
Qed.

Lemma le32_u32 (z : Z) : le32 z = le32 (u32 z).
Proof.
  unfold le32. replace (u32 (u32 z)) with (u32 z); [reflexivity |].
  unfold u32. now rewrite Z.mod_mod.
Qed.

Lemma readint32_le32_u32 (z : Z) : readint32 (le32 z) = u32 z.
Proof.
  rewrite le32_u32, <- (app_nil_r (le32 (u32 z))).
  apply readint32_le32. apply Z.mod_pos_bound. reflexivity.
Qed.

(** A four-byte write on the socket, on whose failure the process
    stops. *)
Lemma sends_at_write {A} (fd v : Z) (msgs : list Z) (ks : list kind)
    (fail next : M A) (st : proc) :
  ~ In KWrite ks -> emits (only ks) fail ->
  (forall st' a, result fail st' <> Ret a) ->
  sends_at fd msgs next (after (sys (Write fd (le32 v) 4)) st) ->
  sends_at fd (u32 v :: msgs)
    (w <- sys (Write fd (le32 v) 4) ;;
     if negb (rv w =? 4) then fail else next) st.
Proof.
  intros Hn Hf Hs Hnext. unfold sends_at in *.
  rewrite result_bind, emitted_bind, result_sys, emitted_sys.
  set (w := oracle st (clock st) (Write fd (le32 v) 4)).
  cbn [app]. rewrite sent_cons, message_out_write. fold w.
  destruct (rv w =? 4); cbn [negb]; cbv iota.
  - rewrite readint32_le32_u32. cbn [app].
    destruct (result next _).
    + now rewrite Hnext.
    + destruct Hnext as [rest ->]. now exists rest.
  - rewrite (sent_only fd ks fail _ Hn Hf). cbn [app].
    destruct (result fail _) as [a | s] eqn:E; [destruct (Hs _ _ E) |].
    apply prefix_of_nil.
Qed.

Lemma bind_write_sync {B} (v : Z) (k : bool -> M B) (st : proc) :
  bind (write_sync v) k st
  = bind (sys (Write (syncfd st) (le32 v) 4)) (fun w => k (rv w =? 4)) st.
Proof.
  unfold write_sync, bind, get_syncfd, sys, ret. cbn [app].
  destruct (k _ _) as [[o e] s]. reflexivity.
Qed.

Lemma sends_at_write_sync {A} (v : Z) (msgs : list Z) (ks : list kind)
    (fail next : M A) (st : proc) :
  ~ In KWrite ks -> emits (only ks) fail ->
  (forall st' a, result fail st' <> Ret a) ->
  sends_at (syncfd st) msgs next (after (write_sync v) st) ->
  sends_at (syncfd st) (u32 v :: msgs)
    (ok <- write_sync v ;; if negb ok then fail else next) st.
Proof.
  intros Hn Hf Hs Hnext.
  assert (E : (ok <- write_sync v ;; if negb ok then fail else next) st
              = (w <- sys (Write (syncfd st) (le32 v) 4) ;;
                 if negb (rv w =? 4) then fail else next) st).
  { apply (bind_write_sync v (fun ok => if negb ok then fail else next)). }
  unfold sends_at.
  destruct (run_ext _ _ st E) as [-> ->].
  exact (sends_at_write (syncfd st) v msgs ks fail next st Hn Hf Hs Hnext).
Qed.

Lemma bail_stops {A} func line msg (st : proc) (a : A) :
  result (@bail A func line msg) st <> Ret a.
Proof. rewrite bail_exits. discriminate. Qed.

Lemma kill_bail_stops {A} pid func line msg (st : proc) (a : A) :
  result (kill pid ;; @bail A func line msg) st <> Ret a.
Proof. unfold kill. run_simp. rewrite bail_exits. discriminate. Qed.

Lemma child_usermap_sends (c : nlconfig_t) (st : proc) :
  sends_at (syncfd st) [SYNC_USERMAP_PLS] (child_usermap c) st.
Proof.
  unfold child_usermap.
  apply (sends_at_bind (syncfd st) [] [SYNC_USERMAP_PLS]).
  { apply (sends_at_quiet _ [KPrctl; KDprintf]); [not_in_kinds |].
    emits_auto. }
  intros [] E1.
  set (st1 := after _ st).
  assert (Hfd : syncfd st1 = syncfd st).
  { subst st1.
    match goal with |- syncfd (after ?m st) = _ =>
      assert (Hk : keeps_syncfd m) by keeps_auto; apply Hk end. }
  rewrite <- Hfd.
  apply (sends_at_write_sync SYNC_USERMAP_PLS [] [KDprintf]);
    [not_in_kinds | emits_auto | intros; apply bail_stops |].
  apply (sends_at_quiet _ [KRead; KPrctl; KSetresuid; KDprintf]);
    [not_in_kinds |].
  emits_auto.
Qed.

Lemma child_clone_init_sends (f : frame) (st : proc) :
  exists pid,
    sends_at (syncfd st) [SYNC_RECVPID_PLS; pid; SYNC_CHILD_READY]
             (child_clone_init f) st.
Proof.
  unfold child_clone_init.
  set (c := oracle st (clock st) (CloneParent JUMP_INIT (config f))).
  exists (u32 (rv c)).
  apply (sends_at_bind (syncfd st) []
           [SYNC_RECVPID_PLS; u32 (rv c); SYNC_CHILD_READY]).
  { apply (sends_at_quiet _ [KCloneParent]); [not_in_kinds |].
    emits_auto. }
  intros child E. rewrite result_clone_parent in E. injection E as <-.
  fold c.
  set (st1 := after _ st).
  change (syncfd st) with (syncfd st1).
  destruct (rv c <? 0).
  { apply (sends_at_stop _ _ [KDprintf]);
      [not_in_kinds | emits_auto | intros; apply bail_stops]. }
  apply (sends_at_write_sync SYNC_RECVPID_PLS _ [KKill; KDprintf]);
    [not_in_kinds | emits_auto | intros; apply kill_bail_stops |].
  set (st2 := after _ st1).
  unfold sends_at. rewrite result_bind, emitted_bind.
  rewrite result_get_syncfd, emitted_get_syncfd, after_get_syncfd.
  cbn [app].
  change (syncfd st2) with (syncfd st1).
  apply (sends_at_write (syncfd st1) (rv c) _ [KKill; KDprintf]);
    [not_in_kinds | emits_auto | intros; apply kill_bail_stops |].
  set (st3 := after _ st2).
  apply (sends_at_bind (syncfd st1) [] [SYNC_CHILD_READY]).
  { apply (sends_at_quiet _ [KRead]); [not_in_kinds | emits_auto]. }
  intros t Et.
  set (st4 := after _ st3).
  destruct t as [s |].
  2:{ apply (sends_at_stop _ _ [KKill; KDprintf]);
        [not_in_kinds | emits_auto | intros; apply kill_bail_stops]. }
  destruct (negb (s =? SYNC_RECVPID_ACK)).
  { apply (sends_at_stop _ _ [KKill; KDprintf]);
      [not_in_kinds | emits_auto | intros; apply kill_bail_stops]. }
  replace (syncfd st1) with (syncfd st4)
    by (subst st4; rewrite keeps_read_sync; reflexivity).
  apply (sends_at_write_sync SYNC_CHILD_READY [] [KKill; KDprintf]);
    [not_in_kinds | emits_auto | intros; apply kill_bail_stops |].
  unfold sends_at. cbn. apply prefix_of_nil.
Qed.

Lemma child_unshare_first_new_userns (c : nlconfig_t) :
  returns (fun u : nlconfig_t * bool =>
             snd u = nonzero (Z.land (cloneflags c) CLONE_NEWUSER))
          (child_unshare_first c).
Proof.
  unfold child_unshare_first.
  eapply returns_bind with
    (R1 := fun u : nlconfig_t * bool =>
             snd u = nonzero (Z.land (cloneflags c) CLONE_NEWUSER)).
  - destruct (nonzero (Z.land (cloneflags c) CLONE_NEWUSER)).
    + eapply returns_bind; [apply returns_any |]. intros r _.
      destruct (rv r <? 0); [apply returns_bail |].
      apply returns_ret. reflexivity.
    + apply returns_ret. reflexivity.
  - intros [c1 nu] H1. cbn [snd] in H1.
    destruct (nonzero (Z.land (cloneflags c1) CLONE_NEWNS)).
    + eapply returns_bind; [apply returns_any |]. intros r _.
      destruct (rv r <? 0); [apply returns_bail |].
      apply returns_ret. exact H1.
    + apply returns_ret. exact H1.
Qed.

Lemma child_rootfs_sends (c : nlconfig_t) (nu : bool) (st : proc) :
  sends_at (syncfd st) (if nu then [SYNC_USERMAP_PLS] else [])
           (child_rootfs c nu) st.
Proof.
  unfold child_rootfs.
  apply (sends_at_bind (syncfd st) [] _).
  { apply (sends_at_quiet _ [KMount; KDprintf]);
      [not_in_kinds | apply emits_child_prep_rootfs]. }
  intros [[c1 d] s] _.
  rewrite <- (keeps_child_prep_rootfs c st).
  set (st1 := after (child_prep_rootfs c) st).
  rewrite <- (app_nil_r (if nu then _ else _)).
  apply sends_at_bind.
  - destruct nu; [apply child_usermap_sends |].
    unfold sends_at. reflexivity.
  - intros [] _.
    apply (sends_at_quiet _ [KMount; KDprintf]);
      [not_in_kinds | apply emits_child_retry_rootfs].
Qed.

Lemma child_setup_sends (f : frame) (st : proc) :
  sends_at (fst (sync_child_pipe f))
    (if nonzero (Z.land (cloneflags (config f)) CLONE_NEWUSER)
     then [SYNC_USERMAP_PLS] else [])
    (child_setup f) st.
Proof.
  unfold child_setup.
  apply (sends_at_bind _ [] _).
  { unfold sends_at. reflexivity. }
  intros [] _.
  set (st1 := after _ st).
  assert (H1 : syncfd st1 = fst (sync_child_pipe f)) by reflexivity.
  apply (sends_at_bind _ [] _).
  { apply (sends_at_quiet _ [KClose]); [not_in_kinds | emits_auto]. }
  intros r2 _. set (st2 := after _ st1).
  assert (H2 : syncfd st2 = fst (sync_child_pipe f)) by reflexivity.
  apply (sends_at_bind _ [] _).
  { apply (sends_at_quiet _ [KPrctlSetName]); [not_in_kinds | emits_auto]. }
  intros r3 _. set (st3 := after _ st2).
  assert (H3 : syncfd st3 = fst (sync_child_pipe f)) by reflexivity.
  apply (sends_at_bind _ [] _).
  { apply (sends_at_quiet _ [KRealloc; KOpen; KSetns; KClose; KFree;
                             KDprintf]); [not_in_kinds | emits_auto]. }
  intros [] _. set (st4 := after _ st3).
  assert (H4 : syncfd st4 = fst (sync_child_pipe f)).
  { subst st4. rewrite <- H3.
    match goal with |- syncfd (after ?m st3) = _ =>
      assert (Hk : keeps_syncfd m) by keeps_auto; apply Hk end. }
  apply (sends_at_bind _ [] _).
  { apply (sends_at_quiet _ [KUnshare; KDprintf]);
      [not_in_kinds | apply emits_child_unshare_first]. }
  intros [c1 nu] Eu.
  apply child_unshare_first_new_userns in Eu. cbn [snd] in Eu. subst nu.
  set (st5 := after _ st4).
  assert (H5 : syncfd st5 = fst (sync_child_pipe f)).
  { subst st5. rewrite keeps_child_unshare_first. exact H4. }
  rewrite <- (app_nil_r (if nonzero _ then _ else _)).
  apply sends_at_bind.
  { rewrite <- H5. apply child_rootfs_sends. }
  intros c2 _.
  apply (sends_at_quiet _ [KUnshare; KDprintf]); [not_in_kinds | emits_auto].
Qed.

Lemma keeps_child_rootfs config nu : keeps_syncfd (child_rootfs config nu).
Proof. unfold child_rootfs. keeps_auto. Qed.

(** After its [set_syncfd], stage 1 keeps the descriptor. *)
Lemma syncfd_child_setup (f : frame) (st : proc) :
  syncfd (after (child_setup f) st) = fst (sync_child_pipe f).
Proof.
  unfold child_setup. rewrite after_bind. cbn [result set_syncfd fst].
  match goal with |- syncfd (after ?m ?s) = _ =>
    assert (Hk : keeps_syncfd m);
    [| rewrite Hk; reflexivity] end.
  keeps_walk; try solve [auto with keeps].
  apply keeps_child_rootfs.
Qed.

(** What stage 1 sends to stage 0 is a prefix of: the request for the ID
    mappings when the flags hold CLONE_NEWUSER, the request to receive a
    pid, a pid, and SYNC_CHILD_READY. *)
Lemma stage_child_sends (f : frame) (st : proc) :
  exists pid,
    prefix_of (sent (fst (sync_child_pipe f)) (emitted (stage_child f) st))
      (stage1_messages
         (nonzero (Z.land (cloneflags (config f)) CLONE_NEWUSER)) pid).
Proof.
  destruct (result (child_setup f) st) as [f' | s] eqn:E.
  - destruct (child_clone_init_sends f' (after (child_setup f) st))
      as [pid Hc].
    rewrite syncfd_child_setup in Hc.
    exists pid.
    assert (H : sends_at (fst (sync_child_pipe f))
                  (stage1_messages
                     (nonzero (Z.land (cloneflags (config f)) CLONE_NEWUSER))
                     pid) (stage_child f) st).
    { unfold stage_child, stage1_messages. apply sends_at_bind.
      - apply child_setup_sends.
      - intros a Ea. rewrite E in Ea. injection Ea as <-. exact Hc. }
    unfold sends_at in H.
    destruct (result (stage_child f) st); [| exact H].
    rewrite H. exists []. now rewrite app_nil_r.
  - exists 0.
    assert (H := child_setup_sends f st). unfold sends_at in H.
    rewrite E in H. unfold stage_child.
    rewrite emitted_bind, E, app_nil_r.
    eapply prefix_of_trans; [exact H |].
    unfold stage1_messages. eexists. reflexivity.
Qed.

Lemma setgroups_then_gid_map_index (tr : list event) :
  setgroups_then_gid_map tr ->
  forall i j ei ej,
    nth_error tr i = Some ei -> opens_gid_map ei ->
    nth_error tr j = Some ej -> opens_setgroups ej ->
    (j < i)%nat.
Proof.
  intros (a & b & -> & Ha & Hb) i j ei ej Hi Gi Hj Gj.
  rewrite Forall_forall in Ha, Hb.
  destruct (Nat.lt_ge_cases i (length a)) as [L | L].
  - rewrite nth_error_app1 in Hi by exact L.
    destruct (Ha ei (nth_error_In _ _ Hi) Gi).
  - destruct (Nat.lt_ge_cases j (length a)) as [L' | L']; [lia |].
    rewrite nth_error_app2 in Hj by exact L'.
    destruct (Hb ej (nth_error_In _ _ Hj) Gj).
Qed.

Lemma writes_to_opens (tr : list event) (k : nat) (path : bytes) :
  writes_to tr k path ->
  exists e, nth_error tr k = Some e /\ fst e = Open path O_RDWR.
Proof. intros (o & buf & n & w & H & _). now exists (Open path O_RDWR, o). Qed.

(** The handler of SYNC_USERMAP_PLS starts with the policy when the
    container is rootless and setgroups is not asked for. *)
Lemma parent_usermap_deny fuel cfg child (st : proc) :
  nonzero (is_rootless_euid cfg) = true ->
  nonzero (is_setgroup cfg) = false ->
  exists o rest,
    emitted (parent_usermap fuel cfg child) st
    = (Open (proc_path child "/setgroups") O_RDWR, o) :: rest /\
    (0 <= rv o ->
     exists w c rest',
       rest = (Write (rv o) (str "deny") 4, w) :: (Close (rv o), c) :: rest').
Proof.
  intros Hr Hs. unfold parent_usermap. rewrite Hr, Hs. cbn [negb andb].
  unfold update_setgroups. cbn [setgroups_policy].
  unfold write_file at 1.
  change (strlen (str "deny")) with 4.
  change (firstn (Z.to_nat 4) (str "deny")) with (str "deny").
  rewrite !emitted_bind, emitted_sys, !result_bind, result_sys.
  set (o := oracle st (clock st) (Open (proc_path child "/setgroups") O_RDWR)).
  cbn [app]. eexists o, _. split; [reflexivity |].
  intros Ho.
  replace (rv o <? 0) with false by (symmetry; apply Z.ltb_ge; exact Ho).
  rewrite !emitted_bind, emitted_sys, !result_bind, result_sys.
  rewrite !emitted_bind, emitted_sys, !result_bind, result_sys.
  cbn [app]. do 3 eexists. reflexivity.
Qed.

Lemma uid_map_not_setgroups (p q : Z) :
  proc_path p "/uid_map" <> proc_path q "/setgroups".
Proof. apply proc_path_neq; [simpl; lia | simpl; lia | discriminate]. Qed.

Ltac not_setgroups :=
  let r := fresh "r" in
  let pid := fresh "pid" in
  let H := fresh "H" in
  apply emits_sys; intros r [pid H]; cbn [fst] in H;
  first [ discriminate H
        | injection H as H;
          first [ exact (gid_map_not_setgroups _ _ H)
                | exact (uid_map_not_setgroups _ _ H) ] ].

Ltac no_setgroups :=
  repeat
    first
      [ progress emits_walk
      | assumption
      | not_setgroups
      | eapply emits_no_setgroups_only; [| solve [auto with emits]];
        not_in_kinds ].

Lemma emits_update_uidmap_no_setgroups fuel path pid map map_len :
  emits (fun e => ~ opens_setgroups e)
        (update_uidmap fuel path pid map map_len).
Proof.
  unfold update_uidmap.
  destruct map as [map |]; [| apply emits_ret].
  destruct (map_len <=? 0); [apply emits_ret |].
  apply emits_bind.
  - apply emits_write_file_no_setgroups. intros q H.
    exact (uid_map_not_setgroups _ _ H).
  - intros r. no_setgroups.
Qed.

Lemma emits_parent_usermap_no_setgroups fuel cfg child :
  nonzero (is_rootless_euid cfg) && negb (nonzero (is_setgroup cfg)) = false ->
  emits (fun e => ~ opens_setgroups e) (parent_usermap fuel cfg child).
Proof.
  intros H. unfold parent_usermap. rewrite H.
  apply emits_bind; [apply emits_ret |]. intros _.
  apply emits_bind; [apply emits_update_uidmap_no_setgroups |]. intros _.
  apply emits_bind; [apply emits_update_gidmap_no_setgroups |]. intros _.
  no_setgroups.
Qed.

Lemma emits_parent_sync_child_no_setgroups fuel f child :
  nonzero (is_rootless_euid (config f))
  && negb (nonzero (is_setgroup (config f))) = false ->
  emits (fun e => ~ opens_setgroups e) (parent_sync_child fuel f child).
Proof.
  intros H. revert child.
  induction fuel as [| fuel IH]; intros; simpl; [apply emits_halt |].
  apply emits_bind.
  { eapply emits_no_setgroups_only; [| apply emits_read_sync].
    not_in_kinds. }
  intros [s |].
  2:{ no_setgroups. }
  destruct (s =? SYNC_USERMAP_PLS).
  { apply emits_bind; [now apply emits_parent_usermap_no_setgroups |].
    intros _. apply IH. }
  destruct (s =? SYNC_RECVPID_PLS).
  { apply emits_bind; [| intros; apply IH].
    eapply emits_no_setgroups_only; [| apply emits_parent_recvpid].
    not_in_kinds. }
  no_setgroups.
Qed.

Lemma opens_id_files_only_only (ks : list kind) (e : event) :
  ~ In KOpen ks -> only ks e -> opens_id_files_only e.
Proof.
  intros Hn Ho path flags H. exfalso. apply Hn.
  unfold only in Ho. now rewrite H in Ho.
Qed.

Lemma emits_id_files_only (ks : list kind) {A} (m : M A) :
  ~ In KOpen ks -> emits (only ks) m -> emits opens_id_files_only m.
Proof.
  intros Hn. apply emits_weaken. intros e.
  now apply opens_id_files_only_only.
Qed.

Ltac id_files :=
  repeat
    first
      [ progress emits_walk
      | assumption
      | apply emits_sys; intros ? ? ? ?; discriminate
      | eapply emits_id_files_only; [| solve [auto with emits]];
        not_in_kinds ].

Lemma emits_write_file_id_files data data_len path :
  (exists pid,
      path = proc_path pid "/setgroups" \/ path = proc_path pid "/uid_map" \/
      path = proc_path pid "/gid_map") ->
  emits opens_id_files_only (write_file data data_len path).
Proof.
  intros Hp. unfold write_file. apply emits_bind.
  - apply emits_sys. intros r path' flags H. cbn [fst] in H.
    injection H as <- <-. split; [reflexivity | exact Hp].
  - intros fd. id_files.
Qed.

Lemma emits_parent_usermap_id_files fuel cfg child :
  emits opens_id_files_only (parent_usermap fuel cfg child).
Proof.
  unfold parent_usermap, update_setgroups, update_uidmap, update_gidmap.
  apply emits_bind.
  { destruct (_ && _); [| apply emits_ret]. cbn [setgroups_policy].
    apply emits_bind; [| intros; id_files].
    apply emits_write_file_id_files. exists child. tauto. }
  intros _. apply emits_bind.
  { destruct (uidmap cfg); [| apply emits_ret].
    destruct (_ <=? 0); [apply emits_ret |].
    apply emits_bind; [| intros; id_files].
    apply emits_write_file_id_files. exists child. tauto. }
  intros _. apply emits_bind.
  { destruct (gidmap cfg); [| apply emits_ret].
    destruct (_ <=? 0); [apply emits_ret |].
    apply emits_bind; [| intros; id_files].
    apply emits_write_file_id_files. exists child. tauto. }
  intros _. id_files.
Qed.

Lemma emits_parent_sync_child_id_files fuel f child :
  emits opens_id_files_only (parent_sync_child fuel f child).
Proof.
  revert child.
  induction fuel as [| fuel IH]; intros; simpl; [apply emits_halt |].
  apply emits_bind.
  { eapply emits_id_files_only; [| apply emits_read_sync]. not_in_kinds. }
  intros [s |]; [| id_files].
  destruct (s =? SYNC_USERMAP_PLS).
  { apply emits_bind; [apply emits_parent_usermap_id_files |].
    intros _. apply IH. }
  destruct (s =? SYNC_RECVPID_PLS).
  { apply emits_bind; [| intros; apply IH].
    eapply emits_id_files_only; [| apply emits_parent_recvpid].
    not_in_kinds. }
  id_files.
Qed.

Lemma skipn_nlattr_payload (done : bytes) (t : Z) (v rest : bytes) :
  skipn (length done + 4) (done ++ nlattr t v ++ rest)
  = v ++ repeat NUL (Z.to_nat ((- Z.of_nat (length v)) mod 4)) ++ rest.
Proof.
  rewrite Nat.add_comm, <- skipn_skipn, skipn_length_app.
  unfold nlattr. rewrite <- !app_assoc. reflexivity.
Qed.

(** The loop of [nl_parse] follows the attributes of a well-formed
    payload. *)
Lemma nl_parse_attrs_parsed (attrs : list (Z * bytes)) :
  forall (done : bytes) (fuel : nat) (cfg : nlconfig_t) (st : proc),
    Forall wf_attr attrs ->
    (length attrs < fuel)%nat ->
    Z.of_nat (length (done ++ nlattrs attrs)) < 2 ^ 32 ->
    nl_parse_attrs fuel (done ++ nlattrs attrs)
      (Z.of_nat (length (done ++ nlattrs attrs)))
      (Z.of_nat (length done)) cfg st
    = match parsed attrs cfg with
      | Some c => ret c st
      | None =>
          match first_unknown attrs with
          | Some t =>
              bail (str "nl_parse") 541
                   (str "unknown netlink message type " ++ fmt_d t) st
          | None => halt Fault st
          end
      end.
Proof.
  induction attrs as [| [t v] attrs IH]; intros done fuel cfg st Hwf Hf Hs;
    (destruct fuel as [| fuel]; [simpl in Hf; lia |]).
  - cbn [nlattrs flat_map parsed nl_parse_attrs]. rewrite app_nil_r.
    rewrite Z.ltb_irrefl. reflexivity.
  - inversion Hwf as [| ? ? Hwf0 Hwf']; subst.
    rewrite nlattrs_cons in *. cbn [fst snd] in *.
    rewrite nl_parse_attrs_step by assumption.
    rewrite skipn_nlattr_payload.
    cbn [parsed first_unknown fst snd].
    destruct (known_attr t) eqn:Ek.
    + apply known_attr_In in Ek.
      destruct (nl_attr_known t
                  (v ++ repeat NUL (Z.to_nat (- Z.of_nat (length v) mod 4))
                     ++ nlattrs attrs)
                  (Z.of_nat (length v)) cfg Ek) as [cfg' ->].
      rewrite app_assoc in *. apply IH; try assumption.
      simpl in Hf. lia.
    + rewrite nl_attr_unknown; [reflexivity |].
      intros Hin. apply known_attr_In in Hin. congruence.
Qed.


Lemma nl_attr_field_same (t : Z) (p : bytes) (len : Z)
    (c c' : nlconfig_t) :
  nl_attr t p len c = Some c' -> field_of t c' = stored t p len.
Proof.
  unfold nl_attr, field_of, stored, known_attr, attr_types.
  cbn [existsb].
  repeat match goal with
         | |- context [t =? ?k] =>
             destruct (Z.eqb_spec t k) as [-> | ?]
         end;
    intros H; try discriminate H; injection H as <-;
    destruct c; reflexivity.
Qed.

Lemma nl_attr_field_other (t t' : Z) (p : bytes) (len : Z)
    (c c' : nlconfig_t) :
  t <> t' -> nl_attr t' p len c = Some c' -> field_of t c' = field_of t c.
Proof.
  intros Hn. unfold nl_attr.
  repeat match goal with
         | |- context [t' =? ?k] =>
             destruct (Z.eqb_spec t' k) as [-> | ?]
         end;
    intros H; try discriminate H; injection H as <-;
    unfold field_of;
    repeat match goal with
           | |- context [t =? ?k] =>
               destruct (Z.eqb_spec t k) as [E | ?];
               [try (exfalso; exact (Hn E)) |]
           end;
    try (destruct c; reflexivity).
Qed.

Lemma nl_attr_data (t : Z) (p : bytes) (len : Z) (c c' : nlconfig_t) :
  nl_attr t p len c = Some c' -> data c' = data c.
Proof.
  unfold nl_attr.
  repeat match goal with
         | |- context [t =? ?k] =>
             destruct (Z.eqb_spec t k) as [-> | ?]
         end;
    intros H; try discriminate H; injection H as <-;
    destruct c; reflexivity.
Qed.

Lemma parsed_data (attrs : list (Z * bytes)) :
  forall c c', parsed attrs c = Some c' -> data c' = data c.
Proof.
  induction attrs as [| [t v] attrs IH]; intros c c' H.
  - injection H as <-. reflexivity.
  - cbn [parsed fst snd] in H.
    destruct (nl_attr t _ _ c) as [c1 |] eqn:E; [| discriminate H].
    rewrite (IH _ _ H). exact (nl_attr_data _ _ _ _ _ E).
Qed.

Lemma parsed_field_other (t : Z) (attrs : list (Z * bytes)) :
  forall c c',
    Forall (fun a => fst a <> t) attrs ->
    parsed attrs c = Some c' -> field_of t c' = field_of t c.
Proof.
  induction attrs as [| [t' v] attrs IH]; intros c c' Hn H.
  - injection H as <-. reflexivity.
  - inversion Hn as [| ? ? Hn0 Hn']; subst. cbn [fst] in Hn0.
    cbn [parsed fst snd] in H.
    destruct (nl_attr t' _ _ c) as [c1 |] eqn:E; [| discriminate H].
    rewrite (IH _ _ Hn' H).
    eapply (nl_attr_field_other t t'); [congruence | exact E].
Qed.

(** The member of a type holds what the last attribute of the type has
    stored. *)
Lemma parsed_last_wins (t : Z) (v : bytes) (post : list (Z * bytes))
    (pre : list (Z * bytes)) :
  forall c c',
    Forall (fun a => fst a <> t) post ->
    parsed (pre ++ (t, v) :: post) c = Some c' ->
    field_of t c'
    = stored t (v ++ repeat NUL (Z.to_nat ((- Z.of_nat (length v)) mod 4))
                  ++ nlattrs post)
             (Z.of_nat (length v)).
Proof.
  induction pre as [| [t0 v0] pre IH]; intros c c' Hn H.
  - cbn [app parsed fst snd] in H.
    destruct (nl_attr t _ _ c) as [c1 |] eqn:E; [| discriminate H].
    rewrite (parsed_field_other t post c1 c' Hn H).
    exact (nl_attr_field_same _ _ _ _ _ E).
  - cbn [app parsed fst snd] in H.
    destruct (nl_attr t0 _ _ c) as [c1 |] eqn:E; [| discriminate H].
    exact (IH c1 c' Hn H).
Qed.

Lemma nl_parse_parsed :
  forall (fuel : nat) (fd : Z) (cfg : nlconfig_t)
         (attrs : list (Z * bytes)) (st : proc),
    Forall wf_attr attrs ->
    (length attrs < fuel)%nat ->
    delivers st fd (nlattrs attrs) ->
    result (nl_parse fuel fd cfg) st
    = match parsed attrs (set_data (Some (nlattrs attrs)) cfg) with
      | Some c => Ret c
      | None => Stop (Exited 1)
      end /\
    (parsed attrs (set_data (Some (nlattrs attrs)) cfg) <> None ->
     map fst (emitted (nl_parse fuel fd cfg) st)
     = [Read fd NLMSG_HDRLEN;
        Malloc (Z.of_nat (length (nlattrs attrs)));
        Read fd (Z.of_nat (length (nlattrs attrs)))]).
Proof.
  intros fuel fd cfg attrs st Hwf Hfuel Hdel.
  destruct (run_ext _ _ st (nl_parse_delivered fuel fd cfg _ st Hdel))
    as [-> ->].
  destruct Hdel as (Hs & _).
  set (payload := nlattrs attrs) in *.
  set (size := Z.of_nat (length payload)) in *.
  assert (Hrun : forall st',
             nl_parse_attrs fuel payload size 0
               (set_data (Some payload) cfg) st'
             = match parsed attrs (set_data (Some payload) cfg) with
               | Some c => ret c st'
               | None =>
                   match first_unknown attrs with
                   | Some t =>
                       bail (str "nl_parse") 541
                            (str "unknown netlink message type " ++ fmt_d t)
                            st'
                   | None => halt Fault st'
                   end
               end).
  { intros st'.
    apply (nl_parse_attrs_parsed attrs [] fuel _ st' Hwf Hfuel).
    cbn [app]. fold payload. fold size. unfold NLMSG_HDRLEN in Hs. lia. }
  assert (Hu : parsed attrs (set_data (Some payload) cfg) = None ->
               first_unknown attrs <> None).
  { clear. generalize (set_data (Some payload) cfg).
    induction attrs as [| [t v] attrs IH]; intros c; [discriminate |].
    cbn [parsed first_unknown fst snd].
    destruct (known_attr t) eqn:Ek; [| discriminate].
    apply known_attr_In in Ek.
    destruct (nl_attr_known t
                (v ++ repeat NUL (Z.to_nat (- Z.of_nat (length v) mod 4))
                   ++ nlattrs attrs)
                (Z.of_nat (length v)) c Ek) as [c' ->].
    apply IH. }
  split.
  - run_simp. unfold result at 1. rewrite Hrun.
    destruct (parsed attrs _) as [c |]; [reflexivity |].
    destruct (first_unknown attrs) as [t |]; [| now destruct Hu].
    apply bail_exits.
  - intros Hp. run_simp. unfold emitted at 1. rewrite Hrun.
    destruct (parsed attrs _) as [c |]; [reflexivity | now destruct Hp].
Qed.

Lemma parsed_known (attrs : list (Z * bytes)) :
  forall c,
    Forall (fun a => In (fst a) attr_types) attrs ->
    exists c', parsed attrs c = Some c'.
Proof.
  induction attrs as [| [t v] attrs IH]; intros c Hk.
  - now exists c.
  - inversion Hk as [| ? ? Hk0 Hk']; subst. cbn [fst] in Hk0.
    cbn [parsed fst snd].
    destruct (nl_attr_known t
                (v ++ repeat NUL (Z.to_nat (- Z.of_nat (length v) mod 4))
                   ++ nlattrs attrs)
                (Z.of_nat (length v)) c Hk0) as [c1 ->].
    apply IH. exact Hk'.
Qed.

Lemma data_set_data (d : option bytes) (c : nlconfig_t) :
  data (set_data d c) = d.
Proof. now destruct c. Qed.

Lemma attr_types_range (t : Z) : In t attr_types -> 0 <= t < 2 ^ 16.
Proof.
  intros H. unfold attr_types in H. simpl in H.
  repeat (destruct H as [<- | H]; [vm_compute; split; congruence |]).
  destruct H.
Qed.

Lemma length_le16 (z : Z) : length (le16 z) = 2%nat.
Proof. reflexivity. Qed.

(** At an attribute of a known type whose [nla_len] is 0 the cursor comes
    back to where it was. *)
Lemma nl_parse_attrs_stall (t : Z) (done rest : bytes) (fuel : nat) :
  forall (cfg : nlconfig_t) (st : proc),
    In t attr_types ->
    Z.of_nat (length (done ++ le16 0 ++ le16 t ++ rest)) < 2 ^ 32 ->
    nl_parse_attrs fuel (done ++ le16 0 ++ le16 t ++ rest)
      (Z.of_nat (length (done ++ le16 0 ++ le16 t ++ rest)))
      (Z.of_nat (length done)) cfg st
    = halt Timeout st.
Proof.
  induction fuel as [| fuel IH]; intros cfg st Hk Hs; [reflexivity |].
  cbn [nl_parse_attrs].
  assert (Hr := attr_types_range t Hk).
  replace (Z.of_nat (length done) <?
           Z.of_nat (length (done ++ le16 0 ++ le16 t ++ rest)))
    with true
    by (symmetry; apply Z.ltb_lt; rewrite !length_app, !length_le16; lia).
  rewrite Nat2Z.id, skipn_length_app.
  rewrite readint16_le16 by lia.
  change (skipn 2 (le16 0 ++ le16 t ++ rest)) with (le16 t ++ rest).
  rewrite readint16_le16 by exact Hr.
  rewrite !length_app, !length_le16 in Hs.
  replace (u64 (Z.of_nat (length done) + NLA_HDRLEN))
    with (Z.of_nat (length done) + 4)
    by (unfold u64, NLA_HDRLEN; rewrite Z.mod_small; lia).
  destruct (nl_attr_known t
              (skipn (Z.to_nat (Z.of_nat (length done) + 4))
                 (done ++ le16 0 ++ le16 t ++ rest))
              (u64 (0 - NLA_HDRLEN)) cfg Hk) as [cfg' ->].
  change (NLA_ALIGN (u64 (0 - NLA_HDRLEN))) with (2 ^ 64 - 4).
  replace (u64 (Z.of_nat (length done) + 4 + (2 ^ 64 - 4)))
    with (Z.of_nat (length done)).
  - apply IH; [exact Hk |]. rewrite !length_app, !length_le16. exact Hs.
  - unfold u64.
    replace (Z.of_nat (length done) + 4 + (2 ^ 64 - 4))
      with (Z.of_nat (length done) + 1 * 2 ^ 64) by lia.
    rewrite Z.mod_add by lia. rewrite Z.mod_small; lia.
Qed.

Lemma nl_parse_attrs_stall_after (t : Z) (rest : bytes)
    (pre : list (Z * bytes)) :
  forall (done : bytes) (fuel : nat) (cfg : nlconfig_t) (st : proc),
    Forall wf_attr pre ->
    Forall (fun a => In (fst a) attr_types) pre ->
    In t attr_types ->
    Z.of_nat (length (done ++ nlattrs pre ++ le16 0 ++ le16 t ++ rest))
    < 2 ^ 32 ->
    nl_parse_attrs fuel (done ++ nlattrs pre ++ le16 0 ++ le16 t ++ rest)
      (Z.of_nat (length (done ++ nlattrs pre ++ le16 0 ++ le16 t ++ rest)))
      (Z.of_nat (length done)) cfg st
    = halt Timeout st.
Proof.
  induction pre as [| [t0 v0] pre IH]; intros done fuel cfg st Hwf Hk Ht Hs.
  - cbn [nlattrs flat_map app] in *. now apply nl_parse_attrs_stall.
  - destruct fuel as [| fuel]; [reflexivity |].
    inversion Hwf as [| ? ? Hwf0 Hwf']; subst.
    inversion Hk as [| ? ? Hk0 Hk']; subst. cbn [fst] in Hk0.
    rewrite nlattrs_cons in *. cbn [fst snd] in *.
    rewrite <- (app_assoc (nlattr t0 v0)) in *.
    rewrite nl_parse_attrs_step by assumption.
    destruct (nl_attr_known t0
                (skipn (length done + 4)
                   (done ++ nlattr t0 v0 ++ nlattrs pre
                    ++ le16 0 ++ le16 t ++ rest))
                (Z.of_nat (length v0)) cfg Hk0) as [cfg' ->].
    rewrite (app_assoc done) in *. now apply IH.
Qed.

Lemma nl_parse_attrs_data (fuel : nat) (payload : bytes) (size : Z) :
  forall (cur : Z) (cfg c : nlconfig_t) (st : proc),
    result (nl_parse_attrs fuel payload size cur cfg) st = Ret c ->
    data c = data cfg.
Proof.
  induction fuel as [| fuel IH]; intros cur cfg c st H; [discriminate H |].
  cbn [nl_parse_attrs] in H.
  destruct (cur <? size); [| injection H as <-; reflexivity].
  destruct (nl_attr _ _ _ cfg) as [cfg' |] eqn:E.
  - rewrite (IH _ _ _ _ H). exact (nl_attr_data _ _ _ _ _ E).
  - rewrite bail_exits in H. discriminate H.
Qed.

Lemma WEXITSTATUS_low (s : Z) : 0 <= s < 256 -> WEXITSTATUS s = 0.
Proof.
  intros H. unfold WEXITSTATUS.
  replace (Z.land s 65280) with 0; [reflexivity |].
  symmetry. apply Z.bits_inj'. intros n Hn.
  rewrite Z.land_spec, Z.bits_0.
  destruct (Z.lt_ge_cases n 8) as [L | L].
  - replace (Z.testbit 65280 n) with false; [apply andb_false_r |].
    change 65280 with (Z.shiftl 255 8).
    rewrite Z.shiftl_spec by exact Hn.
    symmetry. apply Z.testbit_neg_r. lia.
  - replace (Z.testbit s n) with false; [reflexivity |].
    symmetry. destruct (Z.eq_dec s 0) as [-> | Hs]; [apply Z.bits_0 |].
    apply Z.bits_above_log2; [lia |].
    apply Z.log2_lt_pow2; [lia |].
    apply Z.lt_le_trans with (2 ^ 8); [lia |].
    apply Z.pow_le_mono_r; lia.
Qed.

Lemma wait_child_retries (k : nat) :
  forall (fuel : nat) (child : Z) (st : proc),
    (forall i, (i < k)%nat ->
               waits_again (oracle st (clock st + i)%nat (Waitpid child))) ->
    let r := oracle st (clock st + k)%nat (Waitpid child) in
    0 <= rv r ->
    WIFEXITED (hd 0 (rvals r)) || WIFSIGNALED (hd 0 (rvals r)) = true ->
    (k < fuel)%nat ->
    result (wait_child fuel child) st = Ret (WEXITSTATUS (hd 0 (rvals r))) /\
    map fst (emitted (wait_child fuel child) st)
    = repeat (Waitpid child) (S k).
Proof.
  induction k as [| k IH]; intros fuel child st Hagain r Hr Hs Hf;
    (destruct fuel as [| fuel]; [lia |]); cbn [wait_child].
  - subst r. revert Hr Hs. rewrite Nat.add_0_r. intros Hr Hs.
    rewrite result_bind, emitted_bind, result_sys, emitted_sys.
    replace (rv _ <? 0) with false by (symmetry; apply Z.ltb_ge; exact Hr).
    rewrite Hs. split; reflexivity.
  - assert (H0 := Hagain 0%nat ltac:(lia)). rewrite Nat.add_0_r in H0.
    rewrite result_bind, emitted_bind, result_sys, emitted_sys.
    set (st1 := after (sys (Waitpid child)) st).
    assert (Hst : forall i, oracle st1 (clock st1 + i)%nat (Waitpid child)
                            = oracle st (clock st + S i)%nat (Waitpid child)).
    { intros i. subst st1. cbn [after sys snd oracle clock].
      f_equal. lia. }
    destruct (IH fuel child st1) as [IHr IHe].
    { intros i Hi. rewrite Hst. apply Hagain. lia. }
    { rewrite Hst. exact Hr. }
    { rewrite Hst. exact Hs. }
    { lia. }
    rewrite Hst in IHr.
    destruct H0 as [[Hneg He] | [Hpos Hst0]].
    + replace (rv _ <? 0) with true by (symmetry; apply Z.ltb_lt; exact Hneg).
      rewrite result_bind, emitted_bind, result_get_errno,
        emitted_get_errno, after_get_errno.
      assert (Ee : errno st1 = EINTR).
      { subst st1. cbn [after sys snd errno call_fails].
        replace (rv _ <? 0) with true
          by (symmetry; apply Z.ltb_lt; exact Hneg).
        exact He. }
      rewrite Ee. change (EINTR =? EINTR) with true. cbv iota.
      cbn [app]. split; [exact IHr |].
      rewrite map_cons, IHe. reflexivity.
    + replace (rv _ <? 0) with false
        by (symmetry; apply Z.ltb_ge; exact Hpos).
      rewrite Hst0. cbn [app]. split; [exact IHr |].
      rewrite map_cons, IHe. reflexivity.
Qed.

Lemma write_file_open_fails (data : bytes) (len : Z) (path : bytes)
    (st : proc) :
  rv (oracle st (clock st) (Open path O_RDWR)) < 0 ->
  write_file data len path st
  = (Ret (-1), [(Open path O_RDWR, oracle st (clock st) (Open path O_RDWR))],
     after (sys (Open path O_RDWR)) st).
Proof.
  intros H. apply Z.ltb_lt in H.
  rewrite (run_eta (write_file data len path) st).
  unfold write_file. run_simp. rewrite !H. run_simp. reflexivity.
Qed.

Lemma errno_after_failure (c : call) (st : proc) :
  call_fails c (oracle st (clock st) c) = true ->
  errno (after (sys c) st) = rerrno (oracle st (clock st) c).
Proof. intros H. cbn [after sys snd errno]. now rewrite H. Qed.

Lemma try_mapping_tool_signalled (fuel : nat) (tool : bytes) (pid : Z)
    (idmap : bytes) (map_len : Z) (st : proc) :
  let c := oracle st (clock st) Fork in
  let w := oracle st (S (clock st)) (Waitpid (rv c)) in
  0 < rv c -> 0 <= rv w ->
  WIFSIGNALED (hd 0 (rvals w)) = true -> 0 <= hd 0 (rvals w) < 256 ->
  result (try_mapping_tool (S fuel) (Some tool) pid idmap map_len) st = Ret 0 /\
  map fst (emitted (try_mapping_tool (S fuel) (Some tool) pid idmap map_len) st)
  = [Fork; Waitpid (rv c)].
Proof.
  intros c w Hc Hw Hsig Hlow. unfold try_mapping_tool.
  rewrite result_bind, emitted_bind, result_sys, emitted_sys. fold c.
  replace (rv c <? 0) with false by (symmetry; apply Z.ltb_ge; lia).
  replace (rv c =? 0) with false by (symmetry; apply Z.eqb_neq; lia).
  set (st1 := after (sys Fork) st).
  destruct (wait_child_retries 0 (S fuel) (rv c) st1) as [Hr He].
  - intros i Hi. lia.
  - rewrite Nat.add_0_r. exact Hw.
  - rewrite Nat.add_0_r. fold w. change (oracle st1 (clock st1)) with
      (oracle st (S (clock st))). fold w. rewrite Hsig. apply orb_true_r.
  - lia.
  - rewrite Hr, map_app, He. rewrite Nat.add_0_r.
    change (oracle st1 (clock st1)) with (oracle st (S (clock st))). fold w.
    rewrite (WEXITSTATUS_low _ Hlow). split; reflexivity.
Qed.

Lemma fill_argv_length (n : nat) :
  forall (idmap : bytes) (argv : list (option bytes)),
    (length (fill_argv n idmap argv) <= length argv + n)%nat.
Proof.
  induction n as [| n IH]; intros idmap argv; cbn [fill_argv]; [lia |].
  destruct (is_nul (peek idmap)); [rewrite length_app; simpl; lia |].
  destruct (strpbrk idmap _) as [[tok next] |].
  - eapply Nat.le_trans; [apply IH |]. rewrite length_app. simpl. lia.
  - rewrite length_app. simpl. lia.
Qed.

Lemma fill_argv_prefix (n : nat) :
  forall (idmap : bytes) (argv : list (option bytes)),
    exists more, fill_argv n idmap argv = argv ++ more.
Proof.
  induction n as [| n IH]; intros idmap argv; cbn [fill_argv].
  - exists []. now rewrite app_nil_r.
  - destruct (is_nul (peek idmap)); [now eexists |].
    destruct (strpbrk idmap _) as [[tok next] |]; [| now eexists].
    destruct (IH (skip_span (str (String "010" " ")) next)
                 (argv ++ [Some tok])) as [more ->].
    exists ([Some tok] ++ more). now rewrite app_assoc.
Qed.

Lemma fill_argv_tokens (n : nat) :
  forall (idmap : bytes) (argv : list (option bytes)),
    Forall (fun a => a <> None) argv ->
    Forall (fun a => a <> None) (removelast (fill_argv n idmap argv)).
Proof.
  induction n as [| n IH]; intros idmap argv Hargv; cbn [fill_argv].
  - clear -Hargv. induction Hargv as [| a l Ha Hl IHl]; [constructor |].
    destruct l; [constructor |]. cbn [removelast] in *.
    constructor; assumption.
  - destruct (is_nul (peek idmap)).
    { rewrite removelast_last. exact Hargv. }
    destruct (strpbrk idmap _) as [[tok next] |].
    + apply IH. apply Forall_app. split; [exact Hargv |].
      constructor; [discriminate | constructor].
    + rewrite removelast_last. exact Hargv.
Qed.

Lemma forks_never (evs : list event) :
  Forall (never KFork) evs -> ~ forks evs.
Proof.
  intros H [r Hr]. rewrite Forall_forall in H. apply (H _ Hr). reflexivity.
Qed.

Lemma forks_app (a b : list event) : forks (a ++ b) -> forks a \/ forks b.
Proof.
  intros [r H]. apply in_app_or in H.
  destruct H; [left | right]; now exists r.
Qed.

(** The body that [update_uidmap] and [update_gidmap] share. *)
Lemma id_map_fallback (w : M Z) (fail1 tool : M unit) (st : proc) :
  emits (only [KOpen; KWrite; KClose]) w ->
  (result w st = Ret 0 \/ result w st = Ret (-1)) ->
  emits (only [KDprintf]) fail1 ->
  forks (emitted (r <- w ;;
                  if r <? 0 then
                    e <- get_errno ;;
                    if negb (e =? EPERM) then fail1 else tool
                  else ret tt) st) ->
  result w st = Ret (-1) /\ errno (after w st) = EPERM.
Proof.
  intros Hw Hr Hf. rewrite emitted_bind. intros H.
  apply forks_app in H. destruct H as [H | H].
  { exfalso. revert H. apply forks_never.
    apply (emits_emitted (never KFork)).
    apply (emits_never [KOpen; KWrite; KClose]); [not_in_kinds | exact Hw]. }
  destruct Hr as [Hr | Hr]; rewrite Hr in H.
  { cbn in H. destruct H as [r []]. }
  split; [exact Hr |].
  change (-1 <? 0) with true in H. cbv iota in H.
  rewrite emitted_bind, result_get_errno, emitted_get_errno,
    after_get_errno in H. cbn [List.app] in H.
  destruct (Z.eqb_spec (errno (after w st)) EPERM) as [E | _]; [exact E |].
  exfalso. revert H. apply forks_never.
  apply (emits_emitted (never KFork)).
  apply (emits_never [KDprintf]); [not_in_kinds | exact Hf].
Qed.

Lemma errno_after_success (c : call) (st : proc) :
  call_fails c (oracle st (clock st) c) = false ->
  errno (after (sys c) st) = errno st.
Proof. intros H. cbn [after sys snd errno]. now rewrite H. Qed.

Lemma write_file_short (data : bytes) (len : Z) (path : bytes) (st : proc) :
  let o := oracle st (clock st) (Open path O_RDWR) in
  let w := oracle st (S (clock st))
             (Write (rv o) (firstn (Z.to_nat len) data) len) in
  let c := oracle st (S (S (clock st))) (Close (rv o)) in
  0 <= rv o -> 0 <= rv w < len -> len < 2 ^ 31 -> 0 <= rv c ->
  result (write_file data len path) st = Ret (-1) /\
  errno (after (write_file data len path) st) = errno st /\
  logfd (after (write_file data len path) st) = logfd st.
Proof.
  intros o w c Ho Hw Hlen Hc.
  assert (Eo : (rv (oracle st (clock st) (Open path O_RDWR)) <? 0) = false)
    by (apply Z.ltb_ge; exact Ho).
  unfold write_file.
  rewrite !result_bind, !after_bind, !result_sys, !Eo.
  rewrite !result_bind, !after_bind, !result_sys.
  rewrite !result_bind, !after_bind, !result_sys.
  set (st1 := after (sys (Open path O_RDWR)) st).
  change (oracle st1 (clock st1)) with (oracle st (S (clock st))).
  fold o. fold w.
  assert (Es : (u64 (sint32 (rv w)) =? len) = false).
  { apply Z.eqb_neq. unfold u64, sint32.
    rewrite (Z.mod_small (rv w + 2 ^ 31)) by lia.
    rewrite Z.mod_small by lia. lia. }
  rewrite Es. cbn [negb]. cbv iota.
  split; [reflexivity |]. split; [| reflexivity].
  rewrite after_ret.
  set (st2 := after (sys (Write (rv o) (firstn (Z.to_nat len) data) len)) st1).
  rewrite errno_after_success.
  2:{ cbn [call_fails]. apply Z.ltb_ge. exact Hc. }
  subst st2. rewrite errno_after_success.
  2:{ cbn [call_fails]. apply Z.ltb_ge. apply Hw. }
  subst st1. apply errno_after_success.
  cbn [call_fails]. apply Z.ltb_ge. exact Ho.
Qed.

Lemma keeps_update_oom_score_adj d len :
  keeps_syncfd (update_oom_score_adj d len).
Proof. unfold update_oom_score_adj. keeps_auto. Qed.
#[local] Hint Resolve keeps_update_oom_score_adj : keeps.

Lemma keeps_init_oom_score_adj cfg : keeps_syncfd (init_oom_score_adj cfg).
Proof. unfold init_oom_score_adj. keeps_auto. Qed.
#[local] Hint Resolve keeps_init_oom_score_adj : keeps.

Lemma keeps_init_identity cfg : keeps_syncfd (init_identity cfg).
Proof. unfold init_identity. keeps_auto. Qed.
#[local] Hint Resolve keeps_init_identity : keeps.

Lemma keeps_init_cgroupns f : keeps_syncfd (init_cgroupns f).
Proof. unfold init_cgroupns. keeps_auto. Qed.
#[local] Hint Resolve keeps_init_cgroupns : keeps.

Lemma update_oom_score_adj_returns d len (st : proc) :
  result (update_oom_score_adj d len) st = Ret tt ->
  Forall (only [KOpen; KWrite; KClose])
         (emitted (update_oom_score_adj d len) st).
Proof.
  unfold update_oom_score_adj.
  destruct d as [d |]; [| constructor].
  destruct (len <=? 0); [constructor |].
  rewrite result_bind, emitted_bind.
  assert (Hw := emits_emitted _ _ st (emits_write_file d len
                  (str "/proc/self/oom_score_adj"))).
  destruct (result (write_file d len _) st) as [r | s]; [| discriminate].
  destruct (r <? 0).
  - rewrite bail_exits. discriminate.
  - intros _. rewrite emitted_ret, app_nil_r. exact Hw.
Qed.

Lemma init_oom_score_adj_returns cfg (st : proc) :
  result (init_oom_score_adj cfg) st = Ret tt ->
  exists oom,
    Forall (only [KOpen; KWrite; KClose]) oom /\
    map fst (emitted (init_oom_score_adj cfg) st)
    = [Prctl PR_SET_DUMPABLE 1] ++ map fst oom ++ [Prctl PR_SET_DUMPABLE 0].
Proof.
  unfold init_oom_score_adj.
  rewrite result_bind, emitted_bind, result_sys, emitted_sys.
  destruct (rv _ <? 0); [rewrite bail_exits; discriminate |].
  rewrite result_bind, emitted_bind.
  set (st1 := after (sys (Prctl PR_SET_DUMPABLE 1)) st).
  destruct (result (update_oom_score_adj _ _) st1) as [[] | s] eqn:E;
    [| discriminate].
  rewrite result_bind, emitted_bind, result_sys, emitted_sys.
  destruct (rv _ <? 0); [rewrite bail_exits; discriminate |].
  intros _. eexists. split; [exact (update_oom_score_adj_returns _ _ _ E) |].
  rewrite emitted_ret, !map_app. reflexivity.
Qed.

Lemma init_identity_returns cfg (st : proc) :
  result (init_identity cfg) st = Ret tt ->
  map fst (emitted (init_identity cfg) st)
  = [Setsid; Setuid 0; Setgid 0]
    ++ (if negb (nonzero (is_rootless_euid cfg)) && nonzero (is_setgroup cfg)
        then [Setgroups 0] else []).
Proof.
  unfold init_identity.
  rewrite result_bind, emitted_bind, result_sys, emitted_sys.
  destruct (rv _ <? 0); [rewrite bail_exits; discriminate |].
  rewrite result_bind, emitted_bind, result_sys, emitted_sys.
  destruct (rv _ <? 0); [rewrite bail_exits; discriminate |].
  rewrite result_bind, emitted_bind, result_sys, emitted_sys.
  destruct (rv _ <? 0); [rewrite bail_exits; discriminate |].
  destruct (_ && _); [| reflexivity].
  rewrite result_bind, emitted_bind, result_sys, emitted_sys.
  destruct (rv _ <? 0); [rewrite bail_exits; discriminate |].
  reflexivity.
Qed.

Lemma init_cgroupns_returns f (st : proc) :
  result (init_cgroupns f) st = Ret tt ->
  map fst (emitted (init_cgroupns f) st)
  = if nonzero (Z.land (cloneflags (config f)) CLONE_NEWCGROUP)
    then [Read (pipenum f) 1; Unshare CLONE_NEWCGROUP] else [].
Proof.
  unfold init_cgroupns.
  destruct (nonzero _); [| reflexivity].
  rewrite result_bind, emitted_bind, result_sys, emitted_sys.
  destruct (negb _); [rewrite bail_exits; discriminate |].
  destruct (_ =? CREATECGROUPNS); [| rewrite bail_exits; discriminate].
  rewrite result_bind, emitted_bind, result_sys, emitted_sys.
  destruct (rv _ <? 0); [rewrite bail_exits; discriminate |].
  reflexivity.
Qed.

Lemma unshared_app (a b : list event) :
  unshared (a ++ b) = unshared a ++ unshared b.
Proof. apply flat_map_app. Qed.

Lemma unshared_never (evs : list event) :
  Forall (never KUnshare) evs -> unshared evs = [].
Proof.
  induction 1 as [| e evs He _ IH]; [reflexivity |].
  cbn [unshared flat_map]. fold (unshared evs). rewrite IH, app_nil_r.
  destruct e as [c r]. cbn [fst]. destruct c; try reflexivity.
  exfalso. apply He. reflexivity.
Qed.

Lemma unshared_only (ks : list kind) {A} (m : M A) (st : proc) :
  ~ In KUnshare ks -> emits (only ks) m -> unshared (emitted m st) = [].
Proof.
  intros Hn Hm. apply unshared_never.
  apply (emits_emitted (never KUnshare) m st).
  apply (emits_never ks); assumption.
Qed.

Lemma land_lnot_absent (flags a : Z) :
  Z.land flags a = 0 -> Z.land flags (Z.lnot a) = flags.
Proof.
  intros H. apply Z.bits_inj'. intros n Hn.
  rewrite Z.land_spec, Z.lnot_spec by exact Hn.
  assert (Hb : Z.testbit (Z.land flags a) n = false)
    by (rewrite H; apply Z.bits_0).
  rewrite Z.land_spec in Hb.
  destruct (Z.testbit flags n), (Z.testbit a n); simpl in *; congruence.
Qed.

Lemma nonzero_false (z : Z) : nonzero z = false -> z = 0.
Proof. unfold nonzero. destruct (Z.eqb_spec z 0); [auto | discriminate]. Qed.

(** The two separate [unshare] calls and the flags they leave. *)
Lemma child_unshare_first_returns (c : nlconfig_t) (st : proc)
    (u : nlconfig_t * bool) :
  result (child_unshare_first c) st = Ret u ->
  cloneflags (fst u)
  = Z.land (cloneflags c) (Z.lnot (Z.lor CLONE_NEWUSER CLONE_NEWNS)) /\
  unshared (emitted (child_unshare_first c) st)
  = (if nonzero (Z.land (cloneflags c) CLONE_NEWUSER)
     then [CLONE_NEWUSER] else [])
    ++ (if nonzero (Z.land (cloneflags c) CLONE_NEWNS)
        then [CLONE_NEWNS] else []).
Proof.
  unfold child_unshare_first.
  rewrite result_bind, emitted_bind.
  rewrite Z.lnot_lor, Z.land_assoc.
  destruct (nonzero (Z.land (cloneflags c) CLONE_NEWUSER)) eqn:EU.
  - rewrite result_bind, emitted_bind, result_sys, emitted_sys.
    destruct (rv _ <? 0); [rewrite bail_exits; discriminate |].
    rewrite result_ret, emitted_ret. cbv iota beta.
    rewrite cloneflags_set_cloneflags.
    rewrite (land_lnot_other (cloneflags c) CLONE_NEWUSER CLONE_NEWNS)
      by reflexivity.
    destruct (nonzero (Z.land (cloneflags c) CLONE_NEWNS)) eqn:EN.
    + rewrite result_bind, emitted_bind, result_sys, emitted_sys.
      destruct (rv _ <? 0); [rewrite bail_exits; discriminate |].
      intros H. injection H as <-. cbn [fst].
      rewrite !cloneflags_set_cloneflags. split; reflexivity.
    + intros H. injection H as <-. cbn [fst].
      rewrite cloneflags_set_cloneflags.
      rewrite (land_lnot_absent _ CLONE_NEWNS).
      * split; reflexivity.
      * rewrite land_lnot_other by reflexivity.
        exact (nonzero_false _ EN).
  - rewrite result_ret, emitted_ret. cbv iota beta.
    rewrite (land_lnot_absent _ CLONE_NEWUSER) by exact (nonzero_false _ EU).
    destruct (nonzero (Z.land (cloneflags c) CLONE_NEWNS)) eqn:EN.
    + rewrite result_bind, emitted_bind, result_sys, emitted_sys.
      destruct (rv _ <? 0); [rewrite bail_exits; discriminate |].
      intros H. injection H as <-. cbn [fst].
      rewrite cloneflags_set_cloneflags. split; reflexivity.
    + intros H. injection H as <-. cbn [fst].
      rewrite (land_lnot_absent _ CLONE_NEWNS) by exact (nonzero_false _ EN).
      split; reflexivity.
Qed.

Lemma stops_in_ret {A} (S : stop -> Prop) (a : A) : stops_in S (ret a).
Proof. intros st s H. discriminate H. Qed.

Lemma stops_in_sys (S : stop -> Prop) (c : call) : stops_in S (sys c).
Proof. intros st s H. discriminate H. Qed.

Lemma stops_in_get_errno (S : stop -> Prop) : stops_in S get_errno.
Proof. intros st s H. discriminate H. Qed.

Lemma stops_in_get_logfd (S : stop -> Prop) : stops_in S get_logfd.
Proof. intros st s H. discriminate H. Qed.

Lemma stops_in_get_syncfd (S : stop -> Prop) : stops_in S get_syncfd.
Proof. intros st s H. discriminate H. Qed.

Lemma stops_in_set_syncfd (S : stop -> Prop) fd : stops_in S (set_syncfd fd).
Proof. intros st s H. discriminate H. Qed.

Lemma stops_in_set_logfd (S : stop -> Prop) fd : stops_in S (set_logfd fd).
Proof. intros st s H. discriminate H. Qed.

Lemma stops_in_halt {A} (S : stop -> Prop) (s : stop) :
  S s -> stops_in S (@halt A s).
Proof. intros Hs st s' H. injection H as <-. exact Hs. Qed.

Lemma stops_in_exit {A} (S : stop -> Prop) (code : Z) :
  S (Exited code) -> stops_in S (@exit A code).
Proof. intros Hs st s' H. injection H as <-. exact Hs. Qed.

Lemma stops_in_bail {A} (S : stop -> Prop) func line msg :
  S (Exited 1) -> stops_in S (@bail A func line msg).
Proof.
  intros Hs st s H. rewrite bail_exits in H. injection H as <-. exact Hs.
Qed.

Lemma stops_in_bind {A B} (S : stop -> Prop) (m : M A) (k : A -> M B) :
  stops_in S m -> (forall a, stops_in S (k a)) -> stops_in S (bind m k).
Proof.
  intros Hm Hk st s H. rewrite result_bind in H.
  destruct (result m st) as [a | s'] eqn:E.
  - exact (Hk a _ s H).
  - injection H as <-. exact (Hm st s' E).
Qed.

Create HintDb stops.

Ltac stops_walk :=
  repeat
    match goal with
    | |- stops_in _ (bind _ _) => apply stops_in_bind; [| intros ?]
    | |- stops_in _ (ret _) => apply stops_in_ret
    | |- stops_in _ (sys _) => apply stops_in_sys
    | |- stops_in _ get_errno => apply stops_in_get_errno
    | |- stops_in _ get_logfd => apply stops_in_get_logfd
    | |- stops_in _ get_syncfd => apply stops_in_get_syncfd
    | |- stops_in _ (set_syncfd _) => apply stops_in_set_syncfd
    | |- stops_in _ (set_logfd _) => apply stops_in_set_logfd
    | |- stops_in failed (halt _) => apply stops_in_halt; discriminate
    | |- stops_in failed (bail _ _ _) => apply stops_in_bail; discriminate
    | |- stops_in _ (if ?b then _ else _) => destruct b
    | |- stops_in _ (match ?x with _ => _ end) => destruct x
    end.

Ltac stops_auto :=
  repeat (first [progress stops_walk | assumption
                | solve [auto with stops]]).

Lemma failed_write_file data len path :
  stops_in failed (write_file data len path).
Proof. unfold write_file. stops_auto. Qed.
#[local] Hint Resolve failed_write_file : stops.

Lemma failed_update_setgroups pid setgroup :
  stops_in failed (update_setgroups pid setgroup).
Proof. unfold update_setgroups. stops_auto. Qed.
#[local] Hint Resolve failed_update_setgroups : stops.

Lemma failed_wait_child fuel child : stops_in failed (wait_child fuel child).
Proof.
  induction fuel as [| fuel IH]; simpl; [apply stops_in_halt; discriminate |].
  stops_auto.
Qed.
#[local] Hint Resolve failed_wait_child : stops.

Lemma failed_execve path argv envp : stops_in failed (execve path argv envp).
Proof. unfold execve. stops_auto. Qed.
#[local] Hint Resolve failed_execve : stops.

Lemma failed_try_mapping_tool fuel tool pid idmap map_len :
  stops_in failed (try_mapping_tool fuel tool pid idmap map_len).
Proof. unfold try_mapping_tool. stops_auto. Qed.
#[local] Hint Resolve failed_try_mapping_tool : stops.

Lemma failed_update_uidmap fuel path pid idmap map_len :
  stops_in failed (update_uidmap fuel path pid idmap map_len).
Proof. unfold update_uidmap. stops_auto. Qed.
#[local] Hint Resolve failed_update_uidmap : stops.

Lemma failed_update_gidmap fuel path pid idmap map_len :
  stops_in failed (update_gidmap fuel path pid idmap map_len).
Proof. unfold update_gidmap. stops_auto. Qed.
#[local] Hint Resolve failed_update_gidmap : stops.

Lemma failed_write_sync s : stops_in failed (write_sync s).
Proof. unfold write_sync. stops_auto. Qed.
#[local] Hint Resolve failed_write_sync : stops.

Lemma failed_read_sync : stops_in failed read_sync.
Proof. unfold read_sync. stops_auto. Qed.
#[local] Hint Resolve failed_read_sync : stops.

Lemma failed_kill pid : stops_in failed (kill pid).
Proof. unfold kill. stops_auto. Qed.
#[local] Hint Resolve failed_kill : stops.

Lemma failed_clone_parent jmpval f : stops_in failed (clone_parent jmpval f).
Proof. unfold clone_parent. stops_auto. Qed.
#[local] Hint Resolve failed_clone_parent : stops.

Lemma failed_parent_usermap fuel cfg child :
  stops_in failed (parent_usermap fuel cfg child).
Proof. unfold parent_usermap. stops_auto. Qed.
#[local] Hint Resolve failed_parent_usermap : stops.

Lemma failed_parent_recvpid f child :
  stops_in failed (parent_recvpid f child).
Proof. unfold parent_recvpid. stops_auto. Qed.
#[local] Hint Resolve failed_parent_recvpid : stops.

Lemma failed_parent_sync_child fuel f child :
  stops_in failed (parent_sync_child fuel f child).
Proof.
  revert child.
  induction fuel as [| fuel IH]; intros; simpl;
    [apply stops_in_halt; discriminate |].
  stops_auto; apply IH.
Qed.
#[local] Hint Resolve failed_parent_sync_child : stops.

(** When the first loop of stage 0 ends, the last thing it has done is to
    read SYNC_CHILD_READY. *)
Lemma parent_sync_child_returns (fuel : nat) :
  forall (f : frame) (child c : Z) (st : proc),
    result (parent_sync_child fuel f child) st = Ret c ->
    exists pre r,
      emitted (parent_sync_child fuel f child) st
      = pre ++ [(Read (syncfd st) 4, r)] /\
      rv r = 4 /\ readint32 (rbytes r) = SYNC_CHILD_READY.
Proof.
  induction fuel as [| fuel IH]; intros f child c st; [discriminate |].
  cbn [parent_sync_child].
  rewrite result_bind, emitted_bind, result_read_sync, emitted_read_sync.
  set (r := oracle st (clock st) (Read (syncfd st) 4)). cbv zeta.
  set (st1 := after read_sync st).
  assert (Hfd : syncfd st1 = syncfd st) by apply keeps_read_sync.
  destruct (Z.eqb_spec (rv r) 4) as [Er | _];
    [| rewrite bail_exits; discriminate].
  destruct (readint32 (rbytes r) =? SYNC_USERMAP_PLS).
  { rewrite result_bind, emitted_bind.
    destruct (result (parent_usermap fuel (config f) child) st1) as [[] | s];
      [| discriminate].
    intros H. destruct (IH _ _ _ _ H) as (pre & r' & -> & H1 & H2).
    rewrite keeps_parent_usermap, Hfd.
    exists ([(Read (syncfd st) 4, r)]
            ++ emitted (parent_usermap fuel (config f) child) st1 ++ pre), r'.
    rewrite <- !app_assoc. auto. }
  destruct (readint32 (rbytes r) =? SYNC_RECVPID_PLS).
  { rewrite result_bind, emitted_bind.
    destruct (result (parent_recvpid f child) st1) as [c' | s];
      [| discriminate].
    intros H. destruct (IH _ _ _ _ H) as (pre & r' & -> & H1 & H2).
    rewrite keeps_parent_recvpid, Hfd.
    exists ([(Read (syncfd st) 4, r)]
            ++ emitted (parent_recvpid f child) st1 ++ pre), r'.
    rewrite <- !app_assoc. auto. }
  destruct (Z.eqb_spec (readint32 (rbytes r)) SYNC_CHILD_READY) as [Ev | _];
    [| rewrite bail_exits; discriminate].
  intros _. exists [], r. rewrite emitted_ret. auto.
Qed.

Lemma failed_parent_sync_grandchild child :
  stops_in failed (parent_sync_grandchild child).
Proof. unfold parent_sync_grandchild. stops_auto. Qed.
#[local] Hint Resolve failed_parent_sync_grandchild : stops.

Lemma parent_sync_grandchild_returns (child : Z) (st : proc) :
  result (parent_sync_grandchild child) st = Ret tt ->
  exists w r,
    emitted (parent_sync_grandchild child) st
    = [(Write (syncfd st) (le32 SYNC_GRANDCHILD) 4, w);
       (Read (syncfd st) 4, r)] /\
    rv w = 4 /\ rv r = 4 /\ readint32 (rbytes r) = SYNC_CHILD_READY.
Proof.
  unfold parent_sync_grandchild.
  match goal with
  | |- context [bind (write_sync ?v) ?k] =>
      destruct (run_ext _ _ st (bind_write_sync v k st)) as [-> ->]
  end.
  rewrite result_bind, emitted_bind, result_sys, emitted_sys.
  set (w := oracle st (clock st) (Write (syncfd st) (le32 SYNC_GRANDCHILD) 4)).
  set (st1 := after (sys (Write (syncfd st) (le32 SYNC_GRANDCHILD) 4)) st).
  destruct (Z.eqb_spec (rv w) 4) as [Ew | _]; cbn [negb]; cbv iota.
  2:{ unfold kill. run_simp. rewrite bail_exits. discriminate. }
  rewrite result_bind, emitted_bind, result_read_sync, emitted_read_sync.
  change (syncfd st1) with (syncfd st). cbv zeta.
  set (r := oracle st1 (clock st1) (Read (syncfd st) 4)).
  destruct (Z.eqb_spec (rv r) 4) as [Er | _];
    [| rewrite bail_exits; discriminate].
  destruct (Z.eqb_spec (readint32 (rbytes r)) SYNC_CHILD_READY) as [Ev | _];
    [| rewrite bail_exits; discriminate].
  intros _. exists w, r. rewrite emitted_ret. auto.
Qed.

Lemma setup_logpipe_returns (st : proc) :
  result setup_logpipe st = Ret tt ->
  emitted setup_logpipe st
  = [(Getenv (str "_LIBCONTAINER_LOGPIPE"),
      oracle st (clock st) (Getenv (str "_LIBCONTAINER_LOGPIPE")))] /\
  oracle (after setup_logpipe st) = oracle st /\
  clock (after setup_logpipe st) = S (clock st).
Proof.
  unfold setup_logpipe, getenv.
  set (c := Getenv (str "_LIBCONTAINER_LOGPIPE")).
  run_simp.
  destruct (rv (oracle st (clock st) c) =? 0).
  { run_simp. intros _. cbn [List.app]. repeat split. }
  run_simp.
  destruct (is_nul _); [run_simp; intros _; cbn [List.app]; repeat split |].
  destruct (strtol _) as [fd endptr].
  run_simp. cbn [result set_logfd fst].
  destruct (_ || _).
  - run_simp. discriminate.
  - run_simp. intros _. cbn [List.app]. repeat split.
Qed.

Lemma opened_app (a b : list event) : opened (a ++ b) = opened a ++ opened b.
Proof. unfold opened. now rewrite filter_app, map_app. Qed.

Lemma open_namespaces_returns (fuel : nat) :
  forall (namespace saveptr : bytes) (acc nss : list namespace_t)
         (st : proc),
    result (open_namespaces fuel namespace saveptr acc) st = Ret nss ->
    exists new,
      nss = acc ++ new /\
      map ns_fd new
      = opened (emitted (open_namespaces fuel namespace saveptr acc) st) /\
      Forall (only [KRealloc; KOpen])
             (emitted (open_namespaces fuel namespace saveptr acc) st).
Proof.
  induction fuel as [| fuel IH]; intros namespace saveptr acc nss st;
    [discriminate |].
  cbn [open_namespaces].
  rewrite result_bind, emitted_bind, result_sys, emitted_sys.
  destruct (rv _ =? 0); [rewrite bail_exits; discriminate |].
  destruct (split_colon namespace) as [[name path] |];
    [| rewrite bail_exits; discriminate].
  rewrite result_bind, emitted_bind, result_sys, emitted_sys.
  set (st1 := after (sys (Realloc _)) st).
  set (o := oracle st1 (clock st1) (Open (cstr path) O_RDONLY)).
  destruct (rv o <? 0); [rewrite bail_exits; discriminate |].
  set (ns := mk_namespace (rv o) (nsflag name) _).
  destruct (strtok_r saveptr (str ",")) as [[namespace' |] saveptr'].
  - intros H. destruct (IH _ _ _ _ _ H) as (new & -> & Hfd & Hk).
    exists (ns :: new). split; [now rewrite <- app_assoc |]. split.
    + rewrite !opened_app, <- Hfd. reflexivity.
    + repeat (apply Forall_app; split); try exact Hk;
        repeat constructor; cbv; tauto.
  - rewrite result_ret, emitted_ret. intros H. injection H as <-.
    exists [ns]. split; [reflexivity |]. split; [reflexivity |].
    repeat (apply Forall_app; split); repeat constructor; cbv; tauto.
Qed.

Lemma setns_namespaces_returns (nss : list namespace_t) :
  forall (st : proc),
    result (setns_namespaces nss) st = Ret tt ->
    map fst (emitted (setns_namespaces nss) st) = setns_calls nss.
Proof.
  induction nss as [| ns nss IH]; intros st; [reflexivity |].
  cbn [setns_namespaces].
  rewrite result_bind, emitted_bind, result_sys, emitted_sys.
  destruct (rv _ <? 0); [rewrite bail_exits; discriminate |].
  rewrite result_bind, emitted_bind, result_sys, emitted_sys.
  intros H. rewrite !map_app, (IH _ H). reflexivity.
Qed.

(** ** The shiftfs mounts *)

Lemma bytes_eqb_refl (a : bytes) : bytes_eqb a a = true.
Proof. unfold bytes_eqb. now destruct (list_eq_dec ascii_dec a a). Qed.

Lemma skip_span_length (delim s : bytes) :
  (length (skip_span delim s) <= length s)%nat.
Proof.
  induction s as [| c s IH]; simpl; [lia |].
  destruct (is_nul c); [simpl; lia |].
  destruct (mem_char c delim); simpl; lia.
Qed.

Lemma skip_span_head (delim s : bytes) :
  is_nul (peek (skip_span delim s)) = false ->
  mem_char (peek (skip_span delim s)) delim = false.
Proof.
  induction s as [| c s IH]; simpl; [discriminate |].
  destruct (is_nul c) eqn:En; [simpl; congruence |].
  destruct (mem_char c delim) eqn:Em; [exact IH |]. simpl. now intros _.
Qed.

Lemma break_span_length (reject s : bytes) :
  (length (snd (break_span reject s)) <= length s)%nat.
Proof.
  induction s as [| c s IH]; simpl; [lia |].
  destruct (is_nul c); [simpl; lia |].
  destruct (mem_char c reject); [simpl; lia |].
  destruct (break_span reject s). simpl in *. lia.
Qed.

Lemma break_span_advances (reject s : bytes) :
  is_nul (peek s) = false -> mem_char (peek s) reject = false ->
  (length (snd (break_span reject s)) < length s)%nat.
Proof.
  destruct s as [| c s]; simpl; [discriminate |].
  intros -> ->. pose proof (break_span_length reject s) as H.
  destruct (break_span reject s). simpl in *. lia.
Qed.

(** [strtok_r] that finds a token moves [saveptr] forward. *)
Lemma strtok_r_advances (s delim tok saveptr : bytes) :
  strtok_r s delim = (Some tok, saveptr) ->
  (length saveptr < length s)%nat.
Proof.
  unfold strtok_r.
  destruct (is_nul (peek s)); [discriminate |].
  destruct (is_nul (peek (skip_span delim s))) eqn:En; [discriminate |].
  pose proof (skip_span_length delim s) as Hs.
  pose proof (break_span_advances delim _ En (skip_span_head _ _ En)) as Hb.
  destruct (break_span delim (skip_span delim s)) as [t rest].
  simpl in Hb.
  destruct (is_nul (peek rest)); intros H; injection H as _ <-;
    [lia |].
  destruct rest; simpl in *; lia.
Qed.

Lemma shiftfs_loop_stops (fuel : nat) :
  forall (rootfs mntpath saveptr : bytes) (st : proc),
    (length saveptr < fuel)%nat ->
    exists v,
      result (shiftfs_loop fuel (Some rootfs) mntpath saveptr) st = Ret v /\
      forallb (shiftfs_mount rootfs)
        (emitted (shiftfs_loop fuel (Some rootfs) mntpath saveptr) st)
      = true /\
      (v = 0 /\
       forallb succeeded
         (emitted (shiftfs_loop fuel (Some rootfs) mntpath saveptr) st)
       = true \/
       v = -1 /\
       stopped_at_failure
         (emitted (shiftfs_loop fuel (Some rootfs) mntpath saveptr) st)).
Proof.
  induction fuel as [| fuel IH]; intros rootfs mntpath saveptr st Hf; [lia |].
  cbn [shiftfs_loop].
  set (c := if streq mntpath rootfs
            then Mount (str ".") (Some (str ".")) (str "shiftfs") 0
            else Mount (cstr mntpath) (Some (cstr mntpath))
                       (str "shiftfs") 0).
  replace (if streq mntpath rootfs
           then sys (Mount (str ".") (Some (str ".")) (str "shiftfs") 0)
           else sys (Mount (cstr mntpath) (Some (cstr mntpath))
                           (str "shiftfs") 0))
    with (sys c) by (subst c; now destruct (streq mntpath rootfs)).
  rewrite result_bind, emitted_bind, result_sys, emitted_sys.
  set (o := oracle st (clock st) c).
  assert (Hc : shiftfs_mount rootfs (c, o) = true).
  { subst c. unfold shiftfs_mount, streq.
    destruct (bytes_eqb (cstr mntpath) (cstr rootfs)) eqn:E; cbn [fst].
    - reflexivity.
    - rewrite bytes_eqb_refl, E, orb_true_r. reflexivity. }
  destruct (rv o <? 0) eqn:Er.
  - exists (-1). rewrite result_ret, emitted_ret.
    split; [reflexivity |]. split.
    + cbn [List.app forallb]. now rewrite Hc.
    + right. split; [reflexivity |]. exists [], (c, o).
      repeat split. apply Z.ltb_lt. exact Er.
  - assert (Hs : succeeded (c, o) = true).
    { unfold succeeded. apply Z.leb_le. apply Z.ltb_ge in Er. exact Er. }
    destruct (strtok_r saveptr (str ",")) as [[mntpath' |] saveptr'] eqn:Et.
    + apply strtok_r_advances in Et.
      destruct (IH rootfs mntpath' saveptr' (after (sys c) st)) as
        (v & Hr & Hk & Hv); [lia |].
      exists v. split; [exact Hr |]. split.
      * rewrite forallb_app, Hk. cbn [forallb]. now rewrite Hc.
      * destruct Hv as [[-> Ha] | [-> (pre & e & He & Hp & Hl)]].
        -- left. split; [reflexivity |].
           rewrite forallb_app, Ha. cbn [forallb]. now rewrite Hs.
        -- right. split; [reflexivity |]. exists ((c, o) :: pre), e.
           rewrite He. split; [reflexivity |]. split; [| exact Hl].
           cbn [forallb]. now rewrite Hs, Hp.
    + exists 0. rewrite result_ret, emitted_ret.
      split; [reflexivity |]. split.
      * cbn [List.app forallb]. now rewrite Hc.
      * left. split; [reflexivity |]. cbn [List.app forallb]. now rewrite Hs.
Qed.

(** ** The report of the pids *)

Lemma app_eq_split {A} (a b pre post : list A) (e : A) :
  a ++ b = pre ++ e :: post ->
  (exists post', a = pre ++ e :: post' /\ post = post' ++ b) \/
  (exists pre', pre = a ++ pre' /\ b = pre' ++ e :: post).
Proof.
  revert pre. induction a as [| x a IH]; intros pre H.
  - right. exists pre. split; [reflexivity | exact H].
  - destruct pre as [| y pre]; cbn [List.app] in H; injection H as <- H.
    + left. exists a. split; [reflexivity | now rewrite H].
    + destruct (IH _ H) as [(post' & -> & ->) | (pre' & -> & ->)].
      * left. exists post'. split; reflexivity.
      * right. exists pre'. split; reflexivity.
Qed.

Lemma child_after_app (a b : list event) (child : Z) :
  child_after (a ++ b) child = child_after b (child_after a child).
Proof.
  revert child. induction a as [| [c r] a IH]; intros child; [reflexivity |].
  destruct c; cbn [List.app child_after]; apply IH.
Qed.

Lemma child_after_quiet (ks : list kind) (evs : list event) (child : Z) :
  ~ In KCloneParent ks -> ~ In KDprintfPid ks ->
  Forall (only ks) evs -> child_after evs child = child.
Proof.
  intros Hc Hd H. induction H as [| [c r] evs Hk _ IH]; [reflexivity |].
  unfold only in Hk. cbn [fst] in Hk.
  destruct c; cbn [child_after]; try exact IH;
    cbn [kind_of] in Hk; contradiction.
Qed.

Lemma reports_acked_quiet (f : frame) (sfd child : Z) (ks : list kind)
    (evs : list event) :
  ~ In KDprintfPid ks -> Forall (only ks) evs ->
  reports_acked f sfd child evs.
Proof.
  intros Hd H pre fd pid pid_first r post E. subst evs.
  apply Forall_app in H. destruct H as [_ H].
  inversion H as [| ? ? Hk _]. contradiction.
Qed.

Lemma reports_acked_app (f : frame) (sfd child : Z) (a b : list event) :
  reports_acked f sfd child a ->
  reports_acked f sfd (child_after a child) b ->
  reports_acked f sfd child (a ++ b).
Proof.
  intros Ha Hb pre fd pid pid_first r post E.
  apply app_eq_split in E.
  destruct E as [(post' & E & _) | (pre' & -> & E)].
  - exact (Ha _ _ _ _ _ _ E).
  - destruct (Hb _ _ _ _ _ _ E) as (Hfd & Hf & pre'' & rd & w & -> & H).
    split; [exact Hfd |]. split; [now rewrite child_after_app |].
    exists (a ++ pre''), rd, w. split; [now rewrite app_assoc | exact H].
Qed.

(** The report itself, after the read and the acknowledgement. *)
Lemma reports_acked_report (f : frame) (sfd child : Z) (rd w r : response)
    (ks : list kind) (tail : list event) :
  rv rd = 4 -> rv w = 4 ->
  ~ In KDprintfPid ks -> Forall (only ks) tail ->
  reports_acked f sfd child
    ((Read sfd 4, rd) :: (Write sfd (le32 SYNC_RECVPID_ACK) 4, w)
     :: (DprintfPid (pipenum f) (sint32 (readint32 (rbytes rd))) child, r)
     :: tail).
Proof.
  intros Hrd Hw Hd Ht pre fd pid pid_first r' post E.
  destruct pre as [| e1 [| e2 [| e3 pre]]]; cbn [List.app] in E;
    try discriminate E.
  - inversion E. subst.
    split; [reflexivity |]. split; [reflexivity |].
    exists [], rd, w. repeat split; assumption.
  - inversion E. subst.
    exfalso. apply Forall_app in Ht. destruct Ht as [_ Ht].
    inversion Ht as [| ? ? Hk _]. contradiction.
Qed.

Lemma parent_recvpid_reports (f : frame) (child : Z) (st : proc) :
  reports_acked f (syncfd st) child (emitted (parent_recvpid f child) st) /\
  forall child',
    result (parent_recvpid f child) st = Ret child' ->
    child' = child_after (emitted (parent_recvpid f child) st) child.
Proof.
  unfold parent_recvpid. cbv zeta.
  rewrite result_bind, emitted_bind, result_get_syncfd, emitted_get_syncfd.
  rewrite result_bind, emitted_bind, result_sys, emitted_sys.
  cbn [List.app].
  change (after get_syncfd st) with st.
  set (rd := oracle st (clock st) (Read (syncfd st) 4)).
  set (st1 := after (sys (Read (syncfd st) 4)) st).
  destruct (rv rd =? 4) eqn:Erd; cbn [negb].
  2:{ split.
      - apply (reports_acked_quiet _ _ _ [KRead; KKill; KDprintf]);
          [not_in_kinds |].
        constructor; [cbv; tauto |].
        apply emits_emitted. emits_auto.
      - intros c' H. exfalso. exact (kill_bail_stops _ _ _ _ _ _ H). }
  apply Z.eqb_eq in Erd.
  unfold write_sync. run_simp. cbn [List.app].
  change (syncfd st1) with (syncfd st).
  set (w := oracle st1 (clock st1)
              (Write (syncfd st) (le32 SYNC_RECVPID_ACK) 4)).
  set (st2 := after (sys (Write (syncfd st) (le32 SYNC_RECVPID_ACK) 4)) st1).
  destruct (rv w =? 4) eqn:Ew; cbn [negb].
  2:{ split.
      - apply (reports_acked_quiet _ _ _ [KRead; KWrite; KKill; KDprintf]);
          [not_in_kinds |].
        constructor; [cbv; tauto |]. constructor; [cbv; tauto |].
        apply emits_emitted. emits_auto.
      - intros c' H. exfalso. revert H. unfold kill. run_simp.
        rewrite bail_exits. discriminate. }
  apply Z.eqb_eq in Ew.
  rewrite result_bind, emitted_bind, result_sys, emitted_sys.
  set (p := oracle st2 (clock st2)
              (DprintfPid (pipenum f) (sint32 (readint32 (rbytes rd)))
                          child)).
  split.
  - cbn [List.app].
    apply (reports_acked_report f (syncfd st) child rd w p [KKill; KDprintf]);
      [exact Erd | exact Ew | not_in_kinds |].
    destruct (rv p <? 0); [| rewrite emitted_ret; constructor].
    apply emits_emitted. emits_auto.
  - destruct (rv p <? 0).
    + intros c' H. exfalso. exact (kill_bail_stops _ _ _ _ _ _ H).
    + rewrite result_ret, emitted_ret. intros c' H. injection H as <-.
      reflexivity.
Qed.

Lemma parent_sync_child_reports (fuel : nat) :
  forall (f : frame) (child : Z) (st : proc),
    reports_acked f (syncfd st) child
                  (emitted (parent_sync_child fuel f child) st).
Proof.
  induction fuel as [| fuel IH]; intros f child st.
  - apply (reports_acked_quiet _ _ _ []); [not_in_kinds | constructor].
  - cbn [parent_sync_child].
    rewrite emitted_bind, result_read_sync, emitted_read_sync. cbv zeta.
    set (st1 := after read_sync st).
    assert (Hfd : syncfd st1 = syncfd st) by apply keeps_read_sync.
    apply reports_acked_app.
    { apply (reports_acked_quiet _ _ _ [KRead]); [not_in_kinds |].
      repeat constructor. }
    cbn [child_after].
    destruct (rv _ =? 4).
    2:{ apply (reports_acked_quiet _ _ _ [KDprintf]); [not_in_kinds |].
        apply emits_emitted. emits_auto. }
    destruct (_ =? SYNC_USERMAP_PLS).
    { rewrite emitted_bind. apply reports_acked_app.
      - apply (reports_acked_quiet _ _ _
                 [KOpen; KWrite; KClose; KFork; KExecve; KWaitpid; KKill;
                  KDprintf]); [not_in_kinds |].
        apply emits_emitted, emits_parent_usermap.
      - rewrite (child_after_quiet
                   [KOpen; KWrite; KClose; KFork; KExecve; KWaitpid; KKill;
                    KDprintf]);
          [| not_in_kinds | not_in_kinds
           | apply emits_emitted, emits_parent_usermap].
        destruct (result (parent_usermap fuel (config f) child) st1)
          as [[] | s].
        + rewrite <- Hfd, <- (keeps_parent_usermap fuel (config f) child st1).
          apply IH.
        + apply (reports_acked_quiet _ _ _ []); [not_in_kinds | constructor].
    }
    destruct (_ =? SYNC_RECVPID_PLS).
    { rewrite emitted_bind.
      destruct (parent_recvpid_reports f child st1) as [Hr Hc].
      apply reports_acked_app.
      - rewrite <- Hfd. exact Hr.
      - destruct (result (parent_recvpid f child) st1) as [child' | s].
        + rewrite <- (Hc child' eq_refl).
          rewrite <- Hfd, <- (keeps_parent_recvpid f child st1).
          apply IH.
        + apply (reports_acked_quiet _ _ _ []); [not_in_kinds | constructor].
    }
    destruct (_ =? SYNC_CHILD_READY).
    { rewrite emitted_ret.
      apply (reports_acked_quiet _ _ _ []); [not_in_kinds | constructor]. }
    apply (reports_acked_quiet _ _ _ [KDprintf]); [not_in_kinds |].
    apply emits_emitted. emits_auto.
Qed.

(** ** Where [nsexec] returns *)

Lemma bind_never_returns {A B} (m : M A) (k : A -> M B) (st : proc) (b : B) :
  (forall a st', result (k a) st' <> Ret b) ->
  result (bind m k) st <> Ret b.
Proof.
  intros H. rewrite result_bind.
  destruct (result m st) as [a | s]; [apply H | discriminate].
Qed.

Lemma stage_parent_never_returns (fuel : nat) (f : frame) (st : proc)
    (a : unit) :
  result (stage_parent fuel f) st <> Ret a.
Proof.
  unfold stage_parent.
  apply bind_never_returns. intros _ st1.
  apply bind_never_returns. intros child st2.
  destruct (child <? 0); [rewrite bail_exits; discriminate |].
  do 5 (apply bind_never_returns; intros ? ?).
  apply bind_never_returns. intros _ st3. discriminate.
Qed.

Lemma initpipe_returns (st : proc) (pn : Z) :
  result initpipe st = Ret pn ->
  emitted initpipe st
  = [(Getenv (str "_LIBCONTAINER_INITPIPE"),
      oracle st (clock st) (Getenv (str "_LIBCONTAINER_INITPIPE")))].
Proof.
  unfold initpipe, getenv.
  set (c := Getenv (str "_LIBCONTAINER_INITPIPE")).
  run_simp.
  destruct (rv (oracle st (clock st) c) =? 0); [run_simp; reflexivity |].
  run_simp.
  destruct (is_nul (peek _)); [run_simp; reflexivity |].
  destruct (strtol _) as [pipenum endptr].
  destruct (negb _); [rewrite bail_exits; discriminate |].
  run_simp. reflexivity.
Qed.

(** ** The end of stage 1 *)

Lemma child_clone_init_run (f : frame) (st : proc) :
  let c := oracle st (clock st) (CloneParent JUMP_INIT (config f)) in
  exists post,
    emitted (child_clone_init f) st
    = (CloneParent JUMP_INIT (config f), c) :: post /\
    Forall (never KCloneParent) post /\
    (0 <= rv c ->
     result (child_clone_init f) st = Stop (Exited 0) /\
     handed_over (syncfd st) (rv c) post \/
     result (child_clone_init f) st = Stop (Exited 1) /\
     killed_at_end (rv c) post).
Proof.
  intros c. unfold child_clone_init.
  rewrite result_bind, emitted_bind, result_clone_parent,
    emitted_clone_parent.
  fold c. cbn [List.app].
  set (st1 := after (clone_parent JUMP_INIT f) st).
  assert (Hfd : syncfd st1 = syncfd st) by reflexivity.
  eexists. split; [reflexivity |]. split.
  { destruct (rv c <? 0).
    - rewrite emitted_bail. eapply Forall_impl; [| apply fatal_line_only].
      intros e. apply only_never. not_in_kinds.
    - apply emits_emitted.
      apply (emits_never [KWrite; KRead; KKill; KDprintf]);
        [not_in_kinds |].
      unfold kill. emits_auto. }
  intros Hc. apply Z.ltb_ge in Hc. rewrite Hc.
  unfold write_sync, read_sync, kill. run_simp. rewrite ?keeps_sys, ?Hfd.
  set (w1 := oracle st1 (clock st1) _).
  destruct (rv w1 =? 4) eqn:E1; cbn [negb].
  2:{ right. run_simp. rewrite bail_exits, emitted_bail.
      split; [reflexivity |].
      exists [(Write (syncfd st) (le32 SYNC_RECVPID_PLS) 4, w1)].
      eexists. eexists. cbn [List.app]. split; [reflexivity |].
      split; [repeat constructor; cbv; tauto | apply fatal_line_only]. }
  run_simp. rewrite ?keeps_sys, ?Hfd.
  match goal with |- context [oracle ?s (clock ?s) (Write _ (le32 (rv c)) 4)]
    => set (st2 := s) end.
  set (w2 := oracle st2 (clock st2) _).
  destruct (rv w2 =? 4) eqn:E2; cbn [negb].
  2:{ right. run_simp. rewrite bail_exits, emitted_bail.
      split; [reflexivity |].
      exists [(Write (syncfd st) (le32 SYNC_RECVPID_PLS) 4, w1);
              (Write (syncfd st) (le32 (rv c)) 4, w2)].
      eexists. eexists. cbn [List.app]. split; [reflexivity |].
      split; [repeat constructor; cbv; tauto | apply fatal_line_only]. }
  run_simp. rewrite ?keeps_sys, ?Hfd.
  match goal with |- context [oracle ?s (clock ?s) (Read _ 4)]
    => set (st3 := s) end.
  set (rd := oracle st3 (clock st3) _).
  destruct (rv rd =? 4) eqn:E3.
  2:{ right. run_simp. rewrite bail_exits, emitted_bail.
      split; [reflexivity |].
      exists [(Write (syncfd st) (le32 SYNC_RECVPID_PLS) 4, w1);
              (Write (syncfd st) (le32 (rv c)) 4, w2);
              (Read (syncfd st) 4, rd)].
      eexists. eexists. cbn [List.app]. split; [reflexivity |].
      split; [repeat constructor; cbv; tauto | apply fatal_line_only]. }
  run_simp.
  destruct (readint32 (rbytes rd) =? SYNC_RECVPID_ACK) eqn:E4; cbn [negb].
  2:{ right. run_simp. rewrite bail_exits, emitted_bail.
      split; [reflexivity |].
      exists [(Write (syncfd st) (le32 SYNC_RECVPID_PLS) 4, w1);
              (Write (syncfd st) (le32 (rv c)) 4, w2);
              (Read (syncfd st) 4, rd)].
      eexists. eexists. cbn [List.app]. split; [reflexivity |].
      split; [repeat constructor; cbv; tauto | apply fatal_line_only]. }
  run_simp. rewrite ?keeps_sys, ?Hfd.
  match goal with
  | |- context [oracle ?s (clock ?s) (Write _ (le32 SYNC_CHILD_READY) 4)]
    => set (st4 := s) end.
  set (w3 := oracle st4 (clock st4) _).
  destruct (rv w3 =? 4) eqn:E5; cbn [negb].
  2:{ right. run_simp. rewrite bail_exits, emitted_bail.
      split; [reflexivity |].
      exists [(Write (syncfd st) (le32 SYNC_RECVPID_PLS) 4, w1);
              (Write (syncfd st) (le32 (rv c)) 4, w2);
              (Read (syncfd st) 4, rd);
              (Write (syncfd st) (le32 SYNC_CHILD_READY) 4, w3)].
      eexists. eexists. cbn [List.app]. split; [reflexivity |].
      split; [repeat constructor; cbv; tauto | apply fatal_line_only]. }
  left. run_simp. split; [reflexivity |].
  exists w1, w2, rd, w3. cbn [List.app].
  apply Z.eqb_eq in E1, E2, E3, E4, E5. repeat split; assumption.
Qed.

(** ** The setgroups file (C9) *)

(** C9.  When the write of the policy to /proc/<pid>/setgroups fails
    ([write_file] returns a negative value) and [errno] is then ENOENT,
    [update_setgroups] returns, having done nothing but the failed write:
    nothing is logged, and the state is the one the write left.  With any
    other [errno] it ends in [exit(1)]. *)
Theorem update_setgroups_tolerates_enoent :
  forall (pid : Z) (setgroup : policy_t) (policy : bytes) (st : proc) (r : Z),
    let w := write_file policy (strlen policy) (proc_path pid "/setgroups") in
    setgroups_policy setgroup = Some policy ->
    result w st = Ret r ->
    r < 0 ->
    (errno (after w st) = ENOENT ->
     update_setgroups pid setgroup st = (Ret tt, emitted w st, after w st)) /\
    (errno (after w st) <> ENOENT ->
     result (update_setgroups pid setgroup) st = Stop (Exited 1)).
Proof.
  intros pid setgroup policy st r w Hp Hw Hr.
  apply Z.ltb_lt in Hr.
  split; intros He.
  - rewrite (run_eta (update_setgroups pid setgroup) st).
    unfold update_setgroups. rewrite Hp. fold w.
    run_simp. rewrite Hw, Hr.
    run_simp. rewrite He.
    change (negb (ENOENT =? ENOENT)) with false. cbv iota.
    run_simp. reflexivity.
  - unfold update_setgroups. rewrite Hp. fold w.
    run_simp. rewrite Hw, Hr.
    run_simp.
    apply Z.eqb_neq in He. rewrite He. apply bail_exits.
Qed.

Lemma update_setgroups_tolerates_enoent_witness :
  update_setgroups 7 SETGROUPS_DENY (start (world_open_fails ENOENT) 3)
  = (Ret tt,
     [(Open (proc_path 7 "/setgroups") O_RDWR, failure ENOENT)],
     mk_proc (world_open_fails ENOENT) 1 ENOENT 3 (-1)).
Proof.
  refine (proj1 (update_setgroups_tolerates_enoent
                   7 SETGROUPS_DENY (str "deny")
                   (start (world_open_fails ENOENT) 3) (-1) _ _ _) _).
  - reflexivity.
  - reflexivity.
  - lia.
  - reflexivity.
Defined.

(** ** The ID-map writer without a helper (C8) *)



(** The calls of that run. *)
Example id_map_writer_null_helper_log :
  map fst (emitted (update_uidmap 1 None 7 (Some (str "0 1000 1")) 8)
                   (start (world_write_fails EPERM 0 0) 3))
  = [Open (proc_path 7 "/uid_map") O_RDWR;
     Write 5 (str "0 1000 1") 8;
     Close 5;
     Dprintf 3 FATAL (str "try_mapping_tool") 266
             (str "nsenter: mapping tool not present") (Some EPERM)].
Proof. reflexivity. Qed.

(** ** The arguments of the helper (C4) *)

(** C4, at the map of the specification's scenario C.  The direct write
    fails with EPERM, the forked child calls [execve] with the helper
    path, the pid and the six tokens, and no NULL after them: the loop
    leaves at [next == NULL] without writing the terminator, so the slot
    after the last token is whatever the stack held. *)
Example try_mapping_tool_argv_without_null :
  let uidmap := str "0 100000 65536" ++ ["010"%char] ++ str "1 200000 1" in
  map fst (emitted (update_uidmap 1 (Some (str "/usr/bin/newuidmap")) 42
                                  (Some uidmap) 25)
                   (start (world_write_fails EPERM 0 0) 3))
  = [Open (proc_path 42 "/uid_map") O_RDWR;
     Write 5 uidmap 25;
     Close 5;
     Fork;
     Execve (str "/usr/bin/newuidmap")
            [Some (str "/usr/bin/newuidmap"); Some (str "42");
             Some (str "0"); Some (str "100000"); Some (str "65536");
             Some (str "1"); Some (str "200000"); Some (str "1")]
            [None]].
Proof. reflexivity. Qed.

(** The same map with the newline the orchestrator ends every line with:
    the loop reaches the NUL and writes the terminator. *)
Example try_mapping_tool_argv_with_null :
  let uidmap :=
    str "0 100000 65536" ++ ["010"%char] ++ str "1 200000 1"
    ++ ["010"%char] in
  map fst (emitted (update_uidmap 1 (Some (str "/usr/bin/newuidmap")) 42
                                  (Some uidmap) 26)
                   (start (world_write_fails EPERM 0 0) 3))
  = [Open (proc_path 42 "/uid_map") O_RDWR;
     Write 5 uidmap 26;
     Close 5;
     Fork;
     Execve (str "/usr/bin/newuidmap")
            [Some (str "/usr/bin/newuidmap"); Some (str "42");
             Some (str "0"); Some (str "100000"); Some (str "65536");
             Some (str "1"); Some (str "200000"); Some (str "1"); None]
            [None]].
Proof. reflexivity. Qed.

(** ** The cgroup namespace (C2) *)



(** Stage 2 when the orchestrator sends 0x80, and when it sends 0x81. *)
Example stage_init_handoff :
  map fst (emitted (stage_init
                      (frame_of (set_cloneflags CLONE_NEWCGROUP config0)))
                   (start (world_handoff 128) 8))
  = [Close 7; Close 4; Close 5; PrctlSetName (str "runc:[2:INIT]");
     Prctl PR_SET_DUMPABLE 1; Prctl PR_SET_DUMPABLE 0;
     Read 6 4; Setsid; Setuid 0; Setgid 0;
     Read 3 1; Unshare CLONE_NEWCGROUP;
     Write 6 (le32 SYNC_CHILD_READY) 4; Close 6; Free].
Proof. reflexivity. Qed.

Example stage_init_wrong_byte :
  map fst (emitted (stage_init
                      (frame_of (set_cloneflags CLONE_NEWCGROUP config0)))
                   (start (world_handoff 129) 8))
  = [Close 7; Close 4; Close 5; PrctlSetName (str "runc:[2:INIT]");
     Prctl PR_SET_DUMPABLE 1; Prctl PR_SET_DUMPABLE 0;
     Read 6 4; Setsid; Setuid 0; Setgid 0;
     Read 3 1;
     Dprintf 8 FATAL (str "nsexec") 1194
             (str "nsenter: received unknown synchronisation value")
             (Some 0)].
Proof. reflexivity. Qed.

(** ** The OOM score adjustment (C6) *)

(** C6 as stated fails.  A message with no attribute at all parses to the
    configuration whose [oom_score_adj] is NULL, and with it stage 2 opens
    and closes the dumpable window without writing anything. *)
Lemma oom_score_adj_absent_not_written :
  result (nl_parse 1 3 config0) (start (world_init_pipe 0 []) 8)
  = Ret (set_data (Some []) config0) /\
  map fst (emitted (stage_init (frame_of (set_data (Some []) config0)))
                   (start (world_ok SYNC_GRANDCHILD) 8))
  = [Close 7; Close 4; Close 5; PrctlSetName (str "runc:[2:INIT]");
     Prctl PR_SET_DUMPABLE 1; Prctl PR_SET_DUMPABLE 0;
     Read 6 4; Setsid; Setuid 0; Setgid 0;
     Write 6 (le32 SYNC_CHILD_READY) 4; Close 6; Free].
Proof. split; reflexivity. Qed.

(** C6, amended.  With the configuration it has parsed, the first thing
    [nsexec] does is to write "-999" to /proc/self/oom_score_adj, before
    it clones stage 1.  Stage 2 closes three descriptors, names itself and
    then sets PR_SET_DUMPABLE to 1.  When that succeeds and the configured
    [oom_score_adj] is present and not empty, the next thing it does is to
    write it to /proc/self/oom_score_adj, and when that write succeeds the
    next call sets PR_SET_DUMPABLE to 0; when the write fails stage 2 ends
    in [exit(1)].  When the configured value is NULL or empty, nothing is
    written: the call that sets PR_SET_DUMPABLE to 0 follows at once. *)
Theorem oom_score_adj_written_when_configured :
  forall (fuel : nat) (pn : Z) (cfg : nlconfig_t) (f : frame)
         (st0 st2 : proc),
    let path := str "/proc/self/oom_score_adj" in
    (exists rest,
        emitted (nsexec_parsed fuel pn cfg) st0
        = emitted (write_file (str "-999") 4 path) st0 ++ rest /\
        Forall (never KCloneParent)
               (emitted (write_file (str "-999") 4 path) st0)) /\
    (exists pre st' rest,
        emitted (stage_init f) st2
        = pre ++ emitted (init_oom_score_adj (config f)) st' ++ rest /\
        map fst pre
        = [Close (snd (sync_grandchild_pipe f));
           Close (fst (sync_child_pipe f));
           Close (snd (sync_child_pipe f));
           PrctlSetName (str "runc:[2:INIT]")]) /\
    (let d1 := oracle st2 (clock st2) (Prctl PR_SET_DUMPABLE 1) in
     let st3 := after (sys (Prctl PR_SET_DUMPABLE 1)) st2 in
     let len := oom_score_adj_len cfg in
     0 <= rv d1 ->
     match oom_score_adj cfg with
     | Some d =>
         let w := write_file d len path in
         0 < len ->
         (result w st3 = Ret 0 ->
          exists d0 rest,
            emitted (init_oom_score_adj cfg) st2
            = (Prctl PR_SET_DUMPABLE 1, d1) :: emitted w st3
              ++ (Prctl PR_SET_DUMPABLE 0, d0) :: rest) /\
         (result w st3 = Ret (-1) ->
          result (init_oom_score_adj cfg) st2 = Stop (Exited 1) /\
          emitted (init_oom_score_adj cfg) st2
          = (Prctl PR_SET_DUMPABLE 1, d1) :: emitted w st3
            ++ fatal_line (after w st3) (str "update_oom_score_adj") 353
                          (str "failed to update /proc/self/oom_score_adj"))
     | None => True
     end /\
     (oom_score_adj cfg = None \/ len <= 0 ->
      exists d0 rest,
        emitted (init_oom_score_adj cfg) st2
        = (Prctl PR_SET_DUMPABLE 1, d1) :: (Prctl PR_SET_DUMPABLE 0, d0)
          :: rest)).
Proof.
  intros fuel pn cfg f st0 st2 path.
  split; [| split].
  - unfold nsexec_parsed, nsexec_setup. rewrite !emitted_bind.
    destruct (update_oom_score_adj_present (str "-999") 4 st0 ltac:(lia))
      as (He & _ & _).
    fold path in He. rewrite He, <- !app_assoc.
    eexists. split; [reflexivity |].
    eapply emits_never; [| apply emits_write_file].
    simpl. intuition discriminate.
  - unfold stage_init. run_simp. simpl app.
    match goal with
    | |- context [?a :: ?b :: ?c :: ?d
                  :: emitted (init_oom_score_adj _) ?s ++ ?R] =>
        exists [a; b; c; d], s, R
    end.
    split; reflexivity.
  - intros d1 st3 len Hd1.
    assert (Hd : (rv d1 <? 0) = false) by (apply Z.ltb_ge; exact Hd1).
    assert (Hstart :
              emitted (init_oom_score_adj cfg) st2
              = (Prctl PR_SET_DUMPABLE 1, d1) ::
                emitted (update_oom_score_adj (oom_score_adj cfg) len) st3
                ++ match result (update_oom_score_adj (oom_score_adj cfg) len)
                                st3 with
                   | Ret _ =>
                       let st4 :=
                         after (update_oom_score_adj (oom_score_adj cfg) len)
                               st3 in
                       let d0 :=
                         oracle st4 (clock st4) (Prctl PR_SET_DUMPABLE 0) in
                       (Prctl PR_SET_DUMPABLE 0, d0) ::
                       (if rv d0 <? 0 then
                          fatal_line (after (sys (Prctl PR_SET_DUMPABLE 0)) st4)
                            (str "nsexec") 1162
                            (str "failed to set process as dumpable")
                        else [])
                   | Stop _ => []
                   end).
    { unfold init_oom_score_adj. run_simp. fold d1. rewrite Hd.
      run_simp. fold st3. fold len. simpl app. f_equal. f_equal.
      destruct (result _ st3); [| reflexivity]. cbv zeta. f_equal.
      destruct (rv (oracle _ _ (Prctl PR_SET_DUMPABLE 0)) <? 0);
        [apply emitted_bail | reflexivity]. }
    split.
    + destruct (oom_score_adj cfg) as [d |] eqn:Ed; [| exact I].
      intros w Hlen.
      destruct (update_oom_score_adj_present d len st3 Hlen)
        as (He & Hres & Haft).
      fold path in He, Hres, Haft. fold w in He, Hres, Haft.
      split.
      * intros Hw. rewrite Hstart, He, Hres, Hw.
        change (0 <? 0) with false. cbv iota zeta. run_simp.
        eexists. eexists. reflexivity.
      * intros Hw. split.
        -- unfold init_oom_score_adj. run_simp. fold d1. rewrite Hd.
           run_simp. fold st3. fold len. rewrite Ed, Hres, Hw.
           reflexivity.
        -- rewrite Hstart, He, Hres, Hw.
           change (-1 <? 0) with true. cbv iota. now run_simp.
    + intros Habs. rewrite Hstart.
      assert (Hu : emitted (update_oom_score_adj (oom_score_adj cfg) len) st3
                   = [] /\
                   result (update_oom_score_adj (oom_score_adj cfg) len) st3
                   = Ret tt).
      { unfold update_oom_score_adj.
        destruct (oom_score_adj cfg) as [d |]; [| split; reflexivity].
        destruct Habs as [Habs | Habs]; [discriminate Habs |].
        apply Z.leb_le in Habs. rewrite Habs. split; reflexivity. }
      destruct Hu as (Hu1 & Hu2). rewrite Hu1, Hu2. cbv zeta. simpl app.
      eexists. eexists. reflexivity.
Qed.

Lemma oom_score_adj_written_when_configured_witness :
  let cfg := set_oom_score_adj (Some (str "500")) 3 config0 in
  let st := start (world_ok SYNC_GRANDCHILD) 8 in
  exists d0 rest,
    emitted (init_oom_score_adj cfg) st
    = (Prctl PR_SET_DUMPABLE 1, answer 0)
      :: emitted (write_file (str "500") 3 (str "/proc/self/oom_score_adj"))
                 (after (sys (Prctl PR_SET_DUMPABLE 1)) st)
      ++ (Prctl PR_SET_DUMPABLE 0, d0) :: rest.
Proof.
  intros cfg st.
  destruct (oom_score_adj_written_when_configured
              1 3 cfg (frame_of cfg) st st) as (_ & _ & H).
  assert (H0 : 0 <= rv (oracle st (clock st) (Prctl PR_SET_DUMPABLE 1)))
    by (simpl; lia).
  destruct (H H0) as (H1 & _).
  assert (Hlen : 0 < oom_score_adj_len cfg) by (simpl; lia).
  exact (proj1 (H1 Hlen) eq_refl).
Defined.

(** Stage 2 with the configured value "500". *)
Example stage_init_writes_oom_score_adj :
  map fst (emitted (stage_init
                      (frame_of (set_oom_score_adj (Some (str "500")) 3
                                                   config0)))
                   (start (world_ok SYNC_GRANDCHILD) 8))
  = [Close 7; Close 4; Close 5; PrctlSetName (str "runc:[2:INIT]");
     Prctl PR_SET_DUMPABLE 1;
     Open (str "/proc/self/oom_score_adj") O_RDWR;
     Write 9 (str "500") 3; Close 9;
     Prctl PR_SET_DUMPABLE 0;
     Read 6 4; Setsid; Setuid 0; Setgid 0;
     Write 6 (le32 SYNC_CHILD_READY) 4; Close 6; Free].
Proof. reflexivity. Qed.

(** ** The rootfs (C3) *)


(** Stage 1 in scenario D: the parent mount cannot be made private before
    the IDs are mapped. *)
Example stage_child_deferred :
  map fst (emitted (stage_child (frame_of config_deferred))
                   (start (world_deferred 6 SYNC_USERMAP_ACK) 8))
  = [Close 5; PrctlSetName (str "runc:[1:CHILD]");
     Unshare CLONE_NEWUSER; Unshare CLONE_NEWNS;
     Mount (str "") (Some (str "/")) (str "") 0;
     Mount (str "") (Some (str "/var/lib/ctr/abc")) (str "") MS_PRIVATE;
     Write 4 (le32 SYNC_USERMAP_PLS) 4; Read 4 4; Setresuid 0 0 0;
     Mount (str "") (Some (str "/var/lib/ctr/abc")) (str "") MS_PRIVATE;
     bind_to_self;
     Mount (str ".") (Some (str ".")) (str "shiftfs") 0;
     Unshare 0;
     CloneParent JUMP_INIT
       (set_cloneflags 0
          (set_shiftfs_mounts (Some (str "/var/lib/ctr/abc/rootfs"))
                              config_deferred));
     Write 4 (le32 SYNC_RECVPID_PLS) 4; Write 4 (le32 100) 4; Read 4 4;
     Kill 100 SIGKILL;
     Dprintf 8 FATAL (str "nsexec") 1110
       (str "nsenter: failed to sync with parent: SYNC_RECVPID_ACK: got 65")
       (Some 13)].
Proof. reflexivity. Qed.


(** ** The namespaces to join (C5, C10) *)


Lemma three_namespaces_wf : Forall wf_ns_entry three_namespaces.
Proof.
  unfold three_namespaces, wf_ns_entry, plain.
  repeat constructor.
Qed.


(** The calls of [join_namespaces] on the list of three entries. *)
Example join_three_namespaces :
  map fst (emitted (join_namespaces (ns_list three_namespaces ++ [NUL]))
                   (start world_counting 8))
  = [Realloc 8200; Open (str "/proc/7/ns/user") O_RDONLY;
     Realloc 16400; Open (str "/proc/7/ns/time") O_RDONLY;
     Realloc 24600; Open (str "/proc/7/ns/mnt") O_RDONLY;
     Setns 11 CLONE_NEWUSER; Close 11;
     Setns 13 0; Close 13;
     Setns 15 CLONE_NEWNS; Close 15;
     Free].
Proof. reflexivity. Qed.

(** C10.  The flag of a kind that is none of the seven is 0.  An entry
    with such a kind, in a list as the orchestrator writes it, does not
    end [join_namespaces]: when no call fails it returns, having opened
    every listed path and then called, for each entry in turn, [setns]
    with the descriptor its [open] answered and the flag of its kind, which
    for that entry is 0. *)
Theorem unknown_namespace_kind_joined_with_flag_0 :
  forall (entries : list ns_entry) (tail : bytes) (st : proc)
         (i : nat) (e : ns_entry),
    entries <> [] ->
    Forall wf_ns_entry entries ->
    terminated tail ->
    nth_error entries i = Some e ->
    ~ In (fst e) known_kinds ->
    nsflag (fst e) = 0 /\
    (all_succeed (oracle st) ->
     exists nss ns,
       result (join_namespaces (ns_list entries ++ tail)) st = Ret tt /\
       map fst (emitted (join_namespaces (ns_list entries ++ tail)) st)
       = open_calls 0 entries ++ setns_calls nss ++ [Free] /\
       map ns_fd nss
       = opened (emitted (join_namespaces (ns_list entries ++ tail)) st) /\
       nth_error nss i = Some ns /\
       ns_ns ns = 0 /\
       In (Setns (ns_fd ns) 0)
          (map fst (emitted (join_namespaces (ns_list entries ++ tail)) st))).
Proof.
  intros entries tail st i e Hne Hwf Ht Hi Hk.
  assert (Hflag : nsflag (fst e) = 0).
  { apply nsflag_unknown.
    assert (He : wf_ns_entry e).
    { rewrite Forall_forall in Hwf. apply Hwf.
      eapply nth_error_In. exact Hi. }
    rewrite (cstr_plain_nil _ _ (proj1 He)). exact Hk. }
  split; [exact Hflag |].
  intros Hok.
  pose proof (join_namespaces_listed entries tail st Hne Hwf Ht) as E.
  unfold result, emitted. rewrite E.
  destruct (join_listed_ok entries st Hok) as (nss & Hr & Hc & Hns & Hfd).
  assert (Hnth : exists ns, nth_error nss i = Some ns /\ ns_ns ns = 0).
  { assert (Hm : nth_error (map ns_ns nss) i = Some (nsflag (fst e))).
    { rewrite Hns. rewrite nth_error_map, Hi. reflexivity. }
    rewrite nth_error_map in Hm.
    destruct (nth_error nss i) as [ns |]; [| discriminate Hm].
    exists ns. split; [reflexivity |].
    inversion Hm as [Hx]. rewrite Hx. exact Hflag. }
  destruct Hnth as (ns & Hn & H0).
  exists nss, ns.
  split; [exact Hr |]. split; [exact Hc |]. split; [exact Hfd |].
  split; [exact Hn |]. split; [exact H0 |].
  fold (emitted (join_listed entries) st). rewrite Hc.
  apply in_or_app. right. apply in_or_app. left.
  unfold setns_calls. apply in_flat_map. exists ns.
  split; [eapply nth_error_In; exact Hn |].
  left. rewrite H0. reflexivity.
Qed.

Lemma unknown_namespace_kind_joined_with_flag_0_witness :
  nsflag (str "time") = 0 /\
  exists nss ns,
    result (join_namespaces (ns_list three_namespaces ++ [NUL]))
           (start world_counting 8) = Ret tt /\
    map fst (emitted (join_namespaces (ns_list three_namespaces ++ [NUL]))
                     (start world_counting 8))
    = open_calls 0 three_namespaces ++ setns_calls nss ++ [Free] /\
    map ns_fd nss
    = opened (emitted (join_namespaces (ns_list three_namespaces ++ [NUL]))
                      (start world_counting 8)) /\
    nth_error nss 1 = Some ns /\
    ns_ns ns = 0 /\
    In (Setns (ns_fd ns) 0)
       (map fst (emitted (join_namespaces (ns_list three_namespaces ++ [NUL]))
                         (start world_counting 8))).
Proof.
  destruct (unknown_namespace_kind_joined_with_flag_0
              three_namespaces [NUL] (start world_counting 8) 1%nat
              (str "time", str "/proc/7/ns/time")) as [H0 H1].
  - discriminate.
  - exact three_namespaces_wf.
  - reflexivity.
  - reflexivity.
  - simpl. intros H.
    repeat (destruct H as [H | H]; [discriminate H |]). exact H.
  - split; [exact H0 |]. apply H1. exact all_succeed_world_counting.
Defined.

(** ** Unknown attribute types (C7) *)

(** C7 as stated fails.  A process that enters [nsexec] with
    _LIBCONTAINER_INITPIPE=3 and no _LIBCONTAINER_LOGPIPE keeps
    [logfd = -1].  When the init pipe then delivers a message whose only
    attribute has the unknown type 4242, [nl_parse] calls [bail], which
    exits with code 1, but [write_log_with_info] returns at its
    [logfd < 0] test: the process makes no call after the read of the
    payload, so no log line is written. *)
Lemma unknown_attribute_without_log_pipe :
  let attrs := [(4242, [])] in
  let st := start (world_no_log_pipe (nlattrs attrs)) (-1) in
  first_unknown attrs = Some 4242 /\
  result (nsexec 1) st = Stop (Exited 1) /\
  map fst (emitted (nsexec 1) st)
  = [Getenv (str "_LIBCONTAINER_LOGPIPE");
     Getenv (str "_LIBCONTAINER_INITPIPE");
     EnsureClonedBinary;
     Read 3 16; Malloc 4; Read 3 4].
Proof. repeat split; reflexivity. Qed.

(** With a log pipe attached the same message ends in the fatal line. *)
Example unknown_attribute_with_log_pipe :
  let attrs := [(4242, [])] in
  let st := start (world_init_pipe 0 (nlattrs attrs)) 8 in
  result (nl_parse 1 3 config0) st = Stop (Exited 1) /\
  map fst (emitted (nl_parse 1 3 config0) st)
  = [Read 3 16; Malloc 4; Read 3 4;
     Dprintf 8 FATAL (str "nl_parse") 541
             (str "nsenter: unknown netlink message type 4242") (Some 0)].
Proof. split; reflexivity. Qed.

(** C7, amended.  Let the init pipe deliver one INIT_MSG message whose
    payload is a sequence of well-formed attributes, at least one of them
    of a type outside the fixed set of the parser, and let the allocation
    for the payload succeed.  Then [nl_parse] never returns a
    configuration: it ends in [exit(1)] at the first such attribute, and
    the calls it makes are the read of the header, the allocation and the
    read of the payload, followed, when a log descriptor is attached
    ([logfd >= 0]), by one log line at level fatal that names the unknown
    type, and by nothing when no log descriptor is attached. *)
Theorem unknown_attribute_is_fatal :
  forall (fuel : nat) (fd : Z) (cfg : nlconfig_t)
         (attrs : list (Z * bytes)) (st : proc),
    Forall wf_attr attrs ->
    Exists (fun a => ~ In (fst a) attr_types) attrs ->
    (length attrs <= fuel)%nat ->
    delivers st fd (nlattrs attrs) ->
    exists t,
      first_unknown attrs = Some t /\
      result (nl_parse fuel fd cfg) st = Stop (Exited 1) /\
      let size := Z.of_nat (length (nlattrs attrs)) in
      let line :=
        Dprintf (logfd st) FATAL (str "nl_parse") 541
                (str "nsenter: unknown netlink message type " ++ fmt_d t)
                (Some (errno st)) in
      map fst (emitted (nl_parse fuel fd cfg) st)
      = [Read fd NLMSG_HDRLEN; Malloc size; Read fd size]
        ++ (if logfd st <? 0 then [] else [line]).
Proof.
  intros fuel fd cfg attrs st Hwf Hex Hfuel Hdel.
  destruct (first_unknown_split attrs Hex)
    as (pre & t & v & post & -> & Hk & Hu & Hf).
  exists t. split; [exact Hf |].
  destruct (run_ext _ _ st (nl_parse_delivered fuel fd cfg _ st Hdel))
    as [-> ->].
  destruct Hdel as (Hs & Hh & _ & Ha & Hd & _).
  set (payload := nlattrs (pre ++ (t, v) :: post)) in *.
  set (size := Z.of_nat (length payload)) in *.
  assert (Hrun : forall st',
             nl_parse_attrs fuel payload size 0
               (set_data (Some payload) cfg) st'
             = bail (str "nl_parse") 541
                 (str "unknown netlink message type " ++ fmt_d t) st').
  { intros st'. apply nl_parse_attrs_first_unknown; try assumption.
    - rewrite length_app in Hfuel. simpl in Hfuel. lia.
    - fold payload. fold size. unfold NLMSG_HDRLEN in Hs. lia. }
  split.
  - run_simp. unfold result at 1. rewrite Hrun. apply bail_exits.
  - intros size' line. subst size'. run_simp.
    unfold emitted at 1. rewrite Hrun.
    fold (emitted (@bail nlconfig_t (str "nl_parse") 541
            (str "unknown netlink message type " ++ fmt_d t))
            (after (sys (Read fd size))
               (after (sys (Malloc size))
                  (after (sys (Read fd NLMSG_HDRLEN)) st)))).
    rewrite emitted_bail. unfold fatal_line.
    change (logfd (after (sys (Read fd size))
                     (after (sys (Malloc size))
                        (after (sys (Read fd NLMSG_HDRLEN)) st))))
      with (logfd st).
    assert (He : errno (after (sys (Read fd size))
                          (after (sys (Malloc size))
                             (after (sys (Read fd NLMSG_HDRLEN)) st)))
                 = errno st).
    { unfold after, sys. cbn [snd errno oracle clock call_fails].
      rewrite Hd, Hh.
      destruct (Z.eqb_spec (rv (oracle st (S (clock st)) (Malloc size))) 0)
        as [E | _]; [contradiction |].
      replace (size <? 0) with false by (symmetry; apply Z.ltb_ge; lia).
      reflexivity. }
    rewrite He.
    destruct (logfd st <? 0); reflexivity.
Qed.

Lemma unknown_attribute_is_fatal_witness :
  let attrs := [(CLONE_FLAGS_ATTR, le32 CLONE_NEWUSER); (4242, str "x");
                (NS_PATHS_ATTR, [])] in
  let st := start (world_init_pipe 0 (nlattrs attrs)) 8 in
  exists t,
    first_unknown attrs = Some t /\
    result (nl_parse 3 3 config0) st = Stop (Exited 1) /\
    map fst (emitted (nl_parse 3 3 config0) st)
    = [Read 3 NLMSG_HDRLEN; Malloc 20; Read 3 20]
      ++ [Dprintf 8 FATAL (str "nl_parse") 541
                  (str "nsenter: unknown netlink message type " ++ fmt_d t)
                  (Some 0)].
Proof.
  intros attrs st.
  apply (unknown_attribute_is_fatal 3 3 config0 attrs st).
  - repeat constructor; cbn [fst snd]; unfold CLONE_FLAGS_ATTR, NS_PATHS_ATTR,
      NLA_HDRLEN; simpl; lia.
  - apply Exists_cons_tl, Exists_cons_hd. cbn [fst]. simpl. intros H.
    repeat (destruct H as [H | H]; [discriminate H |]). exact H.
  - simpl. lia.
  - repeat split; try reflexivity. discriminate.
Defined.

(** * Further properties of the bootstrap *)


(** ** The ID mappings (stage 0 and stage 1) *)

(** X1.  Let stage 0 receive on its end of the socket pair a prefix of
    what stage 1, run from the same frame, sends on the other end.  Then
    in the trace of stage 0 every write to a /proc/<pid>/setgroups comes
    before every write to a /proc/<pid>/gid_map, a write to a file being
    an [open] of it followed by a [write] to the descriptor. *)
Theorem setgroups_written_before_gid_map :
  forall (fuel : nat) (f : frame) (st0 st1 : proc),
    prefix_of (received (snd (sync_child_pipe f))
                 (emitted (stage_parent fuel f) st0))
              (sent (fst (sync_child_pipe f))
                 (emitted (stage_child f) st1)) ->
    forall (i j : nat) (p q : Z),
      writes_to (emitted (stage_parent fuel f) st0) i
                (proc_path p "/gid_map") ->
      writes_to (emitted (stage_parent fuel f) st0) j
                (proc_path q "/setgroups") ->
      (j < i)%nat.
Proof.
  intros fuel f st0 st1 Hp i j p q Hi Hj.
  destruct (stage_child_sends f st1) as [pid Hs].
  assert (Ho := stage_parent_ordered fuel f st0 _ pid
                  (prefix_of_trans _ _ _ Hp Hs)).
  destruct (writes_to_opens _ _ _ Hi) as (ei & Ei & Gi).
  destruct (writes_to_opens _ _ _ Hj) as (ej & Ej & Gj).
  apply (setgroups_then_gid_map_index _ Ho i j ei ej Ei);
    [now exists p | exact Ej | now exists q].
Qed.

Lemma setgroups_written_before_gid_map_witness :
  let tr0 := emitted (stage_parent 5 (frame_of config_rootless))
                     (start world_parent 8) in
  writes_to tr0 10 (proc_path 100 "/gid_map") /\
  writes_to tr0 4 (proc_path 100 "/setgroups") /\
  (4 < 10)%nat.
Proof.
  intros tr0.
  assert (Hi : writes_to tr0 10 (proc_path 100 "/gid_map")).
  { exists (answer 9), (str "0 1000 1"), 8, (answer 8).
    split; vm_compute; reflexivity. }
  assert (Hj : writes_to tr0 4 (proc_path 100 "/setgroups")).
  { exists (answer 9), (str "deny"), 4, (answer 4).
    split; vm_compute; reflexivity. }
  split; [exact Hi |]. split; [exact Hj |].
  apply (setgroups_written_before_gid_map
           5 (frame_of config_rootless) (start world_parent 8)
           (start world_child 8)) with (p := 100) (q := 100).
  - exists []. vm_compute. reflexivity.
  - exact Hi.
  - exact Hj.
Defined.

(** X2.  For a configuration with [is_rootless_euid] set and [is_setgroup]
    clear: when the first message stage 0 receives from stage 1 is
    SYNC_USERMAP_PLS, its next call opens /proc/<pid>/setgroups, <pid>
    being what [clone] answered for stage 1, and when the [open] succeeds
    the two calls after it write the four bytes of "deny" to the
    descriptor and close it. *)
Theorem deny_written_on_usermap_request :
  forall (fuel : nat) (f : frame) (st : proc),
    nonzero (is_rootless_euid (config f)) = true ->
    nonzero (is_setgroup (config f)) = false ->
    hd_error (received (snd (sync_child_pipe f))
                (emitted (stage_parent fuel f) st))
    = Some SYNC_USERMAP_PLS ->
    exists e1 c e3 r o rest,
      emitted (stage_parent fuel f) st
      = e1 :: (CloneParent JUMP_CHILD (config f), c) :: e3
        :: (Read (snd (sync_child_pipe f)) 4, r)
        :: (Open (proc_path (rv c) "/setgroups") O_RDWR, o) :: rest /\
      readint32 (rbytes r) = SYNC_USERMAP_PLS /\
      (0 <= rv o ->
       exists w cl rest',
         rest = (Write (rv o) (str "deny") 4, w)
                :: (Close (rv o), cl) :: rest').
Proof.
  intros fuel f st Hr Hs.
  unfold stage_parent.
  rewrite emitted_bind, result_sys, emitted_sys.
  set (st1 := after (sys (PrctlSetName (str "runc:[0:PARENT]"))) st).
  rewrite emitted_bind, result_clone_parent, emitted_clone_parent.
  set (c := oracle st1 (clock st1) (CloneParent JUMP_CHILD (config f))).
  set (st2 := after (clone_parent JUMP_CHILD f) st1).
  cbn [app].
  destruct (rv c <? 0).
  { rewrite emitted_bail, !received_cons. cbn [message_in fst app].
    rewrite received_never by (apply fatal_line_never; discriminate).
    discriminate. }
  run_simp. cbn [app].
  set (st3 := after (sys (Close (fst (sync_child_pipe f))))
                (after (set_syncfd (snd (sync_child_pipe f))) st2)).
  assert (Hfd : syncfd st3 = snd (sync_child_pipe f)) by reflexivity.
  rewrite !received_cons. cbn [message_in fst app].
  destruct fuel as [| fuel]; [discriminate |].
  cbn [parent_sync_child].
  rewrite emitted_bind, result_bind, result_read_sync, emitted_read_sync, Hfd.
  set (r := oracle st3 (clock st3) (Read (snd (sync_child_pipe f)) 4)).
  cbv zeta. cbn [app]. rewrite received_cons, message_in_read.
  destruct (rv r =? 4).
  2:{ cbn [app]. rewrite bail_exits, app_nil_r, emitted_bail.
      rewrite received_never by (apply fatal_line_never; discriminate).
      discriminate. }
  cbn [app hd_error]. intros Hv. injection Hv as Hv. rewrite Hv.
  change (SYNC_USERMAP_PLS =? SYNC_USERMAP_PLS) with true. cbv iota.
  rewrite emitted_bind.
  destruct (parent_usermap_deny fuel (config f) (rv c) (after read_sync st3)
              Hr Hs) as (o & rest & -> & Hw).
  cbn [app]. do 6 eexists. split; [reflexivity |]. split; [exact Hv |].
  intros Ho. destruct (Hw Ho) as (w & cl & rest' & ->).
  cbn [app]. do 3 eexists. reflexivity.
Qed.

Lemma deny_written_on_usermap_request_witness :
  exists e1 c e3 r o rest,
    emitted (stage_parent 5 (frame_of config_rootless)) (start world_parent 8)
    = e1 :: (CloneParent JUMP_CHILD config_rootless, c) :: e3
      :: (Read 5 4, r)
      :: (Open (proc_path (rv c) "/setgroups") O_RDWR, o) :: rest /\
    readint32 (rbytes r) = SYNC_USERMAP_PLS /\
    (0 <= rv o ->
     exists w cl rest',
       rest = (Write (rv o) (str "deny") 4, w) :: (Close (rv o), cl) :: rest').
Proof.
  apply (deny_written_on_usermap_request
           5 (frame_of config_rootless) (start world_parent 8)).
  - reflexivity.
  - reflexivity.
  - vm_compute. reflexivity.
Defined.

(** X3.  Whatever stage 1 meets, the four-byte messages it sends to stage
    0 are a prefix of: SYNC_USERMAP_PLS when the clone flags hold
    CLONE_NEWUSER, then SYNC_RECVPID_PLS, a pid, and SYNC_CHILD_READY. *)
Theorem stage_child_follows_protocol :
  forall (f : frame) (st : proc),
    exists pid,
      prefix_of (sent (fst (sync_child_pipe f)) (emitted (stage_child f) st))
        (stage1_messages
           (nonzero (Z.land (cloneflags (config f)) CLONE_NEWUSER)) pid).
Proof. exact stage_child_sends. Qed.

(** ** What stage 0 touches *)

(** X4.  Unless the container is rootless and setgroups is not asked for
    ([is_rootless_euid] set and [is_setgroup] clear), stage 0 opens no
    /proc/<pid>/setgroups at all: the policy is never written, and
    "allow" is written for no configuration. *)
Theorem setgroups_untouched_unless_rootless :
  forall (fuel : nat) (f : frame) (st : proc),
    nonzero (is_rootless_euid (config f))
    && negb (nonzero (is_setgroup (config f))) = false ->
    Forall (fun e => ~ opens_setgroups e) (emitted (stage_parent fuel f) st).
Proof.
  intros fuel f st H.
  apply (emits_emitted (fun e => ~ opens_setgroups e)).
  unfold stage_parent.
  apply emits_bind; [no_setgroups |]. intros _.
  apply emits_bind.
  { eapply emits_no_setgroups_only; [| apply emits_clone_parent].
    not_in_kinds. }
  intros child. destruct (child <? 0); [no_setgroups |].
  apply emits_bind; [apply emits_set_syncfd |]. intros _.
  apply emits_bind; [no_setgroups |]. intros _.
  apply emits_bind; [now apply emits_parent_sync_child_no_setgroups |].
  intros c. no_setgroups.
Qed.

Lemma setgroups_untouched_unless_rootless_witness :
  Forall (fun e => ~ opens_setgroups e)
         (emitted (stage_parent 3 (frame_of (set_is_rootless_euid 0
                                               config_rootless)))
                  (start (world_ok SYNC_USERMAP_PLS) 8)).
Proof.
  apply (setgroups_untouched_unless_rootless
           3 (frame_of (set_is_rootless_euid 0 config_rootless))
           (start (world_ok SYNC_USERMAP_PLS) 8)).
  reflexivity.
Defined.


(** X5.  Stage 0 makes no call but [prctl(PR_SET_NAME)], [clone],
    [read], [open], [write], [close], [fork], [execve], [waitpid], [kill]
    and [dprintf]; it never unshares or joins a namespace, mounts or
    changes its IDs.  Every file it opens is a setgroups, uid_map or
    gid_map of /proc/<pid>, opened with O_RDWR. *)
Theorem stage_parent_footprint :
  forall (fuel : nat) (f : frame) (st : proc),
    Forall (fun e =>
              only [KPrctlSetName; KCloneParent; KRead; KOpen; KWrite;
                    KClose; KFork; KExecve; KWaitpid; KKill; KDprintfPid;
                    KDprintf] e /\
              opens_id_files_only e)
           (emitted (stage_parent fuel f) st).
Proof.
  intros fuel f st. apply Forall_and.
  - apply (emits_emitted _ _ st (emits_stage_parent fuel f)).
  - apply (emits_emitted opens_id_files_only).
    unfold stage_parent.
    apply emits_bind; [id_files |]. intros _.
    apply emits_bind.
    { eapply emits_id_files_only; [| apply emits_clone_parent].
      not_in_kinds. }
    intros child. destruct (child <? 0); [id_files |].
    apply emits_bind; [apply emits_set_syncfd |]. intros _.
    apply emits_bind; [id_files |]. intros _.
    apply emits_bind; [apply emits_parent_sync_child_id_files |].
    intros c. id_files.
Qed.

(** ** The configuration parser *)

(** X6.  Let the init pipe deliver one INIT_MSG message whose payload is
    a sequence of well-formed attributes.  Then [nl_parse] makes three
    calls (it reads the header, allocates, reads the payload) and walks
    the buffer attribute by attribute: when every type is known it
    returns the configuration that the cases of its [switch] build from
    the attributes in their order, [data] being the payload; otherwise it
    exits with code 1. *)
Theorem nl_parse_follows_attributes :
  forall (fuel : nat) (fd : Z) (cfg : nlconfig_t)
         (attrs : list (Z * bytes)) (st : proc),
    Forall wf_attr attrs ->
    (length attrs < fuel)%nat ->
    delivers st fd (nlattrs attrs) ->
    result (nl_parse fuel fd cfg) st
    = match parsed attrs (set_data (Some (nlattrs attrs)) cfg) with
      | Some c => Ret c
      | None => Stop (Exited 1)
      end /\
    (parsed attrs (set_data (Some (nlattrs attrs)) cfg) <> None ->
     map fst (emitted (nl_parse fuel fd cfg) st)
     = [Read fd NLMSG_HDRLEN;
        Malloc (Z.of_nat (length (nlattrs attrs)));
        Read fd (Z.of_nat (length (nlattrs attrs)))]).
Proof. exact nl_parse_parsed. Qed.

Lemma nl_parse_follows_attributes_witness :
  let attrs := [(CLONE_FLAGS_ATTR, le32 CLONE_NEWUSER);
                (UIDMAP_ATTR, str "0 1000 1" ++ [NUL]);
                (CLONE_FLAGS_ATTR, le32 CLONE_NEWNS)] in
  let st := start (world_init_pipe 0 (nlattrs attrs)) 8 in
  exists c,
    result (nl_parse 4 3 config0) st = Ret c /\
    cloneflags c = CLONE_NEWNS /\
    option_map cstr (uidmap c) = Some (str "0 1000 1") /\
    uidmap_len c = 9.
Proof.
  intros attrs st.
  destruct (nl_parse_follows_attributes 4 3 config0 attrs st) as [H _].
  - repeat constructor; cbn [fst snd]; vm_compute; congruence.
  - simpl. lia.
  - repeat split; try reflexivity. discriminate.
  - eexists. split; [exact H |]. vm_compute. repeat split; reflexivity.
Defined.

(** X7.  In a well-formed message of known attributes, let an attribute
    be the last one of its type.  Then [nl_parse] returns a configuration
    whose member for that type holds what this attribute carries: the 32
    or 8 bits at the start of its payload, or a pointer to its payload in
    the buffer with the length of the payload; attributes of other types
    behind it leave the member alone.  [data] is the buffer. *)
Theorem nl_parse_last_attribute_wins :
  forall (fuel : nat) (fd : Z) (cfg : nlconfig_t)
         (pre : list (Z * bytes)) (t : Z) (v : bytes)
         (post : list (Z * bytes)) (st : proc),
    let attrs := pre ++ (t, v) :: post in
    Forall wf_attr attrs ->
    Forall (fun a => In (fst a) attr_types) attrs ->
    Forall (fun a => fst a <> t) post ->
    (length attrs < fuel)%nat ->
    delivers st fd (nlattrs attrs) ->
    exists c,
      result (nl_parse fuel fd cfg) st = Ret c /\
      data c = Some (nlattrs attrs) /\
      field_of t c
      = stored t
          (v ++ repeat NUL (Z.to_nat ((- Z.of_nat (length v)) mod 4))
             ++ nlattrs post)
          (Z.of_nat (length v)).
Proof.
  intros fuel fd cfg pre t v post st attrs Hwf Hk Hn Hfuel Hdel.
  destruct (nl_parse_parsed fuel fd cfg attrs st Hwf Hfuel Hdel) as [Hr _].
  destruct (parsed_known attrs (set_data (Some (nlattrs attrs)) cfg) Hk)
    as [c Hc].
  rewrite Hc in Hr. exists c. split; [exact Hr |]. split.
  - rewrite (parsed_data _ _ _ Hc). apply data_set_data.
  - exact (parsed_last_wins t v post pre _ _ Hn Hc).
Qed.

Lemma nl_parse_last_attribute_wins_witness :
  let pre := [(CLONE_FLAGS_ATTR, le32 CLONE_NEWUSER);
              (UIDMAP_ATTR, str "0 1000 1" ++ [NUL])] in
  let post := [(SETGROUP_ATTR, [ascii_of_N 1])] in
  let attrs := pre ++ (CLONE_FLAGS_ATTR, le32 CLONE_NEWNS) :: post in
  let st := start (world_init_pipe 0 (nlattrs attrs)) 8 in
  exists c,
    result (nl_parse 5 3 config0) st = Ret c /\
    data c = Some (nlattrs attrs) /\
    field_of CLONE_FLAGS_ATTR c = Some (Word CLONE_NEWNS).
Proof.
  intros pre post attrs st.
  apply (nl_parse_last_attribute_wins
           5 3 config0 pre CLONE_FLAGS_ATTR (le32 CLONE_NEWNS) post st).
  - repeat constructor; cbn [fst snd]; vm_compute; congruence.
  - repeat constructor; cbn [fst]; vm_compute; tauto.
  - repeat constructor. cbn [fst]. discriminate.
  - simpl. lia.
  - repeat split; try reflexivity. discriminate.
Defined.

(** X8.  Let the payload of the message hold, behind any well-formed
    attributes of known types, an attribute of a known type whose
    [nla_len] is 0.  Then the loop of [nl_parse] does not end: the cursor
    advances by the header and [NLA_ALIGN] of the wrapped payload length
    takes it back, so whatever the number of turns allowed the parser has
    neither returned nor stopped by itself, and it makes no call after
    the read of the payload. *)
Theorem nl_parse_zero_length_attribute_stalls :
  forall (fuel : nat) (fd : Z) (cfg : nlconfig_t) (pre : list (Z * bytes))
         (t : Z) (rest : bytes) (st : proc),
    let payload := nlattrs pre ++ le16 0 ++ le16 t ++ rest in
    Forall wf_attr pre ->
    Forall (fun a => In (fst a) attr_types) pre ->
    In t attr_types ->
    delivers st fd payload ->
    result (nl_parse fuel fd cfg) st = Stop Timeout /\
    map fst (emitted (nl_parse fuel fd cfg) st)
    = [Read fd NLMSG_HDRLEN; Malloc (Z.of_nat (length payload));
       Read fd (Z.of_nat (length payload))].
Proof.
  intros fuel fd cfg pre t rest st payload Hwf Hk Ht Hdel.
  destruct (run_ext _ _ st (nl_parse_delivered fuel fd cfg _ st Hdel))
    as [-> ->].
  destruct Hdel as (Hs & _).
  assert (Hrun : forall c st',
             nl_parse_attrs fuel payload (Z.of_nat (length payload)) 0 c st'
             = halt Timeout st').
  { intros c st'.
    apply (nl_parse_attrs_stall_after t rest pre [] fuel c st' Hwf Hk Ht).
    cbn [app]. fold payload. unfold NLMSG_HDRLEN in Hs. lia. }
  split.
  - run_simp. unfold result at 1. rewrite Hrun. reflexivity.
  - run_simp. unfold emitted at 1. rewrite Hrun. reflexivity.
Qed.

Lemma nl_parse_zero_length_attribute_stalls_witness :
  let payload := nlattrs [(UIDMAP_ATTR, str "0 1000 1" ++ [NUL])]
                 ++ le16 0 ++ le16 CLONE_FLAGS_ATTR ++ [] in
  result (nl_parse 1000 3 config0) (start (world_init_pipe 0 payload) 8)
  = Stop Timeout /\
  map fst (emitted (nl_parse 1000 3 config0)
                   (start (world_init_pipe 0 payload) 8))
  = [Read 3 NLMSG_HDRLEN; Malloc 20; Read 3 20].
Proof.
  intros payload.
  apply (nl_parse_zero_length_attribute_stalls
           1000 3 config0 [(UIDMAP_ATTR, str "0 1000 1" ++ [NUL])]
           CLONE_FLAGS_ATTR [] (start (world_init_pipe 0 payload) 8)).
  - repeat constructor; cbn [fst snd]; vm_compute; congruence.
  - repeat constructor; cbn [fst]; vm_compute; tauto.
  - vm_compute. tauto.
  - repeat split; try reflexivity. discriminate.
Defined.

(** X9.  [nl_parse] returns a configuration only when the read of the
    header delivered NLMSG_HDRLEN bytes, the type in the header is
    INIT_MSG, the allocation of the payload succeeded and the read of the
    payload delivered as many bytes as the header announces; [data] of
    the configuration is then that payload.  In every other case the
    parser has stopped. *)
Theorem nl_parse_accepts_only_init_msg :
  forall (fuel : nat) (fd : Z) (cfg c : nlconfig_t) (st : proc),
    result (nl_parse fuel fd cfg) st = Ret c ->
    let h := oracle st (clock st) (Read fd NLMSG_HDRLEN) in
    let size := u32 (readint32 (rbytes h) - NLMSG_HDRLEN) in
    let a := oracle st (S (clock st)) (Malloc size) in
    let d := oracle st (S (S (clock st))) (Read fd size) in
    u64 (rv h) = NLMSG_HDRLEN /\
    readint16 (skipn 4 (rbytes h)) = INIT_MSG /\
    rv a <> 0 /\
    u64 (rv d) = size /\
    data c = Some (firstn (Z.to_nat size) (rbytes d)).
Proof.
  intros fuel fd cfg c st. unfold nl_parse.
  rewrite result_bind, result_sys.
  set (h := oracle st (clock st) (Read fd NLMSG_HDRLEN)).
  destruct (Z.eqb_spec (u64 (rv h)) NLMSG_HDRLEN) as [Eh | _];
    cbn [negb]; cbv iota; [| rewrite bail_exits; discriminate].
  destruct (readint16 (skipn 4 (rbytes h)) =? NLMSG_ERROR);
    [rewrite bail_exits; discriminate |].
  destruct (Z.eqb_spec (readint16 (skipn 4 (rbytes h))) INIT_MSG)
    as [Et | _]; cbn [negb]; cbv iota; [| rewrite bail_exits; discriminate].
  set (size := u32 (readint32 (rbytes h) - NLMSG_HDRLEN)).
  rewrite result_bind, result_sys.
  change (clock (after (sys (Read fd NLMSG_HDRLEN)) st)) with (S (clock st)).
  rewrite oracle_sys.
  set (a := oracle st (S (clock st)) (Malloc size)).
  destruct (Z.eqb_spec (rv a) 0) as [_ | Ea];
    [rewrite bail_exits; discriminate |].
  rewrite result_bind, result_sys.
  change (clock (after (sys (Malloc size))
                   (after (sys (Read fd NLMSG_HDRLEN)) st)))
    with (S (S (clock st))).
  rewrite !oracle_sys.
  set (d := oracle st (S (S (clock st))) (Read fd size)).
  destruct (Z.eqb_spec (u64 (rv d)) size) as [Ed | _];
    cbn [negb]; cbv iota; [| rewrite bail_exits; discriminate].
  intros H. apply nl_parse_attrs_data in H. rewrite data_set_data in H.
  cbv zeta. auto.
Qed.

Lemma nl_parse_accepts_only_init_msg_witness :
  let st := start (world_init_pipe 0 []) 8 in
  let h := oracle st (clock st) (Read 3 NLMSG_HDRLEN) in
  u64 (rv h) = NLMSG_HDRLEN /\
  readint16 (skipn 4 (rbytes h)) = INIT_MSG /\
  data (set_data (Some []) config0) = Some [].
Proof.
  intros st h.
  destruct (nl_parse_accepts_only_init_msg
              1 3 config0 (set_data (Some []) config0) st)
    as (H1 & H2 & _ & _ & H5).
  - reflexivity.
  - split; [exact H1 |]. split; [exact H2 |]. exact H5.
Defined.

(** ** The writers of the ID maps *)

(** X10.  The parent of the mapping helper calls [waitpid] again as long
    as the call is interrupted (EINTR) or the status tells neither an
    exit nor a signal, and it returns WEXITSTATUS of the first status
    that does; it makes no other call. *)
Theorem wait_child_retries_until_status :
  forall (k fuel : nat) (child : Z) (st : proc),
    (forall i, (i < k)%nat ->
               waits_again (oracle st (clock st + i)%nat (Waitpid child))) ->
    let r := oracle st (clock st + k)%nat (Waitpid child) in
    0 <= rv r ->
    WIFEXITED (hd 0 (rvals r)) || WIFSIGNALED (hd 0 (rvals r)) = true ->
    (k < fuel)%nat ->
    result (wait_child fuel child) st = Ret (WEXITSTATUS (hd 0 (rvals r))) /\
    map fst (emitted (wait_child fuel child) st)
    = repeat (Waitpid child) (S k).
Proof. exact wait_child_retries. Qed.

Lemma wait_child_retries_until_status_witness :
  result (wait_child 3 77) (start (world_interrupted 768) 8) = Ret 3 /\
  map fst (emitted (wait_child 3 77) (start (world_interrupted 768) 8))
  = [Waitpid 77; Waitpid 77; Waitpid 77].
Proof.
  apply (wait_child_retries_until_status
           2 3 77 (start (world_interrupted 768) 8)).
  - intros i Hi. left.
    destruct i as [| [| i]]; [split; reflexivity | split; reflexivity | lia].
  - vm_compute. discriminate.
  - reflexivity.
  - lia.
Defined.

(** X11.  When the direct write of the uid map is refused with EPERM,
    [update_uidmap] forks the helper; when [waitpid] then reports that
    the helper was killed by a signal (a status below 256 whose low seven
    bits are the signal), WEXITSTATUS of that status is 0 and
    [update_uidmap] returns as after a helper that succeeded: no fatal
    line, no exit. *)
Theorem update_uidmap_accepts_signalled_helper :
  forall (fuel : nat) (tool : bytes) (pid : Z) (idmap : bytes) (map_len : Z)
         (st : proc),
    let o := oracle st (clock st) (Open (proc_path pid "/uid_map") O_RDWR) in
    let c := oracle st (S (clock st)) Fork in
    let w := oracle st (S (S (clock st))) (Waitpid (rv c)) in
    0 < map_len ->
    rv o < 0 -> rerrno o = EPERM ->
    0 < rv c -> 0 <= rv w ->
    WIFSIGNALED (hd 0 (rvals w)) = true -> 0 <= hd 0 (rvals w) < 256 ->
    result (update_uidmap (S fuel) (Some tool) pid (Some idmap) map_len) st
    = Ret tt /\
    map fst
      (emitted (update_uidmap (S fuel) (Some tool) pid (Some idmap) map_len) st)
    = [Open (proc_path pid "/uid_map") O_RDWR; Fork; Waitpid (rv c)].
Proof.
  intros fuel tool pid idmap map_len st o c w Hlen Ho He Hc Hw Hsig Hlow.
  unfold update_uidmap.
  replace (map_len <=? 0) with false by (symmetry; apply Z.leb_gt; exact Hlen).
  assert (Hwf := write_file_open_fails idmap map_len
                   (proc_path pid "/uid_map") st Ho).
  set (st1 := after (sys (Open (proc_path pid "/uid_map") O_RDWR)) st) in *.
  assert (Ee : errno st1 = EPERM).
  { subst st1. rewrite errno_after_failure; [exact He |].
    cbn [call_fails]. apply Z.ltb_lt. exact Ho. }
  destruct (try_mapping_tool_signalled fuel tool pid idmap map_len st1)
    as [Hr Hev]; try assumption.
  assert (Hwr : result (write_file idmap map_len (proc_path pid "/uid_map")) st
                = Ret (-1)) by (unfold result; now rewrite Hwf).
  assert (Hwe : emitted (write_file idmap map_len (proc_path pid "/uid_map"))
                  st
                = [(Open (proc_path pid "/uid_map") O_RDWR, o)])
    by (unfold emitted; now rewrite Hwf).
  assert (Hwa : after (write_file idmap map_len (proc_path pid "/uid_map")) st
                = st1) by (unfold after; now rewrite Hwf).
  rewrite result_bind, emitted_bind, Hwr, Hwe, Hwa.
  change (-1 <? 0) with true. cbv iota.
  rewrite !result_bind, !emitted_bind, result_get_errno, emitted_get_errno,
    after_get_errno, Ee.
  change (negb (EPERM =? EPERM)) with false. cbv iota.
  rewrite !result_bind, !emitted_bind, Hr.
  change (negb (0 =? 0)) with false. cbv iota.
  split; [reflexivity |].
  rewrite emitted_ret, !app_nil_r. cbn [List.app]. rewrite map_cons, Hev.
  reflexivity.
Qed.

Lemma update_uidmap_accepts_signalled_helper_witness :
  result (update_uidmap 1 (Some (str "/usr/bin/newuidmap")) 42
            (Some (str "0 1000 1")) 8) (start world_helper_killed 8)
  = Ret tt /\
  map fst (emitted (update_uidmap 1 (Some (str "/usr/bin/newuidmap")) 42
                      (Some (str "0 1000 1")) 8)
             (start world_helper_killed 8))
  = [Open (proc_path 42 "/uid_map") O_RDWR; Fork; Waitpid 77].
Proof.
  apply (update_uidmap_accepts_signalled_helper
           0 (str "/usr/bin/newuidmap") 42 (str "0 1000 1") 8
           (start world_helper_killed 8)).
  - lia.
  - vm_compute. reflexivity.
  - reflexivity.
  - vm_compute. reflexivity.
  - vm_compute. discriminate.
  - reflexivity.
  - vm_compute. split; [discriminate | reflexivity].
Defined.

(** X12.  Whatever the map, the helper is executed with the path that
    was configured, an empty environment and an [argv] that fits the
    array of MAX_ARGV pointers: its first two entries are the path and
    the pid in decimal, the tokens of the map follow, and only its last
    entry can be NULL. *)
Theorem try_mapping_tool_argv_fits :
  forall (fuel : nat) (tool : bytes) (pid : Z) (idmap : bytes)
         (map_len : Z) (st : proc) (path : bytes)
         (argv envp : list (option bytes)) (r : response),
    In (Execve path argv envp, r)
       (emitted (try_mapping_tool fuel (Some tool) pid idmap map_len) st) ->
    path = cstr tool /\ envp = [None] /\
    (length argv <= MAX_ARGV)%nat /\
    (exists more, argv = Some (cstr tool) :: Some (fmt_d pid) :: more) /\
    Forall (fun a => a <> None) (removelast argv).
Proof.
  intros fuel tool pid idmap map_len st path argv envp r.
  unfold try_mapping_tool.
  rewrite emitted_bind, result_sys, emitted_sys.
  set (c := oracle st (clock st) Fork).
  intros H. apply in_app_or in H. destruct H as [H | H].
  { destruct H as [H | []]. discriminate H. }
  destruct (rv c <? 0).
  { rewrite emitted_bail in H.
    assert (Hn := fatal_line_never KExecve (after (sys Fork) st)
                    (str "try_mapping_tool") 270 (str "failed to fork")
                    ltac:(discriminate)).
    rewrite Forall_forall in Hn. destruct (Hn _ H). reflexivity. }
  destruct (rv c =? 0).
  - unfold execve in H. revert H.
    remember (fill_argv (MAX_ARGV - 2) idmap
                [Some (cstr tool); Some (fmt_d pid)]) as argv0 eqn:Ea.
    run_simp. cbn [List.app].
    intros [H | H].
    + injection H as <- <- <- _. split; [reflexivity |].
      split; [reflexivity |]. rewrite Ea. split; [| split].
      * eapply Nat.le_trans; [apply fill_argv_length |].
        unfold MAX_ARGV. cbn [length]. lia.
      * destruct (fill_argv_prefix (MAX_ARGV - 2) idmap
                    [Some (cstr tool); Some (fmt_d pid)]) as [more ->].
        now exists more.
      * apply fill_argv_tokens. repeat constructor; discriminate.
    + exfalso. revert H.
      match goal with
      | |- In _ ?l -> _ => assert (Hn : Forall (never KExecve) l)
      end.
      { destruct (rv _ <? 0); run_simp; [| constructor].
        rewrite emitted_bail. apply fatal_line_never. discriminate. }
      intros H. rewrite Forall_forall in Hn. destruct (Hn _ H). reflexivity.
  - exfalso.
    assert (Hn := emits_emitted (never KExecve) _ (after (sys Fork) st)
                    (emits_never [KWaitpid; KDprintf] KExecve _
                       ltac:(not_in_kinds)
                       (emits_wait_child fuel (rv c)))).
    rewrite Forall_forall in Hn. destruct (Hn _ H). reflexivity.
Qed.

Lemma try_mapping_tool_argv_fits_witness :
  let argv := [Some (str "/usr/bin/newuidmap"); Some (str "42");
               Some (str "0"); Some (str "1000"); Some (str "1"); None] in
  (length argv <= MAX_ARGV)%nat /\
  Forall (fun a => a <> None) (removelast argv).
Proof.
  intros argv.
  destruct (try_mapping_tool_argv_fits
              1 (str "/usr/bin/newuidmap") 42
              (str "0 1000 1" ++ ["010"%char]) 9 (start (world_ok 0) 8)
              (str "/usr/bin/newuidmap") argv [None] (answer 0))
    as (_ & _ & Hl & _ & Hn).
  - vm_compute. right. left. reflexivity.
  - split; [exact Hl | exact Hn].
Defined.

(** X13.  [update_uidmap] and [update_gidmap] fork the helper only after
    their own write of the map has failed and [errno] is EPERM: a write
    that succeeds, or one that fails with another [errno], is never
    followed by a [fork]. *)
Theorem id_map_helper_only_after_eperm :
  forall (fuel : nat) (path : option bytes) (pid : Z) (idmap : bytes)
         (map_len : Z) (st : proc),
    (forks (emitted (update_uidmap fuel path pid (Some idmap) map_len) st) ->
     let w := write_file idmap map_len (proc_path pid "/uid_map") in
     result w st = Ret (-1) /\ errno (after w st) = EPERM) /\
    (forks (emitted (update_gidmap fuel path pid (Some idmap) map_len) st) ->
     let w := write_file idmap map_len (proc_path pid "/gid_map") in
     result w st = Ret (-1) /\ errno (after w st) = EPERM).
Proof.
  intros fuel path pid idmap map_len st. split.
  - unfold update_uidmap.
    destruct (map_len <=? 0); [intros [r []] |].
    apply id_map_fallback.
    + apply emits_write_file.
    + apply result_write_file.
    + apply emits_bail_log.
  - unfold update_gidmap.
    destruct (map_len <=? 0); [intros [r []] |].
    apply id_map_fallback.
    + apply emits_write_file.
    + apply result_write_file.
    + apply emits_bail_log.
Qed.

Lemma id_map_helper_only_after_eperm_witness :
  let w := write_file (str "0 1000 1") 8 (proc_path 42 "/uid_map") in
  result w (start world_helper_killed 8) = Ret (-1) /\
  errno (after w (start world_helper_killed 8)) = EPERM.
Proof.
  apply (proj1 (id_map_helper_only_after_eperm
                  1 (Some (str "/usr/bin/newuidmap")) 42 (str "0 1000 1") 8
                  (start world_helper_killed 8))).
  exists (answer 77). vm_compute. right. left. reflexivity.
Defined.

(** X14.  [update_setgroups] looks at [errno] whenever [write_file] has
    failed, also when no call has failed: after a [write] that took fewer
    bytes than the policy has, [errno] is what an earlier call has left.
    When that is ENOENT the short write is passed over in silence, and
    with any other value the process exits with code 1. *)
Theorem update_setgroups_short_write_reads_stale_errno :
  forall (pid : Z) (st : proc),
    let path := proc_path pid "/setgroups" in
    let o := oracle st (clock st) (Open path O_RDWR) in
    let w := oracle st (S (clock st)) (Write (rv o) (str "deny") 4) in
    let c := oracle st (S (S (clock st))) (Close (rv o)) in
    0 <= rv o -> 0 <= rv w < 4 -> 0 <= rv c ->
    result (update_setgroups pid SETGROUPS_DENY) st
    = if errno st =? ENOENT then Ret tt else Stop (Exited 1).
Proof.
  intros pid st path o w c Ho Hw Hc.
  destruct (write_file_short (str "deny") 4 path st Ho Hw ltac:(lia) Hc)
    as (Hr & He & _).
  unfold update_setgroups. cbn [setgroups_policy].
  change (strlen (str "deny")) with 4. fold path.
  rewrite result_bind, Hr.
  change (-1 <? 0) with true. cbv iota.
  rewrite result_bind, result_get_errno, after_get_errno, He.
  destruct (errno st =? ENOENT); cbn [negb]; cbv iota;
    [reflexivity | apply bail_exits].
Qed.

Lemma update_setgroups_short_write_reads_stale_errno_witness :
  result (update_setgroups 42 SETGROUPS_DENY)
         (mk_proc world_short_write 0 ENOENT 8 (-1)) = Ret tt.
Proof.
  apply (update_setgroups_short_write_reads_stale_errno
           42 (mk_proc world_short_write 0 ENOENT 8 (-1))).
  - vm_compute. discriminate.
  - vm_compute. split; [discriminate | reflexivity].
  - vm_compute. discriminate.
Defined.

(** ** Stage 2 *)

(** X15.  When stage 2 returns to the Go runtime, these are the calls it
    has made, in this order: it has closed the three descriptors of the
    socket pairs that are not its own, named itself, written the
    configured [oom_score_adj] (if any) between the two [prctl] that make
    it dumpable and not dumpable, read SYNC_GRANDCHILD, called [setsid],
    [setuid(0)] and [setgid(0)], called [setgroups(0, NULL)] exactly when
    the container is not rootless and [is_setgroup] is set, waited for
    the byte of the orchestrator and unshared the cgroup namespace
    exactly when the flags hold CLONE_NEWCGROUP, and at the end written
    SYNC_CHILD_READY, closed its own descriptor and freed the payload. *)
Theorem stage_init_calls_when_it_returns :
  forall (f : frame) (st : proc),
    result (stage_init f) st = Ret tt ->
    exists oom,
      Forall (only [KOpen; KWrite; KClose]) oom /\
      map fst (emitted (stage_init f) st)
      = [Close (snd (sync_grandchild_pipe f)); Close (fst (sync_child_pipe f));
         Close (snd (sync_child_pipe f)); PrctlSetName (str "runc:[2:INIT]");
         Prctl PR_SET_DUMPABLE 1]
        ++ map fst oom
        ++ [Prctl PR_SET_DUMPABLE 0; Read (fst (sync_grandchild_pipe f)) 4;
            Setsid; Setuid 0; Setgid 0]
        ++ (if negb (nonzero (is_rootless_euid (config f)))
               && nonzero (is_setgroup (config f))
            then [Setgroups 0] else [])
        ++ (if nonzero (Z.land (cloneflags (config f)) CLONE_NEWCGROUP)
            then [Read (pipenum f) 1; Unshare CLONE_NEWCGROUP] else [])
        ++ [Write (fst (sync_grandchild_pipe f)) (le32 SYNC_CHILD_READY) 4;
            Close (fst (sync_grandchild_pipe f)); Free].
Proof.
  intros f st. unfold stage_init.
  rewrite result_bind, emitted_bind, result_set_syncfd, emitted_set_syncfd.
  set (st0 := after (set_syncfd (fst (sync_grandchild_pipe f))) st).
  assert (H0 : syncfd st0 = fst (sync_grandchild_pipe f)) by reflexivity.
  do 4 rewrite result_bind, emitted_bind, result_sys, emitted_sys.
  set (st4 := after (sys (PrctlSetName (str "runc:[2:INIT]"))) _).
  assert (H4 : syncfd st4 = fst (sync_grandchild_pipe f)) by reflexivity.
  rewrite result_bind, emitted_bind.
  destruct (result (init_oom_score_adj (config f)) st4) as [[] | s] eqn:E5;
    [| discriminate].
  destruct (init_oom_score_adj_returns _ _ E5) as (oom & Hoom & Eoom).
  set (st5 := after (init_oom_score_adj (config f)) st4).
  assert (H5 : syncfd st5 = fst (sync_grandchild_pipe f))
    by (subst st5; rewrite keeps_init_oom_score_adj; exact H4).
  rewrite result_bind, emitted_bind, result_read_sync, emitted_read_sync, H5.
  cbv zeta.
  set (st6 := after read_sync st5).
  assert (H6 : syncfd st6 = fst (sync_grandchild_pipe f))
    by (subst st6; rewrite keeps_read_sync; exact H5).
  destruct (rv _ =? 4); [| rewrite bail_exits; discriminate].
  destruct (negb (_ =? SYNC_GRANDCHILD));
    [rewrite bail_exits; discriminate |].
  rewrite result_bind, emitted_bind.
  destruct (result (init_identity (config f)) st6) as [[] | s] eqn:E7;
    [| discriminate].
  assert (Eid := init_identity_returns _ _ E7).
  set (st7 := after (init_identity (config f)) st6).
  assert (H7 : syncfd st7 = fst (sync_grandchild_pipe f))
    by (subst st7; rewrite keeps_init_identity; exact H6).
  rewrite result_bind, emitted_bind.
  destruct (result (init_cgroupns f) st7) as [[] | s] eqn:E8;
    [| discriminate].
  assert (Ecg := init_cgroupns_returns _ _ E8).
  set (st8 := after (init_cgroupns f) st7).
  assert (H8 : syncfd st8 = fst (sync_grandchild_pipe f))
    by (subst st8; rewrite keeps_init_cgroupns; exact H7).
  unfold write_sync. run_simp. rewrite !H8.
  destruct (negb (rv _ =? 4)); [rewrite bail_exits; discriminate |].
  intros _. exists oom. split; [exact Hoom |].
  unfold nl_free. run_simp.
  rewrite !map_app, Eoom, Eid, Ecg. cbn [map fst].
  destruct (_ && _);
    destruct (nonzero (Z.land (cloneflags (config f)) CLONE_NEWCGROUP));
    repeat rewrite <- app_assoc; reflexivity.
Qed.

Lemma stage_init_calls_when_it_returns_witness :
  let cfg := set_is_setgroup 1 (set_cloneflags CLONE_NEWCGROUP config0) in
  exists oom,
    Forall (only [KOpen; KWrite; KClose]) oom /\
    map fst (emitted (stage_init (frame_of cfg))
                     (start (world_ok SYNC_GRANDCHILD) 8))
    = [Close 7; Close 4; Close 5; PrctlSetName (str "runc:[2:INIT]");
       Prctl PR_SET_DUMPABLE 1]
      ++ map fst oom
      ++ [Prctl PR_SET_DUMPABLE 0; Read 6 4; Setsid; Setuid 0; Setgid 0]
      ++ [Setgroups 0]
      ++ [Read 3 1; Unshare CLONE_NEWCGROUP]
      ++ [Write 6 (le32 SYNC_CHILD_READY) 4; Close 6; Free].
Proof.
  intros cfg.
  apply (stage_init_calls_when_it_returns
           (frame_of cfg) (start (world_ok SYNC_GRANDCHILD) 8)).
  vm_compute. reflexivity.
Defined.

(** ** Stage 1 *)

(** X16.  When stage 1 gets as far as cloning stage 2, it has unshared
    every namespace of the clone flags but the cgroup namespace, in this
    order: the user namespace by itself when CLONE_NEWUSER is set, then
    the mount namespace by itself when CLONE_NEWNS is set, and at the
    end, in one call, the flags that are left, without CLONE_NEWCGROUP.
    The configuration it hands to stage 2 holds the clone flags without
    CLONE_NEWUSER and CLONE_NEWNS. *)
Theorem stage1_unshares_user_mount_rest :
  forall (f f' : frame) (st : proc),
    result (child_setup f) st = Ret f' ->
    let flags := cloneflags (config f) in
    unshared (emitted (child_setup f) st)
    = (if nonzero (Z.land flags CLONE_NEWUSER) then [CLONE_NEWUSER] else [])
      ++ (if nonzero (Z.land flags CLONE_NEWNS) then [CLONE_NEWNS] else [])
      ++ [Z.land
            (Z.land flags (Z.lnot (Z.lor CLONE_NEWUSER CLONE_NEWNS)))
            (Z.lnot CLONE_NEWCGROUP)] /\
    cloneflags (config f')
    = Z.land flags (Z.lnot (Z.lor CLONE_NEWUSER CLONE_NEWNS)).
Proof.
  intros f f' st. unfold child_setup.
  rewrite result_bind, emitted_bind, result_set_syncfd, emitted_set_syncfd.
  set (st0 := after (set_syncfd (fst (sync_child_pipe f))) st).
  do 2 rewrite result_bind, emitted_bind, result_sys, emitted_sys.
  set (st2 := after (sys (PrctlSetName (str "runc:[1:CHILD]"))) _).
  rewrite result_bind, emitted_bind.
  set (join := match namespaces (config f) with
               | Some nslist => join_namespaces nslist
               | None => ret tt
               end).
  assert (Hj : unshared (emitted join st2) = []).
  { apply (unshared_only [KRealloc; KOpen; KSetns; KClose; KFree; KDprintf]);
      [not_in_kinds |]. subst join. emits_auto. }
  destruct (result join st2) as [[] | s]; [| discriminate].
  set (st3 := after join st2).
  rewrite result_bind, emitted_bind.
  destruct (result (child_unshare_first (config f)) st3) as [[c1 nu] | s]
    eqn:Eu; [| discriminate].
  destruct (child_unshare_first_returns _ _ _ Eu) as [Hc1 Hu1].
  cbn [fst] in Hc1.
  set (st4 := after (child_unshare_first (config f)) st3).
  rewrite result_bind, emitted_bind.
  assert (Hr : unshared (emitted (child_rootfs c1 nu) st4) = []).
  { apply (unshared_only [KMount; KPrctl; KWrite; KRead; KSetresuid;
                          KDprintf]); [not_in_kinds |].
    apply emits_child_rootfs. }
  destruct (result (child_rootfs c1 nu) st4) as [c2 | s] eqn:Er;
    [| discriminate].
  assert (Hc2 := returns_child_rootfs c1 nu st4 c2 Er). cbn beta in Hc2.
  rewrite result_bind, emitted_bind, result_sys, emitted_sys.
  destruct (rv _ <? 0); [rewrite bail_exits; discriminate |].
  intros H. injection H as <-. cbv zeta. split.
  - rewrite !unshared_app, Hj, Hu1, Hr, emitted_ret.
    cbn [unshared flat_map fst List.app]. rewrite Hc2, Hc1.
    rewrite <- app_assoc. reflexivity.
  - cbn [with_config config]. rewrite Hc2. exact Hc1.
Qed.

Lemma stage1_unshares_user_mount_rest_witness :
  let f := frame_of (set_cloneflags
                       (Z.lor (Z.lor CLONE_NEWUSER CLONE_NEWNS)
                              (Z.lor CLONE_NEWPID CLONE_NEWCGROUP)) config0) in
  unshared (emitted (child_setup f) (start (world_ok SYNC_USERMAP_ACK) 8))
  = [CLONE_NEWUSER; CLONE_NEWNS; CLONE_NEWPID].
Proof.
  intros f.
  destruct (stage1_unshares_user_mount_rest
              f (with_config
                   (set_cloneflags (Z.lor CLONE_NEWPID CLONE_NEWCGROUP)
                                   config0) f)
              (start (world_ok SYNC_USERMAP_ACK) 8)) as [H _].
  - vm_compute. reflexivity.
  - exact H.
Defined.

(** ** How stage 0 ends *)

(** X17.  Stage 0 never returns to its caller: it always ends in [exit].
    It exits with code 0 only when the last four things it has done are
    these: it has read SYNC_CHILD_READY from stage 1, closed its copy of
    the other end of the second socket pair, written SYNC_GRANDCHILD to
    stage 2 and read SYNC_CHILD_READY from stage 2. *)
Theorem stage_parent_exits_0_after_both_ready :
  forall (fuel : nat) (f : frame) (st : proc),
    (forall a, result (stage_parent fuel f) st <> Ret a) /\
    (result (stage_parent fuel f) st = Stop (Exited 0) ->
     exists pre r1 cl w r2,
       emitted (stage_parent fuel f) st
       = pre ++ [(Read (snd (sync_child_pipe f)) 4, r1);
                 (Close (fst (sync_grandchild_pipe f)), cl);
                 (Write (snd (sync_grandchild_pipe f))
                        (le32 SYNC_GRANDCHILD) 4, w);
                 (Read (snd (sync_grandchild_pipe f)) 4, r2)] /\
       rv r1 = 4 /\ readint32 (rbytes r1) = SYNC_CHILD_READY /\
       rv w = 4 /\
       rv r2 = 4 /\ readint32 (rbytes r2) = SYNC_CHILD_READY).
Proof.
  intros fuel f st. unfold stage_parent.
  rewrite result_bind, emitted_bind, result_sys, emitted_sys.
  set (st1 := after (sys (PrctlSetName (str "runc:[0:PARENT]"))) st).
  rewrite result_bind, emitted_bind, result_clone_parent,
    emitted_clone_parent.
  set (c := oracle st1 (clock st1) (CloneParent JUMP_CHILD (config f))).
  set (st2 := after (clone_parent JUMP_CHILD f) st1).
  destruct (rv c <? 0).
  { rewrite bail_exits. split; [discriminate | discriminate]. }
  rewrite result_bind, emitted_bind, result_set_syncfd, emitted_set_syncfd.
  rewrite result_bind, emitted_bind, result_sys, emitted_sys.
  set (st3 := after (sys (Close (fst (sync_child_pipe f))))
                (after (set_syncfd (snd (sync_child_pipe f))) st2)).
  assert (Hfd : syncfd st3 = snd (sync_child_pipe f)) by reflexivity.
  rewrite result_bind, emitted_bind.
  destruct (result (parent_sync_child fuel f (rv c)) st3) as [c' | s] eqn:El.
  2:{ split; [discriminate |]. intros H. injection H as ->.
      destruct (failed_parent_sync_child fuel f (rv c) st3 _ El).
      reflexivity. }
  destruct (parent_sync_child_returns fuel f (rv c) c' st3 El)
    as (pre & r1 & -> & Hr1 & Hv1).
  rewrite Hfd.
  set (st4 := after (parent_sync_child fuel f (rv c)) st3).
  rewrite result_bind, emitted_bind, result_set_syncfd, emitted_set_syncfd.
  rewrite result_bind, emitted_bind, result_sys, emitted_sys.
  set (st5 := after (sys (Close (fst (sync_grandchild_pipe f))))
                (after (set_syncfd (snd (sync_grandchild_pipe f))) st4)).
  assert (Hg : syncfd st5 = snd (sync_grandchild_pipe f)) by reflexivity.
  rewrite result_bind, emitted_bind.
  destruct (result (parent_sync_grandchild c') st5) as [[] | s] eqn:Eg.
  2:{ split; [discriminate |]. intros H. injection H as ->.
      destruct (failed_parent_sync_grandchild c' st5 _ Eg). reflexivity. }
  destruct (parent_sync_grandchild_returns c' st5 Eg)
    as (w & r2 & -> & Hw & Hr2 & Hv2).
  rewrite Hg, result_exit, emitted_exit.
  split; [discriminate |]. intros _.
  exists ([(PrctlSetName (str "runc:[0:PARENT]"),
            oracle st (clock st) (PrctlSetName (str "runc:[0:PARENT]")));
           (CloneParent JUMP_CHILD (config f), c)]
          ++ [(Close (fst (sync_child_pipe f)),
               oracle (after (set_syncfd (snd (sync_child_pipe f))) st2)
                 (clock (after (set_syncfd (snd (sync_child_pipe f))) st2))
                 (Close (fst (sync_child_pipe f))))] ++ pre).
  exists r1. eexists. exists w, r2.
  split; [| auto].
  cbn [List.app]. rewrite <- ?app_assoc. cbn [List.app].
  reflexivity.
Qed.

Lemma stage_parent_exits_0_after_both_ready_witness :
  exists pre r1 cl w r2,
    emitted (stage_parent 5 (frame_of config_rootless)) (start world_parent 8)
    = pre ++ [(Read 5 4, r1); (Close 6, cl);
              (Write 7 (le32 SYNC_GRANDCHILD) 4, w); (Read 7 4, r2)] /\
    rv r1 = 4 /\ readint32 (rbytes r1) = SYNC_CHILD_READY /\
    rv w = 4 /\
    rv r2 = 4 /\ readint32 (rbytes r2) = SYNC_CHILD_READY.
Proof.
  apply (proj2 (stage_parent_exits_0_after_both_ready
                  5 (frame_of config_rootless) (start world_parent 8))).
  vm_compute. reflexivity.
Defined.

(** ** The entry of the bootstrap *)

(** X18.  When the log pipe is set up and the environment has no
    _LIBCONTAINER_INITPIPE, or an empty one, [nsexec] returns to the Go
    runtime at once: its only calls are the two [getenv]. *)
Theorem nsexec_returns_without_init_pipe :
  forall (fuel : nat) (st : proc),
    let e := oracle st (S (clock st))
               (Getenv (str "_LIBCONTAINER_INITPIPE")) in
    result setup_logpipe st = Ret tt ->
    rv e = 0 \/ is_nul (peek (rbytes e)) = true ->
    result (nsexec fuel) st = Ret tt /\
    map fst (emitted (nsexec fuel) st)
    = [Getenv (str "_LIBCONTAINER_LOGPIPE");
       Getenv (str "_LIBCONTAINER_INITPIPE")].
Proof.
  intros fuel st e Hl He.
  destruct (setup_logpipe_returns st Hl) as (El & Eo & Ec).
  unfold nsexec.
  rewrite result_bind, emitted_bind, Hl, El.
  unfold initpipe, getenv.
  run_simp. rewrite !Eo, !Ec. fold e.
  destruct (Z.eqb_spec (rv e) 0) as [E0 | E0].
  - run_simp. change (-1 =? -1) with true. cbv iota.
    run_simp. split; reflexivity.
  - destruct He as [He | He]; [contradiction |].
    run_simp. rewrite He. run_simp.
    change (-1 =? -1) with true. cbv iota.
    run_simp. split; reflexivity.
Qed.

Lemma nsexec_returns_without_init_pipe_witness :
  result (nsexec 5) (start world_no_init_pipe (-1)) = Ret tt /\
  map fst (emitted (nsexec 5) (start world_no_init_pipe (-1)))
  = [Getenv (str "_LIBCONTAINER_LOGPIPE");
     Getenv (str "_LIBCONTAINER_INITPIPE")].
Proof.
  apply (nsexec_returns_without_init_pipe 5 (start world_no_init_pipe (-1))).
  - reflexivity.
  - left. reflexivity.
Defined.

(** ** Joining namespaces *)

(** X19.  When [join_namespaces] returns, whatever the list is, it has
    leaked no descriptor: its calls are those of the first loop, which
    are [realloc] and [open] only, then for every descriptor an [open]
    has answered, in the order of the [open]s, a [setns] on it followed
    at once by its [close], and at the end [free]. *)
Theorem join_namespaces_closes_what_it_opens :
  forall (nslist : bytes) (st : proc),
    result (join_namespaces nslist) st = Ret tt ->
    exists opens nss,
      Forall (only [KRealloc; KOpen]) opens /\
      opened opens = map ns_fd nss /\
      map fst (emitted (join_namespaces nslist) st)
      = map fst opens ++ setns_calls nss ++ [Free].
Proof.
  intros nslist st. unfold join_namespaces.
  destruct (strtok_r nslist (str ",")) as [[namespace |] saveptr];
    [| rewrite bail_exits; discriminate].
  destruct (_ || _); [rewrite bail_exits; discriminate |].
  rewrite result_bind, emitted_bind.
  destruct (result (open_namespaces _ namespace saveptr []) st)
    as [nss | s] eqn:Eo; [| discriminate].
  destruct (open_namespaces_returns _ _ _ _ _ _ Eo) as (new & -> & Hfd & Hk).
  cbn [List.app] in *.
  rewrite result_bind, emitted_bind.
  destruct (result (setns_namespaces new) _) as [[] | s] eqn:Es;
    [| discriminate].
  intros _.
  exists (emitted (open_namespaces (S (length nslist)) namespace saveptr [])
            st), new.
  split; [exact Hk |]. split; [now rewrite Hfd |].
  rewrite !map_app, (setns_namespaces_returns _ _ Es).
  run_simp. reflexivity.
Qed.

Lemma join_namespaces_closes_what_it_opens_witness :
  exists opens nss,
    Forall (only [KRealloc; KOpen]) opens /\
    opened opens = map ns_fd nss /\
    map fst (emitted (join_namespaces (ns_list three_namespaces ++ [NUL]))
                     (start world_counting 8))
    = map fst opens ++ setns_calls nss ++ [Free].
Proof.
  apply (join_namespaces_closes_what_it_opens
           (ns_list three_namespaces ++ [NUL]) (start world_counting 8)).
  vm_compute. reflexivity.
Defined.

(** ** The shiftfs mounts *)

(** X20.  With a list of mounts and a rootfs in the configuration,
    [mount_shiftfs] always returns, and it returns 0 or -1.  Every call
    it makes is [mount(p, p, "shiftfs", 0, "")], where [p] is "." or is
    not the rootfs: the rootfs is mounted through ".", never by its path.
    When it returns 0 every mount has succeeded; when it returns -1 the
    last mount has failed, those before it have succeeded, and the rest
    of the list is left unmounted. *)
Theorem mount_shiftfs_stops_at_first_failure :
  forall (config : nlconfig_t) (mntlist root : bytes) (st : proc),
    shiftfs_mounts config = Some mntlist ->
    rootfs config = Some root ->
    exists v config',
      result (mount_shiftfs config) st = Ret (v, config') /\
      forallb (shiftfs_mount root) (emitted (mount_shiftfs config) st)
      = true /\
      (v = 0 /\
       forallb succeeded (emitted (mount_shiftfs config) st) = true \/
       v = -1 /\ stopped_at_failure (emitted (mount_shiftfs config) st)).
Proof.
  intros config mntlist root st Hm Hr. unfold mount_shiftfs.
  rewrite Hm, Hr.
  set (config' := set_shiftfs_mounts _ config).
  destruct (strtok_r mntlist (str ",")) as [[mntpath |] saveptr] eqn:Et.
  - destruct (_ || _).
    + exists 0, config'. rewrite result_ret, emitted_ret.
      split; [reflexivity |]. split; [reflexivity |]. now left.
    + apply strtok_r_advances in Et.
      destruct (shiftfs_loop_stops (S (length mntlist)) root mntpath saveptr
                  st) as (v & Hv & Hk & Hs); [lia |].
      exists v, config'.
      rewrite result_bind, emitted_bind, Hv, result_ret, emitted_ret,
        app_nil_r.
      split; [reflexivity |]. split; [exact Hk | exact Hs].
  - exists 0, config'. rewrite result_ret, emitted_ret.
    split; [reflexivity |]. split; [reflexivity |]. now left.
Qed.

Lemma mount_shiftfs_stops_at_first_failure_witness :
  exists v config',
    result (mount_shiftfs config_shiftfs) (start world_mount_b_fails 8)
    = Ret (v, config') /\
    forallb (shiftfs_mount (str "/r" ++ [NUL]))
      (emitted (mount_shiftfs config_shiftfs) (start world_mount_b_fails 8))
    = true /\
    (v = 0 /\
     forallb succeeded
       (emitted (mount_shiftfs config_shiftfs) (start world_mount_b_fails 8))
     = true \/
     v = -1 /\
     stopped_at_failure
       (emitted (mount_shiftfs config_shiftfs)
                (start world_mount_b_fails 8))).
Proof.
  apply (mount_shiftfs_stops_at_first_failure config_shiftfs
           (str "/a,/r,/b,/c" ++ [NUL]) (str "/r" ++ [NUL])
           (start world_mount_b_fails 8)); reflexivity.
Defined.

(** In that run the calls are the mounts on "/a", on "." for the rootfs
    and on "/b". *)
Example mount_shiftfs_run :
  map fst (emitted (mount_shiftfs config_shiftfs)
                   (start world_mount_b_fails 8))
  = [Mount (str "/a") (Some (str "/a")) (str "shiftfs") 0;
     Mount (str ".") (Some (str ".")) (str "shiftfs") 0;
     Mount (str "/b") (Some (str "/b")) (str "shiftfs") 0].
Proof. vm_compute. reflexivity. Qed.

(** ** The report of the pids *)

(** X21.  Every report of pids that stage 0 makes goes to the init pipe,
    and comes right after a complete write of SYNC_RECVPID_ACK to stage 1,
    itself right after a complete 4-byte read from stage 1: the "pid" of
    the report is the [pid_t] that was read, and its "pid_first" is the
    pid [clone_parent] has returned or, from the second report on, the
    "pid" of the report before. *)
Theorem stage_parent_reports_acked_pid :
  forall (fuel : nat) (f : frame) (st : proc) (pre post : list event)
         (fd pid pid_first : Z) (r : response),
    emitted (stage_parent fuel f) st
    = pre ++ (DprintfPid fd pid pid_first, r) :: post ->
    fd = pipenum f /\
    (forall child0, pid_first = child_after pre child0) /\
    exists pre' rd w,
      pre = pre' ++ [(Read (snd (sync_child_pipe f)) 4, rd);
                     (Write (snd (sync_child_pipe f))
                            (le32 SYNC_RECVPID_ACK) 4, w)] /\
      rv rd = 4 /\ rv w = 4 /\
      pid = sint32 (readint32 (rbytes rd)).
Proof.
  intros fuel f st pre post fd pid pid_first r E.
  assert (H : forall child0,
             reports_acked f (snd (sync_child_pipe f)) child0
                           (emitted (stage_parent fuel f) st)).
  { intros child0. unfold stage_parent.
    rewrite emitted_bind, emitted_sys. apply reports_acked_app.
    { apply (reports_acked_quiet _ _ _ [KPrctlSetName]); [not_in_kinds |].
      repeat constructor. }
    cbn [child_after].
    set (st1 := after (sys (PrctlSetName (str "runc:[0:PARENT]"))) st).
    rewrite emitted_bind, result_clone_parent, emitted_clone_parent.
    set (c := oracle st1 (clock st1) (CloneParent JUMP_CHILD (config f))).
    set (st2 := after (clone_parent JUMP_CHILD f) st1).
    cbn [List.app].
    apply (reports_acked_app _ _ _ [_]).
    { apply (reports_acked_quiet _ _ _ [KCloneParent]); [not_in_kinds |].
      repeat constructor. }
    cbn [child_after].
    destruct (rv c <? 0).
    { apply (reports_acked_quiet _ _ _ [KDprintf]); [not_in_kinds |].
      apply emits_emitted. emits_auto. }
    rewrite emitted_bind, result_set_syncfd, emitted_set_syncfd.
    cbn [List.app].
    set (st3 := after (set_syncfd (snd (sync_child_pipe f))) st2).
    rewrite emitted_bind, result_sys, emitted_sys.
    apply (reports_acked_app _ _ _ [_]).
    { apply (reports_acked_quiet _ _ _ [KClose]); [not_in_kinds |].
      repeat constructor. }
    cbn [child_after].
    set (st4 := after (sys (Close (fst (sync_child_pipe f)))) st3).
    rewrite emitted_bind. apply reports_acked_app.
    { change (snd (sync_child_pipe f)) with (syncfd st4) at 1.
      apply parent_sync_child_reports. }
    apply (reports_acked_quiet _ _ _ [KClose; KRead; KWrite; KKill;
                                      KDprintf]); [not_in_kinds |].
    destruct (result (parent_sync_child fuel f (rv c)) st4) as [ch | s];
      [| constructor].
    apply emits_emitted. emits_auto. }
  destruct (H 0 _ _ _ _ _ _ E) as (Hfd & _ & Hex).
  split; [exact Hfd |]. split; [| exact Hex].
  intros child0. exact (proj1 (proj2 (H child0 _ _ _ _ _ _ E))).
Qed.

Lemma stage_parent_reports_acked_pid_witness :
  3 = pipenum (frame_of config_rootless) /\
  (forall child0, 100 = child_after (firstn 17 trace_parent) child0) /\
  exists pre' rd w,
    firstn 17 trace_parent
    = pre' ++ [(Read 5 4, rd); (Write 5 (le32 SYNC_RECVPID_ACK) 4, w)] /\
    rv rd = 4 /\ rv w = 4 /\
    101 = sint32 (readint32 (rbytes rd)).
Proof.
  apply (stage_parent_reports_acked_pid
           5 (frame_of config_rootless) (start world_parent 8)
           (firstn 17 trace_parent) (skipn 18 trace_parent) 3 101 100
           (answer 0)).
  vm_compute. reflexivity.
Defined.

(** X22.  The process that enters [nsexec] gets back from it only when
    [initpipe] has given -1, and then it has done nothing: whenever
    [nsexec] returns, its calls are the two [getenv] and no other.  With
    an init pipe the process never comes back to the Go runtime: it ends
    in stage 0. *)
Theorem nsexec_returns_only_without_init_pipe :
  forall (fuel : nat) (st : proc),
    result (nsexec fuel) st = Ret tt ->
    result (setup_logpipe ;; initpipe) st = Ret (-1) /\
    map fst (emitted (nsexec fuel) st)
    = [Getenv (str "_LIBCONTAINER_LOGPIPE");
       Getenv (str "_LIBCONTAINER_INITPIPE")].
Proof.
  intros fuel st. unfold nsexec.
  rewrite !result_bind, !emitted_bind.
  destruct (result setup_logpipe st) as [[] | s] eqn:El; [| discriminate].
  destruct (setup_logpipe_returns st El) as (-> & _ & _).
  set (st1 := after setup_logpipe st).
  destruct (result initpipe st1) as [pn | s] eqn:Ei; [| discriminate].
  rewrite (initpipe_returns st1 pn Ei).
  destruct (pn =? -1) eqn:Ep.
  - apply Z.eqb_eq in Ep. subst pn. rewrite emitted_ret. intros _.
    split; reflexivity.
  - intros H. exfalso. revert H.
    apply bind_never_returns. intros r st2.
    destruct (rv r <? 0); [rewrite bail_exits; discriminate |].
    apply bind_never_returns. intros _ st3.
    apply bind_never_returns. intros config st4.
    unfold nsexec_parsed.
    apply bind_never_returns. intros f st5.
    apply stage_parent_never_returns.
Qed.

Lemma nsexec_returns_only_without_init_pipe_witness :
  result (setup_logpipe ;; initpipe) (start world_init_pipe_minus_1 (-1))
  = Ret (-1) /\
  map fst (emitted (nsexec 5) (start world_init_pipe_minus_1 (-1)))
  = [Getenv (str "_LIBCONTAINER_LOGPIPE");
     Getenv (str "_LIBCONTAINER_INITPIPE")].
Proof.
  apply (nsexec_returns_only_without_init_pipe
           5 (start world_init_pipe_minus_1 (-1))).
  vm_compute. reflexivity.
Defined.

(** ** The end of stage 1 *)

(** X23.  Stage 1 leaves no stage 2 behind when it fails.  Its only
    [clone] is that of stage 2; once it has succeeded, stage 1 either
    completes the hand-over (SYNC_RECVPID_PLS, the pid [clone] has
    returned, the read of SYNC_RECVPID_ACK, SYNC_CHILD_READY, all on its
    end of the first socket pair) and exits with 0, or sends SIGKILL to
    stage 2, writes at most the fatal line and exits with 1. *)
Theorem stage_child_hands_over_or_kills :
  forall (f : frame) (st : proc) (pre post : list event) (jmpval : Z)
         (cfg : nlconfig_t) (c : response),
    emitted (stage_child f) st
    = pre ++ (CloneParent jmpval cfg, c) :: post ->
    0 <= rv c ->
    jmpval = JUMP_INIT /\
    (result (stage_child f) st = Stop (Exited 0) /\
     handed_over (fst (sync_child_pipe f)) (rv c) post \/
     result (stage_child f) st = Stop (Exited 1) /\
     killed_at_end (rv c) post).
Proof.
  intros f st pre post jmpval cfg c. unfold stage_child.
  rewrite result_bind, emitted_bind.
  pose proof (emits_emitted _ _ st (emits_child_setup f)) as Hs.
  pose proof (syncfd_child_setup f st) as Hfd.
  set (st1 := after (child_setup f) st) in *.
  intros E Hc. apply app_eq_split in E.
  destruct E as [(post' & E & _) | (pre' & -> & E)].
  { exfalso. rewrite E in Hs. apply Forall_app in Hs. destruct Hs as [_ Hs].
    inversion Hs as [| ? ? Hk _]. revert Hk. not_in_kinds. }
  destruct (result (child_setup f) st) as [f' |];
    [| destruct pre'; discriminate E].
  destruct (child_clone_init_run f' st1) as (post0 & E0 & Hn & H).
  rewrite E0 in E. destruct pre' as [| e pre'].
  2:{ exfalso. injection E as _ E. subst post0.
      apply Forall_app in Hn. destruct Hn as [_ Hn].
      inversion Hn as [| ? ? Hk _]. apply Hk. reflexivity. }
  injection E as <- _ <- <-. split; [reflexivity |].
  rewrite <- Hfd. exact (H Hc).
Qed.

Lemma stage_child_hands_over_or_kills_witness :
  JUMP_INIT = JUMP_INIT /\
  (result (stage_child (frame_of config_rootless)) (start world_no_ack 8)
   = Stop (Exited 0) /\
   handed_over (fst (sync_child_pipe (frame_of config_rootless))) 101
               (skipn 8 trace_no_ack) \/
   result (stage_child (frame_of config_rootless)) (start world_no_ack 8)
   = Stop (Exited 1) /\
   killed_at_end 101 (skipn 8 trace_no_ack)).
Proof.
  apply (stage_child_hands_over_or_kills
           (frame_of config_rootless) (start world_no_ack 8)
           (firstn 7 trace_no_ack) (skipn 8 trace_no_ack) JUMP_INIT
           (set_cloneflags 0 config_rootless) (answer 101)).
  - vm_compute. reflexivity.
  - vm_compute. discriminate.
Defined.

(** In that run stage 1 kills stage 2 after the read that fails. *)
Example stage_child_kills_without_ack :
  result (stage_child (frame_of config_rootless)) (start world_no_ack 8)
  = Stop (Exited 1) /\
  map fst (skipn 8 trace_no_ack)
  = [Write 4 (le32 SYNC_RECVPID_PLS) 4; Write 4 (le32 101) 4; Read 4 4;
     Kill 101 SIGKILL;
     Dprintf 8 FATAL (str "nsexec") 1106
       (str "nsenter: failed to sync with parent: read(SYNC_RECVPID_ACK)")
       (Some EINTR)].
Proof. split; vm_compute; reflexivity. Qed.
